(** * Slapjack server: card rules, game engine and room roster

    A shallow embedding of the Go game core (package [game]: cards, deck,
    slap rules, engine; package [room]: the roster of a room) together with
    the properties its specification states about it.

    Go slices are modelled as they are at run time: a header (backing array,
    offset, length, capacity) over a store of backing arrays, because the
    engine re-slices hands and appends to those re-slices. *)

From Stdlib Require Import ZArith Lia List Permutation.
From stdpp Require Import base decidable option list gmap strings fin_maps.

Local Open Scope string_scope.
Local Open Scope list_scope.
Local Open Scope nat_scope.

(** ** Outcome of a Go call: a normal return or a run-time panic; [Diverges]
    stands for a loop that never exits. *)

Inductive outcome (A : Type) : Type :=
| Ok (a : A)
| Panic (msg : string)
| Diverges.
Arguments Ok {A} a.
Arguments Panic {A} msg.
Arguments Diverges {A}.

Definition obind {A B} (m : outcome A) (k : A -> outcome B) : outcome B :=
  match m with
  | Ok a => k a
  | Panic s => Panic s
  | Diverges => Diverges
  end.

Notation "'let*' x ':=' m 'in' k" := (obind m (fun x => k))
  (at level 10, x name, m at level 100, k at level 200).

(** ** Go's [int] (64 bits): addition wraps around. *)

Definition int_min : Z := (- 2 ^ 63)%Z.
Definition int_max : Z := (2 ^ 63 - 1)%Z.
Definition int_wrap (z : Z) : Z := ((z + 2 ^ 63) mod 2 ^ 64 - 2 ^ 63)%Z.
Definition int_add (a b : Z) : Z := int_wrap (a + b).
Definition int_mul (a b : Z) : Z := int_wrap (a * b).

(** ** card.go *)

Module Cards.

Record Card : Type := mkCard { Suit : string; Rank : string }.

#[global] Instance Card_eq_dec : EqDecision Card.
Proof. solve_decision. Defined.

(** The zero value of [Card], which fills the unused part of a fresh array. *)
Definition zeroCard : Card := mkCard "" "".

Definition IsJack (c : Card) : bool := String.eqb (Rank c) "J".

Definition suits : list string := ["hearts"; "diamonds"; "clubs"; "spades"].
Definition ranks : list string :=
  ["A"; "2"; "3"; "4"; "5"; "6"; "7"; "8"; "9"; "10"; "J"; "Q"; "K"].

(** [NewDeck]: for each suit, for each rank, append the card. *)
Definition NewDeck : list Card :=
  flat_map (fun suit => map (fun rank => mkCard suit rank) ranks) suits.

End Cards.
Export Cards.

(** ** Slices over a store of backing arrays *)

Module Slices.

(** A slice header. [s_arr] names the backing array in the store, [s_off] is
    where the slice starts in it. *)
Record slice : Type := Slice { s_arr : nat; s_off : nat; s_len : nat; s_cap : nat }.

#[global] Instance slice_eq_dec : EqDecision slice.
Proof. solve_decision. Defined.

(** The nil slice: what a map lookup of a missing key yields. *)
Definition nil_slice : slice := Slice 0 0 0 0.

Abbreviation store := (list (list Card)).

Definition arr_of (h : store) (a : nat) : list Card := default [] (h !! a).

(** The elements a slice shows. *)
Definition view (h : store) (s : slice) : list Card :=
  take (s_len s) (drop (s_off s) (arr_of h (s_arr s))).

(** [s[n:]] and [s[:n]] (the callers check the bounds). *)
Definition slice_from (s : slice) (n : nat) : slice :=
  Slice (s_arr s) (s_off s + n) (s_len s - n) (s_cap s - n).
Definition slice_to (s : slice) (n : nat) : slice :=
  Slice (s_arr s) (s_off s) n (s_cap s).

(** [make([]Card, 0, c)]: a fresh zeroed array. *)
Definition make (h : store) (c : nat) : store * slice :=
  (h ++ [replicate c zeroCard], Slice (length h) 0 0 c).

Definition write_at (i : nat) (xs a : list Card) : list Card :=
  take i a ++ xs ++ drop (i + length xs) a.

(** [append(s, xs...)]. When the capacity suffices the elements are written
    into the backing array of [s], after its last element; otherwise a new
    array is allocated. How much larger than needed the new array is, is
    the run time's choice: [growcap oldcap needed]. *)
Definition append (growcap : nat -> nat -> nat)
    (h : store) (s : slice) (xs : list Card) : store * slice :=
  let n := s_len s + length xs in
  if n <=? s_cap s then
    (<[s_arr s := write_at (s_off s + s_len s) xs (arr_of h (s_arr s))]> h,
     Slice (s_arr s) (s_off s) n (s_cap s))
  else
    let c := Nat.max n (growcap (s_cap s) n) in
    (h ++ [view h s ++ xs ++ replicate (c - n) zeroCard],
     Slice (length h) 0 n c).

(** A header is well formed in a store when its capacity lies inside its
    backing array. *)
Definition slice_ok (h : store) (s : slice) : Prop :=
  s_len s <= s_cap s /\ s_off s + s_cap s <= length (arr_of h (s_arr s)).

#[global] Instance slice_ok_dec h s : Decision (slice_ok h s).
Proof. unfold slice_ok. apply _. Defined.

End Slices.
Export Slices.

(** ** rules.go *)

Module SlapRules.

Inductive SlapReason : Type :=
| SlapReasonJack | SlapReasonDoubles | SlapReasonSandwich | SlapReasonInvalid.

#[global] Instance SlapReason_eq_dec : EqDecision SlapReason.
Proof. solve_decision. Defined.

Definition reason_string (r : SlapReason) : string :=
  match r with
  | SlapReasonJack => "jack"
  | SlapReasonDoubles => "doubles"
  | SlapReasonSandwich => "sandwich"
  | SlapReasonInvalid => "invalid"
  end.

Record Rules : Type := mkRules { EnableDoubles : bool; EnableSandwich : bool }.

Definition NewRules (enableDoubles enableSandwich : bool) : Rules :=
  mkRules enableDoubles enableSandwich.

(** [pile[i]]; every use below is guarded by a test on [len(pile)]. *)
Definition at_index (pile : list Card) (i : nat) : Card := nth i pile zeroCard.

Definition CheckSlap (r : Rules) (pile : list Card) : SlapReason :=
  let n := length pile in
  if n =? 0 then SlapReasonInvalid
  else if IsJack (at_index pile (n - 1)) then SlapReasonJack
  else if EnableDoubles r && (2 <=? n)
          && String.eqb (Rank (at_index pile (n - 1))) (Rank (at_index pile (n - 2)))
       then SlapReasonDoubles
  else if EnableSandwich r && (3 <=? n)
          && String.eqb (Rank (at_index pile (n - 1))) (Rank (at_index pile (n - 3)))
       then SlapReasonSandwich
  else SlapReasonInvalid.

Definition IsValidSlap (r : Rules) (pile : list Card) : bool :=
  negb (bool_decide (CheckSlap r pile = SlapReasonInvalid)).

(** The slap conditions as the specification words them, reading the pile
    from its top: first match wins. *)
Definition slap_conditions (r : Rules) (pile : list Card) : SlapReason :=
  match rev pile with
  | [] => SlapReasonInvalid
  | top :: below =>
      if String.eqb (Rank top) "J" then SlapReasonJack
      else
        match below with
        | second :: _ =>
            if EnableDoubles r && String.eqb (Rank top) (Rank second)
            then SlapReasonDoubles
            else
              match below with
              | _ :: third :: _ =>
                  if EnableSandwich r && String.eqb (Rank top) (Rank third)
                  then SlapReasonSandwich else SlapReasonInvalid
              | _ => SlapReasonInvalid
              end
        | [] => SlapReasonInvalid
        end
  end.

End SlapRules.
Export SlapRules.

(** ** protocol/messages.go (the payloads the engine builds) *)

Module Protocol.

Record SlapResultPayload : Type := mkSlapResult {
  PlayerID : string;
  Success : bool;
  Reason : string;
  CardsWon : Z;
  BurnPenalty : Z }.

Inductive Message : Type :=
| CardPlayed (playerID : string) (card : Card) (pileCount : nat)
| TurnChanged (currentPlayerID : string).

End Protocol.

(** ** deck.go and game.go *)

Module Engine.

(** [Deck.Deal]: [numPlayers] hands of capacity [52/numPlayers+1], then card
    [i] is appended to hand [i % numPlayers]. *)
Fixpoint make_hands (k c : nat) (h : store) : store * list slice :=
  match k with
  | 0 => (h, [])
  | S k' =>
      let r := make h c in
      let rs := make_hands k' c (fst r) in
      (fst rs, snd r :: snd rs)
  end.

Fixpoint deal_loop (growcap : nat -> nat -> nat) (numPlayers : nat)
    (cards : list Card) (i : nat) (h : store) (hands : list slice)
  : outcome (store * list slice) :=
  match cards with
  | [] => Ok (h, hands)
  | card :: rest =>
      if numPlayers =? 0 then Panic "integer divide by zero"
      else
        let playerIdx := i mod numPlayers in
        match hands !! playerIdx with
        | None => Panic "index out of range"
        | Some s =>
            let r := append growcap h s [card] in
            deal_loop growcap numPlayers rest (S i) (fst r) (<[playerIdx := snd r]> hands)
        end
  end.

Definition Deal (growcap : nat -> nat -> nat) (cards : list Card) (numPlayers : nat)
  : outcome (store * list slice) :=
  let r := make_hands numPlayers (52 / numPlayers + 1) [] in
  deal_loop growcap numPlayers cards 0 (fst r) (snd r).

Record SlapAttempt : Type :=
  mkSlapAttempt { PlayerID : string; ServerTimestamp : Z; ClientTimestamp : Z }.

Record GameStats : Type := mkGameStats {
  TotalSlaps : Z;
  SuccessfulSlaps : gmap string Z;
  CardsBurned : gmap string Z }.

(** The game state. [Mem] is the store of the backing arrays the hands and
    the pile point into; the mutexes, the timer channel and [StartTime] are
    left out. Times are nanoseconds of the monotonic clock. *)
Record Game : Type := mkGame {
  Mem : store;
  PlayerHands : gmap string slice;
  Pile : slice;
  TurnOrder : list string;
  CurrentTurnIdx : nat;
  GameRules : Rules;
  BurnPenalty : Z;
  SlapCooldownMs : Z;
  TurnTimeoutMs : Z;
  EnableSlapIn : bool;
  MaxSlapIns : Z;
  SlapInCounts : gmap string Z;
  LastSlapTime : gmap string Z;
  PendingSlaps : list SlapAttempt;
  SlapWindowOpen : bool;
  Stats : GameStats }.

Definition set_Mem (v : store) (g : Game) : Game :=
  mkGame v (PlayerHands g) (Pile g) (TurnOrder g) (CurrentTurnIdx g) (GameRules g)
    (BurnPenalty g) (SlapCooldownMs g) (TurnTimeoutMs g) (EnableSlapIn g) (MaxSlapIns g)
    (SlapInCounts g) (LastSlapTime g) (PendingSlaps g) (SlapWindowOpen g) (Stats g).
Definition set_PlayerHands (v : gmap string slice) (g : Game) : Game :=
  mkGame (Mem g) v (Pile g) (TurnOrder g) (CurrentTurnIdx g) (GameRules g)
    (BurnPenalty g) (SlapCooldownMs g) (TurnTimeoutMs g) (EnableSlapIn g) (MaxSlapIns g)
    (SlapInCounts g) (LastSlapTime g) (PendingSlaps g) (SlapWindowOpen g) (Stats g).
Definition set_Pile (v : slice) (g : Game) : Game :=
  mkGame (Mem g) (PlayerHands g) v (TurnOrder g) (CurrentTurnIdx g) (GameRules g)
    (BurnPenalty g) (SlapCooldownMs g) (TurnTimeoutMs g) (EnableSlapIn g) (MaxSlapIns g)
    (SlapInCounts g) (LastSlapTime g) (PendingSlaps g) (SlapWindowOpen g) (Stats g).
Definition set_CurrentTurnIdx (v : nat) (g : Game) : Game :=
  mkGame (Mem g) (PlayerHands g) (Pile g) (TurnOrder g) v (GameRules g)
    (BurnPenalty g) (SlapCooldownMs g) (TurnTimeoutMs g) (EnableSlapIn g) (MaxSlapIns g)
    (SlapInCounts g) (LastSlapTime g) (PendingSlaps g) (SlapWindowOpen g) (Stats g).
Definition set_SlapInCounts (v : gmap string Z) (g : Game) : Game :=
  mkGame (Mem g) (PlayerHands g) (Pile g) (TurnOrder g) (CurrentTurnIdx g) (GameRules g)
    (BurnPenalty g) (SlapCooldownMs g) (TurnTimeoutMs g) (EnableSlapIn g) (MaxSlapIns g)
    v (LastSlapTime g) (PendingSlaps g) (SlapWindowOpen g) (Stats g).
Definition set_LastSlapTime (v : gmap string Z) (g : Game) : Game :=
  mkGame (Mem g) (PlayerHands g) (Pile g) (TurnOrder g) (CurrentTurnIdx g) (GameRules g)
    (BurnPenalty g) (SlapCooldownMs g) (TurnTimeoutMs g) (EnableSlapIn g) (MaxSlapIns g)
    (SlapInCounts g) v (PendingSlaps g) (SlapWindowOpen g) (Stats g).
Definition set_PendingSlaps (v : list SlapAttempt) (g : Game) : Game :=
  mkGame (Mem g) (PlayerHands g) (Pile g) (TurnOrder g) (CurrentTurnIdx g) (GameRules g)
    (BurnPenalty g) (SlapCooldownMs g) (TurnTimeoutMs g) (EnableSlapIn g) (MaxSlapIns g)
    (SlapInCounts g) (LastSlapTime g) v (SlapWindowOpen g) (Stats g).
Definition set_SlapWindowOpen (v : bool) (g : Game) : Game :=
  mkGame (Mem g) (PlayerHands g) (Pile g) (TurnOrder g) (CurrentTurnIdx g) (GameRules g)
    (BurnPenalty g) (SlapCooldownMs g) (TurnTimeoutMs g) (EnableSlapIn g) (MaxSlapIns g)
    (SlapInCounts g) (LastSlapTime g) (PendingSlaps g) v (Stats g).
Definition set_Stats (v : GameStats) (g : Game) : Game :=
  mkGame (Mem g) (PlayerHands g) (Pile g) (TurnOrder g) (CurrentTurnIdx g) (GameRules g)
    (BurnPenalty g) (SlapCooldownMs g) (TurnTimeoutMs g) (EnableSlapIn g) (MaxSlapIns g)
    (SlapInCounts g) (LastSlapTime g) (PendingSlaps g) (SlapWindowOpen g) v.

(** [m[k]] on a Go map: the zero value when the key is missing. *)
Definition hand_of (g : Game) (playerID : string) : slice :=
  default nil_slice (PlayerHands g !! playerID).
Definition count_of (m : gmap string Z) (playerID : string) : Z :=
  default 0%Z (m !! playerID).

(** What the hand of a player and the pile show. *)
Definition hand_cards (g : Game) (playerID : string) : list Card :=
  view (Mem g) (hand_of g playerID).
Definition pile_cards (g : Game) : list Card := view (Mem g) (Pile g).

(** [s[i]], for [i < len(s)]. *)
Definition read (h : store) (s : slice) (i : nat) : Card :=
  nth (s_off s + i) (arr_of h (s_arr s)) zeroCard.

(** [NewGame]. [deck] is the order of the 52 cards after [deck.Shuffle()]. *)
Definition NewGame (growcap : nat -> nat -> nat) (deck : list Card) (playerIDs : list string)
    (enableDoubles enableSandwich : bool) (burnPenalty slapCooldownMs turnTimeoutMs : Z)
    (enableSlapIn : bool) (maxSlapIns : Z) : outcome Game :=
  let* dealt := Deal growcap deck (length playerIDs) in
  let h := fst dealt in
  let hands := snd dealt in
  let playerHands :=
    fold_left (fun m '(id, s) => <[id := s]> m) (zip playerIDs hands) (∅ : gmap string slice) in
  let slapInCounts :=
    fold_left (fun m id => <[id := 0%Z]> m) playerIDs (∅ : gmap string Z) in
  let r := make h 52 in
  Ok {| Mem := fst r;
        PlayerHands := playerHands;
        Pile := snd r;
        TurnOrder := playerIDs;
        CurrentTurnIdx := 0;
        GameRules := NewRules enableDoubles enableSandwich;
        BurnPenalty := burnPenalty;
        SlapCooldownMs := slapCooldownMs;
        TurnTimeoutMs := turnTimeoutMs;
        EnableSlapIn := enableSlapIn;
        MaxSlapIns := maxSlapIns;
        SlapInCounts := slapInCounts;
        LastSlapTime := ∅;
        PendingSlaps := [];
        SlapWindowOpen := false;
        Stats := mkGameStats 0 ∅ ∅ |}.

(** [advanceTurn]. The loop is run with as many iterations as there are
    seats: it visits a different seat each time, so when it has not
    returned by then it never does. *)
Fixpoint advance_loop (fuel startIdx : nat) (g : Game) : outcome Game :=
  match fuel with
  | 0 => Diverges
  | S fuel' =>
      let n := length (TurnOrder g) in
      if n =? 0 then Panic "integer divide by zero"
      else
        let g' := set_CurrentTurnIdx ((CurrentTurnIdx g + 1) mod n) g in
        match TurnOrder g' !! CurrentTurnIdx g' with
        | None => Panic "index out of range"
        | Some playerID =>
            if 0 <? s_len (hand_of g' playerID) then Ok g'
            else if CurrentTurnIdx g' =? startIdx then Ok g'
            else advance_loop fuel' startIdx g'
        end
  end.

Definition advanceTurn (g : Game) : outcome Game :=
  advance_loop (length (TurnOrder g)) (CurrentTurnIdx g) g.

Inductive play_result : Type :=
| Played (card : Card)
| PlayError (msg : string).

(** The part [PlayCard] and the turn timer share: take the front card of the
    hand and put it on the pile. *)
Definition play_front (growcap : nat -> nat -> nat) (playerID : string) (hand : slice)
    (g : Game) : Card * Game :=
  let card := read (Mem g) hand 0 in
  let g := set_PlayerHands (<[playerID := slice_from hand 1]> (PlayerHands g)) g in
  let r := append growcap (Mem g) (Pile g) [card] in
  (card, set_Pile (snd r) (set_Mem (fst r) g)).

(** [PlayCard]. The non-blocking send on the timer channel that cancels a
    running turn timer changes no field of the game and is left out. *)
Definition PlayCard (growcap : nat -> nat -> nat) (playerID : string) (g : Game)
  : outcome (play_result * Game) :=
  match TurnOrder g !! CurrentTurnIdx g with
  | None => Panic "index out of range"
  | Some current =>
      if negb (String.eqb current playerID) then Ok (PlayError "not your turn", g)
      else
        let hand := hand_of g playerID in
        if s_len hand =? 0 then Ok (PlayError "no cards to play", g)
        else
          let played := play_front growcap playerID hand g in
          let card := fst played in
          let g := set_SlapWindowOpen true (snd played) in
          let g := set_PendingSlaps [] g in
          let* g := advanceTurn g in
          Ok (Played card, g)
  end.

Definition GetCurrentPlayer (g : Game) : outcome string :=
  match TurnOrder g !! CurrentTurnIdx g with
  | None => Panic "index out of range"
  | Some id => Ok id
  end.

(** [time.Since(t)] at clock reading [now]: the difference, saturated to the
    range of a [Duration]. *)
Definition Since (now t : Z) : Z := Z.max int_min (Z.min int_max (now - t)).

(** [time.Duration(ms) * time.Millisecond]. *)
Definition cooldown_duration (g : Game) : Z := int_mul (SlapCooldownMs g) 1000000.

(** The cooldown test of [ProcessSlap]: the player has a recorded slap time
    and less than the cooldown has elapsed since. *)
Definition in_cooldown (g : Game) (playerID : string) (now : Z) : bool :=
  match LastSlapTime g !! playerID with
  | Some lastSlap => (Since now lastSlap <? cooldown_duration g)%Z
  | None => false
  end.

(** The three assignments of [applyBurnPenalty]:
    [burnedCards := hand[:burnCount]],
    [g.PlayerHands[playerID] = hand[burnCount:]] and
    [g.Pile = append(burnedCards, g.Pile...)]. *)
Definition burn_state (growcap : nat -> nat -> nat) (playerID : string) (burnCount : nat)
    (g : Game) : Game :=
  let hand := hand_of g playerID in
  let burnedCards := slice_to hand burnCount in
  let g := set_PlayerHands (<[playerID := slice_from hand burnCount]> (PlayerHands g)) g in
  let r := append growcap (Mem g) burnedCards (view (Mem g) (Pile g)) in
  set_Pile (snd r) (set_Mem (fst r) g).

(** [applyBurnPenalty]. *)
Definition applyBurnPenalty (growcap : nat -> nat -> nat) (playerID : string) (g : Game)
  : outcome (Z * Game) :=
  let hand := hand_of g playerID in
  if s_len hand =? 0 then Ok (0%Z, g)
  else
    let burnCount := BurnPenalty g in
    let burnCount :=
      if (Z.of_nat (s_len hand) <? burnCount)%Z then Z.of_nat (s_len hand) else burnCount in
    if (burnCount <? 0)%Z then Panic "slice bounds out of range"
    else Ok (burnCount, burn_state growcap playerID (Z.to_nat burnCount) g).

(** The first seat of [playerID] in the turn order, as the [for ... range]
    with [break] finds it. *)
Fixpoint seat_of (playerID : string) (order : list string) : option nat :=
  match order with
  | [] => None
  | id :: rest =>
      if String.eqb id playerID then Some 0
      else option_map S (seat_of playerID rest)
  end.

(** The blocks of [ProcessSlap] that change the state, in source order. *)

(** [g.Stats.TotalSlaps++]. *)
Definition count_attempt (g : Game) : Game :=
  set_Stats (mkGameStats (int_add (TotalSlaps (Stats g)) 1)
               (SuccessfulSlaps (Stats g)) (CardsBurned (Stats g))) g.

(** [g.LastSlapTime[playerID] = time.Now()], on the counted attempt. *)
Definition stamp_attempt (playerID : string) (stamp : Z) (g : Game) : Game :=
  set_LastSlapTime (<[playerID := stamp]> (LastSlapTime g)) (count_attempt g).

(** [canSlapIn := g.EnableSlapIn && g.SlapInCounts[playerID] < g.MaxSlapIns]. *)
Definition canSlapIn (g : Game) (playerID : string) : bool :=
  EnableSlapIn g && (count_of (SlapInCounts g) playerID <? MaxSlapIns g)%Z.

(** [g.Stats.CardsBurned[playerID] += burnCount]. *)
Definition charge_burn (playerID : string) (burnCount : Z) (g : Game) : Game :=
  set_Stats (mkGameStats (TotalSlaps (Stats g)) (SuccessfulSlaps (Stats g))
               (<[playerID := int_add (count_of (CardsBurned (Stats g)) playerID) burnCount]>
                  (CardsBurned (Stats g)))) g.

(** [g.PlayerHands[playerID] = append(g.PlayerHands[playerID], g.Pile...)]
    and [g.Pile = make([]Card, 0, 52)]. *)
Definition take_pile (growcap : nat -> nat -> nat) (playerID : string) (g : Game) : Game :=
  let r := append growcap (Mem g) (hand_of g playerID) (view (Mem g) (Pile g)) in
  let g := set_PlayerHands (<[playerID := snd r]> (PlayerHands g)) (set_Mem (fst r) g) in
  let r := make (Mem g) 52 in
  set_Pile (snd r) (set_Mem (fst r) g).

(** The valid-slap block: the slap-in count, the pile, the slap window, the
    successful slaps and the turn index. *)
Definition slap_won_state (growcap : nat -> nat -> nat) (playerID : string)
    (playerHasCards : bool) (g : Game) : Game :=
  let g :=
    if negb playerHasCards
    then set_SlapInCounts
           (<[playerID := int_add (count_of (SlapInCounts g) playerID) 1]>
              (SlapInCounts g)) g
    else g in
  let g := take_pile growcap playerID g in
  let g := set_SlapWindowOpen false g in
  let g := set_Stats (mkGameStats (TotalSlaps (Stats g))
             (<[playerID := int_add (count_of (SuccessfulSlaps (Stats g)) playerID) 1]>
                (SuccessfulSlaps (Stats g)))
             (CardsBurned (Stats g))) g in
  match seat_of playerID (TurnOrder g) with
  | Some i => set_CurrentTurnIdx i g
  | None => g
  end.

(** [ProcessSlap]. [now] is the clock read by [time.Since], [stamp] the
    clock read for the new [LastSlapTime] entry. *)
Definition ProcessSlap (growcap : nat -> nat -> nat) (playerID : string) (now stamp : Z)
    (g : Game) : outcome (Protocol.SlapResultPayload * Game) :=
  let g0 := g in
  let g := count_attempt g0 in
  if in_cooldown g playerID now
  then Ok (Protocol.mkSlapResult playerID false "cooldown" 0 0, g)
  else
    let g := stamp_attempt playerID stamp g0 in
    let playerHasCards := 0 <? s_len (hand_of g playerID) in
    let reason := CheckSlap (GameRules g) (view (Mem g) (Pile g)) in
    if negb playerHasCards && negb (canSlapIn g playerID)
    then Ok (Protocol.mkSlapResult playerID false "eliminated" 0 0, g)
    else if negb playerHasCards && bool_decide (reason = SlapReasonInvalid)
    then Ok (Protocol.mkSlapResult playerID false (reason_string reason) 0 0, g)
    else if bool_decide (reason = SlapReasonInvalid) then
      let* burned := applyBurnPenalty growcap playerID g in
      Ok (Protocol.mkSlapResult playerID false (reason_string reason) 0 (fst burned),
          charge_burn playerID (fst burned) (snd burned))
    else
      let cardsWon := Z.of_nat (s_len (Pile g)) in
      Ok (Protocol.mkSlapResult playerID true (reason_string reason) cardsWon 0,
          slap_won_state growcap playerID playerHasCards g).

(** [StartTurnTimer], the branch taken when the timeout elapses: what it
    broadcasts, whether it starts a new turn timer, and the new state. *)
Definition StartTurnTimer_timeout (growcap : nat -> nat -> nat) (g : Game)
  : outcome (list Protocol.Message * bool * Game) :=
  match TurnOrder g !! CurrentTurnIdx g with
  | None => Panic "index out of range"
  | Some currentPlayer =>
      let hand := hand_of g currentPlayer in
      if 0 <? s_len hand then
        let played := play_front growcap currentPlayer hand g in
        let card := fst played in
        let g := set_SlapWindowOpen true (snd played) in
        let* g := advanceTurn g in
        let* next := GetCurrentPlayer g in
        Ok ([Protocol.CardPlayed currentPlayer card (s_len (Pile g));
             Protocol.TurnChanged next], true, g)
      else Ok ([], false, g)
  end.

(** The operations that change a game, and one step of the engine. *)
Inductive op : Type :=
| OpPlayCard (playerID : string)
| OpSlap (playerID : string) (now stamp : Z)
| OpTimeout.

Inductive event : Type :=
| EvPlay (r : play_result)
| EvSlap (r : Protocol.SlapResultPayload)
| EvTimeout (msgs : list Protocol.Message) (restart : bool).

Definition step (growcap : nat -> nat -> nat) (o : op) (g : Game) : outcome (event * Game) :=
  match o with
  | OpPlayCard p =>
      let* r := PlayCard growcap p g in Ok (EvPlay (fst r), snd r)
  | OpSlap p now stamp =>
      let* r := ProcessSlap growcap p now stamp g in Ok (EvSlap (fst r), snd r)
  | OpTimeout =>
      let* r := StartTurnTimer_timeout growcap g in
      Ok (EvTimeout (fst (fst r)) (snd (fst r)), snd r)
  end.

Fixpoint run (growcap : nat -> nat -> nat) (ops : list op) (g : Game)
  : outcome (list event * Game) :=
  match ops with
  | [] => Ok ([], g)
  | o :: rest =>
      let* r := step growcap o g in
      let* rs := run growcap rest (snd r) in
      Ok (fst r :: fst rs, snd rs)
  end.

(** The states of a game: those [NewGame] creates over a shuffled deck for
    distinct players, and those the operations lead to. *)
Inductive reachable (growcap : nat -> nat -> nat) : Game -> Prop :=
| reach_new deck playerIDs enableDoubles enableSandwich burnPenalty slapCooldownMs
    turnTimeoutMs enableSlapIn maxSlapIns g :
    Permutation deck NewDeck ->
    NoDup playerIDs ->
    NewGame growcap deck playerIDs enableDoubles enableSandwich burnPenalty
      slapCooldownMs turnTimeoutMs enableSlapIn maxSlapIns = Ok g ->
    reachable growcap g
| reach_step g o e g' :
    reachable growcap g ->
    step growcap o g = Ok (e, g') ->
    reachable growcap g'.

End Engine.

(** ** room.go *)

Module Room.

Record Player : Type := mkPlayer {
  ID : string;
  Name : string;
  IsHost : bool;
  IsConnected : bool;
  Position : nat }.

Record Settings : Type := mkSettings {
  MaxPlayers : Z;
  SlapCooldownMs : Z;
  TurnTimeoutMs : Z;
  EnableSandwich : bool;
  EnableDoubles : bool;
  BurnPenalty : Z;
  EnableSlapIn : bool;
  MaxSlapIns : Z }.

Definition DefaultSettings : Settings := mkSettings 4 200 10000 true true 1 true 3.

(** A room; its [Game] pointer and its mutex are left out. *)
Record Room : Type := mkRoom {
  Code : string;
  Players : gmap string Player;
  RoomSettings : Settings;
  Status : string;
  HostID : string }.

Definition set_IsHost (v : bool) (p : Player) : Player :=
  mkPlayer (ID p) (Name p) v (IsConnected p) (Position p).
Definition set_IsConnected (v : bool) (p : Player) : Player :=
  mkPlayer (ID p) (Name p) (IsHost p) v (Position p).
Definition set_Position (v : nat) (p : Player) : Player :=
  mkPlayer (ID p) (Name p) (IsHost p) (IsConnected p) v.
Definition set_Players (v : gmap string Player) (r : Room) : Room :=
  mkRoom (Code r) v (RoomSettings r) (Status r) (HostID r).
Definition set_HostID (v : string) (r : Room) : Room :=
  mkRoom (Code r) (Players r) (RoomSettings r) (Status r) v.

(** [NewRoom]; [playerID] is the identifier [uuid.New()] returns. *)
Definition NewRoom (code hostName playerID : string) : Room * string :=
  let host := mkPlayer playerID hostName true true 0 in
  (mkRoom code {[playerID := host]} DefaultSettings "waiting" playerID, playerID).

(** [AddPlayer]; [playerID] is the identifier [uuid.New()] returns. *)
Definition AddPlayer (name playerID : string) (r : Room) : Player * Room :=
  let position := size (Players r) in
  let player := mkPlayer playerID name false true position in
  (player, set_Players (<[playerID := player]> (Players r)) r).

(** A [for id, p := range r.Players] visits the keys in an order the run
    time chooses: [iter] is that order. *)
Definition range_order (iter : list string) (m : gmap string Player) : Prop :=
  NoDup iter /\ forall k, k ∈ iter <-> is_Some (m !! k).

(** The first loop of [RemovePlayer]: the first connected player met. *)
Fixpoint first_connected (iter : list string) (m : gmap string Player)
  : option (string * Player) :=
  match iter with
  | [] => None
  | id :: rest =>
      match m !! id with
      | Some p => if IsConnected p then Some (id, p) else first_connected rest m
      | None => first_connected rest m
      end
  end.

(** The second loop of [RemovePlayer]: positions in visiting order. *)
Fixpoint reindex (iter : list string) (pos : nat) (m : gmap string Player)
  : gmap string Player :=
  match iter with
  | [] => m
  | id :: rest =>
      match m !! id with
      | Some p => reindex rest (S pos) (<[id := set_Position pos p]> m)
      | None => reindex rest pos m
      end
  end.

(** [RemovePlayer], up to the reindexing: the player is deleted and, when
    it was the host and players remain, the first connected player met
    becomes the host. *)
Definition remove_and_reassign (iter1 : list string) (playerID : string) (r : Room) : Room :=
  let r := set_Players (delete playerID (Players r)) r in
  if String.eqb (HostID r) playerID && (0 <? size (Players r)) then
    match first_connected iter1 (Players r) with
    | Some (id, p) =>
        set_Players (<[id := set_IsHost true p]> (Players r)) (set_HostID id r)
    | None => r
    end
  else r.

(** [RemovePlayer]; [iter1] and [iter2] are the orders of its two loops. *)
Definition RemovePlayer (iter1 iter2 : list string) (playerID : string) (r : Room) : Room :=
  let r := remove_and_reassign iter1 playerID r in
  set_Players (reindex iter2 0 (Players r)) r.

Definition MarkPlayerDisconnected (playerID : string) (r : Room) : Room :=
  match Players r !! playerID with
  | Some p => set_Players (<[playerID := set_IsConnected false p]> (Players r)) r
  | None => r
  end.

Definition MarkPlayerConnected (playerID : string) (r : Room) : Room :=
  match Players r !! playerID with
  | Some p => set_Players (<[playerID := set_IsConnected true p]> (Players r)) r
  | None => r
  end.

(** [IsEmpty]: no connected player. *)
Definition IsEmpty (r : Room) : Prop :=
  forall k p, Players r !! k = Some p -> IsConnected p = false.

(** Exactly one player has the host flag, and it is the player [HostID]
    names. *)
Definition one_host (r : Room) : Prop :=
  (exists h, Players r !! HostID r = Some h /\ IsHost h = true /\ ID h = HostID r)
  /\ forall k p, Players r !! k = Some p -> IsHost p = true -> k = HostID r.

(** Every player is stored under its own identifier. *)
Definition ids_ok (r : Room) : Prop :=
  forall k p, Players r !! k = Some p -> ID p = k.

Definition host_inv (r : Room) : Prop := one_host r /\ ids_ok r.

(** Two players that differ at most in their position. *)
Definition same_but_position (p q : Player) : Prop :=
  ID p = ID q /\ Name p = Name q /\ IsHost p = IsHost q /\ IsConnected p = IsConnected q.

Definition same_roster (m m' : gmap string Player) : Prop :=
  forall k, match m !! k, m' !! k with
            | Some p, Some q => same_but_position p q
            | None, None => True
            | _, _ => False
            end.


(** Some player other than [playerID] is connected. *)
Definition other_connected (playerID : string) (r : Room) : Prop :=
  exists k p, k ≠ playerID /\ Players r !! k = Some p /\ IsConnected p = true.

(** Every player of the room is connected. *)
Definition all_connected (r : Room) : Prop :=
  forall k p, Players r !! k = Some p -> IsConnected p = true.

(** The rooms the server makes. A room starts with [NewRoom]. [JoinRoom],
    the one caller of [AddPlayer], adds a player to a room of the manager's
    map, and a room left without players is taken off that map by whoever
    removed the last one; of the identifier [uuid.New()] draws no more is
    asked than that it is not the host's.
    [RemovePlayer] is called when a player leaves or is kicked, and
    [MarkPlayerConnected] when a session comes back. What else is done to
    a room ([UpdateSettings], [StartGame], the countdown) changes neither
    its players nor its [HostID]. [MarkPlayerDisconnected] has no caller. *)
Inductive built : Room -> Prop :=
| built_new (code hostName playerID : string) :
    built (fst (NewRoom code hostName playerID))
| built_add (name playerID : string) (r : Room) :
    built r -> Players r ≠ ∅ -> playerID ≠ HostID r ->
    built (snd (AddPlayer name playerID r))
| built_remove (iter1 iter2 : list string) (playerID : string) (r : Room) :
    built r -> range_order iter1 (delete playerID (Players r)) ->
    built (RemovePlayer iter1 iter2 playerID r)
| built_connected (playerID : string) (r : Room) :
    built r -> built (MarkPlayerConnected playerID r)
| built_beside (r r' : Room) :
    built r -> Players r' = Players r -> HostID r' = HostID r -> built r'.

(** A lobby: "h" creates the room, "p" joins and loses the connection. *)
Definition lobby : Room :=
  MarkPlayerDisconnected "p" (snd (AddPlayer "bob" "p" (fst (NewRoom "ROOM" "alice" "h")))).

(** A lobby of two connected players. *)
Definition lobby2 : Room := snd (AddPlayer "bob" "p" (fst (NewRoom "ROOM" "alice" "h"))).

End Room.

(** ** Well-formed states and what a state holds *)

Module Invariants.
Import Engine.

(** The turn index names a seat, and every slice header lies inside its
    backing array. *)
Definition wf_game (g : Game) : Prop :=
  CurrentTurnIdx g < length (TurnOrder g)
  /\ slice_ok (Mem g) (Pile g)
  /\ map_Forall (fun _ s => slice_ok (Mem g) s) (PlayerHands g).

#[global] Instance wf_game_dec g : Decision (wf_game g).
Proof. unfold wf_game. apply _. Defined.

(** Whether the player at seat [i] holds a card. *)
Definition seat_has_cards (g : Game) (i : nat) : bool :=
  match TurnOrder g !! i with
  | Some p => 0 <? s_len (hand_of g p)
  | None => false
  end.

(** All the cards of a game: the hands, in key order, then the pile. *)
Definition all_cards (g : Game) : list Card :=
  concat (map (fun kv => view (Mem g) (snd kv)) (map_to_list (PlayerHands g)))
  ++ pile_cards g.

(** [Σ|hand_i| + |pile|]. *)
Definition hands_len (m : gmap string slice) : nat :=
  map_fold (fun _ s acc => s_len s + acc) 0 m.

Definition total_cards (g : Game) : nat :=
  hands_len (PlayerHands g) + s_len (Pile g).

(** The cooldown in nanoseconds fits a [Duration] (the room settings keep
    [SlapCooldownMs] between 0 and 1000). *)
Definition cooldown_fits (g : Game) : Prop :=
  (0 <= SlapCooldownMs g /\ SlapCooldownMs g * 1000000 <= int_max)%Z.

(** The clock reading [now] is within the cooldown of the reading [t0]. *)
Definition within_cooldown (g : Game) (t0 now : Z) : Prop :=
  (now - t0 < SlapCooldownMs g * 1000000)%Z.

(** The answer to a slap in cooldown. *)
Definition cooldown_result (p : string) : Protocol.SlapResultPayload :=
  Protocol.mkSlapResult p false "cooldown" 0 0.

End Invariants.

(** ** Concrete games, used to run the model *)

Module Examples.
Import Engine.

(** A growth policy: double the capacity, or take what is needed. *)
Definition go_growcap (oldcap needed : nat) : nat :=
  if 2 * oldcap <? needed then needed else 2 * oldcap.

Definition zero_game : Game :=
  mkGame [] ∅ nil_slice [] 0 (NewRules false false) 0 0 0 false 0 ∅ ∅ [] false
    (mkGameStats 0 ∅ ∅).

(** A game over the deck in the order [NewDeck] builds it (one of the orders
    a shuffle can leave), with the default settings of a room. *)
Definition new_game (growcap : nat -> nat -> nat) (players : list string)
    (enableSlapIn : bool) : outcome Game :=
  NewGame growcap NewDeck players true true 1 200 10000 enableSlapIn 3.

Definition run_from (o : outcome Game) (ops : list op) : outcome (list event * Game) :=
  let* g := o in run go_growcap ops g.

Definition is_ok {A : Type} (o : outcome A) : bool :=
  match o with Ok _ => true | _ => false end.

Definition state_of (o : outcome (list event * Game)) : Game :=
  match o with Ok (_, g) => g | _ => zero_game end.

Definition events_of (o : outcome (list event * Game)) : list event :=
  match o with Ok (evs, _) => evs | _ => [] end.

Definition state_after (players : list string) (enableSlapIn : bool) (ops : list op) : Game :=
  state_of (run_from (new_game go_growcap players enableSlapIn) ops).

(** Whether the operations all returned. *)
Definition ran_ok (players : list string) (enableSlapIn : bool) (ops : list op) : bool :=
  is_ok (run_from (new_game go_growcap players enableSlapIn) ops).

(** [n] rounds in which each player in turn plays a card. *)
Definition rounds (players : list string) (n : nat) : list op :=
  flat_map (fun _ => map OpPlayCard players) (seq 0 n).

Definition two : list string := ["a"; "b"].
Definition four : list string := ["a"; "b"; "c"; "d"].

(** After five rounds and one more card of "a" the Jack of hearts is on
    top of the pile, and it is the turn of "b". *)
Definition jack_on_top : Game := state_after two true (rounds two 5 ++ [OpPlayCard "a"]).

(** ... and "b" has played the next card. *)
Definition jack_covered : Game :=
  state_after two true (rounds two 5 ++ [OpPlayCard "a"; OpPlayCard "b"]).

(** "a" has played all 26 cards and has then slapped at clock reading 1000,
    in a game without slap-back-in. *)
Definition a_out_of_cards : Game :=
  state_after two false (rounds two 25 ++ [OpPlayCard "a"; OpSlap "a" 1000 1000]).

(** What the other player and "a" do next. *)
Definition later_ops : list op :=
  [OpPlayCard "b"; OpSlap "a" 1100 1100; OpSlap "b" 2000 2000; OpSlap "a" 199000000 0].

(** "a" has played all 26 cards, the Queen of spades last, in a game with
    slap-back-in. *)
Definition a_may_slap_in : Game := state_after two true (rounds two 25 ++ [OpPlayCard "a"]).

(** Four players: "a" has played all 13 cards and "b" has then played the
    Jack of spades. *)
Definition a_out_jack_on_top : Game :=
  state_after four true (rounds four 12 ++ [OpPlayCard "a"; OpPlayCard "b"]).

End Examples.

(** ** card.go: the value of a rank *)

Module CardValues.

(** [RankValue]: a [switch] on the rank, 0 for a rank that is no rank. *)
Definition RankValue (c : Card) : Z :=
  if String.eqb (Rank c) "A" then 14
  else if String.eqb (Rank c) "K" then 13
  else if String.eqb (Rank c) "Q" then 12
  else if String.eqb (Rank c) "J" then 11
  else if String.eqb (Rank c) "10" then 10
  else if String.eqb (Rank c) "9" then 9
  else if String.eqb (Rank c) "8" then 8
  else if String.eqb (Rank c) "7" then 7
  else if String.eqb (Rank c) "6" then 6
  else if String.eqb (Rank c) "5" then 5
  else if String.eqb (Rank c) "4" then 4
  else if String.eqb (Rank c) "3" then 3
  else if String.eqb (Rank c) "2" then 2
  else 0.

(** [Card.ToProtocol]: the same two fields. *)
Definition ToProtocol (c : Card) : Card := mkCard (Suit c) (Rank c).

End CardValues.

(** ** game.go: what the server reads off a game *)

Module Queries.
Import Engine CardValues.

(** [Rules.CanSlap]. *)
Definition CanSlap (r : Rules) (pile : list Card) : bool := IsValidSlap r pile.

(** [GetPlayerCardCount]. *)
Definition GetPlayerCardCount (g : Game) (playerID : string) : Z :=
  Z.of_nat (s_len (hand_of g playerID)).

(** The keys of a map in the order a [for ... range] visits them. *)
Definition hands_order (iter : list string) (m : gmap string slice) : Prop :=
  NoDup iter /\ forall k, k ∈ iter <-> is_Some (m !! k).

(** [GetCardCounts]; [iter] is the order of its loop over [PlayerHands]. *)
Definition GetCardCounts (iter : list string) (g : Game) : gmap string Z :=
  fold_left (fun counts id =>
               match PlayerHands g !! id with
               | Some hand => <[id := Z.of_nat (s_len hand)]> counts
               | None => counts
               end) iter (∅ : gmap string Z).

(** [CheckEliminations]. *)
Definition CheckEliminations (g : Game) : list string :=
  fold_left (fun eliminated playerID =>
               if s_len (hand_of g playerID) =? 0 then
                 if negb (IsValidSlap (GameRules g) (pile_cards g))
                 then eliminated ++ [playerID] else eliminated
               else eliminated) (TurnOrder g) [].

(** The first loop of [CheckWinner]. *)
Definition playersWithCards (g : Game) : list string :=
  fold_left (fun acc playerID =>
               if 0 <? s_len (hand_of g playerID) then acc ++ [playerID] else acc)
    (TurnOrder g) [].

(** [CheckWinner]; the empty string says that nobody has won yet. *)
Definition CheckWinner (g : Game) : string :=
  let ps := playersWithCards g in
  if length ps =? 1 then
    if (s_len (Pile g) =? 0) || negb (IsValidSlap (GameRules g) (pile_cards g))
    then nth 0 ps "" else ""
  else "".

Record GameStatePayload : Type := mkGameStatePayload {
  StatePile : list Card;
  CurrentPlayerID : string;
  PlayerCardCounts : gmap string Z;
  StateCanSlap : bool }.

(** The loop of [GetState]: the cards from [start], which is [pileLen - 3]
    or 0 when that is negative, up to the top of the pile. *)
Definition visiblePile (g : Game) : list Card :=
  let pileLen := s_len (Pile g) in
  let start := (Z.of_nat pileLen - 3)%Z in
  let start := if (start <? 0)%Z then 0%Z else start in
  map (fun i => ToProtocol (read (Mem g) (Pile g) i))
    (seq (Z.to_nat start) (pileLen - Z.to_nat start)).

(** [GetState]; [iter] is the order of the loop in [GetCardCounts]. *)
Definition GetState (iter : list string) (g : Game) : outcome GameStatePayload :=
  let visible := visiblePile g in
  match TurnOrder g !! CurrentTurnIdx g with
  | None => Panic "index out of range"
  | Some current =>
      Ok (mkGameStatePayload visible current (GetCardCounts iter g)
            (CanSlap (GameRules g) (pile_cards g)))
  end.

(** The last three cards of a pile, or all of them when there are fewer. *)
Definition top_three (pile : list Card) : list Card := drop (length pile - 3) pile.

End Queries.

Module Settled.
Import Engine.

(** What [NewGame] fixes for the whole game: the seating and the settings. *)
Definition same_config (g g' : Game) : Prop :=
  TurnOrder g' = TurnOrder g /\ GameRules g' = GameRules g
  /\ BurnPenalty g' = BurnPenalty g /\ SlapCooldownMs g' = SlapCooldownMs g
  /\ TurnTimeoutMs g' = TurnTimeoutMs g /\ EnableSlapIn g' = EnableSlapIn g
  /\ MaxSlapIns g' = MaxSlapIns g.

(** The answers [ProcessSlap] gives. *)
Definition won_reasons : list string := ["jack"; "doubles"; "sandwich"].
Definition lost_reasons : list string := ["cooldown"; "eliminated"; "invalid"].

End Settled.

(** ** settings.go *)

Module UpdateSettingsPayload.

(** [protocol.UpdateSettingsPayload]. *)
Record t : Type := mk {
  MaxPlayers : Z;
  SlapCooldownMs : Z;
  TurnTimeoutMs : Z;
  EnableSandwich : bool;
  EnableDoubles : bool;
  BurnPenalty : Z;
  EnableSlapIn : bool;
  MaxSlapIns : Z }.

End UpdateSettingsPayload.

Module SettingsRules.
Import Room.

Definition set_MaxPlayers (v : Z) (s : Settings) : Settings :=
  mkSettings v (SlapCooldownMs s) (TurnTimeoutMs s) (EnableSandwich s) (EnableDoubles s)
    (BurnPenalty s) (EnableSlapIn s) (MaxSlapIns s).
Definition set_SlapCooldownMs (v : Z) (s : Settings) : Settings :=
  mkSettings (MaxPlayers s) v (TurnTimeoutMs s) (EnableSandwich s) (EnableDoubles s)
    (BurnPenalty s) (EnableSlapIn s) (MaxSlapIns s).
Definition set_TurnTimeoutMs (v : Z) (s : Settings) : Settings :=
  mkSettings (MaxPlayers s) (SlapCooldownMs s) v (EnableSandwich s) (EnableDoubles s)
    (BurnPenalty s) (EnableSlapIn s) (MaxSlapIns s).
Definition set_EnableSandwich (v : bool) (s : Settings) : Settings :=
  mkSettings (MaxPlayers s) (SlapCooldownMs s) (TurnTimeoutMs s) v (EnableDoubles s)
    (BurnPenalty s) (EnableSlapIn s) (MaxSlapIns s).
Definition set_EnableDoubles (v : bool) (s : Settings) : Settings :=
  mkSettings (MaxPlayers s) (SlapCooldownMs s) (TurnTimeoutMs s) (EnableSandwich s) v
    (BurnPenalty s) (EnableSlapIn s) (MaxSlapIns s).
Definition set_BurnPenalty (v : Z) (s : Settings) : Settings :=
  mkSettings (MaxPlayers s) (SlapCooldownMs s) (TurnTimeoutMs s) (EnableSandwich s)
    (EnableDoubles s) v (EnableSlapIn s) (MaxSlapIns s).
Definition set_EnableSlapIn (v : bool) (s : Settings) : Settings :=
  mkSettings (MaxPlayers s) (SlapCooldownMs s) (TurnTimeoutMs s) (EnableSandwich s)
    (EnableDoubles s) (BurnPenalty s) v (MaxSlapIns s).
Definition set_MaxSlapIns (v : Z) (s : Settings) : Settings :=
  mkSettings (MaxPlayers s) (SlapCooldownMs s) (TurnTimeoutMs s) (EnableSandwich s)
    (EnableDoubles s) (BurnPenalty s) (EnableSlapIn s) v.

(** [lo <= v && v <= hi]. *)
Definition within (lo hi v : Z) : bool := ((lo <=? v) && (v <=? hi))%Z.

(** [Settings.FromProtocol]: a number is taken over when it lies in its
    range and the old one is kept otherwise; the switches are taken over
    as they come. *)
Definition FromProtocol (p : UpdateSettingsPayload.t) (s : Settings) : Settings :=
  let s := if within 2 8 (UpdateSettingsPayload.MaxPlayers p)
           then set_MaxPlayers (UpdateSettingsPayload.MaxPlayers p) s else s in
  let s := if within 0 1000 (UpdateSettingsPayload.SlapCooldownMs p)
           then set_SlapCooldownMs (UpdateSettingsPayload.SlapCooldownMs p) s else s in
  let s := if within 5000 60000 (UpdateSettingsPayload.TurnTimeoutMs p)
           then set_TurnTimeoutMs (UpdateSettingsPayload.TurnTimeoutMs p) s else s in
  let s := set_EnableSandwich (UpdateSettingsPayload.EnableSandwich p) s in
  let s := set_EnableDoubles (UpdateSettingsPayload.EnableDoubles p) s in
  let s := if within 0 5 (UpdateSettingsPayload.BurnPenalty p)
           then set_BurnPenalty (UpdateSettingsPayload.BurnPenalty p) s else s in
  let s := set_EnableSlapIn (UpdateSettingsPayload.EnableSlapIn p) s in
  if within 1 10 (UpdateSettingsPayload.MaxSlapIns p)
  then set_MaxSlapIns (UpdateSettingsPayload.MaxSlapIns p) s else s.

(** [if s.F < lo { s.F = lo }] and [if s.F > hi { s.F = hi }] for a field
    [F] with its getter and setter. *)
Definition at_least (get : Settings -> Z) (set : Z -> Settings -> Settings) (lo : Z)
    (s : Settings) : Settings :=
  if (get s <? lo)%Z then set lo s else s.
Definition at_most (get : Settings -> Z) (set : Z -> Settings -> Settings) (hi : Z)
    (s : Settings) : Settings :=
  if (hi <? get s)%Z then set hi s else s.

(** [Settings.Validate]: ten tests, one after the other. *)
Definition Validate (s : Settings) : Settings :=
  let s := at_least MaxPlayers set_MaxPlayers 2 s in
  let s := at_most MaxPlayers set_MaxPlayers 8 s in
  let s := at_least SlapCooldownMs set_SlapCooldownMs 0 s in
  let s := at_most SlapCooldownMs set_SlapCooldownMs 1000 s in
  let s := at_least TurnTimeoutMs set_TurnTimeoutMs 5000 s in
  let s := at_most TurnTimeoutMs set_TurnTimeoutMs 60000 s in
  let s := at_least BurnPenalty set_BurnPenalty 0 s in
  let s := at_most BurnPenalty set_BurnPenalty 5 s in
  let s := at_least MaxSlapIns set_MaxSlapIns 1 s in
  at_most MaxSlapIns set_MaxSlapIns 10 s.

(** [Settings.ToProtocol], read as the payload a client sends back. *)
Definition ToProtocol (s : Settings) : UpdateSettingsPayload.t :=
  UpdateSettingsPayload.mk (MaxPlayers s) (SlapCooldownMs s) (TurnTimeoutMs s)
    (EnableSandwich s) (EnableDoubles s) (BurnPenalty s) (EnableSlapIn s) (MaxSlapIns s).

(** The ranges both functions work with. *)
Definition in_range (s : Settings) : Prop :=
  (2 <= MaxPlayers s <= 8 /\ 0 <= SlapCooldownMs s <= 1000
   /\ 5000 <= TurnTimeoutMs s <= 60000 /\ 0 <= BurnPenalty s <= 5
   /\ 1 <= MaxSlapIns s <= 10)%Z.

(** The payload lies in the ranges. *)
Definition payload_in_range (p : UpdateSettingsPayload.t) : Prop :=
  (2 <= UpdateSettingsPayload.MaxPlayers p <= 8
   /\ 0 <= UpdateSettingsPayload.SlapCooldownMs p <= 1000
   /\ 5000 <= UpdateSettingsPayload.TurnTimeoutMs p <= 60000
   /\ 0 <= UpdateSettingsPayload.BurnPenalty p <= 5
   /\ 1 <= UpdateSettingsPayload.MaxSlapIns p <= 10)%Z.

(** The number [new] of a payload against the range from [lo] to [hi]:
    [result] is [new] when that lies in the range, and [old] when not. *)
Definition taken_or_kept (lo hi new old result : Z) : Prop :=
  ((lo <= new <= hi)%Z -> result = new) /\ (~ (lo <= new <= hi)%Z -> result = old).

(** [Room.UpdateSettings]. *)
Definition UpdateSettings (p : UpdateSettingsPayload.t) (r : Room) : Room :=
  mkRoom (Code r) (Players r) (FromProtocol p (RoomSettings r)) (Status r) (HostID r).

End SettingsRules.

(** ** room.go: what is asked of a room, and the start of the game *)

Module RoomOps.
Import Room SettingsRules.

(** [GetPlayer]: [nil] for an unknown player. *)
Definition GetPlayer (playerID : string) (r : Room) : option Player := Players r !! playerID.

(** [IsFull]. *)
Definition IsFull (r : Room) : bool :=
  (MaxPlayers (RoomSettings r) <=? Z.of_nat (size (Players r)))%Z.

(** The loop of [GetConnectedPlayers], over the keys in visiting order. *)
Fixpoint connected_players (iter : list string) (m : gmap string Player) : list Player :=
  match iter with
  | [] => []
  | id :: rest =>
      match m !! id with
      | Some p => if IsConnected p then p :: connected_players rest m
                  else connected_players rest m
      | None => connected_players rest m
      end
  end.

Definition GetConnectedPlayers (iter : list string) (r : Room) : list Player :=
  connected_players iter (Players r).

(** The loop of [IsEmpty]: it returns [false] at the first connected
    player it meets. *)
Fixpoint none_connected (iter : list string) (m : gmap string Player) : bool :=
  match iter with
  | [] => true
  | id :: rest =>
      match m !! id with
      | Some p => if IsConnected p then false else none_connected rest m
      | None => none_connected rest m
      end
  end.

Definition IsEmpty_loop (iter : list string) (r : Room) : bool :=
  none_connected iter (Players r).

(** [StartGame]: the connected players, in visiting order, are seated and
    [NewGame] is called with the settings of the room; [deck] is the deck
    as shuffled. The result is the game and the room, now [playing]. *)
Definition StartGame (growcap : nat -> nat -> nat) (deck : list Card) (iter : list string)
    (r : Room) : outcome (Engine.Game * Room) :=
  let playerIDs := map ID (connected_players iter (Players r)) in
  let s := RoomSettings r in
  let* g := Engine.NewGame growcap deck playerIDs (EnableDoubles s) (EnableSandwich s)
              (BurnPenalty s) (SlapCooldownMs s) (TurnTimeoutMs s) (EnableSlapIn s)
              (MaxSlapIns s) in
  Ok (g, mkRoom (Code r) (Players r) (RoomSettings r) "playing" (HostID r)).

(** The positions of a room are those of a row: the players can be
    listed so that the player listed at [i] has position [i]. *)
Definition positions_in_row (m : gmap string Player) : Prop :=
  exists row : list string,
    range_order row m
    /\ forall i k, row !! i = Some k -> exists p, m !! k = Some p /\ Position p = i.

End RoomOps.

(** ** manager.go: the rooms of the server *)

Module Manager.
Import Room RoomOps.

Definition roomCodeChars : string := "ABCDEFGHJKLMNPQRSTUVWXYZ23456789".
Definition roomCodeLength : nat := 4.

Record SessionData : Type := mkSessionData { PlayerID : string; RoomCode : string }.

(** The manager without a Redis store ([store == nil]); the rooms are
    called one at a time. *)
Record Manager : Type := mkManager {
  rooms : gmap string Room;
  sessions : gmap string SessionData }.

Inductive result (A : Type) : Type :=
| Done (a : A)
| Err (msg : string).
Arguments Done {A} a.
Arguments Err {A} msg.

(** [roomCodeChars[n]]. *)
Definition char_at (n : nat) : Ascii.ascii :=
  nth n (String.list_ascii_of_string roomCodeChars) Ascii.zero.

(** The code built at one attempt; [intn] is the sequence of the numbers
    [rand.Intn(len(roomCodeChars))] returns, four of them per attempt. *)
Definition candidate (intn : nat -> nat) (attempt : nat) : string :=
  String.string_of_list_ascii
    (map (fun i => char_at (intn (attempt * roomCodeLength + i))) (seq 0 roomCodeLength)).

(** The loop of [generateRoomCode] from attempt [attempts] on, [todo]
    attempts being left. *)
Fixpoint generate_loop (todo attempts : nat) (intn : nat -> nat) (rs : gmap string Room)
  : string :=
  match todo with
  | 0 => ""
  | S todo' =>
      let codeStr := candidate intn attempts in
      match rs !! codeStr with
      | None => codeStr
      | Some _ => generate_loop todo' (S attempts) intn rs
      end
  end.

Definition generateRoomCode (intn : nat -> nat) (m : Manager) : string :=
  generate_loop 100 0 intn (rooms m).

(** [CreateRoom]; [uuid] is the identifier [NewRoom] draws. *)
Definition CreateRoom (intn : nat -> nat) (uuid hostName : string) (m : Manager)
  : result (Room * string) * Manager :=
  let code := generateRoomCode intn m in
  if String.eqb code "" then (Err "failed to generate room code", m)
  else
    let created := NewRoom code hostName uuid in
    (Done created, mkManager (<[code := fst created]> (rooms m)) (sessions m)).

(** [JoinRoom]; [uuid] is the identifier [AddPlayer] draws. *)
Definition JoinRoom (code playerName uuid : string) (m : Manager)
  : result (Room * string * Player) * Manager :=
  match rooms m !! code with
  | None => (Err "room not found", m)
  | Some room =>
      if negb (String.eqb (Status room) "waiting") then (Err "game already in progress", m)
      else if IsFull room then (Err "room is full", m)
      else
        let added := AddPlayer playerName uuid room in
        (Done (snd added, ID (fst added), fst added),
         mkManager (<[code := snd added]> (rooms m)) (sessions m))
  end.

(** [LeaveRoom]; [iter1] and [iter2] are the orders of the loops of
    [RemovePlayer], [iter3] that of [IsEmpty]. *)
Definition LeaveRoom (iter1 iter2 iter3 : list string) (code playerID : string) (m : Manager)
  : Manager :=
  match rooms m !! code with
  | None => m
  | Some room =>
      let room := RemovePlayer iter1 iter2 playerID room in
      if IsEmpty_loop iter3 room then mkManager (delete code (rooms m)) (sessions m)
      else mkManager (<[code := room]> (rooms m)) (sessions m)
  end.

Definition GetRoom (code : string) (m : Manager) : option Room := rooms m !! code.

Definition DeleteRoom (code : string) (m : Manager) : Manager :=
  mkManager (delete code (rooms m)) (sessions m).

Definition SaveSession (sessionID playerID roomCode : string) (m : Manager) : Manager :=
  mkManager (rooms m) (<[sessionID := mkSessionData playerID roomCode]> (sessions m)).

Definition GetSession (sessionID : string) (m : Manager) : option SessionData :=
  sessions m !! sessionID.

(** Every room is stored under its own code, with every player under its
    own identifier. *)
Definition rooms_ok (m : Manager) : Prop :=
  forall c r, rooms m !! c = Some r -> Code r = c /\ ids_ok r.

(** [handleKickPlayer] of the server, after the payload is read: the
    error sent to the client, or the room without the player and the name
    broadcast. [client] is the player the request comes from. *)
Definition handleKickPlayer (iter1 iter2 : list string) (client target : string) (r : Room)
  : result (Room * string) :=
  if negb (String.eqb (HostID r) client) then Err "NOT_HOST"
  else if String.eqb target client then Err "INVALID_KICK"
  else
    match GetPlayer target r with
    | None => Err "PLAYER_NOT_FOUND"
    | Some player => Done (RemovePlayer iter1 iter2 target r, Name player)
    end.

End Manager.

(** ** The client: the reducer of the game page *)

Module CardPlayedPayload.
Record t : Type := mk { playerId : string; card : Card; pileCount : Z }.
End CardPlayedPayload.

Module NameChangedPayload.
Record t : Type := mk { playerId : string; newName : string }.
End NameChangedPayload.

Module SlapAttemptedPayload.
Record t : Type := mk { playerId : string; playerName : string }.
End SlapAttemptedPayload.

Module GameOverPayload.
(** The statistics sent along are stored with the rest and never read by
    the reducer; they are left out. *)
Record t : Type := mk { winnerId : string; winnerName : string }.
End GameOverPayload.

Module Client.

(** Numbers are the integers they hold in this protocol. *)
Record Player : Type := mkPlayer {
  id : string;
  name : string;
  cardCount : Z;
  isHost : bool;
  isConnected : bool;
  position : Z }.

Record RoomState : Type := mkRoomState {
  code : string;
  players : list Player;
  settings : Room.Settings;
  status : string;
  hostId : string }.

Record GameState : Type := mkGameState {
  pile : list Card;
  currentPlayerId : string;
  playerCardCounts : gmap string Z;
  canSlap : bool }.

Record State : Type := mkState {
  room : option RoomState;
  game : option GameState;
  playerId : option string;
  countdown : option Z;
  lastSlapAttempt : option SlapAttemptedPayload.t;
  lastSlapResult : option Protocol.SlapResultPayload;
  gameOver : option GameOverPayload.t;
  turnWarning : option Z;
  eliminatedPlayers : list string }.

Definition initialState : State := mkState None None None None None None None None [].

Inductive Action : Type :=
| SET_ROOM (payload : RoomState)
| SET_PLAYER_ID (payload : string)
| PLAYER_JOINED (payload : Player)
| PLAYER_LEFT (payload : string)
| NAME_CHANGED (payload : NameChangedPayload.t)
| SETTINGS_CHANGED (payload : Room.Settings)
| GAME_STARTING (payload : Z)
| GAME_STARTED (payload : GameState)
| CARDS_DEALT (payload : gmap string Z)
| CARD_PLAYED (payload : CardPlayedPayload.t)
| TURN_CHANGED (payload : string)
| TURN_WARNING (payload : Z)
| SLAP_ATTEMPTED (payload : SlapAttemptedPayload.t)
| SLAP_RESULT (payload : Protocol.SlapResultPayload)
| PLAYER_ELIMINATED (payload : string)
| GAME_OVER (payload : GameOverPayload.t)
| GAME_ENDED
| CLEAR_SLAP
| RESET.

(** [{ ...state, field: v }]. *)
Definition set_room (v : option RoomState) (s : State) : State :=
  mkState v (game s) (playerId s) (countdown s) (lastSlapAttempt s) (lastSlapResult s)
    (gameOver s) (turnWarning s) (eliminatedPlayers s).
Definition set_game (v : option GameState) (s : State) : State :=
  mkState (room s) v (playerId s) (countdown s) (lastSlapAttempt s) (lastSlapResult s)
    (gameOver s) (turnWarning s) (eliminatedPlayers s).
Definition set_playerId (v : option string) (s : State) : State :=
  mkState (room s) (game s) v (countdown s) (lastSlapAttempt s) (lastSlapResult s)
    (gameOver s) (turnWarning s) (eliminatedPlayers s).
Definition set_countdown (v : option Z) (s : State) : State :=
  mkState (room s) (game s) (playerId s) v (lastSlapAttempt s) (lastSlapResult s)
    (gameOver s) (turnWarning s) (eliminatedPlayers s).
Definition set_lastSlapAttempt (v : option SlapAttemptedPayload.t) (s : State) : State :=
  mkState (room s) (game s) (playerId s) (countdown s) v (lastSlapResult s)
    (gameOver s) (turnWarning s) (eliminatedPlayers s).
Definition set_lastSlapResult (v : option Protocol.SlapResultPayload) (s : State) : State :=
  mkState (room s) (game s) (playerId s) (countdown s) (lastSlapAttempt s) v
    (gameOver s) (turnWarning s) (eliminatedPlayers s).
Definition set_gameOver (v : option GameOverPayload.t) (s : State) : State :=
  mkState (room s) (game s) (playerId s) (countdown s) (lastSlapAttempt s) (lastSlapResult s)
    v (turnWarning s) (eliminatedPlayers s).
Definition set_turnWarning (v : option Z) (s : State) : State :=
  mkState (room s) (game s) (playerId s) (countdown s) (lastSlapAttempt s) (lastSlapResult s)
    (gameOver s) v (eliminatedPlayers s).
Definition set_eliminatedPlayers (v : list string) (s : State) : State :=
  mkState (room s) (game s) (playerId s) (countdown s) (lastSlapAttempt s) (lastSlapResult s)
    (gameOver s) (turnWarning s) v.

Definition set_players (v : list Player) (r : RoomState) : RoomState :=
  mkRoomState (code r) v (settings r) (status r) (hostId r).
Definition set_settings (v : Room.Settings) (r : RoomState) : RoomState :=
  mkRoomState (code r) (players r) v (status r) (hostId r).
Definition set_status (v : string) (r : RoomState) : RoomState :=
  mkRoomState (code r) (players r) (settings r) v (hostId r).
Definition set_name (v : string) (p : Player) : Player :=
  mkPlayer (id p) v (cardCount p) (isHost p) (isConnected p) (position p).
Definition set_cardCount (v : Z) (p : Player) : Player :=
  mkPlayer (id p) (name p) v (isHost p) (isConnected p) (position p).
Definition set_pile (v : list Card) (g : GameState) : GameState :=
  mkGameState v (currentPlayerId g) (playerCardCounts g) (canSlap g).
Definition set_currentPlayerId (v : string) (g : GameState) : GameState :=
  mkGameState (pile g) v (playerCardCounts g) (canSlap g).
Definition set_playerCardCounts (v : gmap string Z) (g : GameState) : GameState :=
  mkGameState (pile g) (currentPlayerId g) v (canSlap g).

(** [counts[id] || 0]: a missing entry reads as 0. *)
Definition or_zero (counts : gmap string Z) (id : string) : Z := default 0%Z (counts !! id).

(** A number used as a condition: 0, and a field left out of the
    message, count as false. *)
Definition truthy (n : Z) : bool := negb (n =? 0)%Z.

(** [xs.slice(-3)]. *)
Definition slice_last3 (xs : list Card) : list Card := drop (length xs - 3) xs.

(** The part of the case [SLAP_RESULT] that works on the game. *)
Definition slap_game (payload : Protocol.SlapResultPayload) (g : GameState) : GameState :=
  let newGame := set_pile (pile g) g in
  if Protocol.Success payload && truthy (Protocol.CardsWon payload) then
    let newGame := set_pile [] newGame in
    set_playerCardCounts
      (<[Protocol.PlayerID payload :=
           (or_zero (playerCardCounts newGame) (Protocol.PlayerID payload)
            + Protocol.CardsWon payload)%Z]> (playerCardCounts newGame)) newGame
  else if truthy (Protocol.BurnPenalty payload) then
    set_playerCardCounts
      (<[Protocol.PlayerID payload :=
           (or_zero (playerCardCounts newGame) (Protocol.PlayerID payload)
            - Protocol.BurnPenalty payload)%Z]> (playerCardCounts newGame)) newGame
  else newGame.

(** The part of the case [SLAP_RESULT] that works on the room. *)
Definition slap_room (payload : Protocol.SlapResultPayload) (r : RoomState) : RoomState :=
  if Protocol.Success payload && truthy (Protocol.CardsWon payload) then
    set_players
      (map (fun p => if String.eqb (id p) (Protocol.PlayerID payload)
                     then set_cardCount (cardCount p + Protocol.CardsWon payload)%Z p
                     else p) (players r)) r
  else if truthy (Protocol.BurnPenalty payload) then
    set_players
      (map (fun p => if String.eqb (id p) (Protocol.PlayerID payload)
                     then set_cardCount
                            (Z.max 0 (cardCount p - Protocol.BurnPenalty payload))%Z p
                     else p) (players r)) r
  else r.

(** [reducer]. *)
Definition reducer (state : State) (action : Action) : State :=
  match action with
  | SET_ROOM payload => set_room (Some payload) state
  | SET_PLAYER_ID payload => set_playerId (Some payload) state
  | PLAYER_JOINED payload =>
      match room state with
      | None => state
      | Some r => set_room (Some (set_players (players r ++ [payload]) r)) state
      end
  | PLAYER_LEFT payload =>
      match room state with
      | None => state
      | Some r =>
          set_room
            (Some (set_players
                     (List.filter (fun p => negb (String.eqb (id p) payload)) (players r)) r))
            state
      end
  | NAME_CHANGED payload =>
      match room state with
      | None => state
      | Some r =>
          set_room
            (Some (set_players
                     (map (fun p => if String.eqb (id p) (NameChangedPayload.playerId payload)
                                    then set_name (NameChangedPayload.newName payload) p
                                    else p) (players r)) r))
            state
      end
  | SETTINGS_CHANGED payload =>
      match room state with
      | None => state
      | Some r => set_room (Some (set_settings payload r)) state
      end
  | GAME_STARTING payload =>
      match room state with
      | None => state
      | Some r => set_room (Some (set_status "starting" r)) (set_countdown (Some payload) state)
      end
  | GAME_STARTED payload =>
      match room state with
      | None => state
      | Some r =>
          set_gameOver None
            (set_eliminatedPlayers []
               (set_room (Some (set_status "playing" r))
                  (set_countdown None (set_game (Some payload) state))))
      end
  | CARDS_DEALT payload =>
      match room state with
      | None => state
      | Some r =>
          set_room
            (Some (set_players
                     (map (fun p => set_cardCount (or_zero payload (id p)) p) (players r)) r))
            state
      end
  | CARD_PLAYED payload =>
      match game state, room state with
      | Some g, Some r =>
          let who := CardPlayedPayload.playerId payload in
          set_turnWarning None
            (set_room
               (Some (set_players
                        (map (fun p => if String.eqb (id p) who
                                       then set_cardCount (cardCount p - 1)%Z p
                                       else p) (players r)) r))
               (set_game
                  (Some (set_playerCardCounts
                           (<[who := (or_zero (playerCardCounts g) who - 1)%Z]>
                              (playerCardCounts g))
                           (set_pile (slice_last3 (pile g ++ [CardPlayedPayload.card payload]))
                              g)))
                  state))
      | _, _ => state
      end
  | TURN_CHANGED payload =>
      match game state with
      | None => state
      | Some g => set_turnWarning None (set_game (Some (set_currentPlayerId payload g)) state)
      end
  | TURN_WARNING payload => set_turnWarning (Some payload) state
  | SLAP_ATTEMPTED payload => set_lastSlapAttempt (Some payload) state
  | SLAP_RESULT payload =>
      match game state, room state with
      | Some g, Some r =>
          set_lastSlapAttempt None
            (set_lastSlapResult (Some payload)
               (set_room (Some (slap_room payload r))
                  (set_game (Some (slap_game payload g)) state)))
      | _, _ => state
      end
  | PLAYER_ELIMINATED payload =>
      set_eliminatedPlayers (eliminatedPlayers state ++ [payload]) state
  | GAME_OVER payload =>
      match room state with
      | None => state
      | Some r => set_room (Some (set_status "finished" r)) (set_gameOver (Some payload) state)
      end
  | GAME_ENDED =>
      match room state with
      | None => state
      | Some r =>
          set_eliminatedPlayers []
            (set_room (Some (set_status "waiting" r))
               (set_countdown None (set_gameOver None (set_game None state))))
      end
  | CLEAR_SLAP => set_lastSlapResult None (set_lastSlapAttempt None state)
  | RESET => initialState
  end.

End Client.

(** ** main.go: what the server broadcasts for a play, a slap and a
    timeout, as the actions the client dispatches for the messages *)

Module Handlers.
Import Engine Queries.

(** [ServerMessageTypes] to actions, as [handleMessage] of the client
    maps them. *)
Definition action_of (m : Protocol.Message) : Client.Action :=
  match m with
  | Protocol.CardPlayed playerID card pileCount =>
      Client.CARD_PLAYED (CardPlayedPayload.mk playerID card (Z.of_nat pileCount))
  | Protocol.TurnChanged currentPlayerID => Client.TURN_CHANGED currentPlayerID
  end.

(** [handlePlayCard] for a room with a game: an error goes to the one
    client as an [ERROR] message, for which the reducer has no case. *)
Definition handlePlayCard (growcap : nat -> nat -> nat) (playerID : string) (g : Game)
  : outcome (list Client.Action * Game) :=
  let* r := PlayCard growcap playerID g in
  match fst r with
  | PlayError _ => Ok ([], snd r)
  | Played card =>
      let* nextPlayer := GetCurrentPlayer (snd r) in
      Ok ([Client.CARD_PLAYED
             (CardPlayedPayload.mk playerID (CardValues.ToProtocol card)
                (Z.of_nat (s_len (Pile (snd r)))));
           Client.TURN_CHANGED nextPlayer], snd r)
  end.

(** [handleSlap] for a room with a game; [playerName] and [winnerName]
    are the names the room has for the two players. *)
Definition handleSlap (growcap : nat -> nat -> nat) (playerID playerName : string)
    (now stamp : Z) (winnerName : string) (g : Game)
  : outcome (list Client.Action * Game) :=
  let* r := ProcessSlap growcap playerID now stamp g in
  let result := fst r in
  let eliminatedPlayers := CheckEliminations (snd r) in
  let winner := CheckWinner (snd r) in
  Ok ([Client.SLAP_ATTEMPTED (SlapAttemptedPayload.mk playerID playerName);
       Client.SLAP_RESULT result]
      ++ map Client.PLAYER_ELIMINATED eliminatedPlayers
      ++ (if negb (String.eqb winner "")
          then [Client.GAME_OVER (GameOverPayload.mk winner winnerName)]
          else if Protocol.Success result
               then [Client.TURN_CHANGED (Protocol.PlayerID result)]
               else []),
      snd r).

(** The turn timer running out. *)
Definition turnTimeout (growcap : nat -> nat -> nat) (g : Game)
  : outcome (list Client.Action * Game) :=
  let* r := StartTurnTimer_timeout growcap g in
  Ok (map action_of (fst (fst r)), snd r).

Inductive request : Type :=
| ReqPlayCard (playerID : string)
| ReqSlap (playerID playerName : string) (now stamp : Z) (winnerName : string)
| ReqTimeout.

Definition serve (growcap : nat -> nat -> nat) (q : request) (g : Game)
  : outcome (list Client.Action * Game) :=
  match q with
  | ReqPlayCard p => handlePlayCard growcap p g
  | ReqSlap p name now stamp winnerName => handleSlap growcap p name now stamp winnerName g
  | ReqTimeout => turnTimeout growcap g
  end.

(** The [GAME_STARTED] action for the state [GetState] sends. *)
Definition game_started (st : GameStatePayload) : Client.Action :=
  Client.GAME_STARTED
    (Client.mkGameState (StatePile st) (CurrentPlayerID st) (PlayerCardCounts st)
       (StateCanSlap st)).

(** The client has a room and a game, and its game has the card counts of
    the server's hands and, as its pile, at most three cards that lie on
    top of the server's pile. *)
Definition follows (g : Game) (st : Client.State) : Prop :=
  exists gs rs,
    Client.game st = Some gs /\ Client.room st = Some rs
    /\ (forall p, Client.or_zero (Client.playerCardCounts gs) p
                  = Z.of_nat (s_len (hand_of g p)))
    /\ (exists under, pile_cards g = under ++ Client.pile gs)
    /\ length (Client.pile gs) <= 3.

(** The client shows the player whose turn it is. *)
Definition same_turn (g : Game) (st : Client.State) : Prop :=
  exists gs, Client.game st = Some gs
    /\ TurnOrder g !! CurrentTurnIdx g = Some (Client.currentPlayerId gs).

(** The client shows the top of the pile as [GetState] would send it. *)
Definition same_top (g : Game) (st : Client.State) : Prop :=
  exists gs, Client.game st = Some gs /\ Client.pile gs = top_three (pile_cards g).

End Handlers.

(** ** Where the cards are *)

Module CardKeeping.
Import Engine Invariants.

(** The cards of [cards], counted from [i], that the deal gives to hand
    [j] of [n]: those whose number is [j] modulo [n]. *)
Fixpoint dealt_to (n j i : nat) (cards : list Card) : list Card :=
  match cards with
  | [] => []
  | card :: rest =>
      if i mod n =? j then card :: dealt_to n j (S i) rest else dealt_to n j (S i) rest
  end.

(** Hands in a list lie in backing arrays of their own. *)
Definition hands_apart (h : store) (hands : list slice) : Prop :=
  (forall j k s t, j ≠ k -> hands !! j = Some s -> hands !! k = Some t -> s_arr s ≠ s_arr t)
  /\ Forall (fun s => s_arr s < length h) hands
  /\ Forall (slice_ok h) hands.

(** The hands and the pile of a game lie in backing arrays of their own. *)
Definition apart (g : Game) : Prop :=
  (forall p q s t, p ≠ q -> PlayerHands g !! p = Some s -> PlayerHands g !! q = Some t ->
     s_arr s ≠ s_arr t)
  /\ (forall p s, PlayerHands g !! p = Some s ->
        s_arr s ≠ s_arr (Pile g) /\ s_arr s < length (Mem g))
  /\ s_arr (Pile g) < length (Mem g).

(** The cards of the hands of a map, in key order. *)
Definition hands_concat (h : store) (m : gmap string slice) : list Card :=
  concat (map (fun kv => view h (snd kv)) (map_to_list m)).

(** A slap that burns: it passes the cooldown test, comes from a player
    who holds cards, and finds no valid slap on the pile. *)
Definition burns (o : op) (g : Game) : bool :=
  match o with
  | OpSlap p now _ =>
      negb (in_cooldown g p now) && (0 <? s_len (hand_of g p))
      && bool_decide (CheckSlap (GameRules g) (pile_cards g) = SlapReasonInvalid)
  | _ => false
  end.

(** No operation of the run burns. *)
Fixpoint burn_free (growcap : nat -> nat -> nat) (ops : list op) (g : Game) : bool :=
  match ops with
  | [] => true
  | o :: rest =>
      negb (burns o g)
      && match step growcap o g with
         | Ok r => burn_free growcap rest (snd r)
         | _ => true
         end
  end.

End CardKeeping.

(** ** Scenes of a game of two *)

Module Scenes.
Import Cards Engine Room Examples Manager Queries Handlers.

(** The game of "a" and "b" as dealt. *)
Definition dealt : Game := state_after two true [].

(** The eleven plays that lead to [jack_on_top]. *)
Definition eleven_cards : list op := rounds two 5 ++ [OpPlayCard "a"].

(** "b" has slapped the Jack at clock reading 1000 ... *)
Definition jack_slapped : Game := state_after two true (eleven_cards ++ [OpSlap "b" 1000 1000]).

(** ... and has been answered this. *)
Definition jack_slap_answer : Protocol.SlapResultPayload :=
  Protocol.mkSlapResult "b" true "jack" 11 0.

(** What the server broadcasts on that slap. *)
Definition jack_slap_actions : list Client.Action :=
  [Client.SLAP_ATTEMPTED (SlapAttemptedPayload.mk "b" "bob");
   Client.SLAP_RESULT jack_slap_answer;
   Client.TURN_CHANGED "b"].

(** The state [GetState] sends with the Jack on top. *)
Definition jack_on_top_state : GameStatePayload :=
  mkGameStatePayload (visiblePile jack_on_top) "b" (GetCardCounts two jack_on_top)
    (CanSlap (GameRules jack_on_top) (pile_cards jack_on_top)).

(** A client that has entered the room, and the same client after the
    game has started for it with the Jack on top. *)
Definition in_room : Client.State :=
  Client.set_room (Some (Client.mkRoomState "ROOM" [] DefaultSettings "playing" "h"))
    Client.initialState.

Definition watching : Client.State := Client.reducer in_room (game_started jack_on_top_state).

(** A manager with the lobby of alice and bob as its one room. *)
Definition one_room : Manager := mkManager {[ "ROOM" := lobby2 ]} ∅.

(** A payload that asks for more players than a room may have, for a
    longer cooldown and for no sandwich slaps. *)
Definition nine_players : UpdateSettingsPayload.t :=
  UpdateSettingsPayload.mk 9 500 10000 false true 1 true 3.

End Scenes.

(** * Properties *)

(** ** The slap rules *)

Module SlapRulesFacts.

Lemma at_index_from_top (below top3 : list Card) (k : nat) :
  k < length top3 ->
  at_index (below ++ top3) (length (below ++ top3) - S k)
  = at_index top3 (length top3 - S k).
Proof.
  intros Hk. unfold at_index. rewrite length_app.
  rewrite app_nth2 by lia. f_equal. lia.
Qed.

Lemma rev_top3 (a b c : Card) (l : list Card) :
  rev (a :: b :: c :: l) = rev l ++ [c; b; a].
Proof. simpl. rewrite <- !app_assoc. reflexivity. Qed.

(** C2. [CheckSlap] is the top-down, first-match evaluation of the slap
    conditions: a Jack on top gives [jack] whatever the settings; else, with
    doubles enabled, two equal ranks on top give [doubles]; else, with
    sandwich enabled, equal ranks on top and third from the top give
    [sandwich]; else, and on the empty pile, [invalid]. *)
Theorem C2_CheckSlap_first_match (r : Rules) (pile : list Card) :
  CheckSlap r pile = slap_conditions r pile.
Proof.
  unfold slap_conditions.
  rewrite <- (rev_involutive pile) at 1.
  destruct (rev pile) as [|a [|b [|c l]]].
  - reflexivity.
  - unfold CheckSlap, IsJack, at_index. simpl.
    destruct (String.eqb (Rank a) "J"); [reflexivity|].
    rewrite !andb_false_r. reflexivity.
  - unfold CheckSlap, IsJack, at_index. simpl.
    destruct (String.eqb (Rank a) "J"); [reflexivity|].
    rewrite andb_true_r, andb_false_r. simpl.
    destruct (EnableDoubles r && String.eqb (Rank a) (Rank b)); reflexivity.
  - rewrite rev_top3. unfold CheckSlap, IsJack.
    rewrite !(at_index_from_top (rev l) [c; b; a]) by (simpl; lia).
    assert (Hn : length (rev l ++ [c; b; a]) = S (S (S (length (rev l))))).
    { rewrite length_app. simpl. lia. }
    rewrite Hn. unfold at_index. simpl.
    destruct (String.eqb (Rank a) "J"); [reflexivity|].
    rewrite !andb_true_r.
    destruct (EnableDoubles r && String.eqb (Rank a) (Rank b)); [reflexivity|].
    destruct (EnableSandwich r && String.eqb (Rank a) (Rank c)); reflexivity.
Qed.

(** The scenarios of the specification. *)
Example scenario_A_jack (d s : bool) :
  CheckSlap (NewRules d s) [mkCard "hearts" "4"; mkCard "spades" "J"] = SlapReasonJack.
Proof. reflexivity. Qed.

Example scenario_B_doubles :
  CheckSlap (NewRules true false) [mkCard "clubs" "5"; mkCard "diamonds" "5"] = SlapReasonDoubles
  /\ CheckSlap (NewRules false false) [mkCard "clubs" "5"; mkCard "diamonds" "5"] = SlapReasonInvalid.
Proof. split; reflexivity. Qed.

Example scenario_C_sandwich :
  CheckSlap (NewRules false true)
    [mkCard "spades" "9"; mkCard "hearts" "2"; mkCard "clubs" "9"] = SlapReasonSandwich.
Proof. reflexivity. Qed.

End SlapRulesFacts.

(** ** Slices *)

Module SliceFacts.

Lemma length_write_at (i : nat) (xs a : list Card) :
  i + length xs <= length a -> length (write_at i xs a) = length a.
Proof.
  intros H. unfold write_at.
  rewrite !length_app, length_take, length_drop. lia.
Qed.

Lemma take_drop_write_at (i : nat) (xs a : list Card) (o n : nat) :
  i + length xs <= length a -> o <= i -> i = o + n ->
  take (n + length xs) (drop o (write_at i xs a)) = take n (drop o a) ++ xs.
Proof.
  intros Hfit Ho ->. unfold write_at.
  rewrite drop_app_le by (rewrite length_take; lia).
  rewrite take_app_ge by (rewrite length_drop, length_take; lia).
  rewrite length_drop, length_take.
  replace (n + length xs - (Nat.min (o + n) (length a) - o)) with (length xs) by lia.
  rewrite take_app_length.
  f_equal.
  rewrite <- take_drop_commute. reflexivity.
Qed.

Lemma arr_of_insert_eq (h : store) (a : nat) (x : list Card) :
  a < length h -> arr_of (<[a := x]> h) a = x.
Proof. intros H. unfold arr_of. rewrite list_lookup_insert_eq by done. reflexivity. Qed.

Lemma arr_of_insert_ne (h : store) (a b : nat) (x : list Card) :
  a ≠ b -> arr_of (<[a := x]> h) b = arr_of h b.
Proof. intros H. unfold arr_of. rewrite list_lookup_insert_ne by done. reflexivity. Qed.

Lemma arr_of_ge (h : store) (a : nat) : length h <= a -> arr_of h a = [].
Proof. intros H. unfold arr_of. rewrite lookup_ge_None_2 by done. reflexivity. Qed.

Lemma arr_of_app_l (h : store) (x : list Card) (a : nat) :
  a < length h -> arr_of (h ++ [x]) a = arr_of h a.
Proof. intros H. unfold arr_of. rewrite lookup_app_l by done. reflexivity. Qed.

Lemma arr_of_app_new (h : store) (x : list Card) : arr_of (h ++ [x]) (length h) = x.
Proof.
  unfold arr_of. rewrite lookup_app_r by lia.
  replace (length h - length h) with 0 by lia. reflexivity.
Qed.

(** A slice whose capacity lies in a non-empty range has a real array. *)
Lemma slice_ok_arr_lt (h : store) (s : slice) :
  slice_ok h s -> 0 < s_cap s -> s_arr s < length h.
Proof.
  intros [_ H] Hc. destruct (decide (s_arr s < length h)) as [|Hge]; [done|].
  rewrite arr_of_ge in H by lia. simpl in H. lia.
Qed.

Section Append.
Variable growcap : nat -> nat -> nat.

(** [append] returns a slice showing the old elements followed by the new. *)
Lemma view_append (h : store) (s : slice) (xs : list Card) :
  slice_ok h s ->
  view (fst (append growcap h s xs)) (snd (append growcap h s xs)) = view h s ++ xs.
Proof.
  intros Hok. pose proof Hok as [Hlen Hcap]. unfold append.
  destruct (s_len s + length xs <=? s_cap s) eqn:Hfit; simpl.
  - apply Nat.leb_le in Hfit. unfold view. simpl.
    destruct xs as [|x xs'].
    + simpl. rewrite Nat.add_0_r.
      destruct (decide (s_arr s < length h)) as [Hlt|Hge].
      * rewrite arr_of_insert_eq by done. unfold write_at. simpl.
        rewrite Nat.add_0_r, take_drop, app_nil_r. reflexivity.
      * unfold arr_of. rewrite list_insert_ge by lia.
        rewrite app_nil_r. reflexivity.
    + assert (Hc : 0 < s_cap s) by (simpl in Hfit; lia).
      rewrite arr_of_insert_eq by (eapply slice_ok_arr_lt; eauto).
      apply take_drop_write_at; lia.
  - unfold view. simpl. rewrite arr_of_app_new. simpl.
    rewrite app_assoc. rewrite drop_0.
    rewrite take_app_length'; [reflexivity|].
    rewrite length_app, length_take, length_drop.
    unfold slice_ok in Hok. lia.
Qed.

Lemma len_append (h : store) (s : slice) (xs : list Card) :
  s_len (snd (append growcap h s xs)) = s_len s + length xs.
Proof. unfold append. destruct (_ <=? _); reflexivity. Qed.

(** Backing arrays never shrink. *)
Lemma append_arrays_grow (h : store) (s : slice) (xs : list Card) (a : nat) :
  slice_ok h s ->
  length (arr_of h a) <= length (arr_of (fst (append growcap h s xs)) a).
Proof.
  intros [Hlen Hcap]. unfold append.
  destruct (s_len s + length xs <=? s_cap s) eqn:Hfit; simpl.
  - apply Nat.leb_le in Hfit.
    destruct (decide (s_arr s = a)) as [<-|Hne].
    + destruct (decide (s_arr s < length h)) as [Hlt|Hge].
      * rewrite arr_of_insert_eq by done. rewrite length_write_at; lia.
      * unfold arr_of. rewrite list_insert_ge by lia. lia.
    + rewrite arr_of_insert_ne by done. lia.
  - destruct (decide (a < length h)) as [Hlt|Hge].
    + rewrite arr_of_app_l by done. lia.
    + rewrite (arr_of_ge h a) by lia. simpl. lia.
Qed.

Lemma slice_ok_append (h : store) (s : slice) (xs : list Card) :
  slice_ok h s ->
  slice_ok (fst (append growcap h s xs)) (snd (append growcap h s xs)).
Proof.
  intros Hok. pose proof (append_arrays_grow h s xs (s_arr s) Hok) as Hgrow.
  destruct Hok as [Hlen Hcap]. unfold append in *.
  destruct (s_len s + length xs <=? s_cap s) eqn:Hfit; simpl in *.
  - apply Nat.leb_le in Hfit. split; simpl; lia.
  - split; simpl; [lia|]. rewrite arr_of_app_new.
    rewrite !length_app, length_replicate.
    unfold view. rewrite length_take, length_drop. lia.
Qed.

End Append.

Lemma make_arrays_grow (h : store) (c a : nat) :
  length (arr_of h a) <= length (arr_of (fst (make h c)) a).
Proof.
  simpl. destruct (decide (a < length h)) as [Hlt|Hge].
  - rewrite arr_of_app_l by done. lia.
  - rewrite (arr_of_ge h a) by lia. simpl. lia.
Qed.

Lemma slice_ok_make (h : store) (c : nat) : slice_ok (fst (make h c)) (snd (make h c)).
Proof.
  split; simpl; [lia|]. rewrite arr_of_app_new, length_replicate. lia.
Qed.

Lemma view_make (h : store) (c : nat) : view (fst (make h c)) (snd (make h c)) = [].
Proof. reflexivity. Qed.

(** A slice stays well formed when the arrays only grow. *)
Lemma slice_ok_mono (h h' : store) (s : slice) :
  (forall a, length (arr_of h a) <= length (arr_of h' a)) ->
  slice_ok h s -> slice_ok h' s.
Proof. intros Hg [H1 H2]. split; [done|]. specialize (Hg (s_arr s)). lia. Qed.

(** Allocating does not change what an existing slice shows. *)
Lemma view_make_other (h : store) (c : nat) (s : slice) :
  slice_ok h s -> view (fst (make h c)) s = view h s.
Proof.
  intros Hok. unfold view. simpl.
  destruct (decide (s_arr s < length h)) as [Hlt|Hge].
  - rewrite arr_of_app_l by done. reflexivity.
  - destruct Hok as [H1 H2]. rewrite (arr_of_ge h) in * by lia. simpl in H2.
    assert (s_len s = 0) by lia. rewrite H. reflexivity.
Qed.

Lemma slice_ok_from (h : store) (s : slice) (n : nat) :
  slice_ok h s -> n <= s_len s -> slice_ok h (slice_from s n).
Proof. intros [H1 H2] Hn. split; simpl; lia. Qed.

Lemma slice_ok_to (h : store) (s : slice) (n : nat) :
  slice_ok h s -> n <= s_len s -> slice_ok h (slice_to s n).
Proof. intros [H1 H2] Hn. split; simpl; lia. Qed.

Lemma view_slice_to (h : store) (s : slice) (n : nat) :
  n <= s_len s -> view h (slice_to s n) = take n (view h s).
Proof.
  intros Hn. unfold view. simpl. rewrite take_take.
  f_equal. lia.
Qed.

Lemma view_slice_from (h : store) (s : slice) (n : nat) :
  n <= s_len s -> view h (slice_from s n) = drop n (view h s).
Proof.
  intros Hn. unfold view. simpl.
  replace (s_len s) with (n + (s_len s - n)) at 2 by lia.
  rewrite <- take_drop_commute, drop_drop. reflexivity.
Qed.

Lemma length_view (h : store) (s : slice) : slice_ok h s -> length (view h s) = s_len s.
Proof.
  intros [H1 H2]. unfold view. rewrite length_take, length_drop. lia.
Qed.

End SliceFacts.

(** ** The engine *)

Module EngineFacts.
Import Engine Invariants SliceFacts.

Lemma mod_once (a n : nat) : n <= a < 2 * n -> a mod n = a - n.
Proof.
  intros H. replace a with ((a - n) + 1 * n) at 1 by lia.
  rewrite Nat.Div0.mod_add. apply Nat.mod_small. lia.
Qed.

Lemma mod_wrap (start n : nat) : start < n -> (start + n) mod n = start.
Proof. intros H. rewrite mod_once by lia. lia. Qed.

Lemma mod_not_back (start j n : nat) :
  start < n -> 0 < j < n -> (start + j) mod n ≠ start.
Proof.
  intros Hs Hj. destruct (decide (start + j < n)).
  - rewrite Nat.mod_small by done. lia.
  - rewrite mod_once by lia. lia.
Qed.

Lemma set_CurrentTurnIdx_twice (i j : nat) (g : Game) :
  set_CurrentTurnIdx i (set_CurrentTurnIdx j g) = set_CurrentTurnIdx i g.
Proof. reflexivity. Qed.

Lemma seat_has_cards_set_idx (i j : nat) (g : Game) :
  seat_has_cards (set_CurrentTurnIdx i g) j = seat_has_cards g j.
Proof. reflexivity. Qed.

(** The loop of [advanceTurn] after [m] seats were passed over. *)
Lemma advance_loop_spec (fuel : nat) : forall (m : nat) (g : Game) (start : nat),
  start < length (TurnOrder g) ->
  CurrentTurnIdx g = (start + m) mod length (TurnOrder g) ->
  m + fuel = length (TurnOrder g) -> 0 < fuel ->
  exists k, m < k <= length (TurnOrder g)
    /\ advance_loop fuel start g
       = Ok (set_CurrentTurnIdx ((start + k) mod length (TurnOrder g)) g)
    /\ (forall j, m < j < k ->
          seat_has_cards g ((start + j) mod length (TurnOrder g)) = false)
    /\ (seat_has_cards g ((start + k) mod length (TurnOrder g)) = true
        \/ k = length (TurnOrder g)).
Proof.
  induction fuel as [|f IH]; intros m g start Hs Hc Hsum Hf; [lia|].
  set (n := length (TurnOrder g)) in *.
  assert (Hn : n ≠ 0) by lia.
  assert (Hnext : (CurrentTurnIdx g + 1) mod n = (start + S m) mod n).
  { rewrite Hc, Nat.Div0.add_mod_idemp_l. f_equal. lia. }
  assert (Hlt : (start + S m) mod n < n) by (apply Nat.mod_upper_bound; done).
  destruct (lookup_lt_is_Some_2 (TurnOrder g) _ Hlt) as [p Hp].
  cbn [advance_loop]. fold n.
  destruct (n =? 0) eqn:Hz; [apply Nat.eqb_eq in Hz; lia|].
  cbn [CurrentTurnIdx set_CurrentTurnIdx TurnOrder]. rewrite Hnext, Hp.
  assert (Hseat : seat_has_cards g ((start + S m) mod n)
                  = (0 <? s_len (hand_of g p))).
  { unfold seat_has_cards. rewrite Hp. reflexivity. }
  change (hand_of (set_CurrentTurnIdx ((start + S m) mod n) g) p) with (hand_of g p).
  destruct (0 <? s_len (hand_of g p)) eqn:Hcards.
  - exists (S m). repeat split; try lia; auto; intros; lia.
  - destruct (Nat.eqb_spec ((start + S m) mod n) start) as [Hback|Hnot].
    + assert (S m = n).
      { destruct (decide (S m = n)); [done|].
        exfalso. apply (mod_not_back start (S m) n); [done|lia|done]. }
      exists (S m). repeat split; try lia; auto; intros; lia.
    + assert (Hf' : 0 < f).
      { destruct f; [|lia]. exfalso. apply Hnot.
        replace (S m) with n by lia. apply mod_wrap. done. }
      destruct (IH (S m) (set_CurrentTurnIdx ((start + S m) mod n) g) start)
        as (k & Hk & Hrun & Hempty & Hlast); try done; try (cbn; fold n; lia).
      exists k. cbn [TurnOrder set_CurrentTurnIdx] in *. fold n in Hk, Hrun, Hempty, Hlast.
      repeat split; try lia.
      * rewrite Hrun. reflexivity.
      * intros j Hj. destruct (decide (j = S m)) as [->|]; [congruence|].
        rewrite <- (seat_has_cards_set_idx ((start + S m) mod n)).
        apply Hempty. lia.
      * rewrite seat_has_cards_set_idx in Hlast. done.
Qed.

(** C7. [advanceTurn] returns, and it moves the turn index circularly to the
    first following seat that holds a card; when every other seat is empty
    it comes back to the seat it started from. *)
Theorem C7_advanceTurn_next_seat (g : Game) :
  CurrentTurnIdx g < length (TurnOrder g) ->
  exists k, 1 <= k <= length (TurnOrder g)
    /\ advanceTurn g
       = Ok (set_CurrentTurnIdx ((CurrentTurnIdx g + k) mod length (TurnOrder g)) g)
    /\ (forall j, 1 <= j < k ->
          seat_has_cards g ((CurrentTurnIdx g + j) mod length (TurnOrder g)) = false)
    /\ (seat_has_cards g ((CurrentTurnIdx g + k) mod length (TurnOrder g)) = true
        \/ k = length (TurnOrder g))
    /\ (k = length (TurnOrder g) ->
        (CurrentTurnIdx g + k) mod length (TurnOrder g) = CurrentTurnIdx g).
Proof.
  intros Hidx.
  destruct (advance_loop_spec (length (TurnOrder g)) 0 g (CurrentTurnIdx g))
    as (k & Hk & Hrun & Hempty & Hlast); try lia.
  { rewrite Nat.add_0_r, Nat.mod_small; done. }
  exists k. split; [lia|]. split; [exact Hrun|]. split; [|split].
  - intros j Hj. apply Hempty. lia.
  - exact Hlast.
  - intros ->. apply mod_wrap. done.
Qed.


Section Runtime.
Variable growcap : nat -> nat -> nat.

(** The loop of [advanceTurn] changes the turn index only. *)
Lemma advance_loop_only_idx (fuel : nat) : forall (start : nat) (g g' : Game),
  advance_loop fuel start g = Ok g' ->
  g' = set_CurrentTurnIdx (CurrentTurnIdx g') g
  /\ CurrentTurnIdx g' < length (TurnOrder g).
Proof.
  induction fuel as [|f IH]; intros start g g' H; [discriminate|].
  cbn [advance_loop] in H.
  destruct (length (TurnOrder g) =? 0) eqn:Hn; [discriminate|].
  apply Nat.eqb_neq in Hn.
  cbn [CurrentTurnIdx set_CurrentTurnIdx TurnOrder] in H.
  set (i := (CurrentTurnIdx g + 1) mod length (TurnOrder g)) in *.
  assert (Hi : i < length (TurnOrder g)) by (apply Nat.mod_upper_bound; done).
  destruct (TurnOrder g !! i) as [p|]; [|discriminate].
  destruct (0 <? s_len (hand_of (set_CurrentTurnIdx i g) p)).
  { injection H as <-. split; [reflexivity|exact Hi]. }
  destruct (i =? start).
  { injection H as <-. split; [reflexivity|exact Hi]. }
  apply IH in H as [H1 H2]. split; [|exact H2].
  rewrite H1 at 1. reflexivity.
Qed.

Lemma advanceTurn_only_idx (g g' : Game) :
  advanceTurn g = Ok g' ->
  g' = set_CurrentTurnIdx (CurrentTurnIdx g') g
  /\ CurrentTurnIdx g' < length (TurnOrder g).
Proof. apply advance_loop_only_idx. Qed.

(** [advanceTurn] returns in every state whose turn index names a seat. *)
Lemma advanceTurn_returns (g : Game) :
  CurrentTurnIdx g < length (TurnOrder g) -> exists g', advanceTurn g = Ok g'.
Proof.
  intros H.
  destruct (advance_loop_spec (length (TurnOrder g)) 0 g (CurrentTurnIdx g))
    as (k & _ & Hrun & _); try lia.
  { rewrite Nat.add_0_r, Nat.mod_small; done. }
  unfold advanceTurn. eauto.
Qed.

(** C8. A [PlayCard] by a player who is not at the current turn index, or
    whose hand is empty, returns an error and the state it was given; a play
    succeeds only for the current player holding a card, so of all the plays
    attempted in a state at most one player's succeeds. *)
Theorem C8_PlayCard_single_writer (g : Game) (p : string) :
  CurrentTurnIdx g < length (TurnOrder g) ->
  (TurnOrder g !! CurrentTurnIdx g ≠ Some p \/ s_len (hand_of g p) = 0 ->
     exists msg, PlayCard growcap p g = Ok (PlayError msg, g))
  /\ (forall c g', PlayCard growcap p g = Ok (Played c, g') ->
        TurnOrder g !! CurrentTurnIdx g = Some p /\ 0 < s_len (hand_of g p))
  /\ (forall q c c' g' g'',
        PlayCard growcap p g = Ok (Played c, g') ->
        PlayCard growcap q g = Ok (Played c', g'') -> p = q).
Proof.
  intros Hidx.
  destruct (lookup_lt_is_Some_2 (TurnOrder g) _ Hidx) as [cur Hcur].
  assert (Hsucc : forall q c g', PlayCard growcap q g = Ok (Played c, g') ->
            cur = q /\ 0 < s_len (hand_of g q)).
  { intros q c g' H. unfold PlayCard in H. rewrite Hcur in H.
    destruct (String.eqb_spec cur q) as [->|Hne]; simpl in H; [|discriminate].
    destruct (s_len (hand_of g q)) eqn:Hlen; simpl in H; [discriminate|].
    split; [reflexivity|lia]. }
  split; [|split].
  - intros Hbad. unfold PlayCard. rewrite Hcur.
    destruct (String.eqb_spec cur p) as [->|Hne]; simpl.
    + destruct Hbad as [Hbad| ->]; [congruence|]. simpl. eauto.
    + eauto.
  - intros c g' H. destruct (Hsucc _ _ _ H) as [-> Hlen]. split; [exact Hcur|exact Hlen].
  - intros q c c' g' g'' H1 H2.
    destruct (Hsucc _ _ _ H1) as [<- _]. destruct (Hsucc _ _ _ H2) as [<- _]. reflexivity.
Qed.


(** *** Well-formedness is kept by every operation *)

Lemma slice_ok_nil (h : store) : slice_ok h nil_slice.
Proof. split; simpl; lia. Qed.

Lemma hand_of_ok (g : Game) (p : string) : wf_game g -> slice_ok (Mem g) (hand_of g p).
Proof.
  intros (_ & _ & Hh). unfold hand_of.
  destruct (PlayerHands g !! p) as [s|] eqn:E; simpl.
  - exact (Hh p s E).
  - apply slice_ok_nil.
Qed.

Lemma hands_ok_mono (h h' : store) (m : gmap string slice) :
  (forall a, length (arr_of h a) <= length (arr_of h' a)) ->
  map_Forall (fun _ s => slice_ok h s) m -> map_Forall (fun _ s => slice_ok h' s) m.
Proof. intros Hg Hm k s Hk. eapply slice_ok_mono; eauto. Qed.

Lemma wf_set_idx (i : nat) (g : Game) :
  wf_game g -> i < length (TurnOrder g) -> wf_game (set_CurrentTurnIdx i g).
Proof. unfold wf_game. simpl. tauto. Qed.

Lemma wf_play_front (p : string) (g : Game) :
  wf_game g -> 0 < s_len (hand_of g p) ->
  wf_game (snd (play_front growcap p (hand_of g p) g)).
Proof.
  intros Hwf Hlen. pose proof (hand_of_ok g p Hwf) as Hhand.
  destruct Hwf as (Hidx & Hpile & Hhands).
  unfold play_front. cbn [Mem Pile set_PlayerHands].
  pose proof (slice_ok_append growcap (Mem g) (Pile g) [read (Mem g) (hand_of g p) 0] Hpile) as Hp'.
  pose proof (append_arrays_grow growcap (Mem g) (Pile g) [read (Mem g) (hand_of g p) 0]) as Hgrow.
  set (r := append growcap (Mem g) (Pile g) [read (Mem g) (hand_of g p) 0]) in *.
  simpl.
  split; [exact Hidx|]. split; [exact Hp'|]. simpl.
  apply map_Forall_insert_2.
  - eapply slice_ok_mono; [intros a; apply Hgrow; done|].
    apply slice_ok_from; [done|lia].
  - eapply hands_ok_mono; [intros a; apply Hgrow; done|done].
Qed.

Lemma play_front_TurnOrder (p : string) (s : slice) (g : Game) :
  TurnOrder (snd (play_front growcap p s g)) = TurnOrder g
  /\ CurrentTurnIdx (snd (play_front growcap p s g)) = CurrentTurnIdx g.
Proof.
  split; reflexivity.
Qed.

Lemma wf_PlayCard (p : string) (g g' : Game) (r : play_result) :
  wf_game g -> PlayCard growcap p g = Ok (r, g') -> wf_game g'.
Proof.
  intros Hwf H. unfold PlayCard in H.
  destruct (TurnOrder g !! CurrentTurnIdx g) as [cur|]; [|discriminate].
  destruct (negb (String.eqb cur p)); [injection H as _ <-; done|].
  destruct (s_len (hand_of g p) =? 0) eqn:Hlen; [injection H as _ <-; done|].
  apply Nat.eqb_neq in Hlen.
  pose proof (wf_play_front p g Hwf ltac:(lia)) as Hwf1.
  pose proof (play_front_TurnOrder p (hand_of g p) g) as [HT HI].
  set (g1 := snd (play_front growcap p (hand_of g p) g)) in *.
  destruct (advanceTurn _) as [g2| |] eqn:Hadv; simpl in H; try discriminate.
  injection H as _ <-.
  apply advanceTurn_only_idx in Hadv as [-> Hi].
  apply wf_set_idx; [|exact Hi].
  revert Hwf1. unfold wf_game. simpl. tauto.
Qed.

Lemma wf_timeout (g g' : Game) (msgs : list Protocol.Message) (b : bool) :
  wf_game g -> StartTurnTimer_timeout growcap g = Ok (msgs, b, g') -> wf_game g'.
Proof.
  intros Hwf H. unfold StartTurnTimer_timeout in H.
  destruct (TurnOrder g !! CurrentTurnIdx g) as [cur|]; [|discriminate].
  destruct (0 <? s_len (hand_of g cur)) eqn:Hlen; [|injection H as _ _ <-; done].
  apply Nat.ltb_lt in Hlen.
  pose proof (wf_play_front cur g Hwf Hlen) as Hwf1.
  set (g1 := snd (play_front growcap cur (hand_of g cur) g)) in *.
  destruct (advanceTurn _) as [g2| |] eqn:Hadv; simpl in H; try discriminate.
  destruct (GetCurrentPlayer g2); simpl in H; try discriminate.
  injection H as _ _ <-.
  apply advanceTurn_only_idx in Hadv as [-> Hi].
  apply wf_set_idx; [|exact Hi].
  revert Hwf1. unfold wf_game. simpl. tauto.
Qed.

Lemma wf_applyBurnPenalty (p : string) (g g' : Game) (n : Z) :
  wf_game g -> applyBurnPenalty growcap p g = Ok (n, g') -> wf_game g'.
Proof.
  intros Hwf H. pose proof (hand_of_ok g p Hwf) as Hhand.
  unfold applyBurnPenalty in H.
  destruct (s_len (hand_of g p) =? 0); [injection H as _ <-; done|].
  set (b := if (Z.of_nat (s_len (hand_of g p)) <? BurnPenalty g)%Z
            then Z.of_nat (s_len (hand_of g p)) else BurnPenalty g) in *.
  destruct (b <? 0)%Z eqn:Hb; [discriminate|]. apply Z.ltb_ge in Hb.
  assert (Hle : Z.to_nat b <= s_len (hand_of g p)).
  { subst b. destruct (Z.ltb_spec (Z.of_nat (s_len (hand_of g p))) (BurnPenalty g)); lia. }
  cbn [Mem Pile set_PlayerHands] in H.
  pose proof (slice_ok_to (Mem g) (hand_of g p) (Z.to_nat b) Hhand Hle) as Hto.
  pose proof (slice_ok_append growcap (Mem g) _ (view (Mem g) (Pile g)) Hto) as Hp'.
  pose proof (fun a => append_arrays_grow growcap (Mem g) _ (view (Mem g) (Pile g)) a Hto)
    as Hgrow.
  injection H as _ <-.
  destruct Hwf as (Hidx & Hpile & Hhands).
  split; [exact Hidx|]. split; [exact Hp'|]. simpl.
  apply map_Forall_insert_2.
  - eapply slice_ok_mono; [exact Hgrow|].
    apply slice_ok_from; done.
  - eapply hands_ok_mono; [exact Hgrow|done].
Qed.

Lemma seat_of_lt (p : string) (order : list string) (i : nat) :
  seat_of p order = Some i -> i < length order /\ order !! i = Some p.
Proof.
  revert i. induction order as [|id rest IH]; intros i H; simpl in H; [discriminate|].
  destruct (String.eqb_spec id p) as [->|Hne].
  - injection H as <-. simpl. split; [lia|reflexivity].
  - destruct (seat_of p rest) as [j|]; simpl in H; [|discriminate].
    injection H as <-. destruct (IH j eq_refl). simpl. split; [lia|done].
Qed.

Lemma wf_set_Stats (st : GameStats) (g : Game) : wf_game g -> wf_game (set_Stats st g).
Proof. unfold wf_game. simpl. tauto. Qed.
Lemma wf_set_LastSlapTime (m : gmap string Z) (g : Game) :
  wf_game g -> wf_game (set_LastSlapTime m g).
Proof. unfold wf_game. simpl. tauto. Qed.
Lemma wf_set_SlapInCounts (m : gmap string Z) (g : Game) :
  wf_game g -> wf_game (set_SlapInCounts m g).
Proof. unfold wf_game. simpl. tauto. Qed.
Lemma wf_set_SlapWindowOpen (b : bool) (g : Game) :
  wf_game g -> wf_game (set_SlapWindowOpen b g).
Proof. unfold wf_game. simpl. tauto. Qed.

Lemma wf_take_pile (p : string) (g : Game) : wf_game g -> wf_game (take_pile growcap p g).
Proof.
  intros Hwf. pose proof (hand_of_ok g p Hwf) as Hhand.
  destruct Hwf as (Hidx & Hpile & Hhands). unfold take_pile.
  pose proof (slice_ok_append growcap (Mem g) _ (view (Mem g) (Pile g)) Hhand) as Hh'.
  pose proof (fun a => append_arrays_grow growcap (Mem g) _ (view (Mem g) (Pile g)) a Hhand)
    as Hgrow.
  set (r := append growcap (Mem g) (hand_of g p) (view (Mem g) (Pile g))) in *.
  cbn [Mem set_PlayerHands set_Mem].
  pose proof (make_arrays_grow (fst r) 52) as Hgrow2.
  split; [exact Hidx|]. split; [|cbn [Mem PlayerHands set_Pile set_Mem set_PlayerHands]].
  - exact (slice_ok_make (fst r) 52).
  - apply map_Forall_insert_2.
    + eapply slice_ok_mono; [exact Hgrow2|done].
    + eapply hands_ok_mono; [|exact Hhands].
      intros a. etransitivity; [apply Hgrow|apply Hgrow2].
Qed.

(** *** The branches of [ProcessSlap] *)

Lemma ProcessSlap_cooldown (p : string) (now stamp : Z) (g : Game) :
  in_cooldown g p now = true ->
  ProcessSlap growcap p now stamp g
  = Ok (Protocol.mkSlapResult p false "cooldown" 0 0, count_attempt g).
Proof.
  intros H. unfold ProcessSlap. cbv zeta.
  change (in_cooldown (count_attempt g) p now) with (in_cooldown g p now).
  rewrite H. reflexivity.
Qed.

Lemma ProcessSlap_eliminated (p : string) (now stamp : Z) (g : Game) :
  in_cooldown g p now = false ->
  s_len (hand_of g p) = 0 -> canSlapIn g p = false ->
  ProcessSlap growcap p now stamp g
  = Ok (Protocol.mkSlapResult p false "eliminated" 0 0, stamp_attempt p stamp g).
Proof.
  intros Hc Hlen Hin. unfold ProcessSlap. cbv zeta.
  change (in_cooldown (count_attempt g) p now) with (in_cooldown g p now).
  rewrite Hc.
  change (hand_of (stamp_attempt p stamp g) p) with (hand_of g p).
  change (canSlapIn (stamp_attempt p stamp g) p) with (canSlapIn g p).
  rewrite Hlen, Hin. reflexivity.
Qed.

Lemma ProcessSlap_slapin_invalid (p : string) (now stamp : Z) (g : Game) :
  in_cooldown g p now = false ->
  s_len (hand_of g p) = 0 -> canSlapIn g p = true ->
  CheckSlap (GameRules g) (pile_cards g) = SlapReasonInvalid ->
  ProcessSlap growcap p now stamp g
  = Ok (Protocol.mkSlapResult p false "invalid" 0 0, stamp_attempt p stamp g).
Proof.
  intros Hc Hlen Hin Hr. unfold ProcessSlap. cbv zeta.
  change (in_cooldown (count_attempt g) p now) with (in_cooldown g p now).
  rewrite Hc.
  change (hand_of (stamp_attempt p stamp g) p) with (hand_of g p).
  change (canSlapIn (stamp_attempt p stamp g) p) with (canSlapIn g p).
  change (view (Mem (stamp_attempt p stamp g)) (Pile (stamp_attempt p stamp g)))
    with (pile_cards g).
  change (GameRules (stamp_attempt p stamp g)) with (GameRules g).
  rewrite Hlen, Hin, Hr. reflexivity.
Qed.

Lemma ProcessSlap_burn (p : string) (now stamp : Z) (g : Game) :
  in_cooldown g p now = false ->
  0 < s_len (hand_of g p) ->
  CheckSlap (GameRules g) (pile_cards g) = SlapReasonInvalid ->
  ProcessSlap growcap p now stamp g
  = let* burned := applyBurnPenalty growcap p (stamp_attempt p stamp g) in
    Ok (Protocol.mkSlapResult p false "invalid" 0 (fst burned),
        charge_burn p (fst burned) (snd burned)).
Proof.
  intros Hc Hlen Hr. unfold ProcessSlap. cbv zeta.
  change (in_cooldown (count_attempt g) p now) with (in_cooldown g p now).
  rewrite Hc.
  change (hand_of (stamp_attempt p stamp g) p) with (hand_of g p).
  change (view (Mem (stamp_attempt p stamp g)) (Pile (stamp_attempt p stamp g)))
    with (pile_cards g).
  change (GameRules (stamp_attempt p stamp g)) with (GameRules g).
  apply Nat.ltb_lt in Hlen. rewrite Hlen, Hr. reflexivity.
Qed.

Lemma ProcessSlap_valid (p : string) (now stamp : Z) (g : Game) :
  in_cooldown g p now = false ->
  0 < s_len (hand_of g p) \/ canSlapIn g p = true ->
  CheckSlap (GameRules g) (pile_cards g) ≠ SlapReasonInvalid ->
  ProcessSlap growcap p now stamp g
  = Ok (Protocol.mkSlapResult p true
          (reason_string (CheckSlap (GameRules g) (pile_cards g)))
          (Z.of_nat (s_len (Pile g))) 0,
        slap_won_state growcap p (0 <? s_len (hand_of g p)) (stamp_attempt p stamp g)).
Proof.
  intros Hc Hallowed Hr. unfold ProcessSlap. cbv zeta.
  change (in_cooldown (count_attempt g) p now) with (in_cooldown g p now).
  rewrite Hc.
  change (hand_of (stamp_attempt p stamp g) p) with (hand_of g p).
  change (view (Mem (stamp_attempt p stamp g)) (Pile (stamp_attempt p stamp g)))
    with (pile_cards g).
  change (GameRules (stamp_attempt p stamp g)) with (GameRules g).
  change (canSlapIn (stamp_attempt p stamp g) p) with (canSlapIn g p).
  rewrite (bool_decide_eq_false_2 _ Hr), !andb_false_r.
  assert (Hgate : negb (0 <? s_len (hand_of g p)) && negb (canSlapIn g p) = false).
  { destruct Hallowed as [H|H].
    - apply Nat.ltb_lt in H. rewrite H. reflexivity.
    - rewrite H. apply andb_false_r. }
  rewrite Hgate. reflexivity.
Qed.

Lemma wf_count_attempt (g : Game) : wf_game g -> wf_game (count_attempt g).
Proof. apply wf_set_Stats. Qed.

Lemma wf_stamp_attempt (p : string) (stamp : Z) (g : Game) :
  wf_game g -> wf_game (stamp_attempt p stamp g).
Proof. intros H. apply wf_set_LastSlapTime, wf_count_attempt, H. Qed.

Lemma wf_slap_won_state (p : string) (b : bool) (g : Game) :
  wf_game g -> wf_game (slap_won_state growcap p b g).
Proof.
  intros Hwf. unfold slap_won_state.
  set (g2 := if negb b then _ else g).
  assert (Hwf2 : wf_game g2).
  { subst g2. destruct (negb b); [apply wf_set_SlapInCounts|]; exact Hwf. }
  set (g4 := set_Stats _ _).
  assert (Hwf4 : wf_game g4).
  { subst g4. apply wf_set_Stats, wf_set_SlapWindowOpen, wf_take_pile, Hwf2. }
  destruct (seat_of p (TurnOrder g4)) as [i|] eqn:Hseat; [|exact Hwf4].
  apply wf_set_idx; [exact Hwf4|]. apply seat_of_lt in Hseat. tauto.
Qed.

Lemma wf_ProcessSlap (p : string) (now stamp : Z) (g g' : Game)
    (r : Protocol.SlapResultPayload) :
  wf_game g -> ProcessSlap growcap p now stamp g = Ok (r, g') -> wf_game g'.
Proof.
  intros Hwf H.
  destruct (in_cooldown g p now) eqn:Hc.
  { rewrite ProcessSlap_cooldown in H by done. injection H as _ <-.
    apply wf_count_attempt, Hwf. }
  destruct (decide (CheckSlap (GameRules g) (pile_cards g) = SlapReasonInvalid)) as [Hr|Hr];
  destruct (s_len (hand_of g p)) as [|n] eqn:Hlen;
  destruct (canSlapIn g p) eqn:Hin.
  - rewrite ProcessSlap_slapin_invalid in H by done. injection H as _ <-.
    apply wf_stamp_attempt, Hwf.
  - rewrite ProcessSlap_eliminated in H by done. injection H as _ <-.
    apply wf_stamp_attempt, Hwf.
  - rewrite ProcessSlap_burn in H by (done || lia).
    destruct (applyBurnPenalty _ _ _) as [[k g1]| |] eqn:Hb; try discriminate.
    simpl in H. injection H as _ <-.
    apply wf_set_Stats. eapply wf_applyBurnPenalty; [|exact Hb].
    apply wf_stamp_attempt, Hwf.
  - rewrite ProcessSlap_burn in H by (done || lia).
    destruct (applyBurnPenalty _ _ _) as [[k g1]| |] eqn:Hb; try discriminate.
    simpl in H. injection H as _ <-.
    apply wf_set_Stats. eapply wf_applyBurnPenalty; [|exact Hb].
    apply wf_stamp_attempt, Hwf.
  - rewrite ProcessSlap_valid in H by (auto || lia). injection H as _ <-.
    apply wf_slap_won_state, wf_stamp_attempt, Hwf.
  - rewrite ProcessSlap_eliminated in H by done. injection H as _ <-.
    apply wf_stamp_attempt, Hwf.
  - rewrite ProcessSlap_valid in H by (auto || (left; lia)). injection H as _ <-.
    apply wf_slap_won_state, wf_stamp_attempt, Hwf.
  - rewrite ProcessSlap_valid in H by (auto || (left; lia)). injection H as _ <-.
    apply wf_slap_won_state, wf_stamp_attempt, Hwf.
Qed.

Lemma wf_step (o : op) (g g' : Game) (e : event) :
  wf_game g -> step growcap o g = Ok (e, g') -> wf_game g'.
Proof.
  intros Hwf H. destruct o as [p|p now stamp|]; simpl in H.
  - destruct (PlayCard growcap p g) as [[r g1]| |] eqn:E; try discriminate.
    simpl in H. injection H as _ <-. eapply wf_PlayCard; eauto.
  - destruct (ProcessSlap growcap p now stamp g) as [[r g1]| |] eqn:E; try discriminate.
    simpl in H. injection H as _ <-. eapply wf_ProcessSlap; eauto.
  - destruct (StartTurnTimer_timeout growcap g) as [[[m b] g1]| |] eqn:E; try discriminate.
    simpl in H. injection H as _ <-. eapply wf_timeout; eauto.
Qed.

(** *** [NewGame] creates a well-formed state *)

Lemma make_hands_ok (k c : nat) : forall (h : store),
  Forall (slice_ok (fst (make_hands k c h))) (snd (make_hands k c h))
  /\ length (snd (make_hands k c h)) = k
  /\ (forall a, length (arr_of h a) <= length (arr_of (fst (make_hands k c h)) a)).
Proof.
  induction k as [|k IH]; intros h.
  - simpl. split; [constructor|]. split; [reflexivity|]. intros a. lia.
  - cbn [make_hands]. cbv zeta.
    set (r := make h c). cbn [fst snd].
    destruct (IH (fst r)) as (Hall & Hlen & Hgrow).
    split; [|split].
    + constructor; [|exact Hall].
      eapply slice_ok_mono; [exact Hgrow|]. apply slice_ok_make.
    + cbn [length]. f_equal. exact Hlen.
    + intros a. etransitivity; [apply (make_arrays_grow h c)|apply Hgrow].
Qed.

Lemma deal_loop_ok (n : nat) (cards : list Card) : forall (i : nat) (h h' : store)
    (hands hands' : list slice),
  Forall (slice_ok h) hands ->
  deal_loop growcap n cards i h hands = Ok (h', hands') ->
  Forall (slice_ok h') hands' /\ length hands' = length hands
  /\ (cards ≠ [] -> n ≠ 0).
Proof.
  induction cards as [|card rest IH]; intros i h h' hands hands' Hall H.
  - injection H as <- <-. split; [done|]. split; [done|]. congruence.
  - cbn [deal_loop] in H.
    destruct (n =? 0) eqn:Hn; [discriminate|]. apply Nat.eqb_neq in Hn.
    destruct (hands !! (i mod n)) as [s|] eqn:Hs; [|discriminate].
    cbv zeta in H.
    assert (Hok : slice_ok h s).
    { rewrite Forall_lookup in Hall. eapply Hall; eauto. }
    apply IH in H as (H1 & H2 & _).
    + split; [exact H1|]. split; [|done]. rewrite H2, length_insert. reflexivity.
    + apply Forall_insert.
      * eapply Forall_impl; [exact Hall|]. intros s0 Hs0. simpl in Hs0.
        eapply slice_ok_mono; [|exact Hs0].
        intros a. apply append_arrays_grow. exact Hok.
      * apply slice_ok_append. exact Hok.
Qed.

Lemma fold_insert_zip_Forall (P : slice -> Prop) (ids : list string) :
  forall (hands : list slice) (acc : gmap string slice),
  Forall P hands -> map_Forall (fun _ s => P s) acc ->
  map_Forall (fun _ s => P s)
    (fold_left (fun m '(id, s) => <[id := s]> m) (zip ids hands) acc).
Proof.
  induction ids as [|id ids IH]; intros hands acc Hh Hacc; [exact Hacc|].
  destruct hands as [|s hands]; [exact Hacc|].
  simpl. apply IH.
  - eapply Forall_inv_tail; eauto.
  - apply map_Forall_insert_2; [|exact Hacc]. eapply Forall_inv; eauto.
Qed.

Lemma wf_NewGame (deck : list Card) (playerIDs : list string) (d s : bool)
    (burnPenalty cooldown timeout : Z) (slapIn : bool) (maxSlapIns : Z) (g : Game) :
  deck ≠ [] ->
  NewGame growcap deck playerIDs d s burnPenalty cooldown timeout slapIn maxSlapIns = Ok g ->
  wf_game g.
Proof.
  intros Hdeck H. unfold NewGame in H.
  destruct (Deal growcap deck (length playerIDs)) as [[h hands]| |] eqn:Hdeal;
    try discriminate.
  simpl in H. injection H as <-.
  unfold Deal in Hdeal. cbv zeta in Hdeal.
  destruct (make_hands_ok (length playerIDs) (52 / length playerIDs + 1) []) as (Hall & Hlen & _).
  apply deal_loop_ok in Hdeal as (Hall' & Hlen' & Hn); [|exact Hall].
  split; [|split]; simpl.
  - specialize (Hn Hdeck). lia.
  - exact (slice_ok_make h 52).
  - apply fold_insert_zip_Forall.
    + eapply Forall_impl; [exact Hall'|]. intros s0 Hs0. simpl in Hs0.
      eapply slice_ok_mono; [|exact Hs0]. apply (make_arrays_grow h 52).
    + intros k x Hk. rewrite lookup_empty in Hk. discriminate.
Qed.

Lemma NewDeck_nonempty (deck : list Card) : Permutation deck NewDeck -> deck ≠ [].
Proof.
  intros H ->. apply Permutation_length in H. vm_compute in H. discriminate.
Qed.

(** Every state of a game is well formed. *)
Lemma reachable_wf (g : Game) : reachable growcap g -> wf_game g.
Proof.
  induction 1 as [deck ids d s bp cd tt si ms g Hperm _ Hnew | g o e g' _ IH Hstep].
  - eapply wf_NewGame; [|exact Hnew]. apply NewDeck_nonempty, Hperm.
  - eapply wf_step; eauto.
Qed.

(** *** What each operation returns, by cases *)

Lemma PlayCard_cases (p : string) (g g' : Game) (r : play_result) :
  PlayCard growcap p g = Ok (r, g') ->
  (g' = g /\ exists msg, r = PlayError msg)
  \/ (TurnOrder g !! CurrentTurnIdx g = Some p /\ 0 < s_len (hand_of g p)
      /\ r = Played (read (Mem g) (hand_of g p) 0)
      /\ exists i, i < length (TurnOrder g)
         /\ g' = set_CurrentTurnIdx i
                   (set_PendingSlaps []
                      (set_SlapWindowOpen true (snd (play_front growcap p (hand_of g p) g))))).
Proof.
  intros H. unfold PlayCard in H.
  destruct (TurnOrder g !! CurrentTurnIdx g) as [cur|] eqn:Hcur; [|discriminate].
  destruct (String.eqb_spec cur p) as [->|Hne]; simpl in H;
    [|injection H as <- <-; left; eauto].
  destruct (s_len (hand_of g p) =? 0) eqn:Hlen; [injection H as <- <-; left; eauto|].
  apply Nat.eqb_neq in Hlen. cbv zeta in H.
  destruct (advanceTurn _) as [g2| |] eqn:Hadv; simpl in H; try discriminate.
  injection H as <- <-. apply advanceTurn_only_idx in Hadv as [Hg2 Hi].
  right. split; [reflexivity|]. split; [lia|]. split; [reflexivity|].
  exists (CurrentTurnIdx g2). split; [exact Hi|]. rewrite Hg2 at 1. reflexivity.
Qed.

Lemma timeout_cases (g g' : Game) (msgs : list Protocol.Message) (b : bool) :
  StartTurnTimer_timeout growcap g = Ok (msgs, b, g') ->
  (g' = g /\ b = false /\ msgs = [])
  \/ (exists cur i, TurnOrder g !! CurrentTurnIdx g = Some cur
        /\ 0 < s_len (hand_of g cur) /\ b = true /\ i < length (TurnOrder g)
        /\ g' = set_CurrentTurnIdx i
                  (set_SlapWindowOpen true (snd (play_front growcap cur (hand_of g cur) g)))).
Proof.
  intros H. unfold StartTurnTimer_timeout in H.
  destruct (TurnOrder g !! CurrentTurnIdx g) as [cur|] eqn:Hcur; [|discriminate].
  destruct (0 <? s_len (hand_of g cur)) eqn:Hlen; [|injection H as <- <- <-; left; eauto].
  apply Nat.ltb_lt in Hlen. cbv zeta in H.
  destruct (advanceTurn _) as [g2| |] eqn:Hadv; simpl in H; try discriminate.
  destruct (GetCurrentPlayer g2); simpl in H; try discriminate.
  injection H as <- <- <-. apply advanceTurn_only_idx in Hadv as [Hg2 Hi].
  right. exists cur, (CurrentTurnIdx g2).
  split; [reflexivity|]. split; [exact Hlen|]. split; [reflexivity|].
  split; [exact Hi|]. rewrite Hg2 at 1. reflexivity.
Qed.

(** The state a burn of [b] cards leaves. *)
Lemma applyBurnPenalty_cases (p : string) (g g' : Game) (n : Z) :
  applyBurnPenalty growcap p g = Ok (n, g') ->
  (s_len (hand_of g p) = 0 /\ n = 0%Z /\ g' = g)
  \/ (0 < s_len (hand_of g p) /\ (0 <= n)%Z
      /\ n = Z.min (BurnPenalty g) (Z.of_nat (s_len (hand_of g p)))
      /\ g' = burn_state growcap p (Z.to_nat n) g).
Proof.
  intros H. unfold applyBurnPenalty in H.
  destruct (s_len (hand_of g p) =? 0) eqn:Hlen.
  { injection H as <- <-. apply Nat.eqb_eq in Hlen. left. eauto. }
  apply Nat.eqb_neq in Hlen. cbv zeta in H.
  set (b := if (Z.of_nat (s_len (hand_of g p)) <? BurnPenalty g)%Z
            then Z.of_nat (s_len (hand_of g p)) else BurnPenalty g) in *.
  destruct (b <? 0)%Z eqn:Hb; [discriminate|]. apply Z.ltb_ge in Hb.
  injection H as <- <-. right. split; [lia|]. split; [exact Hb|]. split; [|reflexivity].
  subst b. destruct (Z.ltb_spec (Z.of_nat (s_len (hand_of g p))) (BurnPenalty g)); lia.
Qed.

Lemma ProcessSlap_cases (p : string) (now stamp : Z) (g g' : Game)
    (r : Protocol.SlapResultPayload) :
  ProcessSlap growcap p now stamp g = Ok (r, g') ->
  (in_cooldown g p now = true /\ g' = count_attempt g
   /\ r = Protocol.mkSlapResult p false "cooldown" 0 0)
  \/ (in_cooldown g p now = false /\ g' = stamp_attempt p stamp g
      /\ Protocol.Success r = false /\ Protocol.Reason r ≠ "cooldown")
  \/ (in_cooldown g p now = false /\ Protocol.Success r = false
      /\ Protocol.Reason r ≠ "cooldown"
      /\ exists n g1, applyBurnPenalty growcap p (stamp_attempt p stamp g) = Ok (n, g1)
           /\ g' = charge_burn p n g1)
  \/ (in_cooldown g p now = false /\ Protocol.Success r = true
      /\ Protocol.Reason r ≠ "cooldown"
      /\ g' = slap_won_state growcap p (0 <? s_len (hand_of g p)) (stamp_attempt p stamp g)).
Proof.
  intros H.
  destruct (in_cooldown g p now) eqn:Hc.
  { rewrite ProcessSlap_cooldown in H by done. injection H as <- <-. left. eauto. }
  right.
  destruct (decide (CheckSlap (GameRules g) (pile_cards g) = SlapReasonInvalid)) as [Hr|Hr].
  - destruct (s_len (hand_of g p)) as [|n] eqn:Hlen.
    + left. destruct (canSlapIn g p) eqn:Hin.
      * rewrite ProcessSlap_slapin_invalid in H by done. injection H as <- <-.
        repeat split; done.
      * rewrite ProcessSlap_eliminated in H by done. injection H as <- <-.
        repeat split; done.
    + right. left. rewrite ProcessSlap_burn in H by (done || lia).
      destruct (applyBurnPenalty _ _ _) as [[k g1]| |] eqn:Hb; try discriminate.
      simpl in H. injection H as <- <-. repeat split; try done. eauto.
  - destruct (s_len (hand_of g p)) as [|n] eqn:Hlen.
    + destruct (canSlapIn g p) eqn:Hin.
      * right. right. rewrite ProcessSlap_valid in H by (rewrite ?Hlen; auto).
        injection H as <- <-. rewrite Hlen. repeat split; try done.
        simpl. destruct (CheckSlap _ _); done.
      * left. rewrite ProcessSlap_eliminated in H by done. injection H as <- <-.
        repeat split; done.
    + right. right. rewrite ProcessSlap_valid in H by (rewrite ?Hlen; auto; left; lia).
      injection H as <- <-. rewrite Hlen. repeat split; try done.
      simpl. destruct (CheckSlap _ _); done.
Qed.

Lemma PendingSlaps_step (o : op) (g g' : Game) (e : event) :
  PendingSlaps g = [] -> step growcap o g = Ok (e, g') -> PendingSlaps g' = [].
Proof.
  intros Hp H. destruct o as [p|p now stamp|]; simpl in H.
  - destruct (PlayCard growcap p g) as [[r g1]| |] eqn:E; try discriminate.
    simpl in H. injection H as _ <-.
    apply PlayCard_cases in E as [[-> _]|(_ & _ & _ & i & _ & ->)]; done.
  - destruct (ProcessSlap growcap p now stamp g) as [[r g1]| |] eqn:E; try discriminate.
    simpl in H. injection H as _ <-.
    apply ProcessSlap_cases in E
      as [(_ & -> & _)|[(_ & -> & _)|[(_ & _ & _ & n & g2 & Hb & ->)|(_ & _ & _ & ->)]]];
      try done.
    + apply applyBurnPenalty_cases in Hb as [(_ & _ & ->)|(_ & _ & _ & ->)]; exact Hp.
    + unfold slap_won_state. cbv zeta.
      destruct (seat_of _ _); destruct (negb _); exact Hp.
  - destruct (StartTurnTimer_timeout growcap g) as [[[m b] g1]| |] eqn:E; try discriminate.
    simpl in H. injection H as _ <-.
    apply timeout_cases in E as [(-> & _)|(cur & i & _ & _ & _ & _ & ->)]; exact Hp.
Qed.

(** Nothing ever queues a slap attempt. *)
Lemma reachable_PendingSlaps (g : Game) : reachable growcap g -> PendingSlaps g = [].
Proof.
  induction 1 as [deck ids d s bp cd tt si ms g _ _ Hnew | g o e g' _ IH Hstep].
  - unfold NewGame in Hnew. destruct (Deal _ _ _); try discriminate.
    simpl in Hnew. injection Hnew as <-. reflexivity.
  - eapply PendingSlaps_step; eauto.
Qed.

(** *** Valid slaps *)

Lemma hand_of_take_pile (p : string) (g : Game) :
  hand_of (take_pile growcap p g) p
  = snd (append growcap (Mem g) (hand_of g p) (view (Mem g) (Pile g))).
Proof. unfold take_pile, hand_of. cbn. rewrite lookup_insert_eq. reflexivity. Qed.

(** Taking the pile puts the pile behind the hand and leaves the pile empty. *)
Lemma take_pile_cards (p : string) (g : Game) :
  wf_game g ->
  hand_cards (take_pile growcap p g) p = hand_cards g p ++ pile_cards g
  /\ pile_cards (take_pile growcap p g) = []
  /\ s_len (Pile (take_pile growcap p g)) = 0.
Proof.
  intros Hwf. pose proof (hand_of_ok g p Hwf) as Hhand.
  split; [|split]; [|reflexivity|reflexivity].
  unfold hand_cards. rewrite hand_of_take_pile.
  unfold take_pile. cbn [Mem set_Pile set_Mem set_PlayerHands].
  set (r := append growcap (Mem g) (hand_of g p) (view (Mem g) (Pile g))).
  rewrite (view_make_other (fst r) 52 (snd r)) by (apply slice_ok_append; exact Hhand).
  apply view_append. exact Hhand.
Qed.

Lemma take_pile_frame (p : string) (g : Game) :
  TurnOrder (take_pile growcap p g) = TurnOrder g
  /\ SuccessfulSlaps (Stats (take_pile growcap p g)) = SuccessfulSlaps (Stats g)
  /\ count_of (SlapInCounts (take_pile growcap p g)) p = count_of (SlapInCounts g) p.
Proof. repeat split; reflexivity. Qed.

Lemma int_add_small (a b : Z) :
  (int_min <= a + b <= int_max)%Z -> int_add a b = (a + b)%Z.
Proof.
  unfold int_add, int_wrap, int_min, int_max. intros H.
  rewrite Z.mod_small by lia. lia.
Qed.

(** What the valid-slap block does to the state it is given. *)
Lemma slap_won_state_spec (p : string) (b : bool) (g1 : Game) :
  wf_game g1 ->
  hand_cards (slap_won_state growcap p b g1) p = hand_cards g1 p ++ pile_cards g1
  /\ pile_cards (slap_won_state growcap p b g1) = []
  /\ s_len (Pile (slap_won_state growcap p b g1)) = 0
  /\ SlapWindowOpen (slap_won_state growcap p b g1) = false
  /\ count_of (SuccessfulSlaps (Stats (slap_won_state growcap p b g1))) p
     = int_add (count_of (SuccessfulSlaps (Stats g1)) p) 1
  /\ TurnOrder (slap_won_state growcap p b g1) = TurnOrder g1
  /\ (forall i, seat_of p (TurnOrder g1) = Some i ->
        CurrentTurnIdx (slap_won_state growcap p b g1) = i)
  /\ count_of (SlapInCounts (slap_won_state growcap p b g1)) p
     = (if b then count_of (SlapInCounts g1) p
        else int_add (count_of (SlapInCounts g1) p) 1).
Proof.
  intros Hwf. unfold slap_won_state.
  set (g2 := if negb b then _ else g1).
  assert (Hwf2 : wf_game g2).
  { subst g2. destruct (negb b); [apply wf_set_SlapInCounts|]; exact Hwf. }
  assert (Hsame : hand_cards g2 p = hand_cards g1 p /\ pile_cards g2 = pile_cards g1
                  /\ TurnOrder g2 = TurnOrder g1
                  /\ SuccessfulSlaps (Stats g2) = SuccessfulSlaps (Stats g1)
                  /\ count_of (SlapInCounts g2) p
                     = (if b then count_of (SlapInCounts g1) p
                        else int_add (count_of (SlapInCounts g1) p) 1)).
  { subst g2. destruct b; cbn [negb]; repeat split; try reflexivity.
    cbn. unfold count_of at 1. rewrite lookup_insert_eq. reflexivity. }
  clearbody g2. destruct Hsame as (Hh & Hp & Ht & Hs & Hcnt).
  destruct (take_pile_cards p g2 Hwf2) as (Hhand & Hpile & Hlen).
  destruct (take_pile_frame p g2) as (Ft & Fs & Fc).
  rewrite Hh, Hp in Hhand. rewrite Ht in Ft. rewrite Hs in Fs. rewrite Hcnt in Fc.
  set (g3 := take_pile growcap p g2) in *. clearbody g3.
  cbv zeta. cbn [TurnOrder set_Stats set_SlapWindowOpen]. rewrite Ft.
  assert (E : count_of (<[p := int_add (count_of (SuccessfulSlaps (Stats g3)) p) 1]>
                          (SuccessfulSlaps (Stats g3))) p
              = int_add (count_of (SuccessfulSlaps (Stats g1)) p) 1).
  { unfold count_of at 1. rewrite lookup_insert_eq, Fs. reflexivity. }
  destruct (seat_of p (TurnOrder g1)) as [i|] eqn:Hseat.
  - split; [exact Hhand|]. split; [exact Hpile|]. split; [exact Hlen|].
    split; [reflexivity|]. split; [exact E|]. split; [exact Ft|]. split; [|exact Fc].
    intros j Hj. cbn. congruence.
  - split; [exact Hhand|]. split; [exact Hpile|]. split; [exact Hlen|].
    split; [reflexivity|]. split; [exact E|]. split; [exact Ft|]. split; [|exact Fc].
    intros j Hj. congruence.
Qed.

(** C3. A slap that passes the cooldown test, by a player who holds cards or
    may slap back in, on a pile [CheckSlap] accepts, succeeds: the cards won
    are the whole pile, the pile goes behind the player's hand and is left
    empty, the slap window closes, the player's successful slaps are counted
    up by one, and the turn index becomes the player's seat. *)
Theorem C3_valid_slap_takes_pile (g : Game) (p : string) (now stamp : Z) (i : nat) :
  wf_game g ->
  in_cooldown g p now = false ->
  0 < s_len (hand_of g p) \/ canSlapIn g p = true ->
  CheckSlap (GameRules g) (pile_cards g) ≠ SlapReasonInvalid ->
  seat_of p (TurnOrder g) = Some i ->
  exists r g',
    ProcessSlap growcap p now stamp g = Ok (r, g')
    /\ Protocol.Success r = true
    /\ Protocol.CardsWon r = Z.of_nat (length (pile_cards g))
    /\ hand_cards g' p = hand_cards g p ++ pile_cards g
    /\ pile_cards g' = [] /\ s_len (Pile g') = 0
    /\ SlapWindowOpen g' = false
    /\ count_of (SuccessfulSlaps (Stats g')) p
       = int_add (count_of (SuccessfulSlaps (Stats g)) p) 1
    /\ CurrentTurnIdx g' = i /\ TurnOrder g' !! i = Some p.
Proof.
  intros Hwf Hc Hallowed Hr Hseat.
  rewrite ProcessSlap_valid by done.
  eexists _, _. split; [reflexivity|]. cbn [Protocol.Success Protocol.CardsWon].
  split; [reflexivity|]. split.
  { unfold pile_cards. rewrite length_view by apply Hwf. reflexivity. }
  destruct (slap_won_state_spec p (0 <? s_len (hand_of g p)) (stamp_attempt p stamp g))
    as (A & B & C & D & E & F & G & _); [apply wf_stamp_attempt, Hwf|].
  split; [exact A|]. split; [exact B|]. split; [exact C|]. split; [exact D|].
  split; [exact E|]. split; [apply G; exact Hseat|].
  rewrite F. apply seat_of_lt in Hseat. apply Hseat.
Qed.

(** *** Slaps by a player without cards *)

(** C6 (as amended: for an attempt that passes the cooldown test). A player
    without cards may slap only when slap-back-in is enabled and the
    player's count of slap-back-ins is below the maximum; otherwise the
    answer is a failure with reason [eliminated] and no card moves. When the
    player may slap, an invalid pile gives a failure with no burn penalty
    and no card moves, and a valid pile counts one more slap-back-in and
    gives the player the pile. *)
Theorem C6_slap_back_in (g : Game) (p : string) (now stamp : Z) :
  wf_game g ->
  in_cooldown g p now = false ->
  s_len (hand_of g p) = 0 ->
  (canSlapIn g p = false ->
     exists g', ProcessSlap growcap p now stamp g
                = Ok (Protocol.mkSlapResult p false "eliminated" 0 0, g')
       /\ Mem g' = Mem g /\ PlayerHands g' = PlayerHands g /\ Pile g' = Pile g)
  /\ (canSlapIn g p = true ->
      CheckSlap (GameRules g) (pile_cards g) = SlapReasonInvalid ->
      exists g', ProcessSlap growcap p now stamp g
                 = Ok (Protocol.mkSlapResult p false "invalid" 0 0, g')
        /\ Mem g' = Mem g /\ PlayerHands g' = PlayerHands g /\ Pile g' = Pile g
        /\ CardsBurned (Stats g') = CardsBurned (Stats g))
  /\ (canSlapIn g p = true ->
      CheckSlap (GameRules g) (pile_cards g) ≠ SlapReasonInvalid ->
      exists r g', ProcessSlap growcap p now stamp g = Ok (r, g')
        /\ Protocol.Success r = true
        /\ count_of (SlapInCounts g') p = int_add (count_of (SlapInCounts g) p) 1
        /\ hand_cards g' p = pile_cards g
        /\ pile_cards g' = []).
Proof.
  intros Hwf Hc Hlen. split; [|split].
  - intros Hin. rewrite ProcessSlap_eliminated by done.
    eexists. split; [reflexivity|]. repeat split; reflexivity.
  - intros Hin Hr. rewrite ProcessSlap_slapin_invalid by done.
    eexists. split; [reflexivity|]. repeat split; reflexivity.
  - intros Hin Hr. rewrite ProcessSlap_valid by auto.
    eexists _, _. split; [reflexivity|]. split; [reflexivity|].
    destruct (slap_won_state_spec p (0 <? s_len (hand_of g p)) (stamp_attempt p stamp g))
      as (A & B & _ & _ & _ & _ & _ & H); [apply wf_stamp_attempt, Hwf|].
    rewrite Hlen in *. cbn [Nat.ltb Nat.leb] in *.
    split; [exact H|]. split; [|exact B].
    rewrite A. change (hand_cards (stamp_attempt p stamp g) p) with (hand_cards g p).
    unfold hand_cards at 1, view. rewrite Hlen. reflexivity.
Qed.

(** *** The cooldown *)

Lemma in_cooldown_within (g : Game) (p : string) (t0 now : Z) :
  cooldown_fits g -> LastSlapTime g !! p = Some t0 ->
  within_cooldown g t0 now -> in_cooldown g p now = true.
Proof.
  unfold cooldown_fits, within_cooldown, in_cooldown, cooldown_duration, Since.
  intros [H0 Hmax] -> Hin. unfold int_mul, int_wrap.
  apply Z.ltb_lt. unfold int_min, int_max in *.
  rewrite (Z.mod_small (SlapCooldownMs g * 1000000 + 2 ^ 63)) by lia. lia.
Qed.

(** What a step does to the slap times and to the cooldown setting. *)
Lemma step_LastSlapTime (o : op) (g g' : Game) (e : event) :
  step growcap o g = Ok (e, g') ->
  SlapCooldownMs g' = SlapCooldownMs g
  /\ (LastSlapTime g' = LastSlapTime g
      \/ exists q now stamp, o = OpSlap q now stamp /\ in_cooldown g q now = false
           /\ LastSlapTime g' = <[q := stamp]> (LastSlapTime g)).
Proof.
  intros H. destruct o as [p|p now stamp|]; simpl in H.
  - destruct (PlayCard growcap p g) as [[r g1]| |] eqn:E; try discriminate.
    simpl in H. injection H as _ <-.
    apply PlayCard_cases in E as [[-> _]|(_ & _ & _ & i & _ & ->)]; split; auto.
  - destruct (ProcessSlap growcap p now stamp g) as [[r g1]| |] eqn:E; try discriminate.
    simpl in H. injection H as _ <-.
    apply ProcessSlap_cases in E
      as [(_ & -> & _)|[(Hc & -> & _)|[(Hc & _ & _ & n & g2 & Hb & ->)|(Hc & _ & _ & ->)]]].
    + split; auto.
    + split; [reflexivity|]. right. exists p, now, stamp. auto.
    + apply applyBurnPenalty_cases in Hb as [(_ & _ & ->)|(_ & _ & _ & ->)];
        (split; [reflexivity|]; right; exists p, now, stamp; auto).
    + unfold slap_won_state. cbv zeta.
      destruct (seat_of _ _); destruct (negb _);
        (split; [reflexivity|]; right; exists p, now, stamp; auto).
  - destruct (StartTurnTimer_timeout growcap g) as [[[m b] g1]| |] eqn:E; try discriminate.
    simpl in H. injection H as _ <-.
    apply timeout_cases in E as [(-> & _)|(cur & i & _ & _ & _ & _ & ->)]; split; auto.
Qed.

(** Within the window of the stamp [t0], every slap of [p] is answered
    [cooldown], whatever happens in between. *)
Lemma run_in_window (p : string) (t0 : Z) (ops : list op) : forall (g g' : Game) (evs : list event),
  cooldown_fits g -> LastSlapTime g !! p = Some t0 ->
  (forall now stamp, OpSlap p now stamp ∈ ops -> within_cooldown g t0 now) ->
  run growcap ops g = Ok (evs, g') ->
  Forall2 (fun o e => forall now stamp, o = OpSlap p now stamp ->
                        e = EvSlap (cooldown_result p)) ops evs.
Proof.
  induction ops as [|o ops IH]; intros g g' evs Hfit Hlast Hwin Hrun.
  - injection Hrun as <- <-. constructor.
  - cbn [run] in Hrun.
    destruct (step growcap o g) as [[e g1]| |] eqn:Hstep; try discriminate.
    simpl in Hrun.
    destruct (run growcap ops g1) as [[evs1 g2]| |] eqn:Hrest; try discriminate.
    simpl in Hrun. injection Hrun as <- <-.
    assert (Hhere : forall now stamp, o = OpSlap p now stamp ->
              e = EvSlap (cooldown_result p) /\ g1 = count_attempt g).
    { intros now stamp ->. simpl in Hstep.
      rewrite ProcessSlap_cooldown in Hstep.
      - simpl in Hstep. injection Hstep as <- <-. split; reflexivity.
      - eapply in_cooldown_within; eauto. apply (Hwin now stamp). left. }
    destruct (step_LastSlapTime _ _ _ _ Hstep) as [Hcd Hl].
    constructor.
    + intros now stamp Ho. apply (Hhere now stamp Ho).
    + apply (IH g1 g2 evs1).
      * unfold cooldown_fits in *. rewrite Hcd. exact Hfit.
      * destruct Hl as [->|(q & now & stamp & -> & Hc & ->)]; [exact Hlast|].
        destruct (decide (q = p)) as [->|Hne].
        -- exfalso. erewrite in_cooldown_within in Hc; eauto; [discriminate|].
           apply (Hwin now stamp). left.
        -- rewrite lookup_insert_ne by done. exact Hlast.
      * intros now stamp Hin. unfold within_cooldown in *. rewrite Hcd.
        apply (Hwin now stamp). right. exact Hin.
      * exact Hrest.
Qed.

(** A slap that is not answered [cooldown] records its time stamp. *)
Lemma ProcessSlap_stamps (p : string) (now stamp : Z) (g g' : Game)
    (r : Protocol.SlapResultPayload) :
  ProcessSlap growcap p now stamp g = Ok (r, g') ->
  Protocol.Reason r ≠ "cooldown" ->
  LastSlapTime g' !! p = Some stamp /\ SlapCooldownMs g' = SlapCooldownMs g.
Proof.
  intros H Hr.
  apply ProcessSlap_cases in H
    as [(_ & _ & ->)|[(Hc & -> & _)|[(Hc & _ & _ & n & g2 & Hb & ->)|(Hc & _ & _ & ->)]]].
  - exfalso. apply Hr. reflexivity.
  - split; [apply lookup_insert_eq|reflexivity].
  - apply applyBurnPenalty_cases in Hb as [(_ & _ & ->)|(_ & _ & _ & ->)];
      (split; [apply lookup_insert_eq|reflexivity]).
  - unfold slap_won_state. cbv zeta.
    destruct (seat_of _ _); destruct (negb _);
      (split; [apply lookup_insert_eq|reflexivity]).
Qed.

(** C5. A slap within the cooldown of the player's recorded slap time is
    answered with a failure of reason [cooldown] and no burn penalty, and
    only the total of attempts changes. Hence after an attempt that was let
    through and stamped [t0], every attempt of the same player inside the
    window of [t0] is answered [cooldown], whatever the pile shows and
    whatever the other players do in between. *)
Theorem C5_cooldown_rejects (g : Game) (p : string) (t0 : Z) :
  cooldown_fits g ->
  LastSlapTime g !! p = Some t0 ->
  (forall now stamp, within_cooldown g t0 now ->
     exists g', ProcessSlap growcap p now stamp g = Ok (cooldown_result p, g')
       /\ TotalSlaps (Stats g') = int_add (TotalSlaps (Stats g)) 1
       /\ g' = set_Stats (mkGameStats (TotalSlaps (Stats g')) (SuccessfulSlaps (Stats g))
                            (CardsBurned (Stats g))) g)
  /\ (forall ops evs g',
        (forall now stamp, OpSlap p now stamp ∈ ops -> within_cooldown g t0 now) ->
        run growcap ops g = Ok (evs, g') ->
        Forall2 (fun o e => forall now stamp, o = OpSlap p now stamp ->
                              e = EvSlap (cooldown_result p)) ops evs).
Proof.
  intros Hfit Hlast. split.
  - intros now stamp Hin.
    rewrite ProcessSlap_cooldown by (eapply in_cooldown_within; eauto).
    eexists. split; [reflexivity|]. split; reflexivity.
  - intros ops evs g' Hwin Hrun. eapply run_in_window; eauto.
Qed.

(** *** The turn timer *)

Lemma set_PendingSlaps_id (g : Game) : PendingSlaps g = [] -> set_PendingSlaps [] g = g.
Proof. destruct g. simpl. intros ->. reflexivity. Qed.

(** The loop of [advanceTurn] does not look at the pending slaps. *)
Lemma advance_loop_PendingSlaps (fuel : nat) : forall (start : nat) (l : list SlapAttempt)
    (g : Game),
  advance_loop fuel start (set_PendingSlaps l g)
  = let* g' := advance_loop fuel start g in Ok (set_PendingSlaps l g').
Proof.
  induction fuel as [|f IH]; intros start l g; [reflexivity|].
  cbn [advance_loop]. cbn [TurnOrder CurrentTurnIdx set_PendingSlaps set_CurrentTurnIdx].
  destruct (length (TurnOrder g) =? 0); [reflexivity|].
  destruct (TurnOrder g !! ((CurrentTurnIdx g + 1) mod length (TurnOrder g))) as [p|];
    [|reflexivity].
  change (hand_of (set_CurrentTurnIdx ?i (set_PendingSlaps l g)) p)
    with (hand_of (set_CurrentTurnIdx i g) p).
  destruct (0 <? s_len (hand_of _ p)); [reflexivity|].
  destruct (_ =? start); [reflexivity|].
  apply (IH start l (set_CurrentTurnIdx _ g)).
Qed.

(** In any well-formed state the timer and [PlayCard] differ in one point:
    [PlayCard] empties the list of pending slaps, the timer leaves it. *)
Lemma timeout_vs_PlayCard (g : Game) (cur : string) :
  wf_game g ->
  TurnOrder g !! CurrentTurnIdx g = Some cur ->
  0 < s_len (hand_of g cur) ->
  exists card next gp gt,
    PlayCard growcap cur g = Ok (Played card, gp)
    /\ StartTurnTimer_timeout growcap g
       = Ok ([Protocol.CardPlayed cur card (s_len (Pile gt)); Protocol.TurnChanged next],
             true, gt)
    /\ GetCurrentPlayer gt = Ok next
    /\ gp = set_PendingSlaps [] gt.
Proof.
  intros Hwf Hcur Hlen.
  unfold PlayCard, StartTurnTimer_timeout. rewrite Hcur, String.eqb_refl.
  pose proof Hlen as Hlen'. apply Nat.ltb_lt in Hlen'. rewrite Hlen'.
  destruct (s_len (hand_of g cur) =? 0) eqn:Hz; [apply Nat.eqb_eq in Hz; lia|].
  cbn [negb]. cbv zeta.
  set (g1 := set_SlapWindowOpen true (snd (play_front growcap cur (hand_of g cur) g))).
  assert (Hidx : CurrentTurnIdx g1 < length (TurnOrder g1)) by apply Hwf.
  destruct (advanceTurn_returns _ Hidx) as [g2 Hadv].
  assert (Hadv' : advanceTurn (set_PendingSlaps [] g1) = Ok (set_PendingSlaps [] g2)).
  { unfold advanceTurn in *. cbn [TurnOrder CurrentTurnIdx set_PendingSlaps].
    rewrite advance_loop_PendingSlaps, Hadv. reflexivity. }
  rewrite Hadv, Hadv'. cbn [obind].
  destruct (advanceTurn_only_idx _ _ Hadv) as [Hg2 Hi].
  assert (HT : TurnOrder g2 = TurnOrder g1) by (rewrite Hg2; reflexivity).
  rewrite <- HT in Hi.
  destruct (lookup_lt_is_Some_2 (TurnOrder g2) _ Hi) as [next Hnext].
  unfold GetCurrentPlayer. rewrite Hnext. cbn [obind].
  exists (fst (play_front growcap cur (hand_of g cur) g)), next,
         (set_PendingSlaps [] g2), g2.
  split; [reflexivity|]. split; [reflexivity|]. split; [|reflexivity].
  rewrite Hnext. reflexivity.
Qed.

(** C9. When the timeout elapses and the current player holds a card, the
    timer plays that player's front card: the state it leaves is the state
    [PlayCard] by that player leaves (hands, pile, slap window, pending
    slaps, turn index), it announces the card and the next player, and it
    starts the next turn timer. *)
Theorem C9_timeout_plays_like_PlayCard (g : Game) (cur : string) :
  reachable growcap g ->
  TurnOrder g !! CurrentTurnIdx g = Some cur ->
  0 < s_len (hand_of g cur) ->
  exists card next g',
    PlayCard growcap cur g = Ok (Played card, g')
    /\ StartTurnTimer_timeout growcap g
       = Ok ([Protocol.CardPlayed cur card (s_len (Pile g')); Protocol.TurnChanged next],
             true, g')
    /\ GetCurrentPlayer g' = Ok next.
Proof.
  intros Hreach Hcur Hlen.
  pose proof (reachable_wf g Hreach) as Hwf.
  pose proof (reachable_PendingSlaps g Hreach) as Hpend.
  unfold PlayCard, StartTurnTimer_timeout. rewrite Hcur, String.eqb_refl.
  pose proof Hlen as Hlen'. apply Nat.ltb_lt in Hlen'. rewrite Hlen'.
  destruct (s_len (hand_of g cur) =? 0) eqn:Hz; [apply Nat.eqb_eq in Hz; lia|].
  cbn [negb]. cbv zeta.
  set (g1 := snd (play_front growcap cur (hand_of g cur) g)).
  assert (Hp1 : set_PendingSlaps [] (set_SlapWindowOpen true g1) = set_SlapWindowOpen true g1).
  { apply set_PendingSlaps_id. exact Hpend. }
  rewrite Hp1.
  assert (Hidx : CurrentTurnIdx (set_SlapWindowOpen true g1)
                 < length (TurnOrder (set_SlapWindowOpen true g1))) by apply Hwf.
  destruct (advanceTurn_returns _ Hidx) as [g2 Hadv]. rewrite Hadv. cbn [obind].
  destruct (advanceTurn_only_idx _ _ Hadv) as [Hg2 Hi].
  assert (HT : TurnOrder g2 = TurnOrder (set_SlapWindowOpen true g1)).
  { rewrite Hg2. reflexivity. }
  rewrite <- HT in Hi.
  destruct (lookup_lt_is_Some_2 (TurnOrder g2) _ Hi) as [next Hnext].
  unfold GetCurrentPlayer. rewrite Hnext. cbn [obind].
  exists (fst (play_front growcap cur (hand_of g cur) g)), next, g2.
  split; [reflexivity|]. split; [reflexivity|].
  unfold GetCurrentPlayer. rewrite Hnext. reflexivity.
Qed.

(** *** Burns *)

Lemma write_at_nil (i : nat) (a : list Card) : write_at i [] a = a.
Proof. unfold write_at. simpl. rewrite Nat.add_0_r. apply take_drop. Qed.

Lemma view_alloc_other (h : store) (x : list Card) (s : slice) :
  slice_ok h s -> view (h ++ [x]) s = view h s.
Proof.
  intros Hok. unfold view.
  destruct (decide (s_arr s < length h)) as [Hlt|Hge].
  - rewrite arr_of_app_l by done. reflexivity.
  - destruct Hok as [H1 H2]. rewrite (arr_of_ge h) in * by lia. simpl in H2.
    assert (Hz : s_len s = 0) by lia. rewrite Hz. reflexivity.
Qed.

(** An [append] that adds nothing, or that has to allocate, leaves what
    every other slice shows as it was. *)
Lemma view_append_other (h : store) (s s' : slice) (xs : list Card) :
  slice_ok h s' ->
  xs = [] \/ s_cap s < s_len s + length xs ->
  view (fst (append growcap h s xs)) s' = view h s'.
Proof.
  intros Hok Hcase. unfold append.
  destruct (s_len s + length xs <=? s_cap s) eqn:Hfit; cbn [fst].
  - apply Nat.leb_le in Hfit. destruct Hcase as [->|Hlt]; [|lia].
    rewrite write_at_nil. unfold view, arr_of.
    destruct (h !! s_arr s) as [a|] eqn:Ha.
    + simpl. rewrite list_insert_id by done. reflexivity.
    + rewrite list_insert_ge by (apply lookup_ge_None; done). reflexivity.
  - apply view_alloc_other. exact Hok.
Qed.

(** What a burn of [b] cards does: the pile gets the [b] front cards of the
    hand under it and the hand gets shorter by [b]; the cards left in the
    hand are the old ones when the pile was empty or the burnt cards and
    the pile did not fit the capacity of the hand. *)
Lemma burn_state_spec (p : string) (b : nat) (g : Game) :
  wf_game g -> b <= s_len (hand_of g p) ->
  pile_cards (burn_state growcap p b g) = take b (hand_cards g p) ++ pile_cards g
  /\ s_len (hand_of (burn_state growcap p b g) p) = s_len (hand_of g p) - b
  /\ (pile_cards g = [] \/ s_cap (hand_of g p) < b + length (pile_cards g) ->
      hand_cards (burn_state growcap p b g) p = drop b (hand_cards g p)).
Proof.
  intros Hwf Hb. pose proof (hand_of_ok g p Hwf) as Hhand.
  pose proof (slice_ok_to (Mem g) (hand_of g p) b Hhand Hb) as Hto.
  assert (Hh : hand_of (burn_state growcap p b g) p = slice_from (hand_of g p) b).
  { unfold burn_state, hand_of at 1. cbn. rewrite lookup_insert_eq. reflexivity. }
  split; [|split].
  - unfold pile_cards at 1, burn_state. cbn [Mem Pile set_Pile set_Mem set_PlayerHands].
    rewrite view_append by exact Hto.
    rewrite view_slice_to by exact Hb. reflexivity.
  - rewrite Hh. reflexivity.
  - intros Hcase. unfold hand_cards at 1. rewrite Hh.
    unfold burn_state. cbn [Mem Pile set_Pile set_Mem set_PlayerHands].
    rewrite view_append_other.
    + apply view_slice_from. exact Hb.
    + apply slice_ok_from; done.
    + destruct Hcase as [He|Hlt]; [left; exact He|right]. simpl. exact Hlt.
Qed.

Lemma drop_take_gen (k n : nat) (l : list Card) :
  drop k (take n l) = take (n - k) (drop k l).
Proof.
  destruct (decide (k <= n)) as [Hle|Hgt].
  - replace n with (k + (n - k)) at 1 by lia. rewrite <- take_drop_commute. reflexivity.
  - replace (n - k) with 0 by lia. rewrite take_0.
    apply drop_ge. rewrite length_take. lia.
Qed.

(** When the burnt cards and the pile fit the capacity of the hand, the
    burn writes the pile over the front of what is left of the hand. *)
Lemma burn_state_in_place (p : string) (b : nat) (g : Game) :
  wf_game g -> b <= s_len (hand_of g p) ->
  b + length (pile_cards g) <= s_cap (hand_of g p) ->
  hand_cards (burn_state growcap p b g) p
  = take (s_len (hand_of g p) - b)
      (pile_cards g ++ drop (b + length (pile_cards g)) (hand_cards g p)).
Proof.
  intros Hwf Hb Hfit. pose proof (hand_of_ok g p Hwf) as [Hlen Hcap].
  assert (Hh : hand_of (burn_state growcap p b g) p = slice_from (hand_of g p) b).
  { unfold burn_state, hand_of at 1. cbn. rewrite lookup_insert_eq. reflexivity. }
  unfold hand_cards at 1. rewrite Hh.
  unfold burn_state. cbn [Mem Pile set_Pile set_Mem set_PlayerHands].
  fold (pile_cards g). set (xs := pile_cards g) in *.
  set (hand := hand_of g p) in *.
  unfold append. cbn [slice_to s_len s_cap s_arr s_off].
  destruct (b + length xs <=? s_cap hand) eqn:E; [|apply Nat.leb_gt in E; lia].
  cbn [fst]. unfold view at 1. cbn [slice_from s_len s_off s_arr].
  set (a := arr_of (Mem g) (s_arr hand)) in *.
  assert (Harr : arr_of (<[s_arr hand := write_at (s_off hand + b) xs a]> (Mem g)) (s_arr hand)
                 = write_at (s_off hand + b) xs a).
  { destruct (decide (s_arr hand < length (Mem g))) as [Hlt|Hge].
    - apply arr_of_insert_eq. exact Hlt.
    - assert (Ha : a = []) by (subst a; apply arr_of_ge; lia).
      rewrite Ha in *. simpl in Hcap.
      assert (Hxs : xs = []) by (destruct xs; [reflexivity|simpl in Hfit; lia]).
      rewrite Hxs, write_at_nil. unfold arr_of. rewrite list_insert_ge by lia.
      fold (arr_of (Mem g) (s_arr hand)). fold a. exact Ha. }
  rewrite Harr. unfold write_at.
  rewrite drop_app_length' by (rewrite length_take; lia).
  rewrite !take_app. f_equal.
  unfold hand_cards, view. fold hand. fold a.
  rewrite drop_take_gen, drop_drop, take_take.
  f_equal; [lia|]. f_equal. lia.
Qed.

(** *** The number of cards *)

Lemma hands_len_insert_fresh (m : gmap string slice) (p : string) (s : slice) :
  m !! p = None -> hands_len (<[p := s]> m) = s_len s + hands_len m.
Proof.
  intros H. unfold hands_len.
  rewrite map_fold_insert_L; [reflexivity| |exact H].
  intros. lia.
Qed.

Lemma hands_len_insert (m : gmap string slice) (p : string) (s : slice) :
  hands_len (<[p := s]> m) + s_len (default nil_slice (m !! p)) = hands_len m + s_len s.
Proof.
  destruct (m !! p) as [s0|] eqn:E; simpl.
  - rewrite <- (insert_delete_id m p s0 E) at 2.
    rewrite <- insert_delete_eq.
    rewrite !hands_len_insert_fresh by apply lookup_delete_eq. lia.
  - rewrite hands_len_insert_fresh by exact E. lia.
Qed.

Lemma total_play_front (p : string) (g : Game) :
  0 < s_len (hand_of g p) ->
  total_cards (snd (play_front growcap p (hand_of g p) g)) = total_cards g.
Proof.
  intros Hlen. unfold total_cards, play_front.
  cbn [snd PlayerHands Pile Mem set_Pile set_Mem set_PlayerHands].
  rewrite len_append. simpl.
  pose proof (hands_len_insert (PlayerHands g) p (slice_from (hand_of g p) 1)) as H.
  fold (hand_of g p) in H. simpl in H. lia.
Qed.

Lemma total_burn_state (p : string) (b : nat) (g : Game) :
  wf_game g -> b <= s_len (hand_of g p) ->
  total_cards (burn_state growcap p b g) = total_cards g.
Proof.
  intros Hwf Hb. unfold total_cards, burn_state.
  cbn [PlayerHands Pile Mem set_Pile set_Mem set_PlayerHands].
  rewrite len_append, length_view by apply Hwf. simpl.
  pose proof (hands_len_insert (PlayerHands g) p (slice_from (hand_of g p) b)) as H.
  fold (hand_of g p) in H. simpl in H. lia.
Qed.

Lemma total_take_pile (p : string) (g : Game) :
  wf_game g -> total_cards (take_pile growcap p g) = total_cards g.
Proof.
  intros Hwf. unfold total_cards, take_pile.
  cbn [PlayerHands Pile Mem set_Pile set_Mem set_PlayerHands make snd s_len].
  pose proof (hands_len_insert (PlayerHands g) p
                (snd (append growcap (Mem g) (hand_of g p) (view (Mem g) (Pile g))))) as H.
  rewrite len_append, length_view in H by apply Hwf.
  fold (hand_of g p) in H. lia.
Qed.

Lemma total_slap_won_state (p : string) (b : bool) (g : Game) :
  wf_game g -> total_cards (slap_won_state growcap p b g) = total_cards g.
Proof.
  intros Hwf. unfold slap_won_state.
  set (g2 := if negb b then _ else g).
  assert (H2 : wf_game g2 /\ total_cards g2 = total_cards g).
  { subst g2. destruct (negb b); (split; [|reflexivity]);
      [apply wf_set_SlapInCounts|]; exact Hwf. }
  clearbody g2. destruct H2 as [Hwf2 <-].
  rewrite <- (total_take_pile p g2 Hwf2).
  set (g3 := take_pile growcap p g2). clearbody g3. cbv zeta.
  destruct (seat_of p _); reflexivity.
Qed.

Lemma total_step (o : op) (g g' : Game) (e : event) :
  wf_game g -> step growcap o g = Ok (e, g') -> total_cards g' = total_cards g.
Proof.
  intros Hwf H. destruct o as [p|p now stamp|]; simpl in H.
  - destruct (PlayCard growcap p g) as [[r g1]| |] eqn:E; try discriminate.
    simpl in H. injection H as _ <-.
    apply PlayCard_cases in E as [[-> _]|(_ & Hlen & _ & i & _ & ->)]; [reflexivity|].
    rewrite <- (total_play_front p g Hlen). reflexivity.
  - destruct (ProcessSlap growcap p now stamp g) as [[r g1]| |] eqn:E; try discriminate.
    simpl in H. injection H as _ <-.
    apply ProcessSlap_cases in E
      as [(_ & -> & _)|[(_ & -> & _)|[(_ & _ & _ & n & g2 & Hb & ->)|(_ & _ & _ & ->)]]];
      try reflexivity.
    + apply applyBurnPenalty_cases in Hb as [(_ & _ & ->)|(Hlen & Hn & Hmin & ->)];
        [reflexivity|].
      assert (Hle : Z.to_nat n <= s_len (hand_of (stamp_attempt p stamp g) p)).
      { lia. }
      change (total_cards (charge_burn p n ?x)) with (total_cards x).
      rewrite total_burn_state; [reflexivity|apply wf_stamp_attempt, Hwf|exact Hle].
    + rewrite total_slap_won_state by apply wf_stamp_attempt, Hwf. reflexivity.
  - destruct (StartTurnTimer_timeout growcap g) as [[[m b] g1]| |] eqn:E; try discriminate.
    simpl in H. injection H as _ <-.
    apply timeout_cases in E as [(-> & _)|(cur & i & _ & Hlen & _ & _ & ->)]; [reflexivity|].
    rewrite <- (total_play_front cur g Hlen). reflexivity.
Qed.

Lemma sum_len_insert (hands : list slice) (i : nat) (s s' : slice) :
  hands !! i = Some s ->
  sum_list (s_len <$> <[i := s']> hands) + s_len s = sum_list (s_len <$> hands) + s_len s'.
Proof.
  revert i. induction hands as [|x hands IH]; intros i H; [discriminate|].
  destruct i as [|i]; csimpl in *.
  - injection H as ->. lia.
  - specialize (IH i H). lia.
Qed.

Lemma make_hands_total (k c : nat) : forall (h : store),
  sum_list (s_len <$> snd (make_hands k c h)) = 0.
Proof.
  induction k as [|k IH]; intros h; [reflexivity|].
  cbn [make_hands]. cbv zeta. cbn [snd fmap list_fmap sum_list s_len make].
  apply IH.
Qed.

Lemma deal_loop_total (n : nat) (cards : list Card) : forall (i : nat) (h h' : store)
    (hands hands' : list slice),
  deal_loop growcap n cards i h hands = Ok (h', hands') ->
  sum_list (s_len <$> hands') = sum_list (s_len <$> hands) + length cards.
Proof.
  induction cards as [|card rest IH]; intros i h h' hands hands' H.
  - injection H as <- <-. simpl. lia.
  - cbn [deal_loop] in H.
    destruct (n =? 0); [discriminate|].
    destruct (hands !! (i mod n)) as [s|] eqn:Hs; [|discriminate].
    cbv zeta in H. apply IH in H. rewrite H.
    pose proof (sum_len_insert hands (i mod n) s
                  (snd (append growcap h s [card])) Hs) as Hins.
    rewrite len_append in Hins. simpl in *. lia.
Qed.

Lemma hands_len_fold_zip (ids : list string) : forall (hands : list slice)
    (acc : gmap string slice),
  NoDup ids -> length hands = length ids ->
  (forall id, id ∈ ids -> acc !! id = None) ->
  hands_len (fold_left (fun m '(id, s) => <[id := s]> m) (zip ids hands) acc)
  = hands_len acc + sum_list (s_len <$> hands).
Proof.
  induction ids as [|id ids IH]; intros hands acc Hnd Hlen Hfresh.
  - destruct hands; [|discriminate]. simpl. lia.
  - destruct hands as [|s hands]; [discriminate|].
    apply NoDup_cons in Hnd as [Hnotin Hnd]. csimpl.
    rewrite IH.
    + rewrite hands_len_insert_fresh by (apply Hfresh; left). lia.
    + exact Hnd.
    + simpl in Hlen. lia.
    + intros id' Hin. rewrite lookup_insert_ne.
      * apply Hfresh. right. exact Hin.
      * intros ->. contradiction.
Qed.

Lemma total_NewGame (deck : list Card) (playerIDs : list string) (d s : bool)
    (burnPenalty cooldown timeout : Z) (slapIn : bool) (maxSlapIns : Z) (g : Game) :
  NoDup playerIDs ->
  NewGame growcap deck playerIDs d s burnPenalty cooldown timeout slapIn maxSlapIns = Ok g ->
  total_cards g = length deck.
Proof.
  intros Hnd H. unfold NewGame in H.
  destruct (Deal growcap deck (length playerIDs)) as [[h hands]| |] eqn:Hdeal;
    try discriminate.
  simpl in H. injection H as <-.
  unfold Deal in Hdeal. cbv zeta in Hdeal.
  destruct (make_hands_ok (length playerIDs) (52 / length playerIDs + 1) []) as (Hall & Hlen & _).
  pose proof (deal_loop_ok _ _ _ _ _ _ _ Hall Hdeal) as (_ & Hlen' & _).
  apply deal_loop_total in Hdeal. rewrite make_hands_total in Hdeal.
  unfold total_cards. cbn [PlayerHands Pile]. simpl s_len.
  rewrite hands_len_fold_zip.
  - rewrite Hdeal. unfold hands_len. rewrite map_fold_empty. lia.
  - exact Hnd.
  - lia.
  - intros id _. apply lookup_empty.
Qed.

(** In every state of a game the hands and the pile hold 52 cards in all. *)
Lemma reachable_total_cards (g : Game) : reachable growcap g -> total_cards g = 52.
Proof.
  induction 1 as [deck ids d s bp cd tt si ms g Hperm Hnd Hnew | g o e g' Hreach IH Hstep].
  - erewrite total_NewGame by eauto.
    apply Permutation_length in Hperm. rewrite Hperm. reflexivity.
  - erewrite total_step; eauto. apply reachable_wf, Hreach.
Qed.

End Runtime.

(** *** The states of the example games are states of a game *)

Lemma run_reachable (growcap : nat -> nat -> nat) (ops : list op) :
  forall (g g' : Game) (evs : list event),
  reachable growcap g -> run growcap ops g = Ok (evs, g') -> reachable growcap g'.
Proof.
  induction ops as [|o ops IH]; intros g g' evs Hreach Hrun.
  - injection Hrun as _ <-. exact Hreach.
  - cbn [run] in Hrun.
    destruct (step growcap o g) as [[e g1]| |] eqn:Hstep; try discriminate.
    simpl in Hrun.
    destruct (run growcap ops g1) as [[evs1 g2]| |] eqn:Hrest; try discriminate.
    simpl in Hrun. injection Hrun as _ <-.
    eapply IH; [|exact Hrest]. eapply reach_step; eauto.
Qed.

Lemma NoDup_a_b : NoDup ["a"; "b"].
Proof.
  apply NoDup_cons. split; [|apply NoDup_singleton].
  intros H. apply list_elem_of_singleton in H. discriminate.
Qed.

Lemma new_game_reachable (growcap : nat -> nat -> nat) (slapIn : bool) (g : Game) :
  Examples.new_game growcap Examples.two slapIn = Ok g -> reachable growcap g.
Proof.
  unfold Examples.new_game, Examples.two. intros H.
  exact (reach_new growcap NewDeck ["a"; "b"] true true 1 200 10000 slapIn 3 g
           (Permutation_refl _) NoDup_a_b H).
Qed.

Lemma state_of_reachable (o : outcome Game) (ops : list op) :
  (forall g, o = Ok g -> reachable Examples.go_growcap g) ->
  Examples.is_ok (Examples.run_from o ops) = true ->
  reachable Examples.go_growcap (Examples.state_of (Examples.run_from o ops)).
Proof.
  intros Ho. unfold Examples.run_from. destruct o as [g0| |]; try discriminate.
  cbn [obind].
  destruct (run Examples.go_growcap ops g0) as [[evs g]| |] eqn:Hrun; try discriminate.
  intros _. eapply run_reachable; [|exact Hrun]. apply Ho. reflexivity.
Qed.

Lemma state_after_reachable (slapIn : bool) (ops : list op) :
  Examples.ran_ok Examples.two slapIn ops = true ->
  reachable Examples.go_growcap (Examples.state_after Examples.two slapIn ops).
Proof.
  unfold Examples.ran_ok, Examples.state_after.
  apply state_of_reachable. apply new_game_reachable.
Qed.

Lemma jack_on_top_reachable : reachable Examples.go_growcap Examples.jack_on_top.
Proof. apply state_after_reachable. vm_compute. reflexivity. Qed.

Lemma a_out_of_cards_reachable : reachable Examples.go_growcap Examples.a_out_of_cards.
Proof. apply state_after_reachable. vm_compute. reflexivity. Qed.

(** *** Where the cards are not conserved *)

(** C1 (the code breaks it). Two players, the deck as [NewDeck] orders it,
    burn penalty 1: "a" plays the ace of hearts and "b" slaps the pile,
    which holds that one card. The burn appends the pile to [hand[:1]],
    which still has the capacity of the whole hand, so the ace is written
    over the second card of the hand of "b". After that the ace of hearts
    is in the game twice and the four of hearts is gone, although 52 cards
    are still counted. *)
Theorem C1_burn_breaks_conservation (growcap : nat -> nat -> nat) :
  exists g evs g',
    NewGame growcap NewDeck ["a"; "b"] true true 1 200 10000 true 3 = Ok g
    /\ run growcap [OpPlayCard "a"; OpSlap "b" 0 0] g = Ok (evs, g')
    /\ count_occ Card_eq_dec (all_cards g') (mkCard "hearts" "A") = 2
    /\ count_occ Card_eq_dec (all_cards g') (mkCard "hearts" "4") = 0
    /\ ~ Permutation (all_cards g') NewDeck
    /\ total_cards g' = 52.
Proof.
  eexists _, _, _.
  split; [vm_compute; reflexivity|].
  split; [vm_compute; reflexivity|].
  split; [vm_compute; reflexivity|].
  assert (H4 : forall l, count_occ Card_eq_dec l (mkCard "hearts" "4") = 0 ->
                 ~ Permutation l NewDeck).
  { intros l H0 HP.
    rewrite (Permutation_count_occ Card_eq_dec) in HP.
    specialize (HP (mkCard "hearts" "4")). rewrite H0 in HP.
    vm_compute in HP. discriminate. }
  split; [vm_compute; reflexivity|].
  split; [apply H4; vm_compute; reflexivity|].
  vm_compute. reflexivity.
Qed.

(** C4 (the code breaks it), in the same game: "b" holds 2♥ 4♥ 6♥ ... and
    slaps the pile [A♥]. The answer, the burn count and the pile are as
    they should be, but the hand of "b" is left as A♥ 6♥ ..., not as
    4♥ 6♥ ...: beside the burnt 2♥ the hand has lost the 4♥. *)
Theorem C4_burn_overwrites_hand (growcap : nat -> nat -> nat) :
  exists g0 ev g r g',
    NewGame growcap NewDeck ["a"; "b"] true true 1 200 10000 true 3 = Ok g0
    /\ step growcap (OpPlayCard "a") g0 = Ok (ev, g)
    /\ take 3 (hand_cards g "b")
       = [mkCard "hearts" "2"; mkCard "hearts" "4"; mkCard "hearts" "6"]
    /\ pile_cards g = [mkCard "hearts" "A"]
    /\ ProcessSlap growcap "b" 0 0 g = Ok (r, g')
    /\ r = Protocol.mkSlapResult "b" false "invalid" 0 1
    /\ pile_cards g' = [mkCard "hearts" "2"; mkCard "hearts" "A"]
    /\ count_of (CardsBurned (Stats g')) "b" = 1%Z
    /\ length (hand_cards g' "b") = 25
    /\ take 2 (hand_cards g' "b") = [mkCard "hearts" "A"; mkCard "hearts" "6"]
    /\ hand_cards g' "b" ≠ drop 1 (hand_cards g "b").
Proof.
  eexists _, _, _, _, _.
  split; [vm_compute; reflexivity|].
  split; [vm_compute; reflexivity|].
  split; [vm_compute; reflexivity|].
  split; [vm_compute; reflexivity|].
  split; [vm_compute; reflexivity|].
  split; [reflexivity|].
  split; [vm_compute; reflexivity|].
  split; [vm_compute; reflexivity|].
  split; [vm_compute; reflexivity|].
  split; [vm_compute; reflexivity|].
  vm_compute. discriminate.
Qed.

(** C6 as first stated fails: in a game without slap-back-in, "a" has
    played the last card and has slapped at clock reading 1000 (answer:
    [eliminated]); the slap at clock reading 1050, inside the cooldown of
    200 ms, is answered [cooldown], not [eliminated]. *)
Lemma C6_counterexample_cooldown :
  reachable Examples.go_growcap Examples.a_out_of_cards
  /\ s_len (hand_of Examples.a_out_of_cards "a") = 0
  /\ canSlapIn Examples.a_out_of_cards "a" = false
  /\ exists r g', ProcessSlap Examples.go_growcap "a" 1050 1050 Examples.a_out_of_cards
                  = Ok (r, g')
       /\ Protocol.Reason r = "cooldown"
       /\ Protocol.Reason r ≠ "eliminated".
Proof.
  split; [exact a_out_of_cards_reachable|].
  split; [vm_compute; reflexivity|].
  split; [vm_compute; reflexivity|].
  eexists _, _. split; [vm_compute; reflexivity|].
  split; [reflexivity|]. discriminate.
Qed.

(** *** The theorems at work on the example games *)

Lemma jack_on_top_wf : wf_game Examples.jack_on_top.
Proof. apply (bool_decide_unpack _). vm_compute. exact I. Defined.

Lemma a_out_of_cards_wf : wf_game Examples.a_out_of_cards.
Proof. apply (bool_decide_unpack _). vm_compute. exact I. Defined.

Lemma a_may_slap_in_wf : wf_game Examples.a_may_slap_in.
Proof. apply (bool_decide_unpack _). vm_compute. exact I. Defined.

Lemma a_out_jack_on_top_wf : wf_game Examples.a_out_jack_on_top.
Proof. apply (bool_decide_unpack _). vm_compute. exact I. Defined.

Lemma a_out_of_cards_cooldown : SlapCooldownMs Examples.a_out_of_cards = 200%Z.
Proof. vm_compute. reflexivity. Defined.

(** "b" slaps the Jack of hearts and takes the eleven cards of the pile. *)
Lemma C3_witness :
  exists r g',
    ProcessSlap Examples.go_growcap "b" 0 0 Examples.jack_on_top = Ok (r, g')
    /\ Protocol.Success r = true
    /\ Protocol.CardsWon r = Z.of_nat (length (pile_cards Examples.jack_on_top))
    /\ hand_cards g' "b"
       = hand_cards Examples.jack_on_top "b" ++ pile_cards Examples.jack_on_top
    /\ pile_cards g' = [] /\ s_len (Pile g') = 0
    /\ SlapWindowOpen g' = false
    /\ count_of (SuccessfulSlaps (Stats g')) "b"
       = int_add (count_of (SuccessfulSlaps (Stats Examples.jack_on_top)) "b") 1
    /\ CurrentTurnIdx g' = 1 /\ TurnOrder g' !! 1 = Some "b".
Proof.
  apply (C3_valid_slap_takes_pile Examples.go_growcap Examples.jack_on_top "b" 0 0 1).
  - exact jack_on_top_wf.
  - vm_compute. reflexivity.
  - left. vm_compute. lia.
  - vm_compute. discriminate.
  - vm_compute. reflexivity.
Defined.

(** "a", without cards, slapped at clock reading 1000: the slap at 1050 is
    answered [cooldown], and so are the slaps of "a" at 1100 and at
    199000000 while "b" plays and slaps in between. *)
Lemma C5_witness :
  (exists g', ProcessSlap Examples.go_growcap "a" 1050 1050 Examples.a_out_of_cards
              = Ok (cooldown_result "a", g')
     /\ TotalSlaps (Stats g') = int_add (TotalSlaps (Stats Examples.a_out_of_cards)) 1
     /\ g' = set_Stats (mkGameStats (TotalSlaps (Stats g'))
                          (SuccessfulSlaps (Stats Examples.a_out_of_cards))
                          (CardsBurned (Stats Examples.a_out_of_cards)))
               Examples.a_out_of_cards)
  /\ Forall2 (fun o e => forall now stamp, o = OpSlap "a" now stamp ->
                           e = EvSlap (cooldown_result "a"))
       Examples.later_ops
       (Examples.events_of
          (run Examples.go_growcap Examples.later_ops Examples.a_out_of_cards)).
Proof.
  assert (Hfit : cooldown_fits Examples.a_out_of_cards).
  { unfold cooldown_fits. rewrite a_out_of_cards_cooldown. unfold int_max. lia. }
  assert (Hlast : LastSlapTime Examples.a_out_of_cards !! "a" = Some 1000%Z).
  { vm_compute. reflexivity. }
  destruct (C5_cooldown_rejects Examples.go_growcap Examples.a_out_of_cards "a" 1000
              Hfit Hlast) as [Hone Hall].
  split.
  - apply (Hone 1050%Z 1050%Z).
    unfold within_cooldown. rewrite a_out_of_cards_cooldown. lia.
  - apply (Hall Examples.later_ops _
             (Examples.state_of
                (run Examples.go_growcap Examples.later_ops Examples.a_out_of_cards))).
    + intros now stamp Hin. unfold within_cooldown. rewrite a_out_of_cards_cooldown.
      unfold Examples.later_ops in Hin.
      repeat (apply elem_of_cons in Hin as [Heq|Hin];
              [try discriminate Heq; injection Heq as -> _; lia|]).
      apply elem_of_nil in Hin. contradiction.
    + vm_compute. reflexivity.
Defined.

(** "a" is out of cards. Without slap-back-in the slap is answered
    [eliminated]; with slap-back-in, on the Queen of spades it is answered
    [invalid] without a burn, and on the Jack of spades it wins the pile. *)
Lemma C6_witness :
  (exists g', ProcessSlap Examples.go_growcap "a" 1000000000 1000000000
                Examples.a_out_of_cards
              = Ok (Protocol.mkSlapResult "a" false "eliminated" 0 0, g')
     /\ Mem g' = Mem Examples.a_out_of_cards
     /\ PlayerHands g' = PlayerHands Examples.a_out_of_cards
     /\ Pile g' = Pile Examples.a_out_of_cards)
  /\ (exists g', ProcessSlap Examples.go_growcap "a" 0 0 Examples.a_may_slap_in
                 = Ok (Protocol.mkSlapResult "a" false "invalid" 0 0, g')
        /\ Mem g' = Mem Examples.a_may_slap_in
        /\ PlayerHands g' = PlayerHands Examples.a_may_slap_in
        /\ Pile g' = Pile Examples.a_may_slap_in
        /\ CardsBurned (Stats g') = CardsBurned (Stats Examples.a_may_slap_in))
  /\ (exists r g', ProcessSlap Examples.go_growcap "a" 0 0 Examples.a_out_jack_on_top
                   = Ok (r, g')
        /\ Protocol.Success r = true
        /\ count_of (SlapInCounts g') "a"
           = int_add (count_of (SlapInCounts Examples.a_out_jack_on_top) "a") 1
        /\ hand_cards g' "a" = pile_cards Examples.a_out_jack_on_top
        /\ pile_cards g' = []).
Proof.
  split; [|split].
  - apply (C6_slap_back_in Examples.go_growcap Examples.a_out_of_cards "a"
             1000000000 1000000000).
    + exact a_out_of_cards_wf.
    + vm_compute. reflexivity.
    + vm_compute. reflexivity.
    + vm_compute. reflexivity.
  - apply (C6_slap_back_in Examples.go_growcap Examples.a_may_slap_in "a" 0 0).
    + exact a_may_slap_in_wf.
    + vm_compute. reflexivity.
    + vm_compute. reflexivity.
    + vm_compute. reflexivity.
    + vm_compute. reflexivity.
  - apply (C6_slap_back_in Examples.go_growcap Examples.a_out_jack_on_top "a" 0 0).
    + exact a_out_jack_on_top_wf.
    + vm_compute. reflexivity.
    + vm_compute. reflexivity.
    + vm_compute. reflexivity.
    + vm_compute. discriminate.
Defined.

(** With the Jack on top it is the turn of "b" (seat 1); the next seat
    holding cards is seat 0. *)
Lemma C7_witness :
  exists k, 1 <= k <= length (TurnOrder Examples.jack_on_top)
    /\ advanceTurn Examples.jack_on_top
       = Ok (set_CurrentTurnIdx
               ((CurrentTurnIdx Examples.jack_on_top + k)
                  mod length (TurnOrder Examples.jack_on_top)) Examples.jack_on_top)
    /\ (forall j, 1 <= j < k ->
          seat_has_cards Examples.jack_on_top
            ((CurrentTurnIdx Examples.jack_on_top + j)
               mod length (TurnOrder Examples.jack_on_top)) = false)
    /\ (seat_has_cards Examples.jack_on_top
          ((CurrentTurnIdx Examples.jack_on_top + k)
             mod length (TurnOrder Examples.jack_on_top)) = true
        \/ k = length (TurnOrder Examples.jack_on_top))
    /\ (k = length (TurnOrder Examples.jack_on_top) ->
        (CurrentTurnIdx Examples.jack_on_top + k)
          mod length (TurnOrder Examples.jack_on_top)
        = CurrentTurnIdx Examples.jack_on_top).
Proof.
  apply (C7_advanceTurn_next_seat Examples.jack_on_top).
  vm_compute. lia.
Defined.

(** With the Jack on top it is the turn of "b": a play by "a" is an error
    that changes nothing, and the play of "b" succeeds. *)
Lemma C8_witness :
  (exists msg, PlayCard Examples.go_growcap "a" Examples.jack_on_top
               = Ok (PlayError msg, Examples.jack_on_top))
  /\ (TurnOrder Examples.jack_on_top !! CurrentTurnIdx Examples.jack_on_top = Some "b"
      /\ 0 < s_len (hand_of Examples.jack_on_top "b")).
Proof.
  assert (Hidx : CurrentTurnIdx Examples.jack_on_top < length (TurnOrder Examples.jack_on_top)).
  { vm_compute. lia. }
  split.
  - apply (C8_PlayCard_single_writer Examples.go_growcap Examples.jack_on_top "a" Hidx).
    left. vm_compute. discriminate.
  - apply (proj1 (proj2 (C8_PlayCard_single_writer Examples.go_growcap
                           Examples.jack_on_top "b" Hidx))
             (mkCard "hearts" "Q") Examples.jack_covered).
    vm_compute. reflexivity.
Defined.

(** With the Jack on top the timeout plays the front card of "b". *)
Lemma C9_witness :
  exists card next g',
    PlayCard Examples.go_growcap "b" Examples.jack_on_top = Ok (Played card, g')
    /\ StartTurnTimer_timeout Examples.go_growcap Examples.jack_on_top
       = Ok ([Protocol.CardPlayed "b" card (s_len (Pile g')); Protocol.TurnChanged next],
             true, g')
    /\ GetCurrentPlayer g' = Ok next.
Proof.
  apply (C9_timeout_plays_like_PlayCard Examples.go_growcap Examples.jack_on_top "b").
  - exact jack_on_top_reachable.
  - vm_compute. reflexivity.
  - vm_compute. lia.
Defined.

End EngineFacts.

(** ** The room roster *)

Module RoomFacts.
Import Room.

Lemma first_connected_Some (iter : list string) (m : gmap string Player) (id : string)
    (p : Player) :
  first_connected iter m = Some (id, p) -> m !! id = Some p /\ IsConnected p = true.
Proof.
  induction iter as [|k iter IH]; simpl; [discriminate|].
  destruct (m !! k) as [q|] eqn:Hk; [|exact IH].
  destruct (IsConnected q) eqn:Hc; [|exact IH].
  intros H. injection H as <- <-. split; done.
Qed.

Lemma first_connected_None (iter : list string) (m : gmap string Player) :
  first_connected iter m = None ->
  forall k p, k ∈ iter -> m !! k = Some p -> IsConnected p = false.
Proof.
  induction iter as [|k0 iter IH]; simpl; intros H k p Hin Hk.
  - apply elem_of_nil in Hin. contradiction.
  - apply elem_of_cons in Hin as [->|Hin].
    + rewrite Hk in H. destruct (IsConnected p); [discriminate|reflexivity].
    + destruct (m !! k0) as [q|]; [destruct (IsConnected q); [discriminate|]|];
        eapply IH; eauto.
Qed.

Lemma same_roster_refl (m : gmap string Player) : same_roster m m.
Proof. intros k. destruct (m !! k); [repeat split|exact I]. Qed.

Lemma same_roster_trans (m1 m2 m3 : gmap string Player) :
  same_roster m1 m2 -> same_roster m2 m3 -> same_roster m1 m3.
Proof.
  intros H12 H23 k. specialize (H12 k). specialize (H23 k).
  destruct (m1 !! k), (m2 !! k), (m3 !! k); try done.
  destruct H12 as (A & B & C & D), H23 as (A' & B' & C' & D').
  repeat split; congruence.
Qed.

Lemma reindex_same_roster (iter : list string) : forall (pos : nat) (m : gmap string Player),
  same_roster m (reindex iter pos m).
Proof.
  induction iter as [|id iter IH]; intros pos m; simpl; [apply same_roster_refl|].
  destruct (m !! id) as [p|] eqn:Hid; [|apply IH].
  eapply same_roster_trans; [|apply IH].
  intros k. destruct (decide (k = id)) as [->|Hne].
  - rewrite Hid, lookup_insert_eq. repeat split.
  - rewrite lookup_insert_ne by done. destruct (m !! k); [repeat split|exact I].
Qed.

Lemma host_inv_same_roster (r : Room) (m' : gmap string Player) :
  same_roster (Players r) m' -> host_inv r -> host_inv (set_Players m' r).
Proof.
  intros Hs [[(h & Hh & Hhost & Hid) Huniq] Hids]. split; [split|].
  - pose proof (Hs (HostID r)) as Hk. rewrite Hh in Hk. simpl.
    destruct (m' !! HostID r) as [q|]; [|contradiction].
    destruct Hk as (A & _ & C & _). exists q. repeat split; congruence.
  - intros k q Hk Hq. simpl in *. pose proof (Hs k) as Hk'. rewrite Hk in Hk'.
    destruct (Players r !! k) as [p|] eqn:Hp; [|contradiction].
    destruct Hk' as (_ & _ & C & _). apply (Huniq k p Hp). congruence.
  - intros k q Hk. simpl in *. pose proof (Hs k) as Hk'. rewrite Hk in Hk'.
    destruct (Players r !! k) as [p|] eqn:Hp; [|contradiction].
    destruct Hk' as (A & _). rewrite <- A. apply (Hids k p Hp).
Qed.

Lemma host_inv_NewRoom (code hostName playerID : string) :
  host_inv (fst (NewRoom code hostName playerID)).
Proof.
  split; [split|]; simpl.
  - eexists. rewrite lookup_singleton_eq. repeat split.
  - intros k p Hk _. simpl in Hk. apply lookup_singleton_Some in Hk as [<- _]. reflexivity.
  - intros k p Hk. simpl in Hk. apply lookup_singleton_Some in Hk as [<- <-]. reflexivity.
Qed.

Lemma host_inv_AddPlayer (name playerID : string) (r : Room) :
  host_inv r -> Players r !! playerID = None ->
  host_inv (snd (AddPlayer name playerID r)).
Proof.
  intros [[(h & Hh & Hhost & Hid) Huniq] Hids] Hfresh. split; [split|]; simpl.
  - exists h. rewrite lookup_insert_ne by congruence. repeat split; done.
  - intros k p Hk Hp. simpl in Hk. apply lookup_insert_Some in Hk as [[<- <-]|[_ Hk]].
    + discriminate.
    + eapply Huniq; eauto.
  - intros k p Hk. simpl in Hk. apply lookup_insert_Some in Hk as [[<- <-]|[_ Hk]].
    + reflexivity.
    + eapply Hids; eauto.
Qed.

Lemma host_inv_MarkPlayerDisconnected (playerID : string) (r : Room) :
  host_inv r -> host_inv (MarkPlayerDisconnected playerID r).
Proof.
  intros [[(h & Hh & Hhost & Hid) Huniq] Hids]. unfold MarkPlayerDisconnected.
  destruct (Players r !! playerID) as [p0|] eqn:Hp0; [|repeat split; eauto].
  split; [split|]; simpl.
  - destruct (decide (playerID = HostID r)) as [->|Hne].
    + rewrite lookup_insert_eq. eexists. split; [reflexivity|]. simpl.
      rewrite Hh in Hp0. injection Hp0 as <-. split; done.
    + rewrite lookup_insert_ne by done. eauto.
  - intros k p Hk Hp. simpl in Hk. apply lookup_insert_Some in Hk as [[<- <-]|[_ Hk]].
    + eapply Huniq; eauto.
    + eapply Huniq; eauto.
  - intros k p Hk. simpl in Hk. apply lookup_insert_Some in Hk as [[<- <-]|[_ Hk]].
    + simpl. eapply Hids; eauto.
    + eapply Hids; eauto.
Qed.

(** The first part of [RemovePlayer]: the invariant is kept, and a host
    who leaves is replaced by a connected player. *)
Lemma remove_and_reassign_spec (iter1 : list string) (playerID : string) (r : Room) :
  host_inv r ->
  range_order iter1 (delete playerID (Players r)) ->
  playerID ≠ HostID r \/ other_connected playerID r ->
  host_inv (remove_and_reassign iter1 playerID r)
  /\ (playerID = HostID r ->
      exists p, Players (remove_and_reassign iter1 playerID r)
                  !! HostID (remove_and_reassign iter1 playerID r) = Some p
        /\ IsConnected p = true
        /\ HostID (remove_and_reassign iter1 playerID r) ≠ playerID).
Proof.
  intros [[(h & Hh & Hhost & Hid) Huniq] Hids] [_ Hiter] Hcase.
  unfold remove_and_reassign. cbv zeta.
  set (r1 := set_Players (delete playerID (Players r)) r).
  assert (Hdel : playerID ≠ HostID r -> host_inv r1).
  { intros Hne. split; [split|]; simpl.
    - exists h. rewrite lookup_delete_ne by done. repeat split; done.
    - intros k p Hk Hp. simpl in Hk. apply lookup_delete_Some in Hk as [_ Hk].
      eapply Huniq; eauto.
    - intros k p Hk. simpl in Hk. apply lookup_delete_Some in Hk as [_ Hk].
      eapply Hids; eauto. }
  destruct (String.eqb_spec (HostID r1) playerID) as [Heq|Hne]; cbn [andb].
  - simpl in Heq.
    destruct Hcase as [Hne|(k & q & Hk & Hq & Hconn)]; [congruence|].
    assert (Hq1 : Players r1 !! k = Some q) by (simpl; rewrite lookup_delete_ne; done).
    assert (Hsize : (0 <? size (Players r1)) = true).
    { apply Nat.ltb_lt. destruct (size (Players r1)) eqn:Hs; [|lia].
      apply map_size_empty_iff in Hs. rewrite Hs, lookup_empty in Hq1. discriminate. }
    rewrite Hsize.
    destruct (first_connected iter1 (Players r1)) as [[id p]|] eqn:Hfirst.
    + apply first_connected_Some in Hfirst as [Hp Hpc].
      assert (Hp0 : Players r !! id = Some p /\ id ≠ playerID).
      { simpl in Hp. apply lookup_delete_Some in Hp as [A B]. split; done. }
      destruct Hp0 as [Hp0 Hidne].
      split; [split; [split|]|]; simpl.
      * eexists. rewrite lookup_insert_eq. split; [reflexivity|]. simpl.
        split; [reflexivity|]. eapply Hids; eauto.
      * intros k' q' Hk' Hq'. simpl in Hk'.
        apply lookup_insert_Some in Hk' as [[<- _]|[Hne Hk']];
          [reflexivity|].
        apply lookup_delete_Some in Hk' as [Hk'ne Hk'].
        exfalso. apply Hk'ne. rewrite <- Heq. symmetry. eapply Huniq; eauto.
      * intros k' q' Hk'. simpl in Hk'.
        apply lookup_insert_Some in Hk' as [[<- <-]|[Hne Hk']].
        -- simpl. eapply Hids; eauto.
        -- apply lookup_delete_Some in Hk' as [_ Hk']. eapply Hids; eauto.
      * intros _. eexists. rewrite lookup_insert_eq. split; [reflexivity|]. simpl.
        split; [exact Hpc|exact Hidne].
    + exfalso. pose proof (first_connected_None _ _ Hfirst k q) as Hnone.
      rewrite Hnone in Hconn; [discriminate| |exact Hq1].
      apply Hiter. simpl in Hq1. rewrite Hq1. eauto.
  - simpl in Hne. split; [apply Hdel; congruence|]. intros ->. contradiction.
Qed.

Lemma RemovePlayer_spec (iter1 iter2 : list string) (playerID : string) (r : Room) :
  host_inv r ->
  range_order iter1 (delete playerID (Players r)) ->
  playerID ≠ HostID r \/ other_connected playerID r ->
  host_inv (RemovePlayer iter1 iter2 playerID r)
  /\ (playerID = HostID r ->
      exists p, Players (RemovePlayer iter1 iter2 playerID r)
                  !! HostID (RemovePlayer iter1 iter2 playerID r) = Some p
        /\ IsConnected p = true
        /\ HostID (RemovePlayer iter1 iter2 playerID r) ≠ playerID).
Proof.
  intros Hinv Hiter Hcase.
  destruct (remove_and_reassign_spec iter1 playerID r Hinv Hiter Hcase) as [Hinv2 Hnew].
  unfold RemovePlayer. cbv zeta.
  set (r2 := remove_and_reassign iter1 playerID r) in *. clearbody r2.
  pose proof (reindex_same_roster iter2 0 (Players r2)) as Hsame.
  split; [apply host_inv_same_roster; done|].
  intros Hhost. destruct (Hnew Hhost) as (p & Hp & Hc & Hne). simpl.
  specialize (Hsame (HostID r2)). rewrite Hp in Hsame.
  destruct (reindex iter2 0 (Players r2) !! HostID r2) as [q|]; [|contradiction].
  destruct Hsame as (_ & _ & _ & D). exists q. repeat split; congruence.
Qed.

(** The players [RemovePlayer] leaves are players the room had, other
    than the one removed, with the identifier, the name and the connection
    they had. *)
Lemma RemovePlayer_players (iter1 iter2 : list string) (playerID : string) (r : Room)
    (k : string) (q : Player) :
  Players (RemovePlayer iter1 iter2 playerID r) !! k = Some q ->
  k ≠ playerID
  /\ exists p, Players r !! k = Some p
       /\ ID q = ID p /\ Name q = Name p /\ IsConnected q = IsConnected p.
Proof.
  unfold RemovePlayer. cbv zeta. cbn [Players set_Players]. intros Hq.
  pose proof (reindex_same_roster iter2 0 (Players (remove_and_reassign iter1 playerID r)) k)
    as Hsame.
  rewrite Hq in Hsame.
  destruct (Players (remove_and_reassign iter1 playerID r) !! k) as [p2|] eqn:Hp2;
    [|contradiction].
  destruct Hsame as (Hid & Hname & _ & Hconn).
  assert (Hdel : forall p, delete playerID (Players r) !! k = Some p ->
            k ≠ playerID /\ Players r !! k = Some p).
  { intros p Hp. apply lookup_delete_Some in Hp as [Hne Hp]. split; [congruence|exact Hp]. }
  unfold remove_and_reassign in Hp2. cbv zeta in Hp2.
  destruct (String.eqb _ _ && _).
  - destruct (first_connected iter1 _) as [[id p]|] eqn:Hfirst.
    + apply first_connected_Some in Hfirst as [Hp _]. cbn [Players set_Players set_HostID] in *.
      apply lookup_insert_Some in Hp2 as [[<- <-]|[_ Hp2]].
      * destruct (Hdel p Hp) as [Hne Hp0]. split; [exact Hne|].
        exists p. split; [exact Hp0|]. cbn in Hid, Hname, Hconn. repeat split; congruence.
      * destruct (Hdel p2 Hp2) as [Hne Hp0]. split; [exact Hne|].
        exists p2. repeat split; congruence.
    + cbn [Players set_Players] in Hp2. destruct (Hdel p2 Hp2) as [Hne Hp0].
      split; [exact Hne|]. exists p2. repeat split; congruence.
  - cbn [Players set_Players] in Hp2. destruct (Hdel p2 Hp2) as [Hne Hp0].
    split; [exact Hne|]. exists p2. repeat split; congruence.
Qed.

(** [AddPlayer] keeps the host also when the identifier is in use, unless
    it is the host's. *)
Lemma host_inv_AddPlayer_other (name playerID : string) (r : Room) :
  host_inv r -> playerID ≠ HostID r ->
  host_inv (snd (AddPlayer name playerID r)).
Proof.
  intros [[(h & Hh & Hhost & Hid) Huniq] Hids] Hother. split; [split|]; simpl.
  - exists h. rewrite lookup_insert_ne by congruence. repeat split; done.
  - intros k p Hk Hp. simpl in Hk. apply lookup_insert_Some in Hk as [[<- <-]|[_ Hk]].
    + discriminate.
    + eapply Huniq; eauto.
  - intros k p Hk. simpl in Hk. apply lookup_insert_Some in Hk as [[<- <-]|[_ Hk]].
    + reflexivity.
    + eapply Hids; eauto.
Qed.

Lemma host_inv_MarkPlayerConnected (playerID : string) (r : Room) :
  host_inv r -> host_inv (MarkPlayerConnected playerID r).
Proof.
  intros [[(h & Hh & Hhost & Hid) Huniq] Hids]. unfold MarkPlayerConnected.
  destruct (Players r !! playerID) as [p0|] eqn:Hp0; [|repeat split; eauto].
  split; [split|]; simpl.
  - destruct (decide (playerID = HostID r)) as [->|Hne].
    + rewrite lookup_insert_eq. eexists. split; [reflexivity|]. simpl.
      rewrite Hh in Hp0. injection Hp0 as <-. split; done.
    + rewrite lookup_insert_ne by done. eauto.
  - intros k p Hk Hp. simpl in Hk. apply lookup_insert_Some in Hk as [[<- <-]|[_ Hk]].
    + eapply Huniq; eauto.
    + eapply Huniq; eauto.
  - intros k p Hk. simpl in Hk. apply lookup_insert_Some in Hk as [[<- <-]|[_ Hk]].
    + simpl. eapply Hids; eauto.
    + eapply Hids; eauto.
Qed.

(** [RemovePlayer] in a room of connected players: as long as a player is
    left there is one host, and a host who has left is replaced by one of
    the players who stay. *)
Lemma RemovePlayer_all_connected (iter1 iter2 : list string) (playerID : string) (r : Room) :
  ids_ok r -> all_connected r -> (Players r ≠ ∅ -> one_host r) ->
  range_order iter1 (delete playerID (Players r)) ->
  Players (RemovePlayer iter1 iter2 playerID r) ≠ ∅ ->
  host_inv (RemovePlayer iter1 iter2 playerID r)
  /\ (playerID ≠ HostID r -> HostID (RemovePlayer iter1 iter2 playerID r) = HostID r)
  /\ (playerID = HostID r ->
      HostID (RemovePlayer iter1 iter2 playerID r) ≠ playerID
      /\ exists p, Players r !! HostID (RemovePlayer iter1 iter2 playerID r) = Some p
           /\ IsConnected p = true).
Proof.
  intros Hids Hconn Hone Hiter Hleft.
  apply map_choose in Hleft as (k & q & Hq).
  destruct (RemovePlayer_players _ _ _ _ _ _ Hq) as (Hk & p & Hp & _).
  assert (Hinv : host_inv r).
  { split; [|exact Hids]. apply Hone. intros Hempty.
    rewrite Hempty, lookup_empty in Hp. discriminate. }
  assert (Hcase : playerID ≠ HostID r \/ other_connected playerID r).
  { right. exists k, p. split; [exact Hk|]. split; [exact Hp|]. apply (Hconn k p Hp). }
  destruct (RemovePlayer_spec iter1 iter2 playerID r Hinv Hiter Hcase) as [Hinv' Hnew].
  split; [exact Hinv'|]. split.
  - intros Hne. unfold RemovePlayer, remove_and_reassign. cbv zeta.
    cbn [HostID set_Players].
    destruct (String.eqb_spec (HostID r) playerID) as [Heq|_]; [congruence|reflexivity].
  - intros Hhost. destruct (Hnew Hhost) as (h & Hh & _ & Hne). split; [exact Hne|].
    destruct (RemovePlayer_players _ _ _ _ _ _ Hh) as (_ & p0 & Hp0 & _).
    exists p0. split; [exact Hp0|]. apply (Hconn _ p0 Hp0).
Qed.

(** What every room the server makes has: players stored under their own
    identifiers, all of them connected, and one host while there is a
    player. *)
Lemma built_inv (r : Room) :
  built r -> ids_ok r /\ all_connected r /\ (Players r ≠ ∅ -> one_host r).
Proof.
  induction 1 as [code hostName playerID
                 | name playerID r _ (Hids & Hconn & Hone) Hleft Hother
                 | iter1 iter2 playerID r _ (Hids & Hconn & Hone) Hiter
                 | playerID r _ (Hids & Hconn & Hone)
                 | r r' _ (Hids & Hconn & Hone) Hplayers Hhost].
  - destruct (host_inv_NewRoom code hostName playerID) as [Hone Hids].
    split; [exact Hids|]. split; [|intros _; exact Hone].
    intros k p Hk. simpl in Hk. apply lookup_singleton_Some in Hk as [_ <-]. reflexivity.
  - destruct (host_inv_AddPlayer_other name playerID r (conj (Hone Hleft) Hids) Hother)
      as [Hone' Hids'].
    split; [exact Hids'|]. split; [|intros _; exact Hone'].
    intros k p Hk. simpl in Hk. apply lookup_insert_Some in Hk as [[_ <-]|[_ Hk]].
    + reflexivity.
    + apply (Hconn k p Hk).
  - split; [|split].
    + intros k q Hq. destruct (RemovePlayer_players _ _ _ _ _ _ Hq) as (_ & p & Hp & Hid & _).
      rewrite Hid. apply (Hids k p Hp).
    + intros k q Hq.
      destruct (RemovePlayer_players _ _ _ _ _ _ Hq) as (_ & p & Hp & _ & _ & Hc).
      rewrite Hc. apply (Hconn k p Hp).
    + intros Hleft.
      apply (RemovePlayer_all_connected iter1 iter2 playerID r Hids Hconn Hone Hiter Hleft).
  - unfold MarkPlayerConnected in *.
    destruct (Players r !! playerID) as [p0|] eqn:Hp0; [|split; [exact Hids|split; assumption]].
    assert (Hleft : Players r ≠ ∅).
    { intros Hempty. rewrite Hempty, lookup_empty in Hp0. discriminate. }
    pose proof (host_inv_MarkPlayerConnected playerID r (conj (Hone Hleft) Hids)) as Hinv.
    unfold MarkPlayerConnected in Hinv. rewrite Hp0 in Hinv. destruct Hinv as [Hone' Hids'].
    split; [exact Hids'|]. split; [|intros _; exact Hone'].
    intros k p Hk. simpl in Hk. apply lookup_insert_Some in Hk as [[_ <-]|[_ Hk]].
    + reflexivity.
    + apply (Hconn k p Hk).
  - unfold ids_ok, all_connected, one_host. rewrite Hplayers, Hhost.
    split; [exact Hids|]. split; [exact Hconn|exact Hone].
Qed.

(** C10. A new room has its creator as the one player, who is the host.
    In every room the server makes, while there is a player in it, exactly
    one player has the host flag, and it is the player [HostID] names. So
    [AddPlayer], under an identifier that is not the host's, leaves one
    host, the same, and so does [RemovePlayer] as long as it leaves a
    player: when another player than the host was removed the host is the
    same, and when the host was removed the host is one of the players who
    stay, and a connected one. *)
Theorem C10_one_host :
  (forall code hostName playerID,
     Players (fst (NewRoom code hostName playerID))
     = {[playerID := mkPlayer playerID hostName true true 0]}
     /\ HostID (fst (NewRoom code hostName playerID)) = playerID
     /\ one_host (fst (NewRoom code hostName playerID)))
  /\ (forall r, built r -> Players r ≠ ∅ -> one_host r)
  /\ (forall name playerID r,
        built r -> Players r ≠ ∅ -> playerID ≠ HostID r ->
        one_host (snd (AddPlayer name playerID r))
        /\ HostID (snd (AddPlayer name playerID r)) = HostID r)
  /\ (forall iter1 iter2 playerID r,
        built r -> range_order iter1 (delete playerID (Players r)) ->
        Players (RemovePlayer iter1 iter2 playerID r) ≠ ∅ ->
        one_host (RemovePlayer iter1 iter2 playerID r)
        /\ (playerID ≠ HostID r -> HostID (RemovePlayer iter1 iter2 playerID r) = HostID r)
        /\ (playerID = HostID r ->
            HostID (RemovePlayer iter1 iter2 playerID r) ≠ playerID
            /\ exists p, Players r !! HostID (RemovePlayer iter1 iter2 playerID r) = Some p
                 /\ IsConnected p = true)).
Proof.
  split; [intros; split; [reflexivity|split; [reflexivity|apply host_inv_NewRoom]]|].
  split; [intros r Hr; apply (built_inv r Hr)|].
  split.
  - intros name playerID r Hr Hleft Hother. split; [|reflexivity].
    apply (built_inv _ (built_add name playerID r Hr Hleft Hother)).
    simpl. apply insert_non_empty.
  - intros iter1 iter2 playerID r Hr Hiter Hleft.
    destruct (built_inv r Hr) as (Hids & Hconn & Hone).
    destruct (RemovePlayer_all_connected iter1 iter2 playerID r Hids Hconn Hone Hiter Hleft)
      as ([Hone' _] & Hsame & Hnew).
    split; [exact Hone'|]. split; [exact Hsame|exact Hnew].
Qed.

(** Where the invariant ends. A host who leaves players behind of whom
    none is connected is not replaced: nobody is host afterwards, and
    [HostID] still names the player who left. The server makes no such
    room, as it never marks a player disconnected. *)
Lemma RemovePlayer_host_nobody_connected (iter1 iter2 : list string) (playerID : string)
    (r : Room) :
  host_inv r -> playerID = HostID r ->
  (forall k p, k ≠ playerID -> Players r !! k = Some p -> IsConnected p = false) ->
  HostID (RemovePlayer iter1 iter2 playerID r) = playerID
  /\ Players (RemovePlayer iter1 iter2 playerID r) !! playerID = None
  /\ forall k q, Players (RemovePlayer iter1 iter2 playerID r) !! k = Some q ->
                 IsHost q = false.
Proof.
  intros [[_ Huniq] _] Hhost Hnone.
  assert (Hstay : remove_and_reassign iter1 playerID r
                  = set_Players (delete playerID (Players r)) r).
  { unfold remove_and_reassign. cbv zeta. destruct (String.eqb _ _ && _); [|reflexivity].
    destruct (first_connected iter1 _) as [[id p]|] eqn:Hfirst; [|reflexivity].
    apply first_connected_Some in Hfirst as [Hp Hc]. cbn [Players set_Players] in Hp.
    apply lookup_delete_Some in Hp as [Hne Hp].
    rewrite (Hnone id p) in Hc by (congruence || exact Hp). discriminate. }
  unfold RemovePlayer. cbv zeta. rewrite Hstay. cbn [HostID Players set_Players].
  split; [congruence|].
  assert (Hsame := reindex_same_roster iter2 0 (delete playerID (Players r))).
  split.
  - specialize (Hsame playerID). rewrite lookup_delete_eq in Hsame.
    destruct (reindex iter2 0 (delete playerID (Players r)) !! playerID);
      [contradiction|reflexivity].
  - intros k q Hq. specialize (Hsame k). rewrite Hq in Hsame.
    destruct (delete playerID (Players r) !! k) as [p|] eqn:Hp; [|contradiction].
    destruct Hsame as (_ & _ & Hflag & _).
    apply lookup_delete_Some in Hp as [Hne Hp].
    destruct (IsHost q) eqn:Hq'; [|reflexivity].
    exfalso. apply Hne. rewrite Hhost. symmetry. apply (Huniq k p Hp). congruence.
Qed.

(** A player added under the identifier of the host takes the host's
    place in the map and is no host. *)
Lemma AddPlayer_host_id (name : string) (r : Room) :
  ~ one_host (snd (AddPlayer name (HostID r) r)).
Proof.
  intros [(h & Hh & Hflag & _) _]. simpl in Hh. rewrite lookup_insert_eq in Hh.
  injection Hh as <-. discriminate.
Qed.

(** A player added to a room without players is no host: the one host is
    kept only while the room has a player. *)
Lemma AddPlayer_no_players (name playerID : string) (r : Room) :
  Players r = ∅ -> ~ one_host (snd (AddPlayer name playerID r)).
Proof.
  intros Hempty [(h & Hh & Hflag & _) _]. simpl in Hh. rewrite Hempty in Hh.
  apply lookup_insert_Some in Hh as [[_ <-]|[_ Hh]]; [discriminate|].
  rewrite lookup_empty in Hh. discriminate.
Qed.

Lemma lobby_host_inv : host_inv lobby.
Proof.
  apply host_inv_MarkPlayerDisconnected, host_inv_AddPlayer; [apply host_inv_NewRoom|].
  reflexivity.
Qed.

Lemma lobby2_host_inv : host_inv lobby2.
Proof. apply host_inv_AddPlayer; [apply host_inv_NewRoom|]. reflexivity. Qed.

Lemma range_order_dom (iter : list string) (m : gmap string Player) :
  NoDup iter -> list_to_set iter = dom m -> range_order iter m.
Proof.
  intros Hnd Hdom. split; [exact Hnd|].
  intros k. rewrite <- elem_of_dom, <- Hdom, elem_of_list_to_set. reflexivity.
Qed.

(** alice ("h") hosts a lobby in which bob ("p") has been marked
    disconnected. The room has exactly one host. When alice leaves, the
    room still holds bob, but nobody is host and [HostID] still names
    alice. *)
Lemma lobby_host_leaves :
  one_host lobby
  /\ range_order ["p"] (delete "h" (Players lobby))
  /\ Players (RemovePlayer ["p"] ["p"] "h" lobby) !! "p"
     = Some (mkPlayer "p" "bob" false false 0)
  /\ HostID (RemovePlayer ["p"] ["p"] "h" lobby) = "h"
  /\ ~ one_host (RemovePlayer ["p"] ["p"] "h" lobby).
Proof.
  split; [apply lobby_host_inv|].
  split; [apply range_order_dom; [apply NoDup_singleton|vm_compute; reflexivity]|].
  split; [vm_compute; reflexivity|].
  split; [vm_compute; reflexivity|].
  intros [(h & Hh & _) _]. vm_compute in Hh. discriminate.
Qed.

Lemma lobby2_built : built lobby2.
Proof.
  apply built_add; [apply built_new| |discriminate].
  simpl. apply insert_non_empty.
Qed.

(** In a lobby of two connected players: a third player joins; the guest
    leaves; the host leaves and the guest becomes the host. *)
Lemma C10_witness :
  one_host lobby2
  /\ one_host (snd (AddPlayer "carol" "c" lobby2))
  /\ one_host (RemovePlayer ["h"] ["h"] "p" lobby2)
  /\ HostID (RemovePlayer ["h"] ["h"] "p" lobby2) = "h"
  /\ one_host (RemovePlayer ["p"] ["p"] "h" lobby2)
  /\ HostID (RemovePlayer ["p"] ["p"] "h" lobby2) ≠ "h"
  /\ exists p, Players lobby2 !! HostID (RemovePlayer ["p"] ["p"] "h" lobby2) = Some p
       /\ IsConnected p = true.
Proof.
  destruct C10_one_host as (_ & Hone & Hadd & Hremove).
  assert (Hleft : Players lobby2 ≠ ∅) by (simpl; apply insert_non_empty).
  split; [apply (Hone lobby2 lobby2_built Hleft)|].
  split; [apply (Hadd "carol" "c" lobby2 lobby2_built Hleft); discriminate|].
  assert (Hguest : range_order ["h"] (delete "p" (Players lobby2))).
  { apply range_order_dom; [apply NoDup_singleton|vm_compute; reflexivity]. }
  assert (Hhost : range_order ["p"] (delete "h" (Players lobby2))).
  { apply range_order_dom; [apply NoDup_singleton|vm_compute; reflexivity]. }
  assert (Hstay : forall iter playerID k p,
            Players (RemovePlayer iter iter playerID lobby2) !! k = Some p ->
            Players (RemovePlayer iter iter playerID lobby2) ≠ ∅).
  { intros iter playerID k p Hk Hempty. rewrite Hempty, lookup_empty in Hk. discriminate. }
  destruct (Hremove ["h"] ["h"] "p" lobby2 lobby2_built Hguest
              (Hstay ["h"] "p" "h" (mkPlayer "h" "alice" true true 0) eq_refl))
    as (Hone1 & Hsame1 & _).
  split; [exact Hone1|]. split; [apply Hsame1; discriminate|].
  destruct (Hremove ["p"] ["p"] "h" lobby2 lobby2_built Hhost
              (Hstay ["p"] "h" "p" (mkPlayer "p" "bob" true true 0) eq_refl))
    as (Hone2 & _ & Hnew2).
  split; [exact Hone2|]. apply Hnew2. reflexivity.
Defined.

End RoomFacts.

Module CardFacts.
Import CardValues.

Ltac rank_case r :=
  match goal with
  | |- context [String.eqb r ?k] => destruct (String.eqb_spec r k) as [->|?]
  end.

Lemma RankValue_cases (c : Card) :
  (RankValue c = 0%Z /\ ~ In (Rank c) ranks)
  \/ (In (Rank c) ranks /\ (2 <= RankValue c <= 14)%Z).
Proof.
  unfold RankValue, ranks. destruct c as [s r]. cbn [Rank].
  repeat (rank_case r; [right; split; [simpl; auto 20|lia]|]).
  left. split; [reflexivity|]. simpl. intuition congruence.
Qed.

(** X1. [RankValue] is 0 exactly on the strings that are no rank of the
    deck and lies between 2 and 14 on the thirteen ranks; it tells the
    ranks apart; and [IsJack] is the test for the value 11. *)
Theorem RankValue_ranks (c c' : Card) :
  (In (Rank c) ranks <-> (2 <= RankValue c <= 14)%Z)
  /\ (~ In (Rank c) ranks <-> RankValue c = 0%Z)
  /\ (IsJack c = true <-> RankValue c = 11%Z)
  /\ (RankValue c = RankValue c' /\ RankValue c ≠ 0%Z -> Rank c = Rank c').
Proof.
  split; [|split; [|split]].
  - destruct (RankValue_cases c) as [[H0 Hn]|[Hin Hr]]; split; intros H; try done; lia.
  - destruct (RankValue_cases c) as [[H0 Hn]|[Hin Hr]]; split; intros H; try done; lia.
  - unfold IsJack, RankValue. destruct c as [s r]. cbn [Rank].
    repeat (rank_case r; [simpl; split; intros; (discriminate || reflexivity)|]).
    split; discriminate.
  - unfold RankValue. destruct c as [s r], c' as [s' r']. cbn [Rank].
    intros [Heq Hnz]. revert Heq Hnz.
    repeat rank_case r; repeat rank_case r';
    intros; try discriminate; try reflexivity; try contradiction.
Qed.

End CardFacts.

Module TopOfPileFacts.
Import Queries.

Lemma length_top_three (pile : list Card) :
  length (top_three pile) = Nat.min 3 (length pile).
Proof. unfold top_three. rewrite length_drop. lia. Qed.

Lemma CheckSlap_top_three (r : Rules) (pile : list Card) :
  CheckSlap r (top_three pile) = CheckSlap r pile.
Proof.
  unfold top_three.
  destruct (decide (length pile <= 3)) as [Hle|Hgt].
  { replace (length pile - 3) with 0 by lia. reflexivity. }
  pose proof (take_drop (length pile - 3) pile) as Hsplit.
  set (below := take (length pile - 3) pile) in *.
  set (top3 := drop (length pile - 3) pile) in *.
  assert (Hl3 : length top3 = 3) by (unfold top3; rewrite length_drop; lia).
  rewrite <- Hsplit. unfold CheckSlap.
  pose proof (SlapRulesFacts.at_index_from_top below top3 0) as H0.
  pose proof (SlapRulesFacts.at_index_from_top below top3 1) as H1.
  pose proof (SlapRulesFacts.at_index_from_top below top3 2) as H2.
  rewrite H0, H1, H2 by lia.
  rewrite length_app, Hl3.
  replace (length below + 3 =? 0) with false by (symmetry; apply Nat.eqb_neq; lia).
  replace (2 <=? length below + 3) with true by (symmetry; apply Nat.leb_le; lia).
  replace (3 <=? length below + 3) with true by (symmetry; apply Nat.leb_le; lia).
  reflexivity.
Qed.

End TopOfPileFacts.



Module EngineRunFacts.
Import Engine Invariants Settled SliceFacts EngineFacts.

Section Runs.
Variable growcap : nat -> nat -> nat.

Lemma read_view (h : store) (s : slice) (i : nat) :
  i < s_len s -> read h s i = nth i (view h s) zeroCard.
Proof.
  intros Hi. unfold read, view.
  rewrite !nth_lookup, lookup_take_lt, lookup_drop by exact Hi. reflexivity.
Qed.

Lemma same_config_refl (g : Game) : same_config g g.
Proof. unfold same_config. tauto. Qed.

Ltac same_config_by_fields := unfold same_config; repeat split; reflexivity.

Lemma step_same_config (o : op) (g g' : Game) (e : event) :
  step growcap o g = Ok (e, g') -> same_config g g'.
Proof.
  intros H. destruct o as [p|p now stamp|]; simpl in H.
  - destruct (PlayCard growcap p g) as [[r g1]| |] eqn:E; try discriminate.
    simpl in H. injection H as _ <-.
    apply PlayCard_cases in E as [[-> _]|(_ & _ & _ & i & _ & ->)];
      same_config_by_fields.
  - destruct (ProcessSlap growcap p now stamp g) as [[r g1]| |] eqn:E; try discriminate.
    simpl in H. injection H as _ <-.
    apply ProcessSlap_cases in E
      as [(_ & -> & _)|[(_ & -> & _)|[(_ & _ & _ & n & g2 & Hb & ->)|(_ & _ & _ & ->)]]].
    + same_config_by_fields.
    + same_config_by_fields.
    + apply applyBurnPenalty_cases in Hb as [(_ & _ & ->)|(_ & _ & _ & ->)];
        same_config_by_fields.
    + unfold slap_won_state. cbv zeta.
      destruct (seat_of _ _); destruct (negb _); same_config_by_fields.
  - destruct (StartTurnTimer_timeout growcap g) as [[[m b] g1]| |] eqn:E; try discriminate.
    simpl in H. injection H as _ <-.
    apply timeout_cases in E as [(-> & _)|(cur & i & _ & _ & _ & _ & ->)];
      same_config_by_fields.
Qed.

(** *** No operation panics or hangs *)

Lemma PlayCard_returns (p : string) (g : Game) :
  wf_game g -> exists r g', PlayCard growcap p g = Ok (r, g').
Proof.
  intros (Hidx & _). unfold PlayCard.
  destruct (TurnOrder g !! CurrentTurnIdx g) as [cur|] eqn:Hcur;
    [|apply lookup_ge_None in Hcur; lia].
  destruct (negb (String.eqb cur p)); [eauto|].
  destruct (s_len (hand_of g p) =? 0); [eauto|]. cbv zeta.
  destruct (advanceTurn_returns
              (set_PendingSlaps []
                 (set_SlapWindowOpen true (snd (play_front growcap p (hand_of g p) g)))))
    as [g' Hadv]; [exact Hidx|].
  rewrite Hadv. simpl. eauto.
Qed.

Lemma timeout_returns (g : Game) :
  wf_game g -> exists msgs b g', StartTurnTimer_timeout growcap g = Ok (msgs, b, g').
Proof.
  intros (Hidx & _). unfold StartTurnTimer_timeout.
  destruct (TurnOrder g !! CurrentTurnIdx g) as [cur|] eqn:Hcur;
    [|apply lookup_ge_None in Hcur; lia].
  destruct (0 <? s_len (hand_of g cur)); [|eauto]. cbv zeta.
  destruct (advanceTurn_returns
              (set_SlapWindowOpen true (snd (play_front growcap cur (hand_of g cur) g))))
    as [g' Hadv]; [exact Hidx|].
  rewrite Hadv. cbn [obind].
  apply advanceTurn_only_idx in Hadv as [Hg' Hi].
  unfold GetCurrentPlayer.
  destruct (TurnOrder g' !! CurrentTurnIdx g') as [next|] eqn:Hnext.
  - simpl. eauto.
  - apply lookup_ge_None in Hnext.
    replace (TurnOrder g') with
      (TurnOrder (set_SlapWindowOpen true (snd (play_front growcap cur (hand_of g cur) g))))
      in Hnext by (rewrite Hg'; reflexivity).
    lia.
Qed.

Lemma applyBurnPenalty_returns (p : string) (g : Game) :
  (0 <= BurnPenalty g)%Z -> exists n g', applyBurnPenalty growcap p g = Ok (n, g').
Proof.
  intros Hb. unfold applyBurnPenalty.
  destruct (s_len (hand_of g p) =? 0); [eauto|]. cbv zeta.
  destruct (Z.ltb_spec (Z.of_nat (s_len (hand_of g p))) (BurnPenalty g)).
  - destruct (Z.ltb_spec (Z.of_nat (s_len (hand_of g p))) 0); [lia|eauto].
  - destruct (Z.ltb_spec (BurnPenalty g) 0); [lia|eauto].
Qed.

Lemma ProcessSlap_returns (p : string) (now stamp : Z) (g : Game) :
  (0 <= BurnPenalty g)%Z -> exists r g', ProcessSlap growcap p now stamp g = Ok (r, g').
Proof.
  intros Hb.
  destruct (in_cooldown g p now) eqn:Hc.
  { rewrite ProcessSlap_cooldown by done. eauto. }
  destruct (decide (CheckSlap (GameRules g) (pile_cards g) = SlapReasonInvalid)) as [Hr|Hr].
  - destruct (s_len (hand_of g p)) as [|n] eqn:Hlen.
    + destruct (canSlapIn g p) eqn:Hin.
      * rewrite ProcessSlap_slapin_invalid by done. eauto.
      * rewrite ProcessSlap_eliminated by done. eauto.
    + rewrite ProcessSlap_burn by (done || lia).
      destruct (applyBurnPenalty_returns p (stamp_attempt p stamp g)) as (k & g1 & Hk);
        [exact Hb|].
      rewrite Hk. simpl. eauto.
  - destruct (s_len (hand_of g p)) as [|n] eqn:Hlen.
    + destruct (canSlapIn g p) eqn:Hin.
      * rewrite ProcessSlap_valid by (rewrite ?Hlen; auto). eauto.
      * rewrite ProcessSlap_eliminated by done. eauto.
    + rewrite ProcessSlap_valid by (rewrite ?Hlen; auto; left; lia). eauto.
Qed.

Lemma step_returns (o : op) (g : Game) :
  wf_game g -> (0 <= BurnPenalty g)%Z -> exists e g', step growcap o g = Ok (e, g').
Proof.
  intros Hwf Hb. destruct o as [p|p now stamp|]; simpl.
  - destruct (PlayCard_returns p g Hwf) as (r & g' & ->). simpl. eauto.
  - destruct (ProcessSlap_returns p now stamp g Hb) as (r & g' & ->). simpl. eauto.
  - destruct (timeout_returns g Hwf) as (m & b & g' & ->). simpl. eauto.
Qed.

Lemma run_returns (ops : list op) : forall (g : Game),
  wf_game g -> (0 <= BurnPenalty g)%Z ->
  exists evs g', run growcap ops g = Ok (evs, g') /\ length evs = length ops.
Proof.
  induction ops as [|o ops IH]; intros g Hwf Hb; cbn [run].
  - eauto.
  - destruct (step_returns o g Hwf Hb) as (e & g1 & Hstep). rewrite Hstep. cbn [obind snd fst].
    destruct (IH g1) as (evs & g2 & Hrun & Hlen).
    + eapply wf_step; eauto.
    + apply step_same_config in Hstep as (_ & _ & -> & _). exact Hb.
    + rewrite Hrun. cbn [obind snd fst]. eexists _, _. split; [reflexivity|].
      simpl. rewrite Hlen. reflexivity.
Qed.

(** X2. A game whose burn penalty is not negative answers every sequence
    of plays, slaps and timeouts: no operation panics or loops for ever,
    each one returns its event, and the state stays a state of the game. *)
Theorem run_never_panics (ops : list op) (g : Game) :
  reachable growcap g -> (0 <= BurnPenalty g)%Z ->
  exists evs g', run growcap ops g = Ok (evs, g')
    /\ length evs = length ops /\ reachable growcap g' /\ wf_game g'.
Proof.
  intros Hreach Hb.
  destruct (run_returns ops g (reachable_wf growcap g Hreach) Hb) as (evs & g' & Hrun & Hlen).
  exists evs, g'. split; [exact Hrun|]. split; [exact Hlen|].
  assert (Hreach' : reachable growcap g') by (eapply run_reachable; eauto).
  split; [exact Hreach'|]. apply (reachable_wf growcap), Hreach'.
Qed.

(** *** The answers of [ProcessSlap] *)

Lemma ProcessSlap_branches (p : string) (now stamp : Z) (g : Game) :
  (in_cooldown g p now = true
   /\ ProcessSlap growcap p now stamp g
      = Ok (Protocol.mkSlapResult p false "cooldown" 0 0, count_attempt g))
  \/ (in_cooldown g p now = false /\ s_len (hand_of g p) = 0 /\ canSlapIn g p = false
      /\ ProcessSlap growcap p now stamp g
         = Ok (Protocol.mkSlapResult p false "eliminated" 0 0, stamp_attempt p stamp g))
  \/ (in_cooldown g p now = false /\ s_len (hand_of g p) = 0 /\ canSlapIn g p = true
      /\ CheckSlap (GameRules g) (pile_cards g) = SlapReasonInvalid
      /\ ProcessSlap growcap p now stamp g
         = Ok (Protocol.mkSlapResult p false "invalid" 0 0, stamp_attempt p stamp g))
  \/ (in_cooldown g p now = false /\ 0 < s_len (hand_of g p)
      /\ CheckSlap (GameRules g) (pile_cards g) = SlapReasonInvalid
      /\ ProcessSlap growcap p now stamp g
         = let* burned := applyBurnPenalty growcap p (stamp_attempt p stamp g) in
           Ok (Protocol.mkSlapResult p false "invalid" 0 (fst burned),
               charge_burn p (fst burned) (snd burned)))
  \/ (in_cooldown g p now = false
      /\ (0 < s_len (hand_of g p) \/ canSlapIn g p = true)
      /\ CheckSlap (GameRules g) (pile_cards g) ≠ SlapReasonInvalid
      /\ ProcessSlap growcap p now stamp g
         = Ok (Protocol.mkSlapResult p true
                 (reason_string (CheckSlap (GameRules g) (pile_cards g)))
                 (Z.of_nat (s_len (Pile g))) 0,
               slap_won_state growcap p (0 <? s_len (hand_of g p))
                 (stamp_attempt p stamp g))).
Proof.
  destruct (in_cooldown g p now) eqn:Hc.
  { left. split; [reflexivity|]. apply ProcessSlap_cooldown, Hc. }
  right.
  destruct (decide (CheckSlap (GameRules g) (pile_cards g) = SlapReasonInvalid)) as [Hr|Hr];
    destruct (decide (s_len (hand_of g p) = 0)) as [Hlen|Hlen];
    destruct (canSlapIn g p) eqn:Hin.
  - right. left. repeat split; try done. apply ProcessSlap_slapin_invalid; done.
  - left. repeat split; try done. apply ProcessSlap_eliminated; done.
  - right. right. left. split; [reflexivity|]. split; [lia|]. split; [exact Hr|].
    apply ProcessSlap_burn; [done|lia|done].
  - right. right. left. split; [reflexivity|]. split; [lia|]. split; [exact Hr|].
    apply ProcessSlap_burn; [done|lia|done].
  - right. right. right. split; [reflexivity|]. split; [right; reflexivity|].
    split; [exact Hr|]. apply ProcessSlap_valid; auto.
  - left. repeat split; try done. apply ProcessSlap_eliminated; done.
  - right. right. right. split; [reflexivity|]. split; [left; lia|].
    split; [exact Hr|]. apply ProcessSlap_valid; auto.
  - right. right. right. split; [reflexivity|]. split; [left; lia|].
    split; [exact Hr|]. apply ProcessSlap_valid; auto. left. lia.
Qed.

Lemma Stats_slap_won_state (p : string) (b : bool) (g : Game) :
  TotalSlaps (Stats (slap_won_state growcap p b g)) = TotalSlaps (Stats g)
  /\ SlapInCounts (slap_won_state growcap p b g)
     = (if b then SlapInCounts g
        else <[p := int_add (count_of (SlapInCounts g) p) 1]> (SlapInCounts g)).
Proof.
  unfold slap_won_state. cbv zeta.
  destruct (seat_of _ _); destruct b; split; reflexivity.
Qed.

Lemma reason_string_won (r : SlapReason) :
  r ≠ SlapReasonInvalid -> reason_string r ∈ won_reasons.
Proof.
  unfold won_reasons. destruct r; intros H; try contradiction; simpl;
    repeat (first [apply list_elem_of_here | apply list_elem_of_further]).
Qed.

(** X3. What [ProcessSlap] answers. Every call counts one more slap. A
    success names one of the three slap reasons, the one [CheckSlap] finds
    on the pile, gives the length of the pile as the cards won and burns
    nothing. A failure is answered [cooldown], [eliminated] or [invalid],
    wins no card, burns at most the cards the player holds, and leaves the
    count of successful slaps alone. *)
Theorem ProcessSlap_answer (p : string) (now stamp : Z) (g g' : Game)
    (r : Protocol.SlapResultPayload) :
  ProcessSlap growcap p now stamp g = Ok (r, g') ->
  Protocol.PlayerID r = p
  /\ TotalSlaps (Stats g') = int_add (TotalSlaps (Stats g)) 1
  /\ (if Protocol.Success r
      then Protocol.Reason r ∈ won_reasons
           /\ Protocol.Reason r = reason_string (CheckSlap (GameRules g) (pile_cards g))
           /\ Protocol.CardsWon r = Z.of_nat (s_len (Pile g))
           /\ Protocol.BurnPenalty r = 0%Z
      else Protocol.Reason r ∈ lost_reasons
           /\ Protocol.CardsWon r = 0%Z
           /\ (0 <= Protocol.BurnPenalty r <= Z.of_nat (s_len (hand_of g p)))%Z
           /\ SuccessfulSlaps (Stats g') = SuccessfulSlaps (Stats g)).
Proof.
  intros H.
  destruct (ProcessSlap_branches p now stamp g)
    as [(_ & E)|[(_ & _ & _ & E)|[(_ & _ & _ & _ & E)|[(_ & Hlen & _ & E)|(_ & _ & Hr & E)]]]];
    rewrite E in H; clear E.
  - injection H as <- <-. cbn. repeat split; try reflexivity; try lia.
    unfold lost_reasons. apply list_elem_of_here.
  - injection H as <- <-. cbn. repeat split; try reflexivity; try lia.
    unfold lost_reasons. apply list_elem_of_further, list_elem_of_here.
  - injection H as <- <-. cbn. repeat split; try reflexivity; try lia.
    unfold lost_reasons. do 2 apply list_elem_of_further. apply list_elem_of_here.
  - destruct (applyBurnPenalty growcap p (stamp_attempt p stamp g)) as [[n g1]| |] eqn:Hb;
      try discriminate.
    cbn [obind fst snd] in H. injection H as <- <-.
    cbn [Protocol.PlayerID Protocol.Success Protocol.Reason Protocol.CardsWon
           Protocol.BurnPenalty].
    apply applyBurnPenalty_cases in Hb as [(_ & -> & ->)|(_ & Hn & Hmin & ->)].
    + repeat split; try reflexivity; try lia.
      unfold lost_reasons. do 2 apply list_elem_of_further. apply list_elem_of_here.
    + split; [reflexivity|]. split; [reflexivity|].
      split; [unfold lost_reasons; do 2 apply list_elem_of_further; apply list_elem_of_here|].
      split; [reflexivity|]. split; [|reflexivity].
      change (hand_of (stamp_attempt p stamp g) p) with (hand_of g p) in Hmin. lia.
  - injection H as <- <-.
    cbn [Protocol.PlayerID Protocol.Success Protocol.Reason Protocol.CardsWon
           Protocol.BurnPenalty].
    split; [reflexivity|].
    split; [rewrite (proj1 (Stats_slap_won_state p _ _)); reflexivity|].
    split; [apply reason_string_won, Hr|]. repeat split; reflexivity.
Qed.

(** *** Slapping back in *)

Lemma count_of_fold_zero (ids : list string) : forall (acc : gmap string Z) (k : string),
  count_of acc k = 0%Z ->
  count_of (fold_left (fun m id => <[id := 0%Z]> m) ids acc) k = 0%Z.
Proof.
  induction ids as [|id ids IH]; intros acc k Hacc; cbn [fold_left]; [exact Hacc|].
  apply IH. unfold count_of in *. destruct (decide (id = k)) as [->|Hne].
  - rewrite lookup_insert_eq. reflexivity.
  - rewrite lookup_insert_ne by exact Hne. exact Hacc.
Qed.

Lemma step_SlapInCounts (o : op) (g g' : Game) (e : event) :
  step growcap o g = Ok (e, g') ->
  SlapInCounts g' = SlapInCounts g
  \/ exists p, canSlapIn g p = true
       /\ SlapInCounts g' = <[p := int_add (count_of (SlapInCounts g) p) 1]> (SlapInCounts g).
Proof.
  intros H. destruct o as [p|p now stamp|]; simpl in H.
  - destruct (PlayCard growcap p g) as [[r g1]| |] eqn:E; try discriminate.
    simpl in H. injection H as _ <-.
    apply PlayCard_cases in E as [[-> _]|(_ & _ & _ & i & _ & ->)]; left; reflexivity.
  - destruct (ProcessSlap growcap p now stamp g) as [[r g1]| |] eqn:E; try discriminate.
    simpl in H. injection H as _ <-.
    destruct (ProcessSlap_branches p now stamp g)
      as [(_ & E')|[(_ & _ & _ & E')|[(_ & _ & _ & _ & E')|[(_ & Hlen & _ & E')|(_ & Hor & _ & E')]]]];
      rewrite E' in E; clear E'.
    + injection E as _ <-. left. reflexivity.
    + injection E as _ <-. left. reflexivity.
    + injection E as _ <-. left. reflexivity.
    + destruct (applyBurnPenalty growcap p (stamp_attempt p stamp g)) as [[n g2]| |] eqn:Hb;
        try discriminate.
      cbn [obind fst snd] in E. injection E as _ <-.
      apply applyBurnPenalty_cases in Hb as [(_ & _ & ->)|(_ & _ & _ & ->)];
        left; reflexivity.
    + injection E as _ <-.
      rewrite (proj2 (Stats_slap_won_state p _ _)).
      destruct (0 <? s_len (hand_of g p)) eqn:Hlen; [left; reflexivity|].
      right. exists p. split; [|reflexivity].
      apply Nat.ltb_ge in Hlen. destruct Hor as [Hpos|Hin]; [lia|exact Hin].
  - destruct (StartTurnTimer_timeout growcap g) as [[[m b] g1]| |] eqn:E; try discriminate.
    simpl in H. injection H as _ <-.
    apply timeout_cases in E as [(-> & _)|(cur & i & _ & _ & _ & _ & ->)];
      left; reflexivity.
Qed.

(** X4. Nobody slaps back in more often than the game allows: for every
    player the slap-in count of a game lies between 0 and [MaxSlapIns] (0
    when that is negative). *)
Theorem slap_ins_bounded (g : Game) (p : string) :
  reachable growcap g -> (MaxSlapIns g <= int_max)%Z ->
  (0 <= count_of (SlapInCounts g) p <= Z.max 0 (MaxSlapIns g))%Z.
Proof.
  intros Hreach. revert p.
  induction Hreach as [deck ids d s bp cd tt si ms g _ _ Hnew | g o e g' _ IH Hstep];
    intros p Hmax.
  - unfold NewGame in Hnew. destruct (Deal _ _ _); try discriminate.
    simpl in Hnew. injection Hnew as <-. cbn [SlapInCounts MaxSlapIns].
    rewrite count_of_fold_zero by reflexivity. split; [reflexivity|apply Z.le_max_l].
  - pose proof (step_same_config o g g' e Hstep) as (_ & _ & _ & _ & _ & _ & Hms).
    rewrite Hms in *.
    destruct (step_SlapInCounts o g g' e Hstep) as [->|(q & Hin & ->)]; [apply IH, Hmax|].
    destruct (decide (q = p)) as [->|Hne].
    + unfold count_of at 1 3. rewrite lookup_insert_eq. unfold default. cbn [from_option id].
      specialize (IH p Hmax).
      unfold canSlapIn in Hin. apply andb_true_iff in Hin as [_ Hlt].
      apply Z.ltb_lt in Hlt.
      rewrite int_add_small by (unfold int_min, int_max in *; lia). lia.
    + unfold count_of at 1 3. rewrite lookup_insert_ne by exact Hne. apply IH, Hmax.
Qed.

(** *** What a play and a burn do to the cards *)

Lemma CheckSlap_jack_on_top (r : Rules) (pile : list Card) (c : Card) :
  IsJack c = true -> CheckSlap r (pile ++ [c]) = SlapReasonJack.
Proof.
  intros Hj. unfold CheckSlap.
  pose proof (SlapRulesFacts.at_index_from_top pile [c] 0) as Htop.
  rewrite Htop by (simpl; lia). rewrite length_app. cbn [length].
  replace (length pile + 1 =? 0) with false by (symmetry; apply Nat.eqb_neq; lia).
  unfold at_index. cbn [nth Nat.sub]. rewrite Hj. reflexivity.
Qed.

Lemma play_front_cards (p : string) (g : Game) :
  wf_game g -> 0 < s_len (hand_of g p) ->
  head (hand_cards g p) = Some (fst (play_front growcap p (hand_of g p) g))
  /\ pile_cards (snd (play_front growcap p (hand_of g p) g))
     = pile_cards g ++ [fst (play_front growcap p (hand_of g p) g)]
  /\ s_len (hand_of (snd (play_front growcap p (hand_of g p) g)) p) + 1
     = s_len (hand_of g p).
Proof.
  intros Hwf Hlen. pose proof (hand_of_ok g p Hwf) as Hhand.
  destruct Hwf as (_ & Hpile & _).
  split; [|split].
  - unfold play_front. cbn [fst]. rewrite (read_view _ _ 0 Hlen).
    unfold hand_cards. pose proof (length_view _ _ Hhand) as Hl.
    destruct (view (Mem g) (hand_of g p)); [simpl in Hl; lia|reflexivity].
  - unfold pile_cards, play_front. cbn [fst snd Mem Pile set_Pile set_Mem set_PlayerHands].
    apply view_append, Hpile.
  - unfold play_front, hand_of at 1.
    cbn [snd PlayerHands set_Pile set_Mem set_PlayerHands].
    rewrite lookup_insert_eq. cbn. lia.
Qed.

(** X5. A play that succeeds takes the front card of the player's hand
    and puts it on top of the pile: the hand is one card shorter, the
    pile is the old pile followed by that card, the slap window opens,
    and a Jack played makes the pile a valid slap under every setting of
    the rules. *)
Theorem PlayCard_moves_front_card (p : string) (g g' : Game) (c : Card) :
  wf_game g -> PlayCard growcap p g = Ok (Played c, g') ->
  head (hand_cards g p) = Some c
  /\ pile_cards g' = pile_cards g ++ [c]
  /\ s_len (hand_of g' p) + 1 = s_len (hand_of g p)
  /\ SlapWindowOpen g' = true
  /\ (IsJack c = true -> CheckSlap (GameRules g') (pile_cards g') = SlapReasonJack).
Proof.
  intros Hwf H.
  apply PlayCard_cases in H as [[_ [msg [=]]]|(_ & Hlen & [= ->] & i & _ & ->)].
  destruct (play_front_cards p g Hwf Hlen) as (Hhead & Hpile & Hhand).
  change (fst (play_front growcap p (hand_of g p) g)) with (read (Mem g) (hand_of g p) 0)
    in Hhead, Hpile.
  split; [exact Hhead|]. split; [exact Hpile|]. split; [exact Hhand|].
  split; [reflexivity|].
  intros Hj.
  change (pile_cards (set_CurrentTurnIdx i ?x)) with (pile_cards (snd (play_front growcap p (hand_of g p) g))).
  rewrite Hpile. apply CheckSlap_jack_on_top, Hj.
Qed.

Lemma top_three_under (under pile : list Card) :
  3 <= length pile -> Queries.top_three (under ++ pile) = Queries.top_three pile.
Proof.
  intros H3. unfold Queries.top_three. rewrite length_app.
  replace (length under + length pile - 3) with (length under + (length pile - 3)) by lia.
  apply drop_app_add'. reflexivity.
Qed.

(** X6. [applyBurnPenalty] in a well-formed game. A player without
    cards burns nothing. A negative burn penalty makes the call panic.
    Otherwise the burn count is the penalty, or the whole hand when that
    is shorter: the hand is left that much shorter, the burnt cards, in
    the order of the hand, lie under the pile, and a pile of three cards
    or more offers the same slap as before. *)
Theorem applyBurnPenalty_spec (p : string) (g : Game) :
  wf_game g ->
  (s_len (hand_of g p) = 0 -> applyBurnPenalty growcap p g = Ok (0%Z, g))
  /\ (0 < s_len (hand_of g p) -> (BurnPenalty g < 0)%Z ->
      applyBurnPenalty growcap p g = Panic "slice bounds out of range")
  /\ (0 < s_len (hand_of g p) -> (0 <= BurnPenalty g)%Z ->
      exists g', applyBurnPenalty growcap p g
                 = Ok (Z.min (BurnPenalty g) (Z.of_nat (s_len (hand_of g p))), g')
        /\ Z.of_nat (s_len (hand_of g' p))
           = (Z.of_nat (s_len (hand_of g p))
              - Z.min (BurnPenalty g) (Z.of_nat (s_len (hand_of g p))))%Z
        /\ pile_cards g'
           = take (Z.to_nat (BurnPenalty g)) (hand_cards g p) ++ pile_cards g
        /\ (3 <= length (pile_cards g) ->
            CheckSlap (GameRules g') (pile_cards g') = CheckSlap (GameRules g) (pile_cards g))).
Proof.
  intros Hwf. split; [|split].
  - intros H0. unfold applyBurnPenalty. rewrite H0. reflexivity.
  - intros Hlen Hneg. unfold applyBurnPenalty.
    replace (s_len (hand_of g p) =? 0) with false by (symmetry; apply Nat.eqb_neq; lia).
    cbv zeta.
    destruct (Z.ltb_spec (Z.of_nat (s_len (hand_of g p))) (BurnPenalty g)); [lia|].
    destruct (Z.ltb_spec (BurnPenalty g) 0); [reflexivity|lia].
  - intros Hlen Hpos.
    destruct (applyBurnPenalty_returns p g Hpos) as (n & g' & Hb).
    rewrite Hb. apply applyBurnPenalty_cases in Hb as [(H0 & _)|(_ & Hn & -> & ->)]; [lia|].
    set (n := Z.min (BurnPenalty g) (Z.of_nat (s_len (hand_of g p)))) in *.
    assert (Hle : Z.to_nat n <= s_len (hand_of g p)) by lia.
    destruct (burn_state_spec growcap p (Z.to_nat n) g Hwf Hle) as (Hpile & Hhand & _).
    exists (burn_state growcap p (Z.to_nat n) g).
    split; [reflexivity|]. split; [rewrite Hhand; lia|].
    assert (Htake : take (Z.to_nat n) (hand_cards g p)
                    = take (Z.to_nat (BurnPenalty g)) (hand_cards g p)).
    { destruct (Z.le_ge_cases (BurnPenalty g) (Z.of_nat (s_len (hand_of g p)))) as [Hc|Hc].
      - replace n with (BurnPenalty g) by lia. reflexivity.
      - pose proof (length_view _ _ (hand_of_ok g p Hwf)) as Hl. fold (hand_cards g p) in Hl.
        rewrite !take_ge by lia. reflexivity. }
    rewrite Hpile, Htake. split; [reflexivity|].
    intros H3. change (GameRules (burn_state growcap p (Z.to_nat n) g)) with (GameRules g).
    rewrite <- TopOfPileFacts.CheckSlap_top_three, top_three_under by exact H3.
    apply TopOfPileFacts.CheckSlap_top_three.
Qed.

End Runs.

End EngineRunFacts.

Module QueriesFacts.
Import Engine Invariants Queries CardValues SliceFacts.

Lemma ToProtocol_id (c : Card) : ToProtocol c = c.
Proof. destruct c. reflexivity. Qed.

Lemma map_nth_seq (l : list Card) (a : nat) :
  map (fun i => nth i l zeroCard) (seq a (length l - a)) = drop a l.
Proof.
  apply list_eq. intros i. rewrite list_lookup_fmap, lookup_drop.
  destruct (decide (i < length l - a)) as [Hlt|Hge].
  - rewrite lookup_seq_lt by exact Hlt. simpl.
    rewrite nth_lookup.
    destruct (l !! (a + i)) eqn:E; [reflexivity|].
    apply lookup_ge_None in E. lia.
  - rewrite lookup_seq_ge by lia. simpl. symmetry. apply lookup_ge_None. lia.
Qed.

Lemma visiblePile_top_three (g : Game) :
  slice_ok (Mem g) (Pile g) -> visiblePile g = top_three (pile_cards g).
Proof.
  intros Hok. unfold visiblePile, top_three, pile_cards.
  pose proof (length_view _ _ Hok) as Hlen.
  set (n := s_len (Pile g)) in *.
  assert (Hstart : Z.to_nat (if (Z.of_nat n - 3 <? 0)%Z then 0%Z else (Z.of_nat n - 3)%Z)
                   = n - 3).
  { destruct (Z.ltb_spec (Z.of_nat n - 3) 0); lia. }
  rewrite Hstart, Hlen. rewrite <- Hlen at 2. rewrite <- map_nth_seq.
  apply map_ext_in. intros i Hi. apply in_seq in Hi.
  rewrite ToProtocol_id. apply EngineRunFacts.read_view. fold n. lia.
Qed.

Lemma fold_counts_lookup (m : gmap string slice) (iter : list string) :
  forall (acc : gmap string Z) (k : string),
  fold_left (fun counts id =>
               match m !! id with
               | Some hand => <[id := Z.of_nat (s_len hand)]> counts
               | None => counts
               end) iter acc !! k
  = match m !! k with
    | Some hand => if decide (k ∈ iter) then Some (Z.of_nat (s_len hand)) else acc !! k
    | None => acc !! k
    end.
Proof.
  induction iter as [|id rest IH]; intros acc k; cbn [fold_left].
  - destruct (m !! k); [|reflexivity].
    destruct (decide (k ∈ [])) as [Hin|_]; [|reflexivity].
    apply elem_of_nil in Hin. contradiction.
  - rewrite IH. destruct (m !! k) as [hand|] eqn:Hk.
    + destruct (decide (k ∈ rest)) as [Hin|Hnin].
      * rewrite decide_True by (apply elem_of_cons; right; exact Hin). reflexivity.
      * destruct (decide (k = id)) as [->|Hne].
        -- rewrite decide_True by (apply elem_of_cons; left; reflexivity).
           rewrite Hk, lookup_insert_eq. reflexivity.
        -- rewrite decide_False
             by (intros Hin; apply elem_of_cons in Hin as [?|?]; contradiction).
           destruct (m !! id); [rewrite lookup_insert_ne by congruence|]; reflexivity.
    + destruct (m !! id) eqn:Hid; [|reflexivity].
      rewrite lookup_insert_ne; [reflexivity|]. intros ->. congruence.
Qed.

Lemma GetCardCounts_fmap (iter : list string) (g : Game) :
  hands_order iter (PlayerHands g) ->
  GetCardCounts iter g = (fun s => Z.of_nat (s_len s)) <$> PlayerHands g.
Proof.
  intros [_ Hkeys]. apply map_eq. intros k.
  unfold GetCardCounts. rewrite fold_counts_lookup, lookup_fmap.
  destruct (PlayerHands g !! k) as [hand|] eqn:Hk; simpl; [|apply lookup_empty].
  rewrite decide_True; [reflexivity|]. apply Hkeys. rewrite Hk. eauto.
Qed.

Lemma hands_order_dom (iter : list string) (m : gmap string slice) :
  NoDup iter -> list_to_set iter = dom m -> hands_order iter m.
Proof.
  intros Hnd Hdom. split; [exact Hnd|].
  intros k. rewrite <- elem_of_dom, <- Hdom, elem_of_list_to_set. reflexivity.
Qed.

Lemma sum_counts_hands_len (m : gmap string slice) :
  map_fold (fun _ n acc => (n + acc)%Z) 0%Z ((fun s => Z.of_nat (s_len s)) <$> m)
  = Z.of_nat (hands_len m).
Proof.
  rewrite map_fold_fmap. unfold hands_len.
  induction m as [|k s m Hk IH] using map_ind.
  - rewrite !map_fold_empty. reflexivity.
  - rewrite !map_fold_insert_L; [|intros; lia|exact Hk|intros; simpl; lia|exact Hk].
    simpl. rewrite IH. lia.
Qed.

(** X7. What [GetState] sends in a well-formed game: the last three cards
    of the pile (all of it when it is shorter), the player whose turn it
    is, for every player the length of the hand, and a [CanSlap] flag
    that, although computed from the whole pile, is the verdict of the
    slap rules on the three cards sent. *)
Theorem GetState_shows_top_of_pile (iter : list string) (g : Game) :
  wf_game g -> hands_order iter (PlayerHands g) ->
  exists st, GetState iter g = Ok st
    /\ StatePile st = top_three (pile_cards g)
    /\ length (StatePile st) <= 3
    /\ StateCanSlap st = IsValidSlap (GameRules g) (StatePile st)
    /\ CheckSlap (GameRules g) (StatePile st) = CheckSlap (GameRules g) (pile_cards g)
    /\ TurnOrder g !! CurrentTurnIdx g = Some (CurrentPlayerID st)
    /\ forall p, count_of (PlayerCardCounts st) p = GetPlayerCardCount g p.
Proof.
  intros (Hidx & Hpile & Hhands) Hiter. unfold GetState.
  destruct (TurnOrder g !! CurrentTurnIdx g) as [cur|] eqn:Hcur;
    [|apply lookup_ge_None in Hcur; lia].
  eexists. split; [reflexivity|]. cbn [StatePile StateCanSlap CurrentPlayerID PlayerCardCounts].
  rewrite (visiblePile_top_three g Hpile).
  split; [reflexivity|].
  split; [rewrite TopOfPileFacts.length_top_three; lia|].
  split; [unfold CanSlap, IsValidSlap; rewrite TopOfPileFacts.CheckSlap_top_three; reflexivity|].
  split; [apply TopOfPileFacts.CheckSlap_top_three|].
  split; [reflexivity|].
  intros p. rewrite (GetCardCounts_fmap iter g Hiter).
  unfold count_of, GetPlayerCardCount, hand_of. rewrite lookup_fmap.
  destruct (PlayerHands g !! p); reflexivity.
Qed.

(** X8. In every state of a game the card counts [GetCardCounts] reports
    and the length of the pile add up to 52, in whatever order the map of
    the hands is visited. *)
Theorem GetCardCounts_add_up (growcap : nat -> nat -> nat) (iter : list string) (g : Game) :
  reachable growcap g -> hands_order iter (PlayerHands g) ->
  (map_fold (fun _ n acc => n + acc) 0 (GetCardCounts iter g) + Z.of_nat (s_len (Pile g))
   = 52)%Z.
Proof.
  intros Hreach Hiter. rewrite (GetCardCounts_fmap iter g Hiter), sum_counts_hands_len.
  pose proof (EngineFacts.reachable_total_cards growcap g Hreach) as Htotal.
  unfold total_cards in Htotal. lia.
Qed.

Lemma CheckEliminations_filter (g : Game) :
  CheckEliminations g
  = List.filter (fun p => (s_len (hand_of g p) =? 0)
                          && negb (IsValidSlap (GameRules g) (pile_cards g)))
      (TurnOrder g).
Proof.
  unfold CheckEliminations.
  enough (H : forall l acc,
             fold_left (fun eliminated playerID =>
                          if s_len (hand_of g playerID) =? 0 then
                            if negb (IsValidSlap (GameRules g) (pile_cards g))
                            then eliminated ++ [playerID] else eliminated
                          else eliminated) l acc
             = acc ++ List.filter (fun p => (s_len (hand_of g p) =? 0)
                                    && negb (IsValidSlap (GameRules g) (pile_cards g))) l)
    by apply (H _ []).
  induction l as [|p l IH]; intros acc; cbn [fold_left List.filter].
  - rewrite app_nil_r. reflexivity.
  - rewrite IH. destruct (s_len (hand_of g p) =? 0); cbn [andb]; [|reflexivity].
    destruct (negb (IsValidSlap (GameRules g) (pile_cards g))); [|reflexivity].
    rewrite <- app_assoc. reflexivity.
Qed.

Lemma playersWithCards_filter (g : Game) :
  playersWithCards g = List.filter (fun p => 0 <? s_len (hand_of g p)) (TurnOrder g).
Proof.
  unfold playersWithCards.
  enough (H : forall l acc,
             fold_left (fun acc playerID =>
                          if 0 <? s_len (hand_of g playerID) then acc ++ [playerID] else acc)
               l acc
             = acc ++ List.filter (fun p => 0 <? s_len (hand_of g p)) l)
    by apply (H _ []).
  induction l as [|p l IH]; intros acc; cbn [fold_left List.filter].
  - rewrite app_nil_r. reflexivity.
  - rewrite IH. destruct (0 <? s_len (hand_of g p)); [|reflexivity].
    rewrite <- app_assoc. reflexivity.
Qed.

Lemma elem_of_CheckEliminations (g : Game) (p : string) :
  p ∈ CheckEliminations g
  <-> p ∈ TurnOrder g /\ s_len (hand_of g p) = 0
      /\ IsValidSlap (GameRules g) (pile_cards g) = false.
Proof.
  rewrite CheckEliminations_filter, !list_elem_of_In, filter_In, andb_true_iff,
    Nat.eqb_eq, negb_true_iff.
  tauto.
Qed.

Lemma empty_pile_invalid (r : Rules) (g : Game) :
  s_len (Pile g) = 0 -> IsValidSlap r (pile_cards g) = false.
Proof.
  intros H0. unfold pile_cards, view. rewrite H0. reflexivity.
Qed.

(** X9. [CheckEliminations] lists, in seat order, the seats whose hand is
    empty, and only while the pile offers no valid slap: a pile that can
    be slapped eliminates nobody. *)
Theorem CheckEliminations_spec (g : Game) :
  CheckEliminations g
  = (if IsValidSlap (GameRules g) (pile_cards g) then []
     else List.filter (fun p => s_len (hand_of g p) =? 0) (TurnOrder g))
  /\ forall p, p ∈ CheckEliminations g
               <-> p ∈ TurnOrder g /\ s_len (hand_of g p) = 0
                   /\ IsValidSlap (GameRules g) (pile_cards g) = false.
Proof.
  split; [|apply elem_of_CheckEliminations].
  rewrite CheckEliminations_filter.
  destruct (IsValidSlap (GameRules g) (pile_cards g)); cbn [negb].
  - induction (TurnOrder g) as [|p l IH]; [reflexivity|].
    cbn [List.filter]. rewrite andb_false_r. exact IH.
  - apply filter_ext. intros p. apply andb_true_r.
Qed.

Lemma CheckWinner_iff (g : Game) (w : string) :
  w ≠ "" ->
  CheckWinner g = w
  <-> List.filter (fun p => 0 <? s_len (hand_of g p)) (TurnOrder g) = [w]
      /\ IsValidSlap (GameRules g) (pile_cards g) = false.
Proof.
  intros Hw. unfold CheckWinner. rewrite playersWithCards_filter.
  set (ps := List.filter _ (TurnOrder g)).
  assert (Hpile : (s_len (Pile g) =? 0) = true ->
                  IsValidSlap (GameRules g) (pile_cards g) = false).
  { intros H0. apply empty_pile_invalid, Nat.eqb_eq, H0. }
  destruct (s_len (Pile g) =? 0); [rewrite Hpile by reflexivity|];
    [|destruct (IsValidSlap (GameRules g) (pile_cards g))];
    cbn [orb negb]; destruct ps as [|p [|q ps]]; cbn [length Nat.eqb nth];
    (split; [intros H|intros [H1 H2]]);
    try discriminate; try congruence; try (split; congruence).
Qed.

(** X10. [CheckWinner] names a winner exactly when one seat alone holds
    cards and the pile offers no valid slap (the test for an empty pile
    adds nothing to that). The winner holds cards, is not in the list of
    [CheckEliminations], and every other seat is. *)
Theorem CheckWinner_spec (g : Game) (w : string) :
  w ≠ "" ->
  (CheckWinner g = w
   <-> List.filter (fun p => 0 <? s_len (hand_of g p)) (TurnOrder g) = [w]
       /\ IsValidSlap (GameRules g) (pile_cards g) = false)
  /\ (CheckWinner g = w ->
      w ∈ TurnOrder g /\ 0 < s_len (hand_of g w)
      /\ ~ w ∈ CheckEliminations g
      /\ forall q, q ∈ TurnOrder g -> q ≠ w -> q ∈ CheckEliminations g).
Proof.
  intros Hw. split; [apply CheckWinner_iff; exact Hw|].
  intros Hwin. apply (CheckWinner_iff g w Hw) in Hwin as [Hfilter Hinvalid].
  assert (Hmem : forall q, q ∈ TurnOrder g /\ (0 <? s_len (hand_of g q)) = true <-> q = w).
  { intros q. split.
    - intros [Hq Hc].
      assert (Hin : In q [w]).
      { rewrite <- Hfilter. apply filter_In. split; [apply list_elem_of_In, Hq|exact Hc]. }
      destruct Hin as [<-|[]]. reflexivity.
    - intros ->.
      assert (Hin : In w (List.filter (fun p => 0 <? s_len (hand_of g p)) (TurnOrder g))).
      { rewrite Hfilter. left. reflexivity. }
      apply filter_In in Hin as [H1 H2]. split; [apply list_elem_of_In, H1|exact H2]. }
  destruct (proj2 (Hmem w) eq_refl) as [Hin Hcards]. apply Nat.ltb_lt in Hcards.
  split; [exact Hin|]. split; [exact Hcards|]. split.
  - rewrite elem_of_CheckEliminations. lia.
  - intros q Hq Hne. rewrite elem_of_CheckEliminations.
    split; [exact Hq|]. split; [|exact Hinvalid].
    destruct (s_len (hand_of g q)) eqn:Hlen; [reflexivity|].
    exfalso. apply Hne, Hmem. split; [exact Hq|]. rewrite Hlen. reflexivity.
Qed.

(** "a" has played all its cards: "b", with the last card, has won. *)
Lemma CheckWinner_witness :
  (CheckWinner Examples.a_out_of_cards = "b"
   <-> List.filter (fun p => 0 <? s_len (hand_of Examples.a_out_of_cards p))
         (TurnOrder Examples.a_out_of_cards) = ["b"]
       /\ IsValidSlap (GameRules Examples.a_out_of_cards)
            (pile_cards Examples.a_out_of_cards) = false)
  /\ (CheckWinner Examples.a_out_of_cards = "b" ->
      "b" ∈ TurnOrder Examples.a_out_of_cards
      /\ 0 < s_len (hand_of Examples.a_out_of_cards "b")
      /\ ~ "b" ∈ CheckEliminations Examples.a_out_of_cards
      /\ forall q, q ∈ TurnOrder Examples.a_out_of_cards -> q ≠ "b" ->
                   q ∈ CheckEliminations Examples.a_out_of_cards).
Proof.
  apply (CheckWinner_spec Examples.a_out_of_cards "b"). discriminate.
Defined.

Lemma a_out_of_cards_winner : CheckWinner Examples.a_out_of_cards = "b".
Proof. vm_compute. reflexivity. Qed.

Lemma jack_on_top_hands_order :
  hands_order ["a"; "b"] (PlayerHands Examples.jack_on_top).
Proof.
  apply hands_order_dom; [exact EngineFacts.NoDup_a_b|].
  vm_compute. reflexivity.
Qed.

(** After eleven cards, with the Jack of hearts on top. *)
Lemma GetState_witness :
  exists st, GetState ["a"; "b"] Examples.jack_on_top = Ok st
    /\ StatePile st = top_three (pile_cards Examples.jack_on_top)
    /\ length (StatePile st) <= 3
    /\ StateCanSlap st = IsValidSlap (GameRules Examples.jack_on_top) (StatePile st)
    /\ CheckSlap (GameRules Examples.jack_on_top) (StatePile st)
       = CheckSlap (GameRules Examples.jack_on_top) (pile_cards Examples.jack_on_top)
    /\ TurnOrder Examples.jack_on_top !! CurrentTurnIdx Examples.jack_on_top
       = Some (CurrentPlayerID st)
    /\ forall p, count_of (PlayerCardCounts st) p = GetPlayerCardCount Examples.jack_on_top p.
Proof.
  apply (GetState_shows_top_of_pile ["a"; "b"] Examples.jack_on_top).
  - exact EngineFacts.jack_on_top_wf.
  - exact jack_on_top_hands_order.
Defined.

Lemma GetCardCounts_witness :
  (map_fold (fun _ n acc => n + acc) 0 (GetCardCounts ["a"; "b"] Examples.jack_on_top)
   + Z.of_nat (s_len (Pile Examples.jack_on_top)) = 52)%Z.
Proof.
  apply (GetCardCounts_add_up Examples.go_growcap ["a"; "b"] Examples.jack_on_top).
  - exact EngineFacts.jack_on_top_reachable.
  - exact jack_on_top_hands_order.
Defined.

End QueriesFacts.

Module DealFacts.
Import Engine Invariants SliceFacts EngineFacts.

Section Dealing.
Variable growcap : nat -> nat -> nat.

Lemma deal_loop_returns (n : nat) (cards : list Card) : forall (i : nat) (h : store)
    (hands : list slice),
  n ≠ 0 -> length hands = n ->
  exists h' hands', deal_loop growcap n cards i h hands = Ok (h', hands').
Proof.
  induction cards as [|card rest IH]; intros i h hands Hn Hlen; cbn [deal_loop]; [eauto|].
  replace (n =? 0) with false by (symmetry; apply Nat.eqb_neq; exact Hn).
  destruct (lookup_lt_is_Some_2 hands (i mod n)) as [s Hs].
  { rewrite Hlen. apply Nat.mod_upper_bound. exact Hn. }
  rewrite Hs. apply IH; [exact Hn|]. rewrite length_insert. exact Hlen.
Qed.

Lemma NewGame_returns (deck : list Card) (playerIDs : list string) (d s : bool)
    (burnPenalty cooldown timeout : Z) (slapIn : bool) (maxSlapIns : Z) :
  playerIDs ≠ [] ->
  exists g, NewGame growcap deck playerIDs d s burnPenalty cooldown timeout slapIn maxSlapIns
            = Ok g
    /\ TurnOrder g = playerIDs /\ CurrentTurnIdx g = 0
    /\ GameRules g = NewRules d s /\ BurnPenalty g = burnPenalty
    /\ SlapCooldownMs g = cooldown /\ TurnTimeoutMs g = timeout
    /\ EnableSlapIn g = slapIn /\ MaxSlapIns g = maxSlapIns.
Proof.
  intros Hne. unfold NewGame, Deal.
  destruct (make_hands_ok (length playerIDs) (52 / length playerIDs + 1) [])
    as (_ & Hlen & _).
  destruct (deal_loop_returns (length playerIDs) deck 0
              (fst (make_hands (length playerIDs) (52 / length playerIDs + 1) []))
              (snd (make_hands (length playerIDs) (52 / length playerIDs + 1) [])))
    as (h' & hands' & Hdeal); [destruct playerIDs; [contradiction|discriminate]|exact Hlen|].
  rewrite Hdeal. cbn [obind]. eexists. split; [reflexivity|]. repeat split; reflexivity.
Qed.

Lemma NewGame_no_players (deck : list Card) (d s : bool)
    (burnPenalty cooldown timeout : Z) (slapIn : bool) (maxSlapIns : Z) :
  deck ≠ [] ->
  NewGame growcap deck [] d s burnPenalty cooldown timeout slapIn maxSlapIns
  = Panic "integer divide by zero".
Proof. intros Hne. destruct deck; [contradiction|reflexivity]. Qed.

End Dealing.

End DealFacts.

Module SettingsFacts.
Import Room SettingsRules.

Lemma within_spec (lo hi v : Z) : within lo hi v = true <-> (lo <= v <= hi)%Z.
Proof. unfold within. rewrite andb_true_iff, !Z.leb_le. reflexivity. Qed.

Lemma DefaultSettings_in_range : in_range DefaultSettings.
Proof. unfold in_range, DefaultSettings. simpl. lia. Qed.

Ltac case_within :=
  repeat match goal with
         | |- context [within ?lo ?hi ?v] =>
             let H := fresh "H" in
             destruct (within lo hi v) eqn:H;
             [apply within_spec in H|]
         end.

Lemma taken_or_kept_if (lo hi new old : Z) :
  taken_or_kept lo hi new old (if within lo hi new then new else old).
Proof.
  unfold taken_or_kept. destruct (within lo hi new) eqn:H.
  - split; [reflexivity|]. intros Hout. exfalso. apply Hout, within_spec, H.
  - split; [|reflexivity]. intros Hin. apply within_spec in Hin. congruence.
Qed.

(** X11. [FromProtocol] takes each number of the payload that lies in its
    range and ignores each one that does not: the setting keeps the value
    it had. The switches are those of the payload. So settings that lie
    in their ranges still do afterwards, whatever the payload; a payload
    that lies in the ranges is taken over as a whole; and the default
    settings lie in the ranges. *)
Theorem FromProtocol_in_range (p : UpdateSettingsPayload.t) (s : Settings) :
  taken_or_kept 2 8 (UpdateSettingsPayload.MaxPlayers p) (MaxPlayers s)
    (MaxPlayers (FromProtocol p s))
  /\ taken_or_kept 0 1000 (UpdateSettingsPayload.SlapCooldownMs p) (SlapCooldownMs s)
       (SlapCooldownMs (FromProtocol p s))
  /\ taken_or_kept 5000 60000 (UpdateSettingsPayload.TurnTimeoutMs p) (TurnTimeoutMs s)
       (TurnTimeoutMs (FromProtocol p s))
  /\ taken_or_kept 0 5 (UpdateSettingsPayload.BurnPenalty p) (BurnPenalty s)
       (BurnPenalty (FromProtocol p s))
  /\ taken_or_kept 1 10 (UpdateSettingsPayload.MaxSlapIns p) (MaxSlapIns s)
       (MaxSlapIns (FromProtocol p s))
  /\ EnableSandwich (FromProtocol p s) = UpdateSettingsPayload.EnableSandwich p
  /\ EnableDoubles (FromProtocol p s) = UpdateSettingsPayload.EnableDoubles p
  /\ EnableSlapIn (FromProtocol p s) = UpdateSettingsPayload.EnableSlapIn p
  /\ (in_range s -> in_range (FromProtocol p s))
  /\ (payload_in_range p -> ToProtocol (FromProtocol p s) = p)
  /\ in_range DefaultSettings.
Proof.
  assert (Hfields :
    MaxPlayers (FromProtocol p s)
    = (if within 2 8 (UpdateSettingsPayload.MaxPlayers p)
       then UpdateSettingsPayload.MaxPlayers p else MaxPlayers s)
    /\ SlapCooldownMs (FromProtocol p s)
       = (if within 0 1000 (UpdateSettingsPayload.SlapCooldownMs p)
          then UpdateSettingsPayload.SlapCooldownMs p else SlapCooldownMs s)
    /\ TurnTimeoutMs (FromProtocol p s)
       = (if within 5000 60000 (UpdateSettingsPayload.TurnTimeoutMs p)
          then UpdateSettingsPayload.TurnTimeoutMs p else TurnTimeoutMs s)
    /\ BurnPenalty (FromProtocol p s)
       = (if within 0 5 (UpdateSettingsPayload.BurnPenalty p)
          then UpdateSettingsPayload.BurnPenalty p else BurnPenalty s)
    /\ MaxSlapIns (FromProtocol p s)
       = (if within 1 10 (UpdateSettingsPayload.MaxSlapIns p)
          then UpdateSettingsPayload.MaxSlapIns p else MaxSlapIns s)).
  { unfold FromProtocol. destruct s, p. cbn. repeat split; case_within; reflexivity. }
  destruct Hfields as (H1 & H2 & H3 & H4 & H5).
  split; [rewrite H1; apply taken_or_kept_if|].
  split; [rewrite H2; apply taken_or_kept_if|].
  split; [rewrite H3; apply taken_or_kept_if|].
  split; [rewrite H4; apply taken_or_kept_if|].
  split; [rewrite H5; apply taken_or_kept_if|].
  clear H1 H2 H3 H4 H5.
  unfold FromProtocol, in_range in *. destruct s, p. cbn in *.
  split; [case_within; reflexivity|].
  split; [case_within; reflexivity|].
  split; [case_within; reflexivity|].
  split; [intros Hs; case_within; cbn; lia|].
  split; [|lia].
  unfold payload_in_range. cbn. intros Hp.
  rewrite !(proj2 (within_spec _ _ _)) by lia. reflexivity.
Qed.

Lemma clamp_steps (get : Settings -> Z) (set : Z -> Settings -> Settings) (lo hi : Z)
    (s : Settings) :
  (lo <= hi)%Z ->
  (forall v s, get (set v s) = v) ->
  set (get s) s = s ->
  at_most get set hi (at_least get set lo s) = set (Z.max lo (Z.min hi (get s))) s.
Proof.
  intros Hle Hget Hid. unfold at_most, at_least.
  destruct (Z.ltb_spec (get s) lo).
  - rewrite Hget. destruct (Z.ltb_spec hi lo); [lia|]. f_equal. lia.
  - destruct (Z.ltb_spec hi (get s)).
    + f_equal. lia.
    + replace (Z.max lo (Z.min hi (get s))) with (get s) by lia. symmetry. exact Hid.
Qed.

Lemma Validate_fields (s : Settings) :
  Validate s
  = mkSettings (Z.max 2 (Z.min 8 (MaxPlayers s)))
      (Z.max 0 (Z.min 1000 (SlapCooldownMs s)))
      (Z.max 5000 (Z.min 60000 (TurnTimeoutMs s)))
      (EnableSandwich s) (EnableDoubles s)
      (Z.max 0 (Z.min 5 (BurnPenalty s)))
      (EnableSlapIn s)
      (Z.max 1 (Z.min 10 (MaxSlapIns s))).
Proof.
  unfold Validate. cbv zeta.
  rewrite (clamp_steps MaxPlayers set_MaxPlayers 2 8 s); [|lia|reflexivity|destruct s; reflexivity].
  rewrite (clamp_steps SlapCooldownMs set_SlapCooldownMs 0 1000);
    [|lia|reflexivity|destruct s; reflexivity].
  rewrite (clamp_steps TurnTimeoutMs set_TurnTimeoutMs 5000 60000);
    [|lia|reflexivity|destruct s; reflexivity].
  rewrite (clamp_steps BurnPenalty set_BurnPenalty 0 5);
    [|lia|reflexivity|destruct s; reflexivity].
  rewrite (clamp_steps MaxSlapIns set_MaxSlapIns 1 10);
    [|lia|reflexivity|destruct s; reflexivity].
  destruct s. reflexivity.
Qed.

(** X12. [Validate] puts every number into its range (each one becomes
    the nearest value of the range) and leaves the switches alone; it
    changes nothing in settings that lie in their ranges, and is
    therefore the same done once or twice. *)
Theorem Validate_clamps (s : Settings) :
  Validate s
  = mkSettings (Z.max 2 (Z.min 8 (MaxPlayers s)))
      (Z.max 0 (Z.min 1000 (SlapCooldownMs s)))
      (Z.max 5000 (Z.min 60000 (TurnTimeoutMs s)))
      (EnableSandwich s) (EnableDoubles s)
      (Z.max 0 (Z.min 5 (BurnPenalty s)))
      (EnableSlapIn s)
      (Z.max 1 (Z.min 10 (MaxSlapIns s)))
  /\ in_range (Validate s)
  /\ (in_range s -> Validate s = s)
  /\ Validate (Validate s) = Validate s.
Proof.
  assert (Hrange : forall s, in_range (Validate s)).
  { intros s0. rewrite Validate_fields. unfold in_range. cbn. lia. }
  assert (Hid : forall s, in_range s -> Validate s = s).
  { intros s0 H. rewrite Validate_fields. unfold in_range in H.
    destruct s0 as [mp cd tt sw db bp si ms]. cbn in *. f_equal; lia. }
  split; [apply Validate_fields|].
  split; [apply Hrange|]. split; [apply Hid|]. apply Hid, Hrange.
Qed.

End SettingsFacts.

Module RosterFacts.
Import Room SettingsRules RoomOps RoomFacts.

Lemma range_order_size (iter : list string) (m : gmap string Player) :
  range_order iter m -> size m = length iter.
Proof.
  intros [Hnd Hkeys].
  rewrite <- (size_dom (D := gset string)), <- (size_list_to_set (C := gset string) iter)
    by exact Hnd.
  f_equal. apply set_eq. intros k.
  rewrite elem_of_dom, elem_of_list_to_set. symmetry. apply Hkeys.
Qed.

Lemma same_roster_size (m m' : gmap string Player) : same_roster m m' -> size m = size m'.
Proof.
  intros H. rewrite <- !(size_dom (D := gset string)). f_equal. apply set_eq. intros k.
  rewrite !elem_of_dom. specialize (H k).
  destruct (m !! k), (m' !! k); try contradiction; split; intros [? ?]; eauto; discriminate.
Qed.

Lemma reindex_lookup (iter : list string) : forall (pos : nat) (m : gmap string Player),
  NoDup iter -> (forall k, k ∈ iter -> is_Some (m !! k)) ->
  (forall k, k ∉ iter -> reindex iter pos m !! k = m !! k)
  /\ (forall i k, iter !! i = Some k ->
        exists p, m !! k = Some p /\ reindex iter pos m !! k = Some (set_Position (pos + i) p)).
Proof.
  induction iter as [|id rest IH]; intros pos m Hnd Hkeys.
  { split; [reflexivity|]. intros i k Hi. discriminate. }
  apply NoDup_cons in Hnd as [Hfresh Hnd].
  destruct (Hkeys id) as [p0 Hp0]; [apply elem_of_cons; left; reflexivity|].
  cbn [reindex]. rewrite Hp0.
  destruct (IH (S pos) (<[id := set_Position pos p0]> m) Hnd) as [Hout Hin].
  { intros k Hk. destruct (decide (k = id)) as [->|Hne].
    - rewrite lookup_insert_eq. eauto.
    - rewrite lookup_insert_ne by congruence. apply Hkeys, elem_of_cons. right. exact Hk. }
  split.
  - intros k Hk. rewrite Hout by (intros Hin'; apply Hk, elem_of_cons; right; exact Hin').
    apply lookup_insert_ne. intros ->. apply Hk, elem_of_cons. left. reflexivity.
  - intros [|i] k Hi.
    + injection Hi as <-. exists p0. split; [exact Hp0|].
      rewrite Hout by exact Hfresh. rewrite lookup_insert_eq, Nat.add_0_r. reflexivity.
    + cbn in Hi. destruct (Hin i k Hi) as (p & Hp & Hre).
      assert (Hne : id ≠ k).
      { intros ->. apply Hfresh. eapply list_elem_of_lookup_2. exact Hi. }
      rewrite lookup_insert_ne in Hp by exact Hne.
      exists p. split; [exact Hp|]. rewrite Hre. do 2 f_equal. lia.
Qed.

Lemma reindex_in_row (iter : list string) (m : gmap string Player) :
  range_order iter m ->
  range_order iter (reindex iter 0 m)
  /\ forall i k, iter !! i = Some k ->
       exists p, reindex iter 0 m !! k = Some p /\ Position p = i.
Proof.
  intros Horder. pose proof Horder as [Hnd Hkeys].
  destruct (reindex_lookup iter 0 m Hnd (fun k Hk => proj1 (Hkeys k) Hk)) as [Hout Hin].
  split.
  - split; [exact Hnd|]. intros k. rewrite Hkeys.
    pose proof (reindex_same_roster iter 0 m k) as Hs.
    destruct (m !! k), (reindex iter 0 m !! k); try contradiction;
      split; intros [? ?]; eauto; discriminate.
  - intros i k Hi. destruct (Hin i k Hi) as (p & _ & Hre).
    exists (set_Position i p). split; [exact Hre|reflexivity].
Qed.

Lemma in_row_bounds (m : gmap string Player) :
  positions_in_row m ->
  (forall k p, m !! k = Some p -> Position p < size m)
  /\ (forall k k' p p', m !! k = Some p -> m !! k' = Some p' ->
        Position p = Position p' -> k = k').
Proof.
  intros (row & Horder & Hrow). pose proof Horder as [Hnd Hkeys].
  assert (Hidx : forall k p, m !! k = Some p -> row !! Position p = Some k).
  { intros k p Hp. assert (Hin : k ∈ row) by (apply Hkeys; eauto).
    apply list_elem_of_lookup_1 in Hin as [i Hi].
    destruct (Hrow i k Hi) as (q & Hq & Hqi). congruence. }
  split.
  - intros k p Hp. rewrite (range_order_size row m Horder).
    eapply lookup_lt_Some. apply Hidx. exact Hp.
  - intros k k' p p' Hp Hp' Heq. apply Hidx in Hp, Hp'. congruence.
Qed.

(** X13. The positions of a room form a row, 0 to [n - 1] with one
    player each: in a new room; after [AddPlayer] with a fresh
    identifier, which takes the next position; and after [RemovePlayer],
    which numbers the players left in the order its loop visits them,
    whatever the positions were before. *)
Theorem positions_stay_in_row :
  (forall code hostName playerID,
     positions_in_row (Players (fst (NewRoom code hostName playerID))))
  /\ (forall name playerID r,
        positions_in_row (Players r) -> Players r !! playerID = None ->
        positions_in_row (Players (snd (AddPlayer name playerID r)))
        /\ Position (fst (AddPlayer name playerID r)) = size (Players r))
  /\ (forall iter1 iter2 playerID r,
        range_order iter2 (Players (remove_and_reassign iter1 playerID r)) ->
        positions_in_row (Players (RemovePlayer iter1 iter2 playerID r))
        /\ forall i k, iter2 !! i = Some k ->
             exists p, Players (RemovePlayer iter1 iter2 playerID r) !! k = Some p
                       /\ Position p = i)
  /\ (forall m, positions_in_row m ->
        (forall k p, m !! k = Some p -> Position p < size m)
        /\ (forall k k' p p', m !! k = Some p -> m !! k' = Some p' ->
              Position p = Position p' -> k = k')).
Proof.
  split; [|split; [|split]].
  - intros code hostName playerID. exists [playerID]. cbn. split.
    + split; [apply NoDup_singleton|]. intros k.
      rewrite list_elem_of_singleton. split.
      * intros ->. rewrite lookup_singleton_eq. eauto.
      * intros [p Hp]. apply lookup_singleton_Some in Hp as [-> _]. reflexivity.
    + intros [|i] k Hi; [|discriminate]. injection Hi as <-.
      eexists. split; [apply lookup_singleton_eq|reflexivity].
  - intros name playerID r (row & Horder & Hrow) Hfresh. split; [|reflexivity].
    pose proof Horder as [Hnd Hkeys].
    exists (row ++ [playerID]). cbn. split.
    + split.
      * apply NoDup_app. split; [exact Hnd|]. split; [|apply NoDup_singleton].
        intros k Hk Hk'. apply list_elem_of_singleton in Hk'. subst k.
        apply Hkeys in Hk as [p Hp]. congruence.
      * intros k. rewrite elem_of_app, list_elem_of_singleton, Hkeys.
        destruct (decide (k = playerID)) as [->|Hne].
        -- rewrite lookup_insert_eq. split; eauto.
        -- rewrite lookup_insert_ne by congruence. split; [intros [H|H]; [exact H|contradiction]|auto].
    + intros i k Hi. apply lookup_app_Some in Hi as [Hi|[Hlen Hi]].
      * destruct (Hrow i k Hi) as (p & Hp & Hpi). exists p. split; [|exact Hpi].
        rewrite lookup_insert_ne; [exact Hp|]. intros <-. congruence.
      * apply list_lookup_singleton_Some in Hi as [Hi <-].
        eexists. split; [apply lookup_insert_eq|]. cbn.
        rewrite (range_order_size row _ Horder). lia.
  - intros iter1 iter2 playerID r Horder.
    destruct (reindex_in_row iter2 _ Horder) as [Horder' Hpos].
    split; [|exact Hpos]. exists iter2. split; [exact Horder'|exact Hpos].
  - apply in_row_bounds.
Qed.

Lemma connected_players_omap (iter : list string) (m : gmap string Player) :
  connected_players iter m
  = omap (fun id => p ← m !! id; if IsConnected p then Some p else None) iter.
Proof.
  induction iter as [|id rest IH]; [reflexivity|].
  cbn [connected_players omap list_omap]. rewrite <- IH.
  destruct (m !! id) as [p|]; [|reflexivity]. cbn. destruct (IsConnected p); reflexivity.
Qed.

Lemma none_connected_spec (iter : list string) (m : gmap string Player) :
  none_connected iter m = true <-> connected_players iter m = [].
Proof.
  induction iter as [|id rest IH]; [done|].
  cbn [none_connected connected_players].
  destruct (m !! id) as [p|]; [|exact IH].
  destruct (IsConnected p); [split; discriminate|exact IH].
Qed.

Lemma elem_of_connected_players (iter : list string) (m : gmap string Player) (p : Player) :
  p ∈ connected_players iter m
  <-> exists k, k ∈ iter /\ m !! k = Some p /\ IsConnected p = true.
Proof.
  rewrite connected_players_omap, list_elem_of_omap. split.
  - intros (k & Hk & Hp). exists k. split; [exact Hk|].
    destruct (m !! k) as [q|]; [|discriminate]. cbn in Hp.
    destruct (IsConnected q) eqn:Hq; [|discriminate]. injection Hp as <-. eauto.
  - intros (k & Hk & Hp & Hc). exists k. split; [exact Hk|]. rewrite Hp. cbn.
    rewrite Hc. reflexivity.
Qed.

Lemma range_order_Permutation (iter iter' : list string) (m : gmap string Player) :
  range_order iter m -> range_order iter' m -> iter ≡ₚ iter'.
Proof.
  intros [Hnd Hk] [Hnd' Hk']. apply NoDup_Permutation; [exact Hnd|exact Hnd'|].
  intros k. rewrite Hk, Hk'. reflexivity.
Qed.

Lemma IsEmpty_loop_IsEmpty (iter : list string) (r : Room) :
  range_order iter (Players r) -> IsEmpty_loop iter r = true <-> IsEmpty r.
Proof.
  intros [Hnd Hkeys]. unfold IsEmpty_loop. rewrite none_connected_spec. unfold IsEmpty. split.
  - intros Hnil k p Hp. destruct (IsConnected p) eqn:Hc; [|reflexivity].
    assert (Hin : p ∈ connected_players iter (Players r)).
    { apply elem_of_connected_players. exists k. split; [apply Hkeys; eauto|eauto]. }
    rewrite Hnil in Hin. apply elem_of_nil in Hin. contradiction.
  - intros Hall. destruct (connected_players iter (Players r)) as [|p l] eqn:E;
      [reflexivity|].
    assert (Hin : p ∈ connected_players iter (Players r))
      by (rewrite E; apply list_elem_of_here).
    apply elem_of_connected_players in Hin as (k & _ & Hp & Hc).
    rewrite (Hall k p Hp) in Hc. discriminate.
Qed.

(** X14. Who is connected does not depend on the order in which the map
    of the players is visited. [IsEmpty] answers that nobody is
    connected, which is to say that [GetConnectedPlayers] is empty;
    [GetConnectedPlayers] lists the connected players of the room, each
    once, in the order visited, so that two visits give the same players
    and the same count. *)
Theorem connected_players_any_order (iter iter' : list string) (r : Room) :
  range_order iter (Players r) -> range_order iter' (Players r) ->
  (IsEmpty_loop iter r = true <-> IsEmpty r)
  /\ (IsEmpty_loop iter r = true <-> GetConnectedPlayers iter r = [])
  /\ (forall p, p ∈ GetConnectedPlayers iter r
                <-> exists k, Players r !! k = Some p /\ IsConnected p = true)
  /\ GetConnectedPlayers iter r ≡ₚ GetConnectedPlayers iter' r
  /\ length (GetConnectedPlayers iter r) = length (GetConnectedPlayers iter' r)
  /\ IsEmpty_loop iter r = IsEmpty_loop iter' r.
Proof.
  intros Horder Horder'. pose proof Horder as [Hnd Hkeys].
  unfold IsEmpty_loop, GetConnectedPlayers.
  assert (Hmem : forall p, p ∈ connected_players iter (Players r)
                   <-> exists k, Players r !! k = Some p /\ IsConnected p = true).
  { intros p. rewrite elem_of_connected_players. split.
    - intros (k & _ & H). eauto.
    - intros (k & Hp & Hc). exists k. split; [|eauto]. apply Hkeys. eauto. }
  assert (Hperm : connected_players iter (Players r) ≡ₚ connected_players iter' (Players r)).
  { rewrite !connected_players_omap.
    apply omap_Permutation, (range_order_Permutation _ _ _ Horder Horder'). }
  assert (Hempty : none_connected iter (Players r) = true <-> IsEmpty r).
  { rewrite none_connected_spec. unfold IsEmpty. split.
    - intros Hnil k p Hp. destruct (IsConnected p) eqn:Hc; [|reflexivity].
      assert (Hin : p ∈ connected_players iter (Players r)) by (apply Hmem; eauto).
      rewrite Hnil in Hin. apply elem_of_nil in Hin. contradiction.
    - intros Hall. destruct (connected_players iter (Players r)) as [|p l] eqn:E;
        [reflexivity|].
      assert (Hin : p ∈ p :: l) by apply list_elem_of_here.
      apply Hmem in Hin as (k & Hp & Hc). rewrite (Hall k p Hp) in Hc. discriminate. }
  split; [exact Hempty|]. split; [apply none_connected_spec|]. split; [exact Hmem|].
  split; [exact Hperm|]. split; [rewrite Hperm; reflexivity|].
  destruct (none_connected iter (Players r)) eqn:E1,
    (none_connected iter' (Players r)) eqn:E2; try reflexivity.
  - apply none_connected_spec in E1. rewrite E1 in Hperm.
    apply Permutation_nil_l in Hperm. symmetry in Hperm.
    apply none_connected_spec in Hperm. congruence.
  - apply none_connected_spec in E2. rewrite E2 in Hperm.
    apply Permutation_nil_r in Hperm. apply none_connected_spec in Hperm. congruence.
Qed.

(** X15. Losing and regaining the connection: both calls leave a room
    alone that does not know the player; for a known player they change
    that player's connection flag and nothing else, so that a connected
    player who is marked disconnected and then connected leaves the room
    as it was. *)
Theorem connection_round_trip (playerID : string) (r : Room) :
  (Players r !! playerID = None ->
     MarkPlayerDisconnected playerID r = r /\ MarkPlayerConnected playerID r = r)
  /\ (forall p, Players r !! playerID = Some p ->
        Players (MarkPlayerDisconnected playerID r) !! playerID
        = Some (set_IsConnected false p)
        /\ Players (MarkPlayerConnected playerID r) !! playerID
           = Some (set_IsConnected true p)
        /\ (IsConnected p = true ->
            MarkPlayerConnected playerID (MarkPlayerDisconnected playerID r) = r))
  /\ (forall k, k ≠ playerID ->
        Players (MarkPlayerDisconnected playerID r) !! k = Players r !! k
        /\ Players (MarkPlayerConnected playerID r) !! k = Players r !! k)
  /\ HostID (MarkPlayerDisconnected playerID r) = HostID r
  /\ HostID (MarkPlayerConnected playerID r) = HostID r.
Proof.
  unfold MarkPlayerDisconnected, MarkPlayerConnected.
  split; [|split; [|split; [|split]]].
  - intros ->. split; reflexivity.
  - intros p Hp. rewrite Hp. cbn. rewrite !lookup_insert_eq.
    split; [reflexivity|]. split; [reflexivity|].
    intros Hc. unfold set_Players. cbn. rewrite insert_insert_eq.
    destruct r as [code players settings status host]. cbn in *. f_equal.
    apply insert_id. rewrite Hp. destruct p. cbn in *. subst. reflexivity.
  - intros k Hne. destruct (Players r !! playerID); cbn;
      rewrite ?lookup_insert_ne by congruence; split; reflexivity.
  - destruct (Players r !! playerID); reflexivity.
  - destruct (Players r !! playerID); reflexivity.
Qed.

End RosterFacts.

Module StartFacts.
Import Room SettingsRules RoomOps RoomFacts RosterFacts.

Lemma connected_ids (iter : list string) (m : gmap string Player) :
  (forall k p, m !! k = Some p -> ID p = k) ->
  map ID (connected_players iter m)
  = List.filter (fun id => match m !! id with
                           | Some p => IsConnected p
                           | None => false
                           end) iter.
Proof.
  intros Hids. induction iter as [|id rest IH]; [reflexivity|].
  cbn [connected_players List.filter].
  destruct (m !! id) as [p|] eqn:Hp; [|exact IH].
  destruct (IsConnected p); [|exact IH].
  cbn [map]. rewrite IH, (Hids id p Hp). reflexivity.
Qed.

Lemma NoDup_List_filter (f : string -> bool) (l : list string) :
  NoDup l -> NoDup (List.filter f l).
Proof.
  induction l as [|x l IH]; intros Hnd; [exact Hnd|].
  apply NoDup_cons in Hnd as [Hx Hnd]. cbn [List.filter].
  destruct (f x); [|apply IH, Hnd].
  apply NoDup_cons. split; [|apply IH, Hnd].
  rewrite list_elem_of_In, filter_In, <- list_elem_of_In. tauto.
Qed.

Lemma in_range_cooldown_fits (s : Settings) (g : Engine.Game) :
  in_range s -> Engine.SlapCooldownMs g = SlapCooldownMs s -> Invariants.cooldown_fits g.
Proof.
  intros (_ & Hcd & _) Heq. unfold Invariants.cooldown_fits. rewrite Heq.
  unfold int_max. lia.
Qed.

(** X16. [StartGame] in a room whose settings lie in their ranges.
    Without a connected player the call panics. Otherwise it returns a
    game and the room marked [playing]: the seats are the connected
    players, each once; the game is a state of the engine with seat 0 to
    play, a burn penalty that is not negative and a cooldown that fits a
    [Duration]; and whatever is then played, slapped or timed out, no
    operation of that game panics or hangs. *)
Theorem StartGame_starts_a_game (growcap : nat -> nat -> nat) (deck : list Card)
    (iter : list string) (r : Room) :
  Permutation deck NewDeck -> ids_ok r -> range_order iter (Players r) ->
  in_range (RoomSettings r) ->
  (GetConnectedPlayers iter r = [] ->
     StartGame growcap deck iter r = Panic "integer divide by zero")
  /\ (GetConnectedPlayers iter r ≠ [] ->
      exists g r', StartGame growcap deck iter r = Ok (g, r')
        /\ Status r' = "playing" /\ Players r' = Players r /\ HostID r' = HostID r
        /\ Engine.reachable growcap g
        /\ Engine.CurrentTurnIdx g = 0
        /\ NoDup (Engine.TurnOrder g)
        /\ (forall p, p ∈ Engine.TurnOrder g
                      <-> exists pl, Players r !! p = Some pl /\ IsConnected pl = true)
        /\ (0 <= Engine.BurnPenalty g)%Z
        /\ Invariants.cooldown_fits g
        /\ forall ops, exists evs g',
             Engine.run growcap ops g = Ok (evs, g') /\ length evs = length ops).
Proof.
  intros Hdeck Hids Horder Hrange. pose proof Horder as [Hnd Hkeys].
  unfold StartGame, GetConnectedPlayers. cbv zeta. split.
  - intros ->. cbn [map].
    rewrite DealFacts.NewGame_no_players; [reflexivity|].
    apply (EngineFacts.NewDeck_nonempty _ Hdeck).
  - intros Hne.
    destruct (DealFacts.NewGame_returns growcap deck
                (map ID (connected_players iter (Players r)))
                (EnableDoubles (RoomSettings r)) (EnableSandwich (RoomSettings r))
                (BurnPenalty (RoomSettings r)) (SlapCooldownMs (RoomSettings r))
                (TurnTimeoutMs (RoomSettings r)) (EnableSlapIn (RoomSettings r))
                (MaxSlapIns (RoomSettings r)))
      as (g & Hnew & Horder' & Hidx & _ & Hburn & Hcd & _).
    { destruct (connected_players iter (Players r)); [contradiction|discriminate]. }
    rewrite Hnew. cbn [obind].
    assert (Hseats : NoDup (Engine.TurnOrder g)).
    { rewrite Horder', (connected_ids iter _ Hids). apply NoDup_List_filter, Hnd. }
    assert (Hreach : Engine.reachable growcap g).
    { eapply Engine.reach_new; [exact Hdeck| |exact Hnew]. rewrite <- Horder'. exact Hseats. }
    assert (Hb : (0 <= Engine.BurnPenalty g)%Z).
    { rewrite Hburn. destruct Hrange as (_ & _ & _ & Hbp & _). lia. }
    exists g, (mkRoom (Code r) (Players r) (RoomSettings r) "playing" (HostID r)).
    split; [reflexivity|]. do 3 (split; [reflexivity|]).
    split; [exact Hreach|]. split; [exact Hidx|]. split; [exact Hseats|].
    split.
    { intros p. rewrite Horder', (connected_ids iter _ Hids), list_elem_of_In, filter_In,
        <- list_elem_of_In, Hkeys.
      split.
      - intros [[pl Hpl] Hc]. rewrite Hpl in Hc. eauto.
      - intros (pl & Hpl & Hc). rewrite Hpl. eauto. }
    split; [exact Hb|].
    split; [eapply in_range_cooldown_fits; [exact Hrange|exact Hcd]|].
    intros ops. apply EngineRunFacts.run_returns; [|exact Hb].
    apply (EngineFacts.reachable_wf growcap), Hreach.
Qed.

End StartFacts.

Module ManagerFacts.
Import Room SettingsRules RoomOps Manager RoomFacts RosterFacts.

Lemma length_string_of_list_ascii (l : list Ascii.ascii) :
  String.length (String.string_of_list_ascii l) = length l.
Proof. induction l as [|a l IH]; [reflexivity|]. cbn. rewrite IH. reflexivity. Qed.

Lemma length_candidate (intn : nat -> nat) (attempt : nat) :
  String.length (candidate intn attempt) = 4.
Proof. unfold candidate. rewrite length_string_of_list_ascii, length_map, length_seq. reflexivity. Qed.

Lemma candidate_nonempty (intn : nat -> nat) (attempt : nat) : candidate intn attempt ≠ "".
Proof.
  intros H. pose proof (length_candidate intn attempt) as Hl. rewrite H in Hl. discriminate.
Qed.

Lemma generate_loop_spec (intn : nat -> nat) (rs : gmap string Room) (todo : nat) :
  forall attempts,
  (generate_loop todo attempts intn rs = ""
   /\ forall k, attempts <= k < attempts + todo -> is_Some (rs !! candidate intn k))
  \/ (exists k, attempts <= k < attempts + todo
        /\ generate_loop todo attempts intn rs = candidate intn k
        /\ rs !! candidate intn k = None
        /\ forall j, attempts <= j < k -> is_Some (rs !! candidate intn j)).
Proof.
  induction todo as [|todo IH]; intros attempts; cbn [generate_loop].
  - left. split; [reflexivity|]. intros k Hk. lia.
  - destruct (rs !! candidate intn attempts) as [r|] eqn:Hc.
    + destruct (IH (S attempts)) as [[H0 Hall]|(k & Hk & Hgen & Hfree & Hbefore)].
      * left. split; [exact H0|]. intros k Hk.
        destruct (decide (k = attempts)) as [->|Hne]; [rewrite Hc; eauto|].
        apply Hall. lia.
      * right. exists k. split; [lia|]. split; [exact Hgen|]. split; [exact Hfree|].
        intros j Hj. destruct (decide (j = attempts)) as [->|Hne]; [rewrite Hc; eauto|].
        apply Hbefore. lia.
    + right. exists attempts. split; [lia|]. split; [reflexivity|]. split; [exact Hc|].
      intros j Hj. lia.
Qed.

Lemma ids_ok_same_roster (r : Room) (m' : gmap string Player) :
  same_roster (Players r) m' -> ids_ok r -> ids_ok (set_Players m' r).
Proof.
  intros Hs Hids k q Hq. cbn in Hq. specialize (Hs k). rewrite Hq in Hs.
  destruct (Players r !! k) as [p|] eqn:Hp; [|contradiction].
  destruct Hs as (Hid & _). rewrite <- Hid. apply (Hids k p Hp).
Qed.

Lemma ids_ok_RemovePlayer (iter1 iter2 : list string) (playerID : string) (r : Room) :
  ids_ok r -> ids_ok (RemovePlayer iter1 iter2 playerID r).
Proof.
  intros Hids. unfold RemovePlayer.
  assert (H1 : ids_ok (remove_and_reassign iter1 playerID r)).
  { unfold remove_and_reassign.
    assert (Hdel : ids_ok (set_Players (delete playerID (Players r)) r)).
    { intros k p Hp. cbn in Hp. apply lookup_delete_Some in Hp as [_ Hp]. eauto. }
    destruct (_ && _); [|exact Hdel].
    destruct (first_connected iter1 _) as [[id p]|] eqn:Hfc; [|exact Hdel].
    apply first_connected_Some in Hfc as [Hp _].
    intros k q Hq. cbn in Hq. destruct (decide (k = id)) as [->|Hne].
    - rewrite lookup_insert_eq in Hq. injection Hq as <-. cbn. apply (Hdel id p Hp).
    - rewrite lookup_insert_ne in Hq by congruence. apply (Hdel k q Hq). }
  apply (ids_ok_same_roster (remove_and_reassign iter1 playerID r)); [|exact H1].
  apply reindex_same_roster.
Qed.

Lemma Code_RemovePlayer (iter1 iter2 : list string) (playerID : string) (r : Room) :
  Code (RemovePlayer iter1 iter2 playerID r) = Code r
  /\ RoomSettings (RemovePlayer iter1 iter2 playerID r) = RoomSettings r
  /\ Status (RemovePlayer iter1 iter2 playerID r) = Status r.
Proof.
  unfold RemovePlayer, remove_and_reassign. cbv zeta.
  destruct (_ && _); [destruct (first_connected _ _) as [[id p]|]|]; repeat split; reflexivity.
Qed.

Lemma RemovePlayer_gone (iter1 iter2 : list string) (playerID : string) (r : Room) :
  (HostID r = playerID -> range_order iter1 (delete playerID (Players r))) ->
  Players (RemovePlayer iter1 iter2 playerID r) !! playerID = None.
Proof.
  intros Horder. unfold RemovePlayer. cbn [Players set_Players].
  pose proof (reindex_same_roster iter2 0 (Players (remove_and_reassign iter1 playerID r))
                playerID) as Hs.
  assert (Hnone : Players (remove_and_reassign iter1 playerID r) !! playerID = None).
  { unfold remove_and_reassign. cbv zeta. cbn [HostID Players set_Players].
    destruct (String.eqb_spec (HostID r) playerID) as [Hhost|Hne]; cbn [andb];
      [|apply lookup_delete_eq].
    destruct (0 <? size (delete playerID (Players r))); [|apply lookup_delete_eq].
    destruct (first_connected iter1 _) as [[id p]|] eqn:Hfc; [|apply lookup_delete_eq].
    cbn [Players set_Players set_HostID].
    apply first_connected_Some in Hfc as [Hp _].
    rewrite lookup_insert_ne; [apply lookup_delete_eq|].
    intros ->. rewrite lookup_delete_eq in Hp. discriminate. }
  rewrite Hnone in Hs. destruct (reindex _ _ _ !! playerID); [contradiction|reflexivity].
Qed.

(** X17. [CreateRoom]. It fails, leaving the manager as it was, only
    when the codes of all hundred attempts are taken. Otherwise the code
    has four characters and was free, so that no room is replaced: all
    the rooms there were are still there, and the new one, stored under
    its code, is a waiting room with one player, the host. *)
Theorem CreateRoom_spec (intn : nat -> nat) (uuid hostName : string) (m : Manager) :
  match CreateRoom intn uuid hostName m with
  | (Err msg, m') =>
      msg = "failed to generate room code" /\ m' = m
      /\ forall k, k < 100 -> is_Some (rooms m !! candidate intn k)
  | (Done (room, playerID), m') =>
      rooms m !! Code room = None
      /\ String.length (Code room) = 4
      /\ (exists k, k < 100 /\ Code room = candidate intn k)
      /\ playerID = uuid
      /\ rooms m' = <[Code room := room]> (rooms m)
      /\ (forall c r, rooms m !! c = Some r -> rooms m' !! c = Some r)
      /\ sessions m' = sessions m
      /\ host_inv room /\ Status room = "waiting"
      /\ Players room = {[uuid := mkPlayer uuid hostName true true 0]}
  end.
Proof.
  unfold CreateRoom, generateRoomCode. cbv zeta.
  destruct (generate_loop_spec intn (rooms m) 100 0)
    as [[H0 Hall]|(k & Hk & Hgen & Hfree & _)].
  - rewrite H0. cbn. split; [reflexivity|]. split; [reflexivity|].
    intros k Hk. apply Hall. lia.
  - rewrite Hgen.
    destruct (String.eqb_spec (candidate intn k) "") as [Hempty|_];
      [exfalso; exact (candidate_nonempty intn k Hempty)|].
    cbn [NewRoom fst snd Code].
    split; [exact Hfree|]. split; [apply length_candidate|].
    split; [exists k; split; [lia|reflexivity]|].
    split; [reflexivity|]. split; [reflexivity|].
    split.
    { intros c r Hr. cbn [rooms]. rewrite lookup_insert_ne; [exact Hr|]. intros <-. congruence. }
    split; [reflexivity|].
    split; [apply (host_inv_NewRoom (candidate intn k) hostName uuid)|].
    split; reflexivity.
Qed.

(** X18. [JoinRoom]. The three errors are told apart as the code reads:
    no room under the code; a room that is not waiting; a waiting room
    with as many players as allowed, or more. An error changes nothing.
    A success changes the room joined only: the new player, who is not a
    host, is added under the identifier drawn, and when that identifier
    is fresh the room holds at most [MaxPlayers] players afterwards. *)
Theorem JoinRoom_spec (code playerName uuid : string) (m : Manager) :
  match JoinRoom code playerName uuid m with
  | (Err msg, m') =>
      m' = m
      /\ ((msg = "room not found" /\ rooms m !! code = None)
          \/ exists r, rooms m !! code = Some r
               /\ ((msg = "game already in progress" /\ Status r ≠ "waiting")
                   \/ (msg = "room is full" /\ Status r = "waiting"
                       /\ (MaxPlayers (RoomSettings r) <= Z.of_nat (size (Players r)))%Z)))
  | (Done (room, playerID, player), m') =>
      exists r, rooms m !! code = Some r
        /\ Status r = "waiting"
        /\ (Z.of_nat (size (Players r)) < MaxPlayers (RoomSettings r))%Z
        /\ playerID = uuid
        /\ player = mkPlayer uuid playerName false true (size (Players r))
        /\ Players room = <[uuid := player]> (Players r)
        /\ HostID room = HostID r /\ RoomSettings room = RoomSettings r
        /\ rooms m' = <[code := room]> (rooms m)
        /\ (forall c, c ≠ code -> rooms m' !! c = rooms m !! c)
        /\ (Players r !! uuid = None ->
            (Z.of_nat (size (Players room)) <= MaxPlayers (RoomSettings room))%Z)
  end.
Proof.
  unfold JoinRoom. destruct (rooms m !! code) as [r|] eqn:Hr.
  2: { split; [reflexivity|]. left. split; reflexivity. }
  destruct (String.eqb_spec (Status r) "waiting") as [Hw|Hw]; cbn [negb].
  2: { split; [reflexivity|]. right. exists r. split; [reflexivity|]. left. split; done. }
  unfold IsFull. destruct (Z.leb_spec (MaxPlayers (RoomSettings r)) (Z.of_nat (size (Players r)))).
  { split; [reflexivity|]. right. exists r. split; [reflexivity|]. right. split; done. }
  cbn [AddPlayer fst snd ID]. exists r.
  split; [reflexivity|]. split; [exact Hw|]. split; [lia|].
  do 6 (split; [reflexivity|]).
  split; [intros c Hc; cbn; apply lookup_insert_ne; congruence|].
  intros Hfresh. cbn. rewrite map_size_insert_None by exact Hfresh. lia.
Qed.

(** X19. [LeaveRoom]. An unknown code changes nothing, and no other room
    is ever touched. The room left is deleted exactly when no connected
    player remains after the removal, in whatever order [IsEmpty] looks
    at the players; otherwise it stays under its code without the player
    who left. *)
Theorem LeaveRoom_spec (iter1 iter2 iter3 : list string) (code playerID : string)
    (m : Manager) :
  (rooms m !! code = None -> LeaveRoom iter1 iter2 iter3 code playerID m = m)
  /\ (forall c, c ≠ code ->
        rooms (LeaveRoom iter1 iter2 iter3 code playerID m) !! c = rooms m !! c)
  /\ sessions (LeaveRoom iter1 iter2 iter3 code playerID m) = sessions m
  /\ (forall r, rooms m !! code = Some r ->
        range_order iter3 (Players (RemovePlayer iter1 iter2 playerID r)) ->
        match rooms (LeaveRoom iter1 iter2 iter3 code playerID m) !! code with
        | None => IsEmpty (RemovePlayer iter1 iter2 playerID r)
        | Some r' => r' = RemovePlayer iter1 iter2 playerID r /\ ~ IsEmpty r'
        end).
Proof.
  unfold LeaveRoom. split; [|split; [|split]].
  - intros ->. reflexivity.
  - intros c Hc. destruct (rooms m !! code); [|reflexivity]. cbv zeta.
    destruct (IsEmpty_loop _ _); cbn.
    + apply lookup_delete_ne. congruence.
    + apply lookup_insert_ne. congruence.
  - destruct (rooms m !! code); [|reflexivity]. cbv zeta.
    destruct (IsEmpty_loop _ _); reflexivity.
  - intros r Hr Horder. rewrite Hr. cbv zeta.
    pose proof (IsEmpty_loop_IsEmpty iter3 _ Horder) as Hempty.
    destruct (IsEmpty_loop iter3 (RemovePlayer iter1 iter2 playerID r)); cbn.
    + rewrite lookup_delete_eq. apply Hempty. reflexivity.
    + rewrite lookup_insert_eq. split; [reflexivity|]. rewrite <- Hempty. discriminate.
Qed.

(** X20. Every room of the manager is stored under its own code and
    holds every player under the player's own identifier: [CreateRoom],
    [JoinRoom], [LeaveRoom], [DeleteRoom] and [SaveSession] all keep it
    so. *)
Theorem rooms_stay_ok (m : Manager) :
  rooms_ok m ->
  (forall intn uuid hostName, rooms_ok (snd (CreateRoom intn uuid hostName m)))
  /\ (forall code playerName uuid, rooms_ok (snd (JoinRoom code playerName uuid m)))
  /\ (forall iter1 iter2 iter3 code playerID,
        rooms_ok (LeaveRoom iter1 iter2 iter3 code playerID m))
  /\ (forall code, rooms_ok (DeleteRoom code m))
  /\ (forall sessionID playerID roomCode,
        rooms_ok (SaveSession sessionID playerID roomCode m)
        /\ GetSession sessionID (SaveSession sessionID playerID roomCode m)
           = Some (mkSessionData playerID roomCode)).
Proof.
  intros Hok.
  assert (Hins : forall c r, Code r = c -> ids_ok r ->
            rooms_ok (mkManager (<[c := r]> (rooms m)) (sessions m))).
  { intros c r Hc Hids c' r' Hr'. cbn in Hr'.
    destruct (decide (c' = c)) as [->|Hne].
    - rewrite lookup_insert_eq in Hr'. injection Hr' as <-. split; [exact Hc|exact Hids].
    - rewrite lookup_insert_ne in Hr' by congruence. apply Hok, Hr'. }
  assert (Hdel : forall c, rooms_ok (mkManager (delete c (rooms m)) (sessions m))).
  { intros c c' r' Hr'. cbn in Hr'. apply lookup_delete_Some in Hr' as [_ Hr'].
    apply Hok, Hr'. }
  split; [|split; [|split; [|split]]].
  - intros intn uuid hostName. unfold CreateRoom. cbv zeta.
    destruct (String.eqb _ ""); [exact Hok|]. cbn [snd]. apply Hins; [reflexivity|].
    apply (host_inv_NewRoom _ hostName uuid).
  - intros code playerName uuid. unfold JoinRoom.
    destruct (rooms m !! code) as [r|] eqn:Hr; [|exact Hok].
    destruct (negb _); [exact Hok|]. destruct (IsFull r); [exact Hok|].
    cbn [snd]. destruct (Hok code r Hr) as [Hc Hids]. apply Hins; [exact Hc|].
    intros k p Hp. cbn in Hp. destruct (decide (k = uuid)) as [->|Hne].
    + rewrite lookup_insert_eq in Hp. injection Hp as <-. reflexivity.
    + rewrite lookup_insert_ne in Hp by congruence. apply (Hids k p Hp).
  - intros iter1 iter2 iter3 code playerID. unfold LeaveRoom.
    destruct (rooms m !! code) as [r|] eqn:Hr; [|exact Hok]. cbv zeta.
    destruct (IsEmpty_loop _ _); [apply Hdel|].
    destruct (Hok code r Hr) as [Hc Hids]. apply Hins.
    + rewrite (proj1 (Code_RemovePlayer iter1 iter2 playerID r)). exact Hc.
    + apply ids_ok_RemovePlayer, Hids.
  - intros code. apply Hdel.
  - intros sessionID playerID roomCode. split; [exact Hok|].
    unfold GetSession, SaveSession. cbn. apply lookup_insert_eq.
Qed.

(** X21. A kick is carried out only for the host, never against the host
    and only against a player of the room. It leaves the room with the
    same host, who is still the one player flagged as host, without the
    player kicked, and with every other player as before but for the
    position. *)
Theorem kick_keeps_the_host (iter1 iter2 : list string) (client target name : string)
    (r room : Room) :
  host_inv r ->
  handleKickPlayer iter1 iter2 client target r = Done (room, name) ->
  client = HostID r /\ target ≠ HostID r
  /\ (exists p, Players r !! target = Some p /\ Name p = name)
  /\ room = RemovePlayer iter1 iter2 target r
  /\ host_inv room /\ HostID room = HostID r
  /\ Players room !! target = None
  /\ same_roster (delete target (Players r)) (Players room).
Proof.
  intros Hinv H. unfold handleKickPlayer in H.
  destruct (String.eqb_spec (HostID r) client) as [Hhost|Hne]; cbn [negb] in H;
    [|discriminate].
  destruct (String.eqb_spec target client) as [Hself|Hother]; [discriminate|].
  unfold GetPlayer in H. destruct (Players r !! target) as [p|] eqn:Hp; [|discriminate].
  injection H as <- <-. subst client.
  assert (Hremove : remove_and_reassign iter1 target r
                    = set_Players (delete target (Players r)) r).
  { unfold remove_and_reassign. cbv zeta. cbn [HostID set_Players].
    destruct (String.eqb_spec (HostID r) target) as [Heq|_]; [congruence|reflexivity]. }
  split; [reflexivity|]. split; [exact Hother|]. split; [eauto|]. split; [reflexivity|].
  assert (Hinv1 : host_inv (set_Players (delete target (Players r)) r)).
  { destruct Hinv as [[(h & Hh & Hflag & Hid) Huniq] Hids]. split; [split|].
    - exists h. cbn. split; [|split; [exact Hflag|exact Hid]].
      rewrite lookup_delete_ne by congruence. exact Hh.
    - intros k q Hq. cbn in Hq. apply lookup_delete_Some in Hq as [_ Hq]. apply (Huniq k q Hq).
    - intros k q Hq. cbn in Hq. apply lookup_delete_Some in Hq as [_ Hq]. apply (Hids k q Hq). }
  unfold RemovePlayer. rewrite Hremove.
  split; [apply (host_inv_same_roster _ _ (reindex_same_roster iter2 0 _) Hinv1)|].
  split; [reflexivity|].
  cbn [Players set_Players].
  split; [|apply reindex_same_roster].
  pose proof (reindex_same_roster iter2 0 (delete target (Players r)) target) as Hs.
  rewrite lookup_delete_eq in Hs.
  destruct (reindex _ _ _ !! target); [contradiction|reflexivity].
Qed.

End ManagerFacts.

Module ClientFacts.
Import Engine Invariants Queries Handlers SliceFacts EngineFacts EngineRunFacts.

Section Following.
Variable growcap : nat -> nat -> nat.

Lemma slice_last3_suffix (xs : list Card) :
  (exists under, xs = under ++ Client.slice_last3 xs) /\ length (Client.slice_last3 xs) <= 3.
Proof.
  unfold Client.slice_last3. split.
  - exists (take (length xs - 3) xs). symmetry. apply take_drop.
  - rewrite length_drop. lia.
Qed.

Lemma top_three_snoc (xs : list Card) (c : Card) :
  top_three (top_three xs ++ [c]) = top_three (xs ++ [c]).
Proof.
  unfold top_three.
  destruct (decide (length xs <= 3)) as [Hle|Hgt].
  { replace (length xs - 3) with 0 by lia. reflexivity. }
  pose proof (take_drop (length xs - 3) xs) as Hsplit.
  assert (Hbelow : length (take (length xs - 3) xs) = length xs - 3)
    by (rewrite length_take; lia).
  assert (Htop : length (drop (length xs - 3) xs) = 3) by (rewrite length_drop; lia).
  set (below := take (length xs - 3) xs) in *.
  set (t3 := drop (length xs - 3) xs) in *.
  replace (xs ++ [c]) with (below ++ (t3 ++ [c]))
    by (rewrite app_assoc, Hsplit; reflexivity).
  rewrite !length_app, Htop, Hbelow. cbn [length].
  replace (length xs - 3 + (3 + 1) - 3) with (length xs - 3 + 1) by lia.
  rewrite drop_app_add' by (symmetry; exact Hbelow). reflexivity.
Qed.

(** The hands after a play: one card less for the player. *)
Lemma play_front_hands (p q : string) (g : Game) :
  0 < s_len (hand_of g p) ->
  Z.of_nat (s_len (hand_of (snd (play_front growcap p (hand_of g p) g)) q))
  = (Z.of_nat (s_len (hand_of g q)) - (if decide (q = p) then 1 else 0))%Z.
Proof.
  intros Hlen. unfold play_front, hand_of at 1.
  cbn [snd PlayerHands set_Pile set_Mem set_PlayerHands].
  destruct (decide (q = p)) as [->|Hne].
  - rewrite lookup_insert_eq. cbn. lia.
  - rewrite lookup_insert_ne by congruence. fold (hand_of g q). lia.
Qed.

(** The hands after a burn of [b] cards. *)
Lemma burn_state_hands (p q : string) (b : nat) (g : Game) :
  b <= s_len (hand_of g p) ->
  Z.of_nat (s_len (hand_of (burn_state growcap p b g) q))
  = (Z.of_nat (s_len (hand_of g q)) - (if decide (q = p) then Z.of_nat b else 0))%Z.
Proof.
  intros Hb. unfold burn_state, hand_of at 1.
  cbn [PlayerHands set_Pile set_Mem set_PlayerHands].
  destruct (decide (q = p)) as [->|Hne].
  - rewrite lookup_insert_eq. cbn. lia.
  - rewrite lookup_insert_ne by congruence. fold (hand_of g q). lia.
Qed.

(** The hands after a slap won: the pile goes to the player. *)
Lemma slap_won_state_hands (p q : string) (b : bool) (g : Game) :
  wf_game g ->
  Z.of_nat (s_len (hand_of (slap_won_state growcap p b g) q))
  = (Z.of_nat (s_len (hand_of g q))
     + (if decide (q = p) then Z.of_nat (s_len (Pile g)) else 0))%Z.
Proof.
  intros Hwf.
  assert (Hhands : PlayerHands (slap_won_state growcap p b g)
                   = <[p := snd (append growcap (Mem g) (hand_of g p) (view (Mem g) (Pile g)))]>
                       (PlayerHands g)).
  { unfold slap_won_state. cbv zeta. destruct (seat_of _ _); destruct b; reflexivity. }
  unfold hand_of at 1. rewrite Hhands.
  destruct (decide (q = p)) as [->|Hne].
  - rewrite lookup_insert_eq. cbn [default from_option id].
    rewrite len_append, length_view by apply Hwf. lia.
  - rewrite lookup_insert_ne by congruence. fold (hand_of g q). lia.
Qed.

Lemma or_zero_insert (counts : gmap string Z) (p q : string) (v : Z) :
  Client.or_zero (<[p := v]> counts) q
  = if decide (q = p) then v else Client.or_zero counts q.
Proof.
  unfold Client.or_zero. destruct (decide (q = p)) as [->|Hne].
  - rewrite lookup_insert_eq. reflexivity.
  - rewrite lookup_insert_ne by congruence. reflexivity.
Qed.

(** What a slap does to the hands and to the pile, read off the answer. *)
Lemma ProcessSlap_cards (p : string) (now stamp : Z) (g g' : Game)
    (r : Protocol.SlapResultPayload) :
  wf_game g -> ProcessSlap growcap p now stamp g = Ok (r, g') ->
  Protocol.PlayerID r = p
  /\ (forall q, Z.of_nat (s_len (hand_of g' q))
                = (Z.of_nat (s_len (hand_of g q))
                   + (if decide (q = p)
                      then Protocol.CardsWon r - Protocol.BurnPenalty r else 0))%Z)
  /\ (if Protocol.Success r
      then (0 < Protocol.CardsWon r)%Z /\ Protocol.BurnPenalty r = 0%Z /\ pile_cards g' = []
           /\ (forall i, seat_of p (TurnOrder g) = Some i ->
                 TurnOrder g' !! CurrentTurnIdx g' = Some p)
      else Protocol.CardsWon r = 0%Z /\ (0 <= Protocol.BurnPenalty r)%Z
           /\ (exists burnt, length burnt = Z.to_nat (Protocol.BurnPenalty r)
                 /\ pile_cards g' = burnt ++ pile_cards g)
           /\ TurnOrder g' = TurnOrder g /\ CurrentTurnIdx g' = CurrentTurnIdx g).
Proof.
  intros Hwf H.
  assert (Hsame : forall q, (Z.of_nat (s_len (hand_of g q))
                             + (if decide (q = p) then 0 - 0 else 0))%Z
                            = Z.of_nat (s_len (hand_of g q))).
  { intros q. destruct (decide (q = p)); lia. }
  assert (Hnone : exists burnt : list Card,
            length burnt = Z.to_nat 0 /\ pile_cards g = burnt ++ pile_cards g).
  { exists []. split; reflexivity. }
  destruct (ProcessSlap_branches growcap p now stamp g)
    as [(_ & E)|[(_ & _ & _ & E)|[(_ & _ & _ & _ & E)|[(_ & Hlen & _ & E)|(_ & _ & Hr & E)]]]];
    rewrite E in H; clear E.
  - injection H as <- <-. cbn [Protocol.PlayerID Protocol.Success Protocol.CardsWon
                                 Protocol.BurnPenalty].
    split; [reflexivity|]. split; [intros q; rewrite Hsame; reflexivity|].
    split; [reflexivity|]. split; [lia|]. split; [exact Hnone|]. split; reflexivity.
  - injection H as <- <-. cbn [Protocol.PlayerID Protocol.Success Protocol.CardsWon
                                 Protocol.BurnPenalty].
    split; [reflexivity|]. split; [intros q; rewrite Hsame; reflexivity|].
    split; [reflexivity|]. split; [lia|]. split; [exact Hnone|]. split; reflexivity.
  - injection H as <- <-. cbn [Protocol.PlayerID Protocol.Success Protocol.CardsWon
                                 Protocol.BurnPenalty].
    split; [reflexivity|]. split; [intros q; rewrite Hsame; reflexivity|].
    split; [reflexivity|]. split; [lia|]. split; [exact Hnone|]. split; reflexivity.
  - destruct (applyBurnPenalty growcap p (stamp_attempt p stamp g)) as [[n g1]| |] eqn:Hb;
      try discriminate.
    cbn [obind fst snd] in H. injection H as <- <-.
    cbn [Protocol.PlayerID Protocol.Success Protocol.CardsWon Protocol.BurnPenalty].
    apply applyBurnPenalty_cases in Hb as [(_ & -> & ->)|(_ & Hn & Hmin & ->)].
    + split; [reflexivity|]. split; [intros q; rewrite Hsame; reflexivity|].
      split; [reflexivity|]. split; [lia|]. split; [exact Hnone|]. split; reflexivity.
    + change (hand_of (stamp_attempt p stamp g) p) with (hand_of g p) in Hmin.
      assert (Hle : Z.to_nat n <= s_len (hand_of g p)) by lia.
      split; [reflexivity|]. split.
      { intros q.
        change (hand_of (charge_burn p n ?x) q) with (hand_of x q).
        pose proof (burn_state_hands p q (Z.to_nat n) (stamp_attempt p stamp g) Hle)
          as Hh.
        change (hand_of (stamp_attempt p stamp g) q) with (hand_of g q) in Hh.
        rewrite Hh. destruct (decide (q = p)); lia. }
      split; [reflexivity|]. split; [exact Hn|]. split; [|split; reflexivity].
      destruct (burn_state_spec growcap p (Z.to_nat n) (stamp_attempt p stamp g)
                  (wf_stamp_attempt p stamp g Hwf) Hle) as (Hpile & _).
      exists (take (Z.to_nat n) (hand_cards g p)). split.
      * rewrite length_take. unfold hand_cards.
        rewrite length_view by apply (hand_of_ok g p Hwf). lia.
      * exact Hpile.
  - injection H as <- <-.
    cbn [Protocol.PlayerID Protocol.Success Protocol.CardsWon Protocol.BurnPenalty].
    pose proof (wf_stamp_attempt p stamp g Hwf) as Hwf1.
    destruct (slap_won_state_spec growcap p (0 <? s_len (hand_of g p))
                (stamp_attempt p stamp g) Hwf1)
      as (_ & Hpile & _ & _ & _ & Horder & Hseat & _).
    split; [reflexivity|]. split.
    { intros q.
      rewrite (slap_won_state_hands p q _ _ Hwf1).
      change (hand_of (stamp_attempt p stamp g) q) with (hand_of g q).
      change (Pile (stamp_attempt p stamp g)) with (Pile g).
      destruct (decide (q = p)); lia. }
    split.
    { assert (Hne : pile_cards g ≠ []).
      { intros Hnil. apply Hr. rewrite Hnil. reflexivity. }
      destruct Hwf as (_ & Hp & _). pose proof (length_view _ _ Hp) as Hl.
      fold (pile_cards g) in Hl. destruct (pile_cards g); [contradiction|].
      simpl in Hl. lia. }
    split; [reflexivity|]. split; [exact Hpile|].
    intros i Hi. rewrite (Hseat i Hi), Horder.
    apply (seat_of_lt p (TurnOrder g) i Hi).
Qed.

Lemma follows_same_cards (g g' : Game) (st : Client.State) :
  PlayerHands g' = PlayerHands g -> Mem g' = Mem g -> Pile g' = Pile g ->
  follows g st -> follows g' st.
Proof.
  intros Hh Hm Hp (gs & rs & Hg & Hr & Hcounts & Hpile & Hlen).
  exists gs, rs. unfold hand_of, pile_cards in *. rewrite Hh, Hm, Hp.
  split; [exact Hg|]. split; [exact Hr|]. split; [exact Hcounts|]. split; assumption.
Qed.

Lemma follows_card_played (p : string) (n : Z) (g : Game) (st : Client.State) :
  wf_game g -> 0 < s_len (hand_of g p) -> follows g st ->
  follows (snd (play_front growcap p (hand_of g p) g))
    (Client.reducer st
       (Client.CARD_PLAYED
          (CardPlayedPayload.mk p (fst (play_front growcap p (hand_of g p) g)) n))).
Proof.
  intros Hwf Hlen (gs & rs & Hg & Hr & Hcounts & [under Hpile] & Hshort).
  destruct (play_front_cards growcap p g Hwf Hlen) as (_ & Hpile' & _).
  cbn [Client.reducer]. rewrite Hg, Hr. cbv zeta.
  eexists _, _. split; [reflexivity|]. split; [reflexivity|].
  cbn [Client.playerCardCounts Client.pile Client.set_playerCardCounts Client.set_pile
         CardPlayedPayload.playerId CardPlayedPayload.card].
  split; [|split].
  - intros q. rewrite or_zero_insert, (play_front_hands p q g Hlen), <- !Hcounts.
    destruct (decide (q = p)) as [->|_]; lia.
  - destruct (slice_last3_suffix
                (Client.pile gs ++ [fst (play_front growcap p (hand_of g p) g)]))
      as [[u Hu] _].
    exists (under ++ u). rewrite Hpile', Hpile, <- !app_assoc. f_equal. exact Hu.
  - apply slice_last3_suffix.
Qed.

Lemma follows_turn_changed (x : string) (g : Game) (st : Client.State) :
  follows g st -> follows g (Client.reducer st (Client.TURN_CHANGED x)).
Proof.
  intros (gs & rs & Hg & Hr & Hcounts & Hpile & Hshort).
  cbn [Client.reducer]. rewrite Hg.
  eexists _, rs. split; [reflexivity|]. split; [exact Hr|].
  split; [exact Hcounts|]. split; assumption.
Qed.

Lemma follows_slap_result (p : string) (r : Protocol.SlapResultPayload) (g g' : Game)
    (st : Client.State) :
  Protocol.PlayerID r = p ->
  (forall q, Z.of_nat (s_len (hand_of g' q))
             = (Z.of_nat (s_len (hand_of g q))
                + (if decide (q = p)
                   then Protocol.CardsWon r - Protocol.BurnPenalty r else 0))%Z) ->
  (if Protocol.Success r
   then (0 < Protocol.CardsWon r)%Z /\ Protocol.BurnPenalty r = 0%Z /\ pile_cards g' = []
   else Protocol.CardsWon r = 0%Z /\ (0 <= Protocol.BurnPenalty r)%Z
        /\ exists burnt, length burnt = Z.to_nat (Protocol.BurnPenalty r)
             /\ pile_cards g' = burnt ++ pile_cards g) ->
  follows g st -> follows g' (Client.reducer st (Client.SLAP_RESULT r)).
Proof.
  intros Hp Hhands Hcases (gs & rs & Hg & Hr & Hcounts & [under Hpile] & Hshort).
  cbn [Client.reducer]. rewrite Hg, Hr.
  eexists _, _. split; [reflexivity|]. split; [reflexivity|].
  unfold Client.slap_game, Client.truthy. rewrite Hp.
  destruct (Protocol.Success r).
  - destruct Hcases as (Hwon & Hburn & Hpile').
    replace (Protocol.CardsWon r =? 0)%Z with false by (symmetry; apply Z.eqb_neq; lia).
    cbn [andb negb Client.playerCardCounts Client.pile Client.set_playerCardCounts
           Client.set_pile].
    split; [|split; [exists []; rewrite Hpile'; reflexivity|simpl; lia]].
    intros q. rewrite or_zero_insert, Hhands, <- !Hcounts.
    destruct (decide (q = p)) as [->|_]; lia.
  - destruct Hcases as (Hwon & Hburn & burnt & Hlen & Hpile'). cbn [andb].
    destruct (Z.eqb_spec (Protocol.BurnPenalty r) 0) as [H0|Hne]; cbn [negb].
    + cbn [Client.playerCardCounts Client.pile Client.set_pile].
      split; [|split; [exists (burnt ++ under); rewrite Hpile', Hpile, app_assoc;
                       reflexivity|exact Hshort]].
      intros q. rewrite Hhands, <- Hcounts. destruct (decide (q = p)); lia.
    + cbn [Client.playerCardCounts Client.pile Client.set_playerCardCounts Client.set_pile].
      split; [|split; [exists (burnt ++ under); rewrite Hpile', Hpile, app_assoc;
                       reflexivity|exact Hshort]].
      intros q. rewrite or_zero_insert, Hhands, <- !Hcounts.
      destruct (decide (q = p)) as [->|_]; lia.
Qed.

Lemma follows_beside (a : Client.Action) (g : Game) (st : Client.State) :
  (exists x, a = Client.SLAP_ATTEMPTED x) \/ (exists x, a = Client.PLAYER_ELIMINATED x)
  \/ (exists x, a = Client.GAME_OVER x) ->
  (follows g st -> follows g (Client.reducer st a))
  /\ (forall gs, Client.game st = Some gs -> Client.game (Client.reducer st a) = Some gs).
Proof.
  intros [[x ->]|[[x ->]|[x ->]]]; cbn [Client.reducer].
  - split; [|auto]. intros (gs & rs & Hg & Hr & H). exists gs, rs. auto.
  - split; [|auto]. intros (gs & rs & Hg & Hr & H). exists gs, rs. auto.
  - split.
    + intros (gs & rs & Hg & Hr & H). rewrite Hr. eexists gs, _.
      split; [exact Hg|]. split; [reflexivity|exact H].
    + intros gs Hg. destruct (Client.room st); exact Hg.
Qed.

Lemma fold_eliminated (l : list string) : forall (g : Game) (st : Client.State),
  (follows g st ->
   follows g (fold_left Client.reducer (map Client.PLAYER_ELIMINATED l) st))
  /\ (forall gs, Client.game st = Some gs ->
        Client.game (fold_left Client.reducer (map Client.PLAYER_ELIMINATED l) st) = Some gs).
Proof.
  induction l as [|x l IH]; intros g st; cbn [map fold_left]; [auto|].
  destruct (follows_beside (Client.PLAYER_ELIMINATED x) g st) as [Hf Hg]; [eauto|].
  destruct (IH g (Client.reducer st (Client.PLAYER_ELIMINATED x))) as [IHf IHg].
  split; [intros H; apply IHf, Hf, H|intros gs H; apply IHg, Hg, H].
Qed.

Lemma seat_of_elem (p : string) (order : list string) :
  p ∈ order -> exists i, seat_of p order = Some i.
Proof.
  induction order as [|x l IH]; intros Hin; [apply elem_of_nil in Hin; contradiction|].
  cbn [seat_of]. destruct (String.eqb_spec x p) as [->|Hne]; [eauto|].
  apply elem_of_cons in Hin as [Heq|Hin]; [congruence|].
  destruct (IH Hin) as [i ->]. cbn. eauto.
Qed.

(** The game the client holds after the actions of one request. *)
Lemma client_game_after_play (p : string) (c : Card) (n : Z) (next : string)
    (st : Client.State) (gs : Client.GameState) (rs : Client.RoomState) :
  Client.game st = Some gs -> Client.room st = Some rs ->
  Client.game
    (fold_left Client.reducer
       [Client.CARD_PLAYED (CardPlayedPayload.mk p c n); Client.TURN_CHANGED next] st)
  = Some (Client.set_currentPlayerId next
            (Client.set_playerCardCounts
               (<[p := (Client.or_zero (Client.playerCardCounts gs) p - 1)%Z]>
                  (Client.playerCardCounts gs))
               (Client.set_pile (Client.slice_last3 (Client.pile gs ++ [c])) gs))).
Proof.
  intros Hg Hr. cbn [fold_left Client.reducer]. rewrite Hg, Hr. reflexivity.
Qed.

Lemma game_after_tail (tail : list Client.Action) (w winnerName p : string) (b : bool)
    (st : Client.State) (gs : Client.GameState) :
  tail = (if negb (String.eqb w "")
          then [Client.GAME_OVER (GameOverPayload.mk w winnerName)]
          else if b then [Client.TURN_CHANGED p] else []) ->
  Client.game st = Some gs ->
  Client.game (fold_left Client.reducer tail st)
  = Some (if negb (String.eqb w "") then gs
          else if b then Client.set_currentPlayerId p gs else gs).
Proof.
  intros -> Hg. destruct (negb (String.eqb w "")).
  - cbn [fold_left Client.reducer]. destruct (Client.room st); exact Hg.
  - destruct b; cbn [fold_left Client.reducer]; [rewrite Hg; reflexivity|exact Hg].
Qed.

Lemma currentPlayerId_slap_game (r : Protocol.SlapResultPayload) (gs : Client.GameState) :
  Client.currentPlayerId (Client.slap_game r gs) = Client.currentPlayerId gs.
Proof.
  unfold Client.slap_game. cbv zeta.
  destruct (_ && _); [reflexivity|]. destruct (Client.truthy _); reflexivity.
Qed.

(** X22. The client keeps in step with the server. When its game has the
    card counts of the server's hands and shows cards that lie on top of
    the server's pile, it still does after the actions it dispatches for
    what the server broadcasts on a play, a slap or a timeout. It then
    shows the player whose turn it is, unless a slap ended the game or
    came from a player without a seat; and it shows the top three cards
    of the pile as long as no burn puts cards under a pile of fewer than
    three. *)
Theorem client_follows_server (q : request) (g g' : Game) (st : Client.State)
    (acts : list Client.Action) :
  wf_game g -> follows g st -> serve growcap q g = Ok (acts, g') ->
  follows g' (fold_left Client.reducer acts st)
  /\ (same_turn g st ->
      (forall p name now stamp w, q = ReqSlap p name now stamp w ->
         CheckWinner g' = "" /\ p ∈ TurnOrder g) ->
      same_turn g' (fold_left Client.reducer acts st))
  /\ (same_top g st ->
      (forall r, Client.SLAP_RESULT r ∈ acts ->
         Protocol.BurnPenalty r = 0%Z \/ 3 <= length (pile_cards g)) ->
      same_top g' (fold_left Client.reducer acts st)).
Proof.
  intros Hwf Hfollows Hserve.
  pose proof Hfollows as (gs & rs & Hg & Hr & _).
  assert (Hplayed : forall p c next g1 n,
            0 < s_len (hand_of g p) ->
            c = fst (play_front growcap p (hand_of g p) g) ->
            PlayerHands g1 = PlayerHands (snd (play_front growcap p (hand_of g p) g)) ->
            Mem g1 = Mem (snd (play_front growcap p (hand_of g p) g)) ->
            Pile g1 = Pile (snd (play_front growcap p (hand_of g p) g)) ->
            GetCurrentPlayer g1 = Ok next ->
            let st' := fold_left Client.reducer
                         [Client.CARD_PLAYED (CardPlayedPayload.mk p c n);
                          Client.TURN_CHANGED next] st in
            follows g1 st' /\ same_turn g1 st'
            /\ (same_top g st -> same_top g1 st')).
  { intros p c next g1 n Hlen -> Hh Hm Hp Hnext st'.
    assert (Hgame := client_game_after_play p
                       (fst (play_front growcap p (hand_of g p) g)) n next st gs rs Hg Hr).
    fold st' in Hgame.
    split; [|split].
    - subst st'. cbn [fold_left]. apply follows_turn_changed.
      apply (follows_same_cards _ _ _ Hh Hm Hp).
      apply follows_card_played; assumption.
    - eexists. split; [exact Hgame|]. cbn [Client.currentPlayerId Client.set_currentPlayerId].
      unfold GetCurrentPlayer in Hnext.
      destruct (TurnOrder g1 !! CurrentTurnIdx g1); [|discriminate].
      injection Hnext as ->. reflexivity.
    - intros (gs0 & Hg0 & Htop). rewrite Hg in Hg0. injection Hg0 as <-.
      eexists. split; [exact Hgame|].
      cbn [Client.pile Client.set_currentPlayerId Client.set_playerCardCounts Client.set_pile].
      destruct (play_front_cards growcap p g Hwf Hlen) as (_ & Hpile' & _).
      unfold pile_cards at 1. rewrite Hm, Hp. fold (pile_cards (snd (play_front growcap p (hand_of g p) g))).
      rewrite Hpile', Htop. apply top_three_snoc. }
  destruct q as [p|p name now stamp w|]; cbn [serve] in Hserve.
  - (* a play *)
    unfold handlePlayCard in Hserve.
    destruct (PlayCard growcap p g) as [[res g1]| |] eqn:E; try discriminate.
    cbn [obind fst snd] in Hserve.
    apply PlayCard_cases in E as [[-> [msg ->]]|(_ & Hlen & -> & i & _ & ->)].
    { injection Hserve as <- <-. cbn [fold_left]. split; [exact Hfollows|]. split; auto. }
    destruct (GetCurrentPlayer _) as [next| |] eqn:Hnext; try discriminate.
    cbn [obind] in Hserve. injection Hserve as <- <-.
    rewrite QueriesFacts.ToProtocol_id.
    destruct (Hplayed p (read (Mem g) (hand_of g p) 0) next
                (set_CurrentTurnIdx i
                   (set_PendingSlaps []
                      (set_SlapWindowOpen true
                         (snd (play_front growcap p (hand_of g p) g)))))
                (Z.of_nat (s_len (Pile (set_CurrentTurnIdx i
                   (set_PendingSlaps []
                      (set_SlapWindowOpen true
                         (snd (play_front growcap p (hand_of g p) g))))))))
                Hlen eq_refl eq_refl eq_refl eq_refl Hnext)
      as (H1 & H2 & H3).
    split; [exact H1|]. split; [intros _ _; exact H2|intros Ht _; apply H3, Ht].
  - (* a slap *)
    unfold handleSlap in Hserve.
    destruct (ProcessSlap growcap p now stamp g) as [[r g1]| |] eqn:E; try discriminate.
    cbn [obind fst snd] in Hserve. injection Hserve as <- <-.
    destruct (ProcessSlap_cards p now stamp g g1 r Hwf E) as (Hp & Hhands & Hcases).
    rewrite Hp.
    set (tail := if negb (String.eqb (CheckWinner g1) "") then _ else _).
    assert (Hcases' : if Protocol.Success r
              then (0 < Protocol.CardsWon r)%Z /\ Protocol.BurnPenalty r = 0%Z
                   /\ pile_cards g1 = []
              else Protocol.CardsWon r = 0%Z /\ (0 <= Protocol.BurnPenalty r)%Z
                   /\ exists burnt, length burnt = Z.to_nat (Protocol.BurnPenalty r)
                        /\ pile_cards g1 = burnt ++ pile_cards g).
    { destruct (Protocol.Success r); [destruct Hcases as (?&?&?&_)|destruct Hcases as (?&?&?&_)];
        auto. }
    set (st1 := Client.reducer
                  (Client.reducer st (Client.SLAP_ATTEMPTED (SlapAttemptedPayload.mk p name)))
                  (Client.SLAP_RESULT r)).
    assert (Hg1 : Client.game st1 = Some (Client.slap_game r gs)).
    { subst st1. cbn [Client.reducer Client.game Client.room Client.set_lastSlapAttempt].
      rewrite Hg, Hr. reflexivity. }
    assert (Hf1 : follows g1 st1).
    { subst st1. apply (follows_slap_result p r g g1 _ Hp Hhands Hcases').
      apply follows_beside; [eauto|exact Hfollows]. }
    set (st2 := fold_left Client.reducer
                  (map Client.PLAYER_ELIMINATED (CheckEliminations g1)) st1).
    destruct (fold_eliminated (CheckEliminations g1) g1 st1) as [Hfe Hge].
    assert (Hg2 : Client.game st2 = Some (Client.slap_game r gs)) by (apply Hge, Hg1).
    assert (Hf2 : follows g1 st2) by (apply Hfe, Hf1).
    assert (Hfold : fold_left Client.reducer
                      (Client.SLAP_ATTEMPTED (SlapAttemptedPayload.mk p name)
                       :: Client.SLAP_RESULT r
                       :: map Client.PLAYER_ELIMINATED (CheckEliminations g1) ++ tail) st
                    = fold_left Client.reducer tail st2).
    { cbn [fold_left]. rewrite fold_left_app. reflexivity. }
    rewrite Hfold.
    pose proof (game_after_tail tail (CheckWinner g1) w p (Protocol.Success r) st2 _
                  eq_refl Hg2) as Hgame.
    split; [|split].
    + subst tail. destruct (negb (String.eqb (CheckWinner g1) "")).
      * cbn [fold_left]. apply follows_beside; [eauto|exact Hf2].
      * destruct (Protocol.Success r); cbn [fold_left]; [|exact Hf2].
        apply follows_turn_changed, Hf2.
    + intros (gs0 & Hg0 & Hturn) Hcond. rewrite Hg in Hg0. injection Hg0 as <-.
      destruct (Hcond p name now stamp w eq_refl) as [Hnow Hseat].
      rewrite Hnow in Hgame. cbn [String.eqb negb] in Hgame.
      destruct (Protocol.Success r) eqn:Hs.
      * destruct Hcases as (_ & _ & _ & Hidx).
        destruct (seat_of_elem p (TurnOrder g) Hseat) as [i Hi].
        eexists. split; [exact Hgame|].
        cbn [Client.currentPlayerId Client.set_currentPlayerId]. apply (Hidx i Hi).
      * destruct Hcases as (_ & _ & _ & Horder & Hidx).
        eexists. split; [exact Hgame|].
        rewrite Horder, Hidx, currentPlayerId_slap_game. exact Hturn.
    + intros (gs0 & Hg0 & Htop) Hcond. rewrite Hg in Hg0. injection Hg0 as <-.
      assert (Hpile : Client.pile (Client.slap_game r gs) = top_three (pile_cards g1)).
      { unfold Client.slap_game, Client.truthy.
        destruct (Protocol.Success r).
        - destruct Hcases' as (Hwon & _ & ->).
          replace (Protocol.CardsWon r =? 0)%Z with false by (symmetry; apply Z.eqb_neq; lia).
          reflexivity.
        - destruct Hcases' as (_ & Hb & burnt & Hlen & ->). cbn [andb].
          assert (Hsame : top_three (burnt ++ pile_cards g) = top_three (pile_cards g)).
          { destruct (Hcond r) as [H0|H3].
            - apply elem_of_cons. right. apply list_elem_of_here.
            - rewrite H0 in Hlen. destruct burnt; [reflexivity|discriminate].
            - apply top_three_under, H3. }
          rewrite Hsame.
          destruct (negb (Protocol.BurnPenalty r =? 0)%Z); exact Htop. }
      destruct (negb (String.eqb (CheckWinner g1) "")).
      { eexists. split; [exact Hgame|exact Hpile]. }
      destruct (Protocol.Success r).
      { eexists. split; [exact Hgame|exact Hpile]. }
      eexists. split; [exact Hgame|exact Hpile].
  - (* a timeout *)
    unfold turnTimeout in Hserve.
    destruct (TurnOrder g !! CurrentTurnIdx g) as [cur|] eqn:Hcur.
    2: { unfold StartTurnTimer_timeout in Hserve. rewrite Hcur in Hserve. discriminate. }
    destruct (decide (0 < s_len (hand_of g cur))) as [Hlen|Hlen].
    2: { unfold StartTurnTimer_timeout in Hserve. rewrite Hcur in Hserve.
         replace (0 <? s_len (hand_of g cur)) with false in Hserve
           by (symmetry; apply Nat.ltb_ge; lia).
         cbn [obind fst snd map] in Hserve. injection Hserve as <- <-.
         cbn [fold_left]. split; [exact Hfollows|]. split; auto. }
    destruct (timeout_vs_PlayCard growcap g cur Hwf Hcur Hlen)
      as (card & next & gp & gt & Hplay & Htimeout & Hnext & Hgp).
    rewrite Htimeout in Hserve. cbn [obind fst snd map action_of] in Hserve.
    injection Hserve as <- <-.
    apply PlayCard_cases in Hplay as [[_ [msg [=]]]|(_ & _ & [= ->] & i & _ & Hgp')].
    rewrite Hgp in Hgp'.
    destruct (Hplayed cur (read (Mem g) (hand_of g cur) 0) next gt
                (Z.of_nat (s_len (Pile gt))) Hlen eq_refl)
      as (H1 & H2 & H3); try exact Hnext.
    + change (PlayerHands gt) with (PlayerHands (set_PendingSlaps [] gt)).
      rewrite Hgp'. reflexivity.
    + change (Mem gt) with (Mem (set_PendingSlaps [] gt)). rewrite Hgp'. reflexivity.
    + change (Pile gt) with (Pile (set_PendingSlaps [] gt)). rewrite Hgp'. reflexivity.
    + split; [exact H1|]. split; [intros _ _; exact H2|intros Ht _; apply H3, Ht].
Qed.

End Following.

Lemma game_started_follows (iter : list string) (g : Game) (st : Client.State)
    (payload : GameStatePayload) :
  wf_game g -> hands_order iter (PlayerHands g) -> Client.room st ≠ None ->
  GetState iter g = Ok payload ->
  follows g (Client.reducer st (game_started payload)).
Proof.
  intros (Hidx & Hpile & _) Hiter Hroom H. unfold GetState in H.
  destruct (TurnOrder g !! CurrentTurnIdx g) as [cur|] eqn:Hcur; [|discriminate].
  injection H as <-. unfold game_started.
  cbn [StatePile CurrentPlayerID PlayerCardCounts StateCanSlap Client.reducer].
  destruct (Client.room st) as [rs|]; [|contradiction].
  rewrite (QueriesFacts.visiblePile_top_three g Hpile).
  eexists _, _. split; [reflexivity|]. split; [reflexivity|].
  cbn [Client.playerCardCounts Client.pile]. split; [|split].
  - intros p. rewrite (QueriesFacts.GetCardCounts_fmap iter g Hiter).
    unfold Client.or_zero, hand_of. rewrite lookup_fmap.
    destruct (PlayerHands g !! p); reflexivity.
  - exists (take (length (pile_cards g) - 3) (pile_cards g)).
    symmetry. apply take_drop.
  - rewrite TopOfPileFacts.length_top_three. lia.
Qed.

(** X23. The client starts in step: after the [GAME_STARTED] action for
    the state [GetState] sends, a client that has a room holds the card
    counts of the server's hands, shows the top three cards of the pile
    and shows the player whose turn it is. *)
Theorem client_starts_in_step (iter : list string) (g : Game) (st : Client.State)
    (payload : GameStatePayload) :
  wf_game g -> hands_order iter (PlayerHands g) -> Client.room st ≠ None ->
  GetState iter g = Ok payload ->
  follows g (Client.reducer st (game_started payload))
  /\ same_turn g (Client.reducer st (game_started payload))
  /\ same_top g (Client.reducer st (game_started payload)).
Proof.
  intros Hwf Hiter Hroom H.
  split; [exact (game_started_follows iter g st payload Hwf Hiter Hroom H)|].
  destruct Hwf as (_ & Hpile & _). unfold GetState in H.
  destruct (TurnOrder g !! CurrentTurnIdx g) as [cur|] eqn:Hcur; [|discriminate].
  injection H as <-. unfold game_started.
  cbn [StatePile CurrentPlayerID PlayerCardCounts StateCanSlap Client.reducer].
  destruct (Client.room st) as [rs|]; [|contradiction].
  rewrite (QueriesFacts.visiblePile_top_three g Hpile).
  split.
  - eexists. split; [reflexivity|]. exact Hcur.
  - eexists. split; reflexivity.
Qed.

End ClientFacts.

Module CardKeepingFacts.
Import Engine Invariants CardKeeping SliceFacts EngineFacts EngineRunFacts.

Section Keeping.
Variable growcap : nat -> nat -> nat.

(** *** Slices in arrays of their own *)

Lemma append_arr (h : store) (s : slice) (xs : list Card) :
  (s_arr (snd (append growcap h s xs)) = s_arr s
   /\ length (fst (append growcap h s xs)) = length h)
  \/ (s_arr (snd (append growcap h s xs)) = length h
      /\ length (fst (append growcap h s xs)) = S (length h)).
Proof.
  unfold append. cbv zeta. destruct (_ <=? _).
  - left. cbn. rewrite length_insert. split; reflexivity.
  - right. cbn. rewrite length_app. cbn. split; [reflexivity|lia].
Qed.

Lemma view_append_apart (h : store) (s t : slice) (xs : list Card) :
  slice_ok h t -> s_arr t ≠ s_arr s ->
  view (fst (append growcap h s xs)) t = view h t.
Proof.
  intros Hok Hne. unfold append. cbv zeta. destruct (_ <=? _); cbn [fst].
  - unfold view. rewrite arr_of_insert_ne by congruence. reflexivity.
  - apply view_alloc_other, Hok.
Qed.

Lemma slice_ok_append_other (h : store) (s t : slice) (xs : list Card) :
  slice_ok h s -> slice_ok h t -> slice_ok (fst (append growcap h s xs)) t.
Proof.
  intros Hs Ht. eapply slice_ok_mono; [|exact Ht].
  intros a. apply append_arrays_grow. exact Hs.
Qed.

(** *** The deal *)

Lemma make_hands_apart (k c : nat) : forall (h : store),
  hands_apart (fst (make_hands k c h)) (snd (make_hands k c h))
  /\ Forall (fun s => length h <= s_arr s /\ s_len s = 0) (snd (make_hands k c h))
  /\ length (fst (make_hands k c h)) = length h + k.
Proof.
  induction k as [|k IH]; intros h; cbn [make_hands].
  { cbn. split; [|split; [constructor|lia]].
    split; [intros j k s t _ Hs; discriminate|]. split; constructor. }
  cbv zeta. cbn [make fst snd].
  destruct (IH (h ++ [replicate c zeroCard])) as ((Hd & Hb & _) & Hlow & Hlen).
  destruct (make_hands_ok k c (h ++ [replicate c zeroCard])) as (_ & _ & Hgrow).
  rewrite length_app in Hlow, Hlen. cbn [length] in Hlow, Hlen.
  assert (Hall := proj1 (make_hands_ok (S k) c h)). cbn [make_hands] in Hall.
  cbv zeta in Hall. cbn [make fst snd] in Hall.
  split; [split; [|split]|split].
  - intros [|j] [|j'] s t Hne Hs Ht; cbn in Hs, Ht.
    + contradiction.
    + injection Hs as <-. cbn [s_arr].
      rewrite Forall_forall in Hlow.
      destruct (Hlow t (list_elem_of_lookup_2 _ _ _ Ht)) as [Hge _]. lia.
    + injection Ht as <-. cbn [s_arr].
      rewrite Forall_forall in Hlow.
      destruct (Hlow s (list_elem_of_lookup_2 _ _ _ Hs)) as [Hge _]. lia.
    + apply (Hd j j' s t); [congruence|exact Hs|exact Ht].
  - constructor; [cbn [s_arr]; lia|exact Hb].
  - exact Hall.
  - constructor; [cbn; lia|].
    eapply Forall_impl; [exact Hlow|]. cbn. intros s [H1 H2]. lia.
  - lia.
Qed.

Lemma hands_apart_step (h : store) (hands : list slice) (i : nat) (s : slice)
    (xs : list Card) :
  hands_apart h hands -> hands !! i = Some s ->
  hands_apart (fst (append growcap h s xs)) (<[i := snd (append growcap h s xs)]> hands)
  /\ view (fst (append growcap h s xs)) (snd (append growcap h s xs)) = view h s ++ xs
  /\ forall j t, j ≠ i -> hands !! j = Some t ->
       view (fst (append growcap h s xs)) t = view h t.
Proof.
  intros (Hd & Hb & Hok) Hs.
  assert (Hs_ok : slice_ok h s).
  { rewrite Forall_forall in Hok. eapply Hok, list_elem_of_lookup_2, Hs. }
  assert (Hbound : forall j t, hands !! j = Some t -> s_arr t < length h /\ slice_ok h t).
  { intros j t Ht. rewrite Forall_forall in Hb, Hok.
    pose proof (list_elem_of_lookup_2 _ _ _ Ht) as Hin. auto. }
  pose proof (append_arr h s xs) as Harr.
  split; [split; [|split]|split].
  - intros j k u t Hne Hu Ht.
    destruct (decide (j = i)) as [Hj|Hj]; destruct (decide (k = i)) as [Hk|Hk].
    + congruence.
    + subst j. rewrite list_lookup_insert_eq in Hu by (eapply lookup_lt_Some, Hs).
      rewrite list_lookup_insert_ne in Ht by congruence. injection Hu as <-.
      destruct Harr as [[-> _]|[-> _]].
      * apply (Hd i k s t); auto.
      * destruct (Hbound k t Ht). lia.
    + subst k. rewrite list_lookup_insert_eq in Ht by (eapply lookup_lt_Some, Hs).
      rewrite list_lookup_insert_ne in Hu by congruence. injection Ht as <-.
      destruct Harr as [[-> _]|[-> _]].
      * apply (Hd j i u s); auto.
      * destruct (Hbound j u Hu). lia.
    + rewrite list_lookup_insert_ne in Hu, Ht by congruence. apply (Hd j k u t); auto.
  - apply Forall_forall. intros t Hin.
    apply list_elem_of_lookup_1 in Hin as [j Ht].
    destruct (decide (j = i)) as [Hj|Hj].
    + subst j. rewrite list_lookup_insert_eq in Ht by (eapply lookup_lt_Some, Hs).
      injection Ht as <-.
      destruct (Hbound i s Hs). destruct Harr as [[-> ->]|[-> ->]]; lia.
    + rewrite list_lookup_insert_ne in Ht by congruence.
      destruct (Hbound j t Ht). destruct Harr as [[_ ->]|[_ ->]]; lia.
  - apply Forall_forall. intros t Hin.
    apply list_elem_of_lookup_1 in Hin as [j Ht].
    destruct (decide (j = i)) as [Hj|Hj].
    + subst j. rewrite list_lookup_insert_eq in Ht by (eapply lookup_lt_Some, Hs).
      injection Ht as <-. apply slice_ok_append, Hs_ok.
    + rewrite list_lookup_insert_ne in Ht by congruence.
      apply slice_ok_append_other; [exact Hs_ok|]. apply (Hbound j t Ht).
  - apply view_append, Hs_ok.
  - intros j t Hne Ht. apply view_append_apart; [apply (Hbound j t Ht)|].
    apply (Hd j i t s); auto.
Qed.

Lemma deal_loop_deals (n : nat) (cards : list Card) : forall (i : nat) (h h' : store)
    (hands hands' : list slice),
  hands_apart h hands -> length hands = n ->
  deal_loop growcap n cards i h hands = Ok (h', hands') ->
  hands_apart h' hands' /\ length hands' = n
  /\ forall j s, hands !! j = Some s ->
       exists s', hands' !! j = Some s' /\ view h' s' = view h s ++ dealt_to n j i cards.
Proof.
  induction cards as [|card rest IH]; intros i h h' hands hands' Hap Hlen H;
    cbn [deal_loop] in H.
  { injection H as <- <-. split; [exact Hap|]. split; [exact Hlen|].
    intros j s Hs. exists s. split; [exact Hs|]. cbn. rewrite app_nil_r. reflexivity. }
  destruct (n =? 0) eqn:Hn; [discriminate|]. apply Nat.eqb_neq in Hn.
  destruct (hands !! (i mod n)) as [s|] eqn:Hs; [|discriminate].
  destruct (hands_apart_step h hands (i mod n) s [card] Hap Hs) as (Hap1 & Hview & Hother).
  destruct (IH _ _ _ _ _ Hap1 (eq_trans (length_insert _ _ _) Hlen) H)
    as (Hap' & Hlen' & Hdealt).
  split; [exact Hap'|]. split; [exact Hlen'|].
  intros j t Ht. cbn [dealt_to].
  destruct (Nat.eqb_spec (i mod n) j) as [<-|Hne].
  - rewrite Hs in Ht. injection Ht as <-.
    destruct (Hdealt (i mod n) (snd (append growcap h s [card]))) as (s' & Hs' & Hv).
    { apply list_lookup_insert_eq. eapply lookup_lt_Some, Hs. }
    exists s'. split; [exact Hs'|]. rewrite Hv, Hview, <- app_assoc. reflexivity.
  - destruct (Hdealt j t) as (s' & Hs' & Hv).
    { rewrite list_lookup_insert_ne by exact Hne. exact Ht. }
    exists s'. split; [exact Hs'|]. rewrite Hv, (Hother j t) by auto. reflexivity.
Qed.

Lemma concat_cons_at (D : nat -> list Card) (c : Card) (k : nat) (l : list nat) :
  NoDup l -> k ∈ l ->
  concat (map (fun j => if k =? j then c :: D j else D j) l) ≡ₚ c :: concat (map D l).
Proof.
  induction l as [|x l IH]; intros Hnd Hin; [apply elem_of_nil in Hin; contradiction|].
  apply NoDup_cons in Hnd as [Hx Hnd]. cbn [map concat].
  destruct (Nat.eqb_spec k x) as [->|Hne].
  - cbn. constructor. apply Permutation_app_head.
    assert (Heq : map (fun j => if x =? j then c :: D j else D j) l = map D l).
    { apply map_ext_in. intros j Hj. destruct (Nat.eqb_spec x j) as [->|_]; [|reflexivity].
      exfalso. apply Hx, list_elem_of_In, Hj. }
    rewrite Heq. reflexivity.
  - apply elem_of_cons in Hin as [Heq|Hin]; [contradiction|].
    rewrite (IH Hnd Hin). symmetry. apply Permutation_middle.
Qed.

Lemma concat_dealt (n : nat) (cards : list Card) : forall i,
  0 < n -> concat (map (fun j => dealt_to n j i cards) (seq 0 n)) ≡ₚ cards.
Proof.
  induction cards as [|c rest IH]; intros i Hn.
  - cbn [dealt_to]. induction (seq 0 n) as [|x l IHl]; [reflexivity|exact IHl].
  - cbn [dealt_to].
    rewrite (concat_cons_at (fun j => dealt_to n j (S i) rest) c (i mod n)).
    + constructor. apply IH, Hn.
    + apply NoDup_seq.
    + apply elem_of_seq. split; [lia|]. cbn. apply Nat.mod_upper_bound. lia.
Qed.

(** *** The hands of a map *)

Lemma concat_map_Permutation {A : Type} (f : A -> list Card) (l l' : list A) :
  l ≡ₚ l' -> concat (map f l) ≡ₚ concat (map f l').
Proof.
  induction 1 as [|x l l' _ IH|x y l|l1 l2 l3 _ IH1 _ IH2]; cbn [map concat].
  - reflexivity.
  - apply Permutation_app_head, IH.
  - rewrite !app_assoc. apply Permutation_app_tail, Permutation_app_comm.
  - etransitivity; eassumption.
Qed.

Lemma hands_concat_insert_fresh (h : store) (m : gmap string slice) (p : string)
    (s : slice) :
  m !! p = None -> hands_concat h (<[p := s]> m) ≡ₚ view h s ++ hands_concat h m.
Proof.
  intros Hp. unfold hands_concat.
  rewrite (concat_map_Permutation _ _ _ (map_to_list_insert m p s Hp)). reflexivity.
Qed.

Lemma hands_concat_delete (h : store) (m : gmap string slice) (p : string) (s : slice) :
  m !! p = Some s -> hands_concat h m ≡ₚ view h s ++ hands_concat h (delete p m).
Proof.
  intros Hp. unfold hands_concat.
  rewrite <- (concat_map_Permutation _ _ _ (map_to_list_delete m p s Hp)). reflexivity.
Qed.

Lemma hands_concat_insert (h : store) (m : gmap string slice) (p : string) (s : slice) :
  hands_concat h (<[p := s]> m) ≡ₚ view h s ++ hands_concat h (delete p m).
Proof.
  rewrite <- insert_delete_eq. apply hands_concat_insert_fresh, lookup_delete_eq.
Qed.

Lemma hands_concat_hand_of (h : store) (m : gmap string slice) (p : string) :
  hands_concat h m ≡ₚ view h (default nil_slice (m !! p)) ++ hands_concat h (delete p m).
Proof.
  destruct (m !! p) as [s|] eqn:Hp; cbn [default from_option id].
  - apply hands_concat_delete, Hp.
  - rewrite delete_id by exact Hp. reflexivity.
Qed.

Lemma hands_concat_ext (h h' : store) (m : gmap string slice) :
  (forall q t, m !! q = Some t -> view h' t = view h t) ->
  hands_concat h' m = hands_concat h m.
Proof.
  intros Hext. unfold hands_concat. f_equal. apply map_ext_in.
  intros [q t] Hin. apply list_elem_of_In, elem_of_map_to_list in Hin. apply (Hext q t Hin).
Qed.

Lemma fold_zip_lookup (ids : list string) : forall (hands : list slice)
    (acc : gmap string slice),
  NoDup ids -> length hands = length ids ->
  (forall p, p ∉ ids ->
     fold_left (fun m '(id, s) => <[id := s]> m) (zip ids hands) acc !! p = acc !! p)
  /\ (forall j p, ids !! j = Some p ->
        fold_left (fun m '(id, s) => <[id := s]> m) (zip ids hands) acc !! p = hands !! j).
Proof.
  induction ids as [|id ids IH]; intros hands acc Hnd Hlen.
  { split; [reflexivity|]. intros j p Hj. discriminate. }
  destruct hands as [|s hands]; [discriminate|].
  apply NoDup_cons in Hnd as [Hfresh Hnd]. cbn [zip zip_with fold_left].
  destruct (IH hands (<[id := s]> acc) Hnd) as [Hout Hin]; [cbn in Hlen; lia|].
  split.
  - intros p Hp. rewrite Hout by (intros H; apply Hp, elem_of_cons; right; exact H).
    apply lookup_insert_ne. intros ->. apply Hp, elem_of_cons. left. reflexivity.
  - intros [|j] p Hj; cbn in Hj.
    + injection Hj as <-. rewrite Hout by exact Hfresh. apply lookup_insert_eq.
    + apply Hin, Hj.
Qed.

Lemma hands_concat_fold_zip (h : store) (ids : list string) : forall (hands : list slice)
    (acc : gmap string slice),
  NoDup ids -> length hands = length ids ->
  (forall id, id ∈ ids -> acc !! id = None) ->
  hands_concat h (fold_left (fun m '(id, s) => <[id := s]> m) (zip ids hands) acc)
  ≡ₚ hands_concat h acc ++ concat (map (view h) hands).
Proof.
  induction ids as [|id ids IH]; intros hands acc Hnd Hlen Hfresh.
  { destruct hands; [|discriminate]. cbn. rewrite app_nil_r. reflexivity. }
  destruct hands as [|s hands]; [discriminate|].
  apply NoDup_cons in Hnd as [Hnotin Hnd]. cbn [zip zip_with fold_left map concat].
  rewrite IH.
  - rewrite hands_concat_insert_fresh by (apply Hfresh, elem_of_cons; left; reflexivity).
    rewrite (Permutation_app_comm (view h s)), <- app_assoc. reflexivity.
  - exact Hnd.
  - cbn in Hlen. lia.
  - intros id' Hin. rewrite lookup_insert_ne.
    + apply Hfresh, elem_of_cons. right. exact Hin.
    + intros ->. contradiction.
Qed.

(** *** [NewGame] deals every card *)

Lemma NewGame_deals (deck : list Card) (playerIDs : list string) (d s : bool)
    (burnPenalty cooldown timeout : Z) (slapIn : bool) (maxSlapIns : Z) (g : Game) :
  NoDup playerIDs -> playerIDs ≠ [] ->
  NewGame growcap deck playerIDs d s burnPenalty cooldown timeout slapIn maxSlapIns = Ok g ->
  wf_game g /\ apart g /\ pile_cards g = []
  /\ (forall j p, playerIDs !! j = Some p ->
        hand_cards g p = dealt_to (length playerIDs) j 0 deck)
  /\ all_cards g ≡ₚ deck.
Proof.
  intros Hnd Hne H. unfold NewGame in H.
  destruct (Deal growcap deck (length playerIDs)) as [[h hands]| |] eqn:Hdeal;
    try discriminate.
  cbn [obind fst snd] in H. injection H as <-.
  unfold Deal in Hdeal. cbv zeta in Hdeal.
  set (n := length playerIDs) in *.
  assert (Hn : 0 < n) by (subst n; destruct playerIDs; [contradiction|cbn; lia]).
  destruct (make_hands_apart n (52 / n + 1) []) as (Hap0 & Hempty & _).
  destruct (make_hands_ok n (52 / n + 1) []) as (_ & Hlen0 & _).
  destruct (deal_loop_deals n deck 0 _ _ _ _ Hap0 Hlen0 Hdeal) as (Hap & Hlen & Hdealt).
  destruct Hap as (Hd & Hb & Hok).
  destruct (fold_zip_lookup playerIDs hands ∅ Hnd Hlen) as [Hout Hin].
  set (m := fold_left (fun m '(id, s) => <[id := s]> m) (zip playerIDs hands) ∅) in *.
  assert (Hseat : forall p t, m !! p = Some t ->
            exists j, playerIDs !! j = Some p /\ hands !! j = Some t).
  { intros p t Hp. destruct (decide (p ∈ playerIDs)) as [Hin'|Hnin].
    - apply list_elem_of_lookup_1 in Hin' as [j Hj]. exists j. split; [exact Hj|].
      rewrite <- (Hin j p Hj). exact Hp.
    - rewrite (Hout p Hnin), lookup_empty in Hp. discriminate. }
  assert (Hhand : forall j t, hands !! j = Some t ->
            s_arr t < length h /\ slice_ok h t
            /\ view (h ++ [replicate 52 zeroCard]) t = dealt_to n j 0 deck).
  { intros j t Ht. rewrite Forall_forall in Hb, Hok.
    pose proof (list_elem_of_lookup_2 _ _ _ Ht) as Hmem.
    split; [apply Hb, Hmem|]. split; [apply Hok, Hmem|].
    rewrite view_alloc_other by apply Hok, Hmem.
    destruct (lookup_lt_is_Some_2 (snd (make_hands n (52 / n + 1) [])) j) as [s0 Hs0].
    { rewrite Hlen0, <- Hlen. eapply lookup_lt_Some, Ht. }
    destruct (Hdealt j s0 Hs0) as (t' & Ht' & Hv). rewrite Ht in Ht'. injection Ht' as <-.
    rewrite Hv. rewrite Forall_forall in Hempty.
    destruct (Hempty s0 (list_elem_of_lookup_2 _ _ _ Hs0)) as [_ H0].
    unfold view at 1. rewrite H0. reflexivity. }
  cbn [make fst snd].
  split; [|split; [|split; [|split]]].
  - split; [|split]; cbn [CurrentTurnIdx TurnOrder Mem Pile PlayerHands].
    + exact Hn.
    + exact (slice_ok_make h 52).
    + intros p t Hp. destruct (Hseat p t Hp) as (j & _ & Ht).
      destruct (Hhand j t Ht) as (_ & Hokt & _).
      eapply slice_ok_mono; [|exact Hokt]. apply (make_arrays_grow h 52).
  - split; [|split]; cbn [Mem Pile PlayerHands s_arr].
    + intros p q t u Hpq Hp Hq.
      destruct (Hseat p t Hp) as (j & Hj & Ht). destruct (Hseat q u Hq) as (k & Hk & Hu).
      apply (Hd j k t u); [congruence|exact Ht|exact Hu].
    + intros p t Hp. destruct (Hseat p t Hp) as (j & _ & Ht).
      destruct (Hhand j t Ht) as (Hlt & _). rewrite length_app. cbn. lia.
    + rewrite length_app. cbn. lia.
  - reflexivity.
  - intros j p Hj. unfold hand_cards, hand_of. cbn [Mem PlayerHands].
    rewrite (Hin j p Hj).
    destruct (lookup_lt_is_Some_2 hands j) as [t Ht].
    { rewrite Hlen. eapply lookup_lt_Some, Hj. }
    rewrite Ht. cbn [default from_option id]. apply (Hhand j t Ht).
  - match goal with
    | |- all_cards ?G ≡ₚ _ =>
        assert (Hall : all_cards G = hands_concat (h ++ [replicate 52 zeroCard]) m)
          by (unfold all_cards, hands_concat; cbn [Mem PlayerHands]; apply app_nil_r)
    end.
    rewrite Hall. subst m.
    rewrite hands_concat_fold_zip; [|exact Hnd|exact Hlen|intros; apply lookup_empty].
    unfold hands_concat at 1. rewrite map_to_list_empty. cbn [map concat app].
    assert (Hviews : map (view (h ++ [replicate 52 zeroCard])) hands
                     = map (fun j => dealt_to n j 0 deck) (seq 0 n)).
    { apply list_eq. intros j. rewrite !list_lookup_fmap.
      destruct (hands !! j) as [t|] eqn:Ht.
      - rewrite lookup_seq_lt by (rewrite <- Hlen; eapply lookup_lt_Some, Ht).
        cbn. f_equal. apply (Hhand j t Ht).
      - rewrite lookup_seq_ge; [reflexivity|]. apply lookup_ge_None in Ht. lia. }
    rewrite Hviews. apply concat_dealt, Hn.
Qed.

(** *** The operations that keep the cards *)

Lemma kept_same_cards (g g' : Game) :
  PlayerHands g' = PlayerHands g -> Mem g' = Mem g -> Pile g' = Pile g ->
  (apart g -> apart g') /\ all_cards g' = all_cards g.
Proof.
  intros Hh Hm Hp. unfold apart, all_cards, pile_cards. rewrite Hh, Hm, Hp. auto.
Qed.

Lemma kept_play_front (p : string) (g : Game) :
  wf_game g -> apart g -> 0 < s_len (hand_of g p) ->
  apart (snd (play_front growcap p (hand_of g p) g))
  /\ all_cards (snd (play_front growcap p (hand_of g p) g)) ≡ₚ all_cards g.
Proof.
  intros Hwf (Hd & Hpile & Hparr) Hlen.
  pose proof (hand_of_ok g p Hwf) as Hhand_ok.
  destruct Hwf as (_ & Hpile_ok & Hhands_ok).
  assert (Hp : PlayerHands g !! p = Some (hand_of g p)).
  { unfold hand_of in *. destruct (PlayerHands g !! p); [reflexivity|]. cbn in Hlen. lia. }
  set (hand := hand_of g p) in *.
  set (c := read (Mem g) hand 0).
  unfold play_front. fold c. cbn [snd Mem Pile PlayerHands set_PlayerHands set_Mem set_Pile].
  pose proof (append_arr (Mem g) (Pile g) [c]) as Harr.
  pose proof (view_append growcap (Mem g) (Pile g) [c] Hpile_ok) as Hview.
  set (r := append growcap (Mem g) (Pile g) [c]) in *.
  assert (Hold : forall q t, (<[p := slice_from hand 1]> (PlayerHands g)) !! q = Some t ->
            exists t0, PlayerHands g !! q = Some t0 /\ s_arr t = s_arr t0).
  { intros q t Hq. destruct (decide (q = p)) as [->|Hne].
    - rewrite lookup_insert_eq in Hq. injection Hq as <-. eauto.
    - rewrite lookup_insert_ne in Hq by congruence. eauto. }
  split.
  - split; [|split]; cbn [Mem Pile PlayerHands set_PlayerHands set_Mem set_Pile fst snd make].
    + intros q q' t t' Hne Hq Hq'.
      destruct (Hold q t Hq) as (t0 & Ht0 & ->). destruct (Hold q' t' Hq') as (t0' & Ht0' & ->).
      apply (Hd q q' t0 t0' Hne Ht0 Ht0').
    + intros q t Hq. destruct (Hold q t Hq) as (t0 & Ht0 & ->).
      destruct (Hpile q t0 Ht0) as [Hne Hlt].
      destruct Harr as [[-> ->]|[-> ->]]; split; try assumption; lia.
    + destruct Harr as [[-> ->]|[-> ->]]; lia.
  - unfold all_cards, pile_cards. cbn [Mem Pile PlayerHands set_PlayerHands set_Mem set_Pile fst snd make].
    fold (hands_concat (fst r) (<[p := slice_from hand 1]> (PlayerHands g))).
    fold (hands_concat (Mem g) (PlayerHands g)).
    rewrite Hview, hands_concat_insert, (hands_concat_delete _ _ p hand Hp).
    assert (Hv1 : view (fst r) (slice_from hand 1) = drop 1 (view (Mem g) hand)).
    { subst r. rewrite view_append_apart.
      - apply view_slice_from. lia.
      - apply slice_ok_from; [exact Hhand_ok|lia].
      - apply (Hpile p hand Hp). }
    assert (Hv2 : hands_concat (fst r) (delete p (PlayerHands g))
                  = hands_concat (Mem g) (delete p (PlayerHands g))).
    { apply hands_concat_ext. intros q t Hq. apply lookup_delete_Some in Hq as [_ Hq].
      subst r. apply view_append_apart; [apply (Hhands_ok q t Hq)|apply (Hpile q t Hq)]. }
    assert (Hv3 : view (Mem g) hand = c :: drop 1 (view (Mem g) hand)).
    { subst c. rewrite (read_view _ _ 0 Hlen).
      pose proof (length_view _ _ Hhand_ok) as Hl.
      destruct (view (Mem g) hand); [cbn in Hl; lia|reflexivity]. }
    rewrite Hv1, Hv2.
    set (rest := drop 1 (view (Mem g) hand)) in *.
    set (others := hands_concat (Mem g) (delete p (PlayerHands g))).
    rewrite Hv3.
    rewrite !app_assoc. cbn [app]. symmetry. rewrite <- !app_assoc.
    rewrite (Permutation_cons_append (rest ++ others ++ view (Mem g) (Pile g)) c).
    rewrite <- !app_assoc. reflexivity.
Qed.

Lemma kept_take_pile (p : string) (g : Game) :
  wf_game g -> apart g -> pile_cards g ≠ [] ->
  apart (take_pile growcap p g) /\ all_cards (take_pile growcap p g) ≡ₚ all_cards g.
Proof.
  intros Hwf (Hd & Hpile & Hparr) Hne.
  pose proof (hand_of_ok g p Hwf) as Hhand_ok.
  destruct Hwf as (_ & Hpile_ok & Hhands_ok).
  unfold pile_cards in Hne.
  set (hand := hand_of g p) in *. set (xs := view (Mem g) (Pile g)) in *.
  pose proof (append_arr (Mem g) hand xs) as Harr.
  pose proof (view_append growcap (Mem g) hand xs Hhand_ok) as Hview.
  pose proof (slice_ok_append growcap (Mem g) hand xs Hhand_ok) as Hnew_ok.
  assert (Hin_place : (s_arr (snd (append growcap (Mem g) hand xs)) = length (Mem g)
                       /\ length (fst (append growcap (Mem g) hand xs)) = S (length (Mem g)))
                      \/ PlayerHands g !! p = Some hand).
  { unfold append. cbv zeta. destruct (s_len hand + length xs <=? s_cap hand) eqn:Hfit;
      [|left; split; [reflexivity|cbn [fst]; rewrite length_app; cbn; lia]].
    right. apply Nat.leb_le in Hfit. subst hand. unfold hand_of in *.
    destruct (PlayerHands g !! p); [reflexivity|].
    cbn in Hfit. destruct xs; [contradiction|cbn in Hfit; lia]. }
  assert (Hothers : forall q t, PlayerHands g !! q = Some t -> q ≠ p ->
            view (fst (append growcap (Mem g) hand xs)) t = view (Mem g) t
            /\ s_arr t ≠ s_arr (snd (append growcap (Mem g) hand xs))).
  { intros q t Hq Hqp. destruct (Hpile q t Hq) as [_ Hlt].
    destruct (PlayerHands g !! p) as [h0|] eqn:Hp.
    - assert (hand = h0) by (subst hand; unfold hand_of; rewrite Hp; reflexivity). subst h0.
      split; [apply view_append_apart; [apply (Hhands_ok q t Hq)|apply (Hd q p t hand); auto]|].
      destruct Harr as [[-> _]|[-> _]]; [apply (Hd q p t hand); auto|lia].
    - destruct Hin_place as [[Hfresh _]|Habs]; [|discriminate].
      split; [|rewrite Hfresh; lia].
      apply view_append_other; [apply (Hhands_ok q t Hq)|].
      right. subst hand. unfold hand_of. rewrite Hp. cbn.
      destruct xs; [contradiction|cbn; lia]. }
  assert (Hnew_lt : s_arr (snd (append growcap (Mem g) hand xs))
                    < length (fst (append growcap (Mem g) hand xs))).
  { destruct Hin_place as [[-> ->]|Hp]; [lia|].
    destruct Harr as [[-> ->]|[-> ->]]; [apply (Hpile p hand Hp)|lia]. }
  unfold take_pile. cbv zeta.
  cbn [Mem Pile PlayerHands set_PlayerHands set_Mem set_Pile make fst snd].
  fold hand xs.
  set (r := append growcap (Mem g) hand xs) in *.
  assert (Hlen_grow : length (Mem g) <= length (fst r))
    by (destruct Harr as [[_ ->]|[_ ->]]; lia).
  split.
  - split; [|split]; cbn [Mem Pile PlayerHands set_PlayerHands set_Mem set_Pile fst snd make s_arr].
    + intros q q' t t' Hqq Hq Hq'.
      destruct (decide (q = p)) as [->|Hqp]; destruct (decide (q' = p)) as [->|Hqp'].
      * congruence.
      * rewrite lookup_insert_eq in Hq. rewrite lookup_insert_ne in Hq' by congruence.
        injection Hq as <-. intros Heq. apply (proj2 (Hothers q' t' Hq' Hqp')). congruence.
      * rewrite lookup_insert_eq in Hq'. rewrite lookup_insert_ne in Hq by congruence.
        injection Hq' as <-. apply (proj2 (Hothers q t Hq Hqp)).
      * rewrite lookup_insert_ne in Hq, Hq' by congruence. apply (Hd q q' t t'); auto.
    + intros q t Hq. rewrite length_app. cbn [length].
      destruct (decide (q = p)) as [->|Hqp].
      * rewrite lookup_insert_eq in Hq. injection Hq as <-. lia.
      * rewrite lookup_insert_ne in Hq by congruence.
        destruct (Hpile q t Hq) as [_ Hlt]. lia.
    + rewrite length_app. cbn. lia.
  - unfold all_cards, pile_cards. cbn [Mem Pile PlayerHands set_PlayerHands set_Mem set_Pile fst snd make].
    assert (Hp' : view (fst r ++ [replicate 52 zeroCard])
                    (Slice (length (fst r)) 0 0 52) = []) by reflexivity.
    rewrite Hp', app_nil_r.
    fold (hands_concat (fst r ++ [replicate 52 zeroCard]) (<[p := snd r]> (PlayerHands g))).
    fold (hands_concat (Mem g) (PlayerHands g)). fold xs.
    rewrite hands_concat_insert, (hands_concat_hand_of (Mem g) (PlayerHands g) p).
    fold (hand_of g p). fold hand.
    rewrite view_alloc_other by exact Hnew_ok. rewrite Hview.
    assert (Hv2 : hands_concat (fst r ++ [replicate 52 zeroCard]) (delete p (PlayerHands g))
                  = hands_concat (Mem g) (delete p (PlayerHands g))).
    { apply hands_concat_ext. intros q t Hq. apply lookup_delete_Some in Hq as [Hqp Hq].
      rewrite view_alloc_other.
      - apply (Hothers q t Hq). congruence.
      - apply slice_ok_append_other; [exact Hhand_ok|apply (Hhands_ok q t Hq)]. }
    rewrite Hv2, <- !app_assoc. apply Permutation_app_head, Permutation_app_comm.
Qed.

Lemma kept_slap_won_state (p : string) (b : bool) (g : Game) :
  wf_game g -> apart g -> pile_cards g ≠ [] ->
  apart (slap_won_state growcap p b g)
  /\ all_cards (slap_won_state growcap p b g) ≡ₚ all_cards g.
Proof.
  intros Hwf Hap Hne.
  destruct (kept_take_pile p g Hwf Hap Hne) as [Hap' Hall'].
  assert (Hsame : PlayerHands (slap_won_state growcap p b g)
                  = PlayerHands (take_pile growcap p g)
                  /\ Mem (slap_won_state growcap p b g) = Mem (take_pile growcap p g)
                  /\ Pile (slap_won_state growcap p b g) = Pile (take_pile growcap p g)).
  { unfold slap_won_state. cbv zeta. destruct (seat_of _ _); destruct b; repeat split. }
  destruct Hsame as (Hh & Hm & Hp).
  destruct (kept_same_cards _ _ Hh Hm Hp) as [Hap2 Hall2].
  split; [apply Hap2, Hap'|]. rewrite Hall2. exact Hall'.
Qed.

Lemma kept_fields (g1 g2 g : Game) :
  PlayerHands g2 = PlayerHands g1 -> Mem g2 = Mem g1 -> Pile g2 = Pile g1 ->
  apart g1 /\ all_cards g1 ≡ₚ all_cards g ->
  apart g2 /\ all_cards g2 ≡ₚ all_cards g.
Proof.
  intros Hh Hm Hp [Hap Hall].
  destruct (kept_same_cards g1 g2 Hh Hm Hp) as [Hap2 Hall2].
  split; [apply Hap2, Hap|]. rewrite Hall2. exact Hall.
Qed.

Lemma kept_step (o : op) (g g' : Game) (e : event) :
  wf_game g -> apart g -> burns o g = false -> step growcap o g = Ok (e, g') ->
  apart g' /\ all_cards g' ≡ₚ all_cards g.
Proof.
  intros Hwf Hap Hburn H. destruct o as [p|p now stamp|]; simpl in H.
  - destruct (PlayCard growcap p g) as [[r g1]| |] eqn:E; try discriminate.
    simpl in H. injection H as _ <-.
    apply (EngineFacts.PlayCard_cases growcap) in E
      as [[-> _]|(_ & Hlen & _ & i & _ & ->)]; [split; [exact Hap|reflexivity]|].
    eapply kept_fields; [| | |apply (kept_play_front p g Hwf Hap Hlen)]; reflexivity.
  - destruct (ProcessSlap growcap p now stamp g) as [[r g1]| |] eqn:E; try discriminate.
    simpl in H. injection H as _ <-.
    assert (Hstamp : apart (stamp_attempt p stamp g)
                     /\ all_cards (stamp_attempt p stamp g) ≡ₚ all_cards g).
    { eapply kept_fields; [| | |split; [exact Hap|reflexivity]]; reflexivity. }
    destruct (EngineRunFacts.ProcessSlap_branches growcap p now stamp g)
      as [[_ E']|[(_ & _ & _ & E')|[(_ & _ & _ & _ & E')
         |[(Hc & Hlen & Hinv & _)|(_ & _ & Hvalid & E')]]]].
    + rewrite E' in E. injection E as _ <-.
      eapply kept_fields; [| | |split; [exact Hap|reflexivity]]; reflexivity.
    + rewrite E' in E. injection E as _ <-. exact Hstamp.
    + rewrite E' in E. injection E as _ <-. exact Hstamp.
    + exfalso. cbn [burns] in Hburn. rewrite Hc in Hburn.
      apply Nat.ltb_lt in Hlen. rewrite Hlen in Hburn.
      rewrite bool_decide_eq_true_2 in Hburn by exact Hinv. discriminate.
    + rewrite E' in E. injection E as _ <-.
      destruct Hstamp as [Hap1 Hall1].
      assert (Hne : pile_cards (stamp_attempt p stamp g) ≠ []).
      { intros Hnil. apply Hvalid. change (pile_cards g = []) in Hnil.
        rewrite Hnil. reflexivity. }
      replace (hand_of g p) with (hand_of (stamp_attempt p stamp g) p) by reflexivity.
      destruct (kept_slap_won_state p (0 <? s_len (hand_of (stamp_attempt p stamp g) p))
                  (stamp_attempt p stamp g)
                  (EngineFacts.wf_stamp_attempt p stamp g Hwf) Hap1 Hne) as [Hap2 Hall2].
      split; [exact Hap2|]. rewrite Hall2. exact Hall1.
  - destruct (StartTurnTimer_timeout growcap g) as [[[msgs b] g1]| |] eqn:E; try discriminate.
    simpl in H. injection H as _ <-.
    apply (EngineFacts.timeout_cases growcap) in E
      as [(-> & _ & _)|(cur & i & _ & Hlen & _ & _ & ->)]; [split; [exact Hap|reflexivity]|].
    eapply kept_fields; [| | |apply (kept_play_front cur g Hwf Hap Hlen)]; reflexivity.
Qed.

Lemma kept_run (ops : list op) : forall (g g' : Game) (evs : list event),
  wf_game g -> apart g -> burn_free growcap ops g = true ->
  run growcap ops g = Ok (evs, g') ->
  wf_game g' /\ apart g' /\ all_cards g' ≡ₚ all_cards g.
Proof.
  induction ops as [|o ops IH]; intros g g' evs Hwf Hap Hfree Hrun.
  - injection Hrun as _ <-. split; [exact Hwf|]. split; [exact Hap|reflexivity].
  - cbn [run] in Hrun. cbn [burn_free] in Hfree.
    destruct (step growcap o g) as [[e g1]| |] eqn:Hstep; try discriminate.
    apply andb_true_iff in Hfree as [Hnb Hfree]. apply negb_true_iff in Hnb.
    cbn [obind fst snd] in Hrun, Hfree.
    destruct (run growcap ops g1) as [[evs1 g2]| |] eqn:Hrest; try discriminate.
    cbn [obind fst snd] in Hrun. injection Hrun as _ <-.
    destruct (kept_step o g g1 e Hwf Hap Hnb Hstep) as [Hap1 Hall1].
    destruct (IH g1 g2 evs1 (EngineFacts.wf_step growcap o g g1 e Hwf Hstep) Hap1 Hfree Hrest)
      as (Hwf2 & Hap2 & Hall2).
    split; [exact Hwf2|]. split; [exact Hap2|]. rewrite Hall2. exact Hall1.
Qed.

(** X24. [NewGame] over a deck and a row of distinct players, at least
    one, returns a game with an empty pile in which the player at seat [j]
    of [n] holds, in the order of the deck, the cards whose number in the
    deck is [j] modulo [n]: every card of the deck is in one hand, once. *)
Theorem NewGame_deals_round_robin (deck : list Card) (playerIDs : list string)
    (d s : bool) (burnPenalty cooldown timeout : Z) (slapIn : bool) (maxSlapIns : Z) :
  NoDup playerIDs -> playerIDs ≠ [] ->
  exists g,
    NewGame growcap deck playerIDs d s burnPenalty cooldown timeout slapIn maxSlapIns = Ok g
    /\ pile_cards g = []
    /\ (forall j p, playerIDs !! j = Some p ->
          hand_cards g p = dealt_to (length playerIDs) j 0 deck)
    /\ all_cards g ≡ₚ deck.
Proof.
  intros Hnd Hne.
  destruct (DealFacts.NewGame_returns growcap deck playerIDs d s burnPenalty cooldown timeout
              slapIn maxSlapIns Hne) as (g & Hnew & _).
  exists g. split; [exact Hnew|].
  destruct (NewGame_deals deck playerIDs d s burnPenalty cooldown timeout slapIn maxSlapIns g
              Hnd Hne Hnew) as (_ & _ & Hpile & Hhands & Hall).
  auto.
Qed.

(** X25. As long as no slap burns, the game keeps its cards: after any
    run of plays, timeouts and slaps of which none is an invalid slap of a
    player who holds cards outside the cooldown, the hands and the pile
    together hold exactly the cards of the deck the game was dealt from. *)
Theorem cards_kept_without_burn (deck : list Card) (playerIDs : list string)
    (d s : bool) (burnPenalty cooldown timeout : Z) (slapIn : bool) (maxSlapIns : Z)
    (g0 g : Game) (ops : list op) (evs : list event) :
  NoDup playerIDs -> playerIDs ≠ [] ->
  NewGame growcap deck playerIDs d s burnPenalty cooldown timeout slapIn maxSlapIns = Ok g0 ->
  burn_free growcap ops g0 = true ->
  run growcap ops g0 = Ok (evs, g) ->
  all_cards g ≡ₚ deck.
Proof.
  intros Hnd Hne Hnew Hfree Hrun.
  destruct (NewGame_deals deck playerIDs d s burnPenalty cooldown timeout slapIn maxSlapIns g0
              Hnd Hne Hnew) as (Hwf & Hap & _ & _ & Hall).
  destruct (kept_run ops g0 g evs Hwf Hap Hfree Hrun) as (_ & _ & Hkept).
  rewrite Hkept. exact Hall.
Qed.

End Keeping.

End CardKeepingFacts.

Module ScenesFacts.
Import Cards Engine Room Examples Manager Queries Handlers Invariants Scenes.
Import SettingsRules RoomOps CardKeeping.

Lemma NoDup_h_p : NoDup ["h"; "p"].
Proof.
  apply NoDup_cons. split; [|apply NoDup_singleton].
  intros H. apply list_elem_of_singleton in H. discriminate.
Qed.

Lemma NoDup_p_h : NoDup ["p"; "h"].
Proof.
  apply NoDup_cons. split; [|apply NoDup_singleton].
  intros H. apply list_elem_of_singleton in H. discriminate.
Qed.

Lemma lobby2_h_p : range_order ["h"; "p"] (Players lobby2).
Proof. apply RoomFacts.range_order_dom; [exact NoDup_h_p|]. vm_compute. reflexivity. Qed.

Lemma lobby2_p_h : range_order ["p"; "h"] (Players lobby2).
Proof. apply RoomFacts.range_order_dom; [exact NoDup_p_h|]. vm_compute. reflexivity. Qed.

Lemma dealt_new_game :
  NewGame go_growcap NewDeck two true true 1 200 10000 true 3 = Ok dealt.
Proof. vm_compute. reflexivity. Qed.

Lemma watching_follows : follows jack_on_top watching.
Proof.
  apply (ClientFacts.game_started_follows two).
  - exact EngineFacts.jack_on_top_wf.
  - exact QueriesFacts.jack_on_top_hands_order.
  - discriminate.
  - vm_compute. reflexivity.
Qed.

Lemma one_room_ok : rooms_ok one_room.
Proof.
  intros c r Hr. unfold one_room in Hr. cbn [rooms] in Hr.
  apply lookup_singleton_Some in Hr as [<- <-].
  split; [reflexivity|]. apply RoomFacts.lobby2_host_inv.
Qed.

(** From the Jack on top, whatever the two players do next is answered. *)
Lemma run_never_panics_witness :
  exists evs g', run go_growcap later_ops jack_on_top = Ok (evs, g')
    /\ length evs = length later_ops /\ reachable go_growcap g' /\ wf_game g'.
Proof.
  apply (EngineRunFacts.run_never_panics go_growcap later_ops jack_on_top).
  - exact EngineFacts.jack_on_top_reachable.
  - vm_compute. discriminate.
Defined.

(** "b" slaps the Jack. *)
Lemma ProcessSlap_answer_witness :
  Protocol.PlayerID jack_slap_answer = "b"
  /\ TotalSlaps (Stats jack_slapped) = int_add (TotalSlaps (Stats jack_on_top)) 1
  /\ (if Protocol.Success jack_slap_answer
      then Protocol.Reason jack_slap_answer ∈ Settled.won_reasons
           /\ Protocol.Reason jack_slap_answer
              = reason_string (CheckSlap (GameRules jack_on_top) (pile_cards jack_on_top))
           /\ Protocol.CardsWon jack_slap_answer = Z.of_nat (s_len (Pile jack_on_top))
           /\ Protocol.BurnPenalty jack_slap_answer = 0%Z
      else Protocol.Reason jack_slap_answer ∈ Settled.lost_reasons
           /\ Protocol.CardsWon jack_slap_answer = 0%Z
           /\ (0 <= Protocol.BurnPenalty jack_slap_answer
               <= Z.of_nat (s_len (hand_of jack_on_top "b")))%Z
           /\ SuccessfulSlaps (Stats jack_slapped) = SuccessfulSlaps (Stats jack_on_top)).
Proof.
  apply (EngineRunFacts.ProcessSlap_answer go_growcap "b" 1000 1000 jack_on_top jack_slapped
           jack_slap_answer).
  vm_compute. reflexivity.
Defined.

Lemma slap_ins_bounded_witness :
  (0 <= count_of (SlapInCounts jack_on_top) "a" <= Z.max 0 (Engine.MaxSlapIns jack_on_top))%Z.
Proof.
  apply (EngineRunFacts.slap_ins_bounded go_growcap jack_on_top "a").
  - exact EngineFacts.jack_on_top_reachable.
  - vm_compute. discriminate.
Defined.

(** "b" covers the Jack with the Queen of hearts. *)
Lemma PlayCard_moves_front_card_witness :
  head (hand_cards jack_on_top "b") = Some (mkCard "hearts" "Q")
  /\ pile_cards jack_covered = pile_cards jack_on_top ++ [mkCard "hearts" "Q"]
  /\ s_len (hand_of jack_covered "b") + 1 = s_len (hand_of jack_on_top "b")
  /\ SlapWindowOpen jack_covered = true
  /\ (IsJack (mkCard "hearts" "Q") = true ->
      CheckSlap (GameRules jack_covered) (pile_cards jack_covered) = SlapReasonJack).
Proof.
  apply (EngineRunFacts.PlayCard_moves_front_card go_growcap "b" jack_on_top jack_covered
           (mkCard "hearts" "Q")).
  - exact EngineFacts.jack_on_top_wf.
  - vm_compute. reflexivity.
Defined.

Lemma applyBurnPenalty_spec_witness :
  (s_len (hand_of jack_on_top "b") = 0 ->
     applyBurnPenalty go_growcap "b" jack_on_top = Ok (0%Z, jack_on_top))
  /\ (0 < s_len (hand_of jack_on_top "b") -> (Engine.BurnPenalty jack_on_top < 0)%Z ->
      applyBurnPenalty go_growcap "b" jack_on_top = Panic "slice bounds out of range")
  /\ (0 < s_len (hand_of jack_on_top "b") -> (0 <= Engine.BurnPenalty jack_on_top)%Z ->
      exists g', applyBurnPenalty go_growcap "b" jack_on_top
                 = Ok (Z.min (Engine.BurnPenalty jack_on_top)
                         (Z.of_nat (s_len (hand_of jack_on_top "b"))), g')
        /\ Z.of_nat (s_len (hand_of g' "b"))
           = (Z.of_nat (s_len (hand_of jack_on_top "b"))
              - Z.min (Engine.BurnPenalty jack_on_top)
                  (Z.of_nat (s_len (hand_of jack_on_top "b"))))%Z
        /\ pile_cards g'
           = take (Z.to_nat (Engine.BurnPenalty jack_on_top)) (hand_cards jack_on_top "b")
             ++ pile_cards jack_on_top
        /\ (3 <= length (pile_cards jack_on_top) ->
            CheckSlap (GameRules g') (pile_cards g')
            = CheckSlap (GameRules jack_on_top) (pile_cards jack_on_top))).
Proof.
  apply (EngineRunFacts.applyBurnPenalty_spec go_growcap "b" jack_on_top).
  exact EngineFacts.jack_on_top_wf.
Defined.

(** Nine players are asked for: the room keeps its four, and takes the
    cooldown of 500 ms and the switch. *)
Lemma FromProtocol_in_range_witness :
  MaxPlayers (FromProtocol nine_players DefaultSettings) = 4%Z
  /\ SlapCooldownMs (FromProtocol nine_players DefaultSettings) = 500%Z
  /\ EnableSandwich (FromProtocol nine_players DefaultSettings) = false
  /\ in_range (FromProtocol nine_players DefaultSettings).
Proof.
  destruct (SettingsFacts.FromProtocol_in_range nine_players DefaultSettings)
    as ([_ Hkept] & [Htaken _] & _ & _ & _ & Hswitch & _ & _ & Hrange & _ & Hdefault).
  split; [apply Hkept; simpl; lia|].
  split; [apply Htaken; simpl; lia|].
  split; [exact Hswitch|].
  apply Hrange, Hdefault.
Defined.

Lemma connected_players_any_order_witness :
  (IsEmpty_loop ["h"; "p"] lobby2 = true <-> IsEmpty lobby2)
  /\ (IsEmpty_loop ["h"; "p"] lobby2 = true <-> GetConnectedPlayers ["h"; "p"] lobby2 = [])
  /\ (forall p, p ∈ GetConnectedPlayers ["h"; "p"] lobby2
                <-> exists k, Players lobby2 !! k = Some p /\ IsConnected p = true)
  /\ GetConnectedPlayers ["h"; "p"] lobby2 ≡ₚ GetConnectedPlayers ["p"; "h"] lobby2
  /\ length (GetConnectedPlayers ["h"; "p"] lobby2)
     = length (GetConnectedPlayers ["p"; "h"] lobby2)
  /\ IsEmpty_loop ["h"; "p"] lobby2 = IsEmpty_loop ["p"; "h"] lobby2.
Proof.
  apply (RosterFacts.connected_players_any_order ["h"; "p"] ["p"; "h"] lobby2).
  - exact lobby2_h_p.
  - exact lobby2_p_h.
Defined.

(** alice and bob start their game. *)
Lemma StartGame_starts_a_game_witness :
  (GetConnectedPlayers ["h"; "p"] lobby2 = [] ->
     StartGame go_growcap NewDeck ["h"; "p"] lobby2 = Panic "integer divide by zero")
  /\ (GetConnectedPlayers ["h"; "p"] lobby2 ≠ [] ->
      exists g r', StartGame go_growcap NewDeck ["h"; "p"] lobby2 = Ok (g, r')
        /\ Status r' = "playing" /\ Players r' = Players lobby2 /\ HostID r' = HostID lobby2
        /\ Engine.reachable go_growcap g
        /\ Engine.CurrentTurnIdx g = 0
        /\ NoDup (Engine.TurnOrder g)
        /\ (forall p, p ∈ Engine.TurnOrder g
                      <-> exists pl, Players lobby2 !! p = Some pl /\ IsConnected pl = true)
        /\ (0 <= Engine.BurnPenalty g)%Z
        /\ Invariants.cooldown_fits g
        /\ forall ops, exists evs g',
             Engine.run go_growcap ops g = Ok (evs, g') /\ length evs = length ops).
Proof.
  apply (StartFacts.StartGame_starts_a_game go_growcap NewDeck ["h"; "p"] lobby2).
  - reflexivity.
  - apply RoomFacts.lobby2_host_inv.
  - exact lobby2_h_p.
  - unfold in_range. simpl. lia.
Defined.

Lemma rooms_stay_ok_witness :
  (forall intn uuid hostName, rooms_ok (snd (CreateRoom intn uuid hostName one_room)))
  /\ (forall code playerName uuid, rooms_ok (snd (JoinRoom code playerName uuid one_room)))
  /\ (forall iter1 iter2 iter3 code playerID,
        rooms_ok (LeaveRoom iter1 iter2 iter3 code playerID one_room))
  /\ (forall code, rooms_ok (DeleteRoom code one_room))
  /\ (forall sessionID playerID roomCode,
        rooms_ok (SaveSession sessionID playerID roomCode one_room)
        /\ GetSession sessionID (SaveSession sessionID playerID roomCode one_room)
           = Some (mkSessionData playerID roomCode)).
Proof. apply (ManagerFacts.rooms_stay_ok one_room). exact one_room_ok. Defined.

(** alice, the host, kicks bob. *)
Lemma kick_keeps_the_host_witness :
  "h" = HostID lobby2 /\ "p" ≠ HostID lobby2
  /\ (exists p, Players lobby2 !! "p" = Some p /\ Name p = "bob")
  /\ RemovePlayer ["h"] ["h"] "p" lobby2 = RemovePlayer ["h"] ["h"] "p" lobby2
  /\ host_inv (RemovePlayer ["h"] ["h"] "p" lobby2)
  /\ HostID (RemovePlayer ["h"] ["h"] "p" lobby2) = HostID lobby2
  /\ Players (RemovePlayer ["h"] ["h"] "p" lobby2) !! "p" = None
  /\ same_roster (delete "p" (Players lobby2))
       (Players (RemovePlayer ["h"] ["h"] "p" lobby2)).
Proof.
  apply (ManagerFacts.kick_keeps_the_host ["h"] ["h"] "h" "p" "bob" lobby2
           (RemovePlayer ["h"] ["h"] "p" lobby2)).
  - exact RoomFacts.lobby2_host_inv.
  - vm_compute. reflexivity.
Defined.

(** The client watches "b" slap the Jack. *)
Lemma client_follows_server_witness :
  follows jack_slapped (fold_left Client.reducer jack_slap_actions watching)
  /\ (same_turn jack_on_top watching ->
      (forall p name now stamp w, ReqSlap "b" "bob" 1000 1000 "" = ReqSlap p name now stamp w ->
         CheckWinner jack_slapped = "" /\ p ∈ TurnOrder jack_on_top) ->
      same_turn jack_slapped (fold_left Client.reducer jack_slap_actions watching))
  /\ (same_top jack_on_top watching ->
      (forall r, Client.SLAP_RESULT r ∈ jack_slap_actions ->
         Protocol.BurnPenalty r = 0%Z \/ 3 <= length (pile_cards jack_on_top)) ->
      same_top jack_slapped (fold_left Client.reducer jack_slap_actions watching)).
Proof.
  apply (ClientFacts.client_follows_server go_growcap (ReqSlap "b" "bob" 1000 1000 "")
           jack_on_top jack_slapped watching jack_slap_actions).
  - exact EngineFacts.jack_on_top_wf.
  - exact watching_follows.
  - vm_compute. reflexivity.
Defined.

Lemma client_starts_in_step_witness :
  follows jack_on_top (Client.reducer in_room (game_started jack_on_top_state))
  /\ same_turn jack_on_top (Client.reducer in_room (game_started jack_on_top_state))
  /\ same_top jack_on_top (Client.reducer in_room (game_started jack_on_top_state)).
Proof.
  apply (ClientFacts.client_starts_in_step two jack_on_top in_room jack_on_top_state).
  - exact EngineFacts.jack_on_top_wf.
  - exact QueriesFacts.jack_on_top_hands_order.
  - discriminate.
  - vm_compute. reflexivity.
Defined.

(** The deck in the order of [NewDeck], dealt to "a" and "b". *)
Lemma NewGame_deals_round_robin_witness :
  exists g,
    NewGame go_growcap NewDeck two true true 1 200 10000 true 3 = Ok g
    /\ pile_cards g = []
    /\ (forall j p, two !! j = Some p -> hand_cards g p = dealt_to (length two) j 0 NewDeck)
    /\ all_cards g ≡ₚ NewDeck.
Proof.
  apply (CardKeepingFacts.NewGame_deals_round_robin go_growcap NewDeck two true true
           1 200 10000 true 3).
  - exact EngineFacts.NoDup_a_b.
  - discriminate.
Defined.

(** Eleven plays and the slap on the Jack: all 52 cards are still there. *)
Lemma cards_kept_without_burn_witness : all_cards jack_slapped ≡ₚ NewDeck.
Proof.
  apply (CardKeepingFacts.cards_kept_without_burn go_growcap NewDeck two true true
           1 200 10000 true 3 dealt jack_slapped (eleven_cards ++ [OpSlap "b" 1000 1000])
           (events_of (run_from (new_game go_growcap two true)
                         (eleven_cards ++ [OpSlap "b" 1000 1000])))).
  - exact EngineFacts.NoDup_a_b.
  - discriminate.
  - exact dealt_new_game.
  - vm_compute. reflexivity.
  - vm_compute. reflexivity.
Defined.

End ScenesFacts.
